(* ===== verification/_CoqProject ===== *)
-Q . S2P
Prelude.v
Rlp.v
RlpRaw.v
Params.v
Uint256.v
VmCommon.v
Analysis.v
Transaction.v
Trie.v
TrieMap.v
TrieRefine.v
TrieHash.v
TrieKeys.v
TrieStore.v
TrieDecode.v
TrieCommit.v
TrieGC.v
TrieFlush.v
TrieSafety.v
StackTrie.v
Block.v
AccessList.v
StateDB.v
Journal.v
StateStore.v
Accounts.v
Metering.v
Receipt.v
DeriveSha.v
Clique.v
CliqueSnapshot.v
CliqueEngine.v
CliqueFacts.v
Evm.v
StateTransition.v
Heap.v
TxList.v
TxLookup.v
Prque.v
TxPool.v
TxSet.v
StateProcessor.v
Chain.v
ChainFacts.v
ChainState.v
Worker.v
Miner.v
PoolFacts.v
Acks.v
Cascade.v
CascadeLive.v
ProcessorFacts.v
WorkerFacts.v
ChainRefine.v
ChainRuns.v
WorkerRuns.v
