(* ===== verification/Prelude.v ===== *)
(** * Cascadeth: a verification development

    Cascadeth is a fork of go-ethereum in which there is no common chain.
    Every validator builds a chain of its own, signed with its key under the
    proof of authority engine Clique.  A transaction in a block is an
    acknowledgement by the author of the block; a node that processes the
    blocks of the others counts, by stake, the acknowledgements of each
    transaction and executes it once they exceed the quorum.  Safety rests on
    validators acknowledging one transaction per sender and nonce.

    ** Conventions

    Definitions are translated from the Go sources and keep their names.
    Addresses and hashes are the integers their bytes stand for, [bytes] is a
    list of integers, machine integers are integers with the wrap-around
    written out ([u64], [u16], [int64]).  A Go panic is [Panic] of the type
    [outcome]; a Go error is a value next to the state the function leaves
    behind.  Methods that mutate a receiver return it.  Recursion that is not
    structural takes fuel, and running out of fuel is a [Panic], so every
    theorem that a function returns shows that the fuel is enough: the length
    of the key in the tries, the number of the block in the search for a
    snapshot, the sizes of the lists in the loops of the pool, the number of
    cached nodes in the garbage collector.  [post P m Q] says that [m] returns
    a value with [Q], or panics with [P].

    The gas of a transaction is bounded by [MaxGas], 2^54: the refund counter
    is a uint64 that a unit of gas raises by at most [RefundRatio], so below
    that bound it never wraps.

    Code outside the repository is a parameter: Keccak-256 and public-key
    recovery (class [Crypto]), the tries and code the state database reads
    (class [Database]), 256-bit words (class [Uint256] with its laws); so is what the model leaves out (the byte code
    interpreter, class [Interpreter] with its laws).  The consensus engine is
    an interface of the source (class [Engine]), and [cliqueEngine] is its
    instance.

    ** Files

    - Prelude.v: notations, tactics, hints, lemmas on lists, maps and integers.
    - Rlp.v, RlpRaw.v (rlp/encode.go, rlp/raw.go): the buffered encoder
      computes the recursive encoding ([encode_refines]); [Split] accepts
      exactly the canonical encodings ([Split_iff]).
    - Params.v, Transaction.v, Block.v, Receipt.v (params, core/types):
      configuration, transactions with their signers and hashes, headers,
      receipts with bloom filters ([CreateBloom_complete]).
    - Trie.v, TrieMap.v, TrieRefine.v, TrieHash.v, TrieKeys.v (trie/trie.go,
      encoding.go, hasher.go): a trie refines a finite map, with nodes resolved
      from a database that may lack some ([trie_refines_map]); its root is a
      function of the map ([root_canonical]); key encodings are invertible.
    - TrieStore.v, TrieDecode.v, TrieCommit.v (trie/node.go, committer.go,
      database.go): a committed trie can be reopened ([commit_reopen]).
    - TrieGC.v, TrieFlush.v, TrieSafety.v (trie/database.go): reference
      counting, garbage collection and flushing keep every trie that is still
      referenced readable ([gc_safe]).
    - StackTrie.v, DeriveSha.v (trie/stacktrie.go, core/types/hashing.go): the
      roots of transaction and receipt lists ([DeriveSha_root]).
    - AccessList.v, StateDB.v, Journal.v, Accounts.v (core/state): the account
      state with its journal; reverting to a snapshot restores it
      ([revert_restores]), and the root can always be computed
      ([IntermediateRoot_total]).
    - StateStore.v (core/state/database.go): Commit, and the account tries a
      chain keeps, by root.
    - Uint256.v, VmCommon.v, Analysis.v (core/vm/stack.go, memory.go,
      memory_table.go, common.go, gas.go, analysis.go): the words, the stack
      and the memory of a frame, and the bit map of the jump destinations,
      which agrees with a scan of the program ([codeBitmap_segments]).
    - Metering.v: the refund counter covers the slots a transaction cleared
      ([metered]), and every operation on the state keeps it so.
    - Clique.v, CliqueSnapshot.v, CliqueEngine.v, CliqueFacts.v
      (consensus/clique): the authorised signers are a replay of the votes
      ([apply_refines], [snapshot_authentic]), they never change
      ([validators_fixed]), and sealed headers verify ([sealed_verifies]).
    - Evm.v, StateTransition.v (core/vm/evm.go, core/state_transition.go):
      calls and creations that fail revert ([Call_reverts],
      [Create_reverts]), gas is bounded ([ApplyMessage_gas]), transfers are
      exact ([transfer_exact]).
    - Heap.v, TxList.v, TxLookup.v, Prque.v (container/heap, core/tx_list.go,
      common/prque): the containers of the pool ([sortedMap_refines],
      [Discard_cheapest]).
    - TxPool.v, PoolFacts.v, Acks.v (core/tx_pool.go): the pool never panics
      ([pool_never_panics]) and counts every validator once per sender and
      nonce ([addAck_counts], [acks_accumulate]).
    - StateProcessor.v, ProcessorFacts.v (core/state_processor.go): only
      transactions with a quorum are executed ([Process_confirmed],
      [ApplyTransaction_confirmed]); processing a block and mining are runs of
      the network of Cascade.v ([Process_refines],
      [ApplyTransaction_refines]).
    - Cascade.v, CascadeLive.v: the network of honest and Byzantine validators.
      Honest nodes never confirm conflicting transactions ([agreement]), an
      honest validator acknowledges once per sender and nonce
      ([honest_acks_once]), and a transaction with honest acknowledgements
      above the quorum is confirmed once they are counted
      ([confirmation_live]).
    - Chain.v, ChainFacts.v, ChainState.v, ChainRefine.v, ChainRuns.v
      (core/blockchain.go, blockchain_insert.go, block_validator.go,
      state_prefetcher.go): the import of blocks is a run of the network
      ([InsertChain_refines]); the head is always a block of the node
      ([head_local]), the state can be opened after every operation
      ([state_available]) and is the one the last import computed
      ([import_adopts]).  ChainRuns.v has the runs outside the hypotheses
      ([mined_collects_state]).
    - TxSet.v, Worker.v, Miner.v, WorkerFacts.v, WorkerRuns.v
      (core/types/transaction.go, miner): the set transactions are taken from
      ([txset_refines]), the worker and its start and stop; a request for work
      is a run of the network that acknowledges what the block holds
      ([work_acknowledged], [commitTransactions_refines]).  WorkerRuns.v has
      the runs that lose acknowledgements ([recommit_loses_ack],
      [confirming_ack_withheld]).

    ** Not modelled

    Network protocols, the downloader, RPC, command line tools, key stores,
    the light client and metrics are input and output around the parts above.
    Disk storage is seen through the interface of the databases.  The
    goroutines of the pool are its handlers in the order they take the lock;
    the consensus contract of the a posteriori agreement is outside the
    repository.  The byte code interpreter with its gas tables and the
    precompiled contracts are behind a class with laws.  The reorganisation of
    the block chain, whose entry points panic, its rewinding and ancient store,
    the clean cache of the trie database, trie proofs and iterators, and the
    proof of work engine are left out. *)

From stdpp Require Export base gmap list sorting.
From Stdlib Require Export ZArith Lia.

#[global] Open Scope Z_scope.

(** ** Record update

    The components are Go structs mutated field by field.  [r <| f := v |>] is
    the record [r] with field [f] replaced; the setter of a field is derived
    from the eta-expansion of its record, registered with an [Eta] instance. *)

Class Eta (R : Type) := eta : R -> R.
Class Setter {R T : Type} (proj : R -> T) := setf : (T -> T) -> R -> R.
Arguments setf {R T} proj {_} _ _.

Ltac derive_setter :=
  lazymatch goal with
  | |- @Setter ?R ?T ?p =>
      let i := constr:(ltac:(typeclasses eauto) : Eta R) in
      let e := eval cbv [eta] in (@eta R i) in
      let e := eval red in e in
      let f := eval pattern p in e in
      lazymatch f with ?g _ => exact (fun h r => g (fun r' => h (p r')) r) end
  end.

#[export] Hint Extern 0 (Setter _) => derive_setter : typeclass_instances.

Notation "r <| p := v |>" := (setf p (fun _ => v) r)
  (at level 1, left associativity, format "r <| p  :=  v |>").

(** ** Machine integers

    A Go [uint64] is a [Z] kept in range; arithmetic that can wrap is written
    with [u64].  A [byte] is a [Z] below 256. *)

Definition two64 : Z := 2 ^ 64.
Definition MaxUint64 : Z := two64 - 1.
Definition u64 (z : Z) : Z := z mod two64.
Definition is_u64 (z : Z) : Prop := 0 <= z < two64.
Definition is_byte (z : Z) : Prop := 0 <= z < 256.
Abbreviation bytes := (list Z).
Definition bytes_ok (b : bytes) : Prop := Forall is_byte b.

#[export] Instance is_u64_dec z : Decision (is_u64 z).
Proof. unfold is_u64. apply _. Defined.
#[export] Instance is_byte_dec z : Decision (is_byte z).
Proof. unfold is_byte. apply _. Defined.
#[export] Instance bytes_ok_dec b : Decision (bytes_ok b).
Proof. unfold bytes_ok. apply _. Defined.

Lemma u64_range z : is_u64 (u64 z).
Proof. unfold is_u64, u64, two64. apply Z.mod_pos_bound. lia. Qed.

Lemma u64_small z : is_u64 z -> u64 z = z.
Proof. unfold is_u64, u64. intros. apply Z.mod_small. lia. Qed.

(** ** Outcomes of Go code

    [Panic] is a run-time panic (nil dereference, write to a nil map, index
    out of range, an explicit [panic] call).  A function that returns a Go
    [error] returns it as an ordinary value, since the receiver it mutated
    keeps its changes on the error path. *)

Inductive outcome (A : Type) : Type :=
| Ret (a : A)
| Panic.
Arguments Ret {A} _.
Arguments Panic {A}.

#[export] Instance outcome_ret : MRet outcome := fun A a => Ret a.
#[export] Instance outcome_bind : MBind outcome := fun A B k m =>
  match m with Ret a => k a | Panic => Panic end.
#[export] Instance outcome_fmap : FMap outcome := fun A B f m =>
  match m with Ret a => Ret (f a) | Panic => Panic end.

Definition from_option' {A} (o : option A) : outcome A :=
  match o with Some a => Ret a | None => Panic end.

(** [post pc m Q]: when [m] returns, the result satisfies [Q]; when it panics,
    [pc] holds.  Partial correctness takes [True] for [pc], total correctness
    [False]. *)
Definition post {A} (pc : Prop) (m : outcome A) (Q : A -> Prop) : Prop :=
  match m with Ret a => Q a | Panic => pc end.

Lemma post_bind {A B} pc (m : outcome A) (k : A -> outcome B) Q :
  post pc m (fun a => post pc (k a) Q) -> post pc (m ≫= k) Q.
Proof. by destruct m. Qed.

Lemma post_mono {A} pc (m : outcome A) (Q Q' : A -> Prop) :
  post pc m Q -> (forall a, m = Ret a -> Q a -> Q' a) -> post pc m Q'.
Proof. destruct m; cbn; auto. Qed.

Lemma post_ret {A} (m : outcome A) Q : post False m Q <-> exists a, m = Ret a /\ Q a.
Proof. destruct m; cbn; naive_solver. Qed.

Lemma post_partial {A} (m : outcome A) (Q : A -> Prop) : (forall a, m = Ret a -> Q a) -> post True m Q.
Proof. destruct m; cbn; auto. Qed.

(** Loops over a slice with early exit by panic. *)
Fixpoint foldM {A S} (f : S -> A -> outcome S) (s : S) (l : list A) : outcome S :=
  match l with
  | [] => Ret s
  | x :: l => match f s x with Ret s' => foldM f s' l | Panic => Panic end
  end.

Lemma foldM_app {A S} (f : S -> A -> outcome S) s l1 l2 :
  foldM f s (l1 ++ l2) = (s' ← foldM f s l1; foldM f s' l2).
Proof.
  revert s. induction l1 as [|x l1 IH]; intros s; simpl; [done|].
  destruct (f s x); simpl; [apply IH | done].
Qed.

Lemma post_foldM {A S} pc (P : S -> Prop) (f : S -> A -> outcome S) l s :
  (forall x s, x ∈ l -> P s -> post pc (f s x) P) -> P s -> post pc (foldM f s l) P.
Proof.
  revert s. induction l as [|x l IH]; intros s Hf Hs; cbn [foldM]; [done|].
  pose proof (Hf x s ltac:(by left) Hs) as Hx. destruct (f s x) as [s1|]; [|done]. apply IH; [|done]. intros y t Hy. apply Hf. by right.
Qed.

(** An invariant kept by every iteration is kept by the loop. *)
Lemma foldM_inv {A S} (P : S -> Prop) (f : S -> A -> outcome S) l s s' :
  (forall x s s', x ∈ l -> P s -> f s x = Ret s' -> P s') ->
  P s -> foldM f s l = Ret s' -> P s'.
Proof.
  revert s. induction l as [|x l IH]; intros s Hf Hs; simpl; [congruence|].
  destruct (f s x) as [s1|] eqn:E; [|done]. intros H.
  apply (IH s1); [|by eapply Hf; eauto; left|done].
  intros y ?? Hy. apply Hf. by right.
Qed.

(** ** Lists *)

Lemma filter_none {A} (P : A -> Prop) `{!forall x, Decision (P x)} l :
  Forall (fun x => ~ P x) l -> filter P l = [].
Proof.
  induction 1 as [|x l Hx _ IH]; [done|]. rewrite filter_cons. by rewrite decide_False.
Qed.

Lemma filter_all {A} (P : A -> Prop) `{!forall x, Decision (P x)} l : Forall P l -> filter P l = l.
Proof.
  induction 1 as [|x l Hx _ IH]; [done|]. rewrite filter_cons, decide_True by done. by f_equal.
Qed.

(** ** Big-endian byte strings *)

(** [be_bytes n z]: the [n] low-order bytes of [z], most significant first. *)
Fixpoint be_bytes (n : nat) (z : Z) : bytes :=
  match n with
  | O => []
  | S n => be_bytes n (z / 256) ++ [z mod 256]
  end.

(** The integer a big-endian byte string stands for ([big.Int.SetBytes]). *)
Definition of_be (b : bytes) : Z := fold_left (fun acc x => acc * 256 + x) b 0.

Lemma length_be_bytes n z : length (be_bytes n z) = n.
Proof.
  revert z. induction n as [|n IH]; intros z; simpl; [done|].
  rewrite length_app, IH. simpl. lia.
Qed.

Lemma be_bytes_ok n z : bytes_ok (be_bytes n z).
Proof.
  revert z. induction n as [|n IH]; intros z; simpl; [constructor|].
  apply Forall_app. split; [apply IH|]. repeat constructor;
  pose proof (Z.mod_pos_bound z 256); lia.
Qed.

Lemma of_be_app a b : of_be (a ++ b) = fold_left (fun acc x => acc * 256 + x) b (of_be a).
Proof. unfold of_be. by rewrite fold_left_app. Qed.

Lemma of_be_snoc a x : of_be (a ++ [x]) = of_be a * 256 + x.
Proof. by rewrite of_be_app. Qed.

Lemma bytes_ok_snoc b x : bytes_ok (b ++ [x]) <-> bytes_ok b /\ is_byte x.
Proof. unfold bytes_ok. rewrite Forall_app, Forall_singleton. done. Qed.

Lemma of_be_nonneg b : bytes_ok b -> 0 <= of_be b.
Proof.
  induction b as [|x b IH] using rev_ind; intros Hb; [done|].
  apply bytes_ok_snoc in Hb as [Hb Hx]. rewrite of_be_snoc.
  unfold is_byte in Hx. specialize (IH Hb). lia.
Qed.

Lemma of_be_be_bytes n z : of_be (be_bytes n z) = z mod 256 ^ Z.of_nat n.
Proof.
  revert z. induction n as [|n IH]; intros z; simpl.
  - cbn. by rewrite Z.mod_1_r.
  - rewrite of_be_snoc, IH, Nat2Z.inj_succ, Z.pow_succ_r by lia.
    rewrite (Z.rem_mul_r z 256) by lia. lia.
Qed.

Lemma be_bytes_of_be b : bytes_ok b -> be_bytes (length b) (of_be b) = b.
Proof.
  induction b as [|x b IH] using rev_ind; intros Hb; [done|].
  apply bytes_ok_snoc in Hb as [Hb Hx]. unfold is_byte in Hx. pose proof (of_be_nonneg _ Hb).
  rewrite length_app, Nat.add_comm, of_be_snoc. simpl.
  rewrite Z.div_add_l, Z.div_small, Z.add_0_r by lia.
  rewrite IH by done. f_equal. f_equal.
  rewrite Z.add_comm, Z.mod_add, Z.mod_small; lia.
Qed.

Lemma of_be_bound b : bytes_ok b -> of_be b < 256 ^ Z.of_nat (length b).
Proof.
  intros Hb. rewrite <- (be_bytes_of_be b) at 1 by done.
  rewrite of_be_be_bytes. apply Z.mod_pos_bound. apply Z.pow_pos_nonneg; lia.
Qed.

Lemma be_bytes_inj n x y :
  0 <= x < 256 ^ Z.of_nat n -> 0 <= y < 256 ^ Z.of_nat n ->
  be_bytes n x = be_bytes n y -> x = y.
Proof.
  intros Hx Hy E. apply (f_equal of_be) in E.
  rewrite !of_be_be_bytes, !Z.mod_small in E by lia. done.
Qed.

(** ** sort.Search

    The binary search of the Go standard library: the loop keeps
    [f (i-1) = false] and [f j = true].  [n] rounds are enough, since each
    round shrinks the interval. *)
Fixpoint search_loop (fuel i j : nat) (f : nat -> bool) : nat :=
  match fuel with
  | O => i
  | S fuel =>
      if (i <? j)%nat then
        let h := ((i + j) / 2)%nat in
        if f h then search_loop fuel i h f else search_loop fuel (S h) j f
      else i
  end.

Definition Search (n : nat) (f : nat -> bool) : nat := search_loop n 0 n f.

(** On a monotone predicate the search returns the first index that satisfies
    it, or [n]. *)
Lemma search_loop_spec f k fuel i j :
  (j - i <= fuel)%nat -> (i <= k <= j)%nat ->
  (forall x, (x < k)%nat -> f x = false) -> (forall x, (k <= x < j)%nat -> f x = true) ->
  search_loop fuel i j f = k.
Proof.
  revert i j. induction fuel as [|fuel IH]; intros i j Hf Hk Hlo Hhi;
    cbn [search_loop]; [lia|].
  destruct (Nat.ltb_spec i j) as [Hij|Hij]; [|lia].
  assert (i <= (i + j) / 2 < j)%nat as Hh.
  { split; [apply Nat.div_le_lower_bound; lia|apply Nat.Div0.div_lt_upper_bound; lia]. }
  set (h := ((i + j) / 2)%nat) in *.
  destruct (f h) eqn:E.
  - assert (k <= h)%nat by (destruct (decide (h < k)%nat) as [Hlt|]; [rewrite Hlo in E by done; done|lia]).
    apply IH; [lia|lia|done|]. intros x Hx. apply Hhi. lia.
  - assert (h < k)%nat by (destruct (decide (h < k)%nat) as [|Hge]; [done|rewrite Hhi in E by lia; done]).
    apply IH; [lia|lia|done|done].
Qed.

Lemma Search_spec f n k :
  (k <= n)%nat -> (forall x, (x < k)%nat -> f x = false) ->
  (forall x, (k <= x < n)%nat -> f x = true) -> Search n f = k.
Proof. intros. apply search_loop_spec; auto with lia. Qed.

(** ** Sums over lists and finite sets *)

Definition sumList {A} (f : A -> Z) (l : list A) : Z := foldr (fun a n => f a + n) 0 l.
Definition sumSet {A} `{Countable A} (f : A -> Z) (X : gset A) : Z := sumList f (elements X).

Lemma sumList_app {A} (f : A -> Z) l k : sumList f (l ++ k) = sumList f l + sumList f k.
Proof. induction l as [|x l IH]; simpl; [done|]. rewrite IH. lia. Qed.

#[export] Instance sumList_perm {A} (f : A -> Z) : Proper ((≡ₚ) ==> (=)) (sumList f).
Proof. induction 1; simpl; lia. Qed.

Lemma sumList_ext {A} (f g : A -> Z) l : (forall x, x ∈ l -> f x = g x) -> sumList f l = sumList g l.
Proof.
  induction l as [|x l IH]; intros E; simpl; [done|].
  rewrite (E x), IH; [done| |by left]. intros y Hy. apply E. by right.
Qed.

Lemma sumList_add {A} (f g : A -> Z) l : sumList (fun x => f x + g x) l = sumList f l + sumList g l.
Proof. induction l as [|x l IH]; simpl; [done|]. rewrite IH. lia. Qed.

(** A sum of one term. *)
Lemma sumList_single {A} `{EqDecision A} (l : list A) x v : NoDup l -> x ∈ l ->
  sumList (fun a => if decide (a = x) then v else 0) l = v.
Proof.
  induction 1 as [|y l Hy Hl IH]; intros Hx; [by apply elem_of_nil in Hx|]. simpl.
  apply elem_of_cons in Hx as [<-|Hx].
  - rewrite decide_True by done. rewrite (sumList_ext _ (fun _ => 0)).
    + clear. induction l; simpl; lia.
    + intros z Hz. rewrite decide_False; [done|]. by intros ->.
  - rewrite decide_False, IH by (done || by intros ->). lia.
Qed.

Section SumSet.
Context {A} `{Countable A} (f : A -> Z).

Lemma sumSet_empty : sumSet f ∅ = 0.
Proof. unfold sumSet. by rewrite elements_empty. Qed.

Lemma sumSet_disj_union X Y : X ## Y -> sumSet f (X ∪ Y) = sumSet f X + sumSet f Y.
Proof. intros D. unfold sumSet. by rewrite (elements_disj_union _ _ D), sumList_app. Qed.

Lemma sumSet_insert a X : a ∉ X -> sumSet f ({[a]} ∪ X) = f a + sumSet f X.
Proof.
  intros Ha. rewrite sumSet_disj_union by set_solver. unfold sumSet at 1.
  rewrite elements_singleton. simpl. lia.
Qed.

Lemma sumSet_nonneg X : (forall a, 0 <= f a) -> 0 <= sumSet f X.
Proof. intros Hf. unfold sumSet. induction (elements X) as [|x l IH]; simpl; [lia|]. specialize (Hf x). lia. Qed.

Lemma sumSet_mono X Y : (forall a, 0 <= f a) -> X ⊆ Y -> sumSet f X <= sumSet f Y.
Proof.
  intros Hf Hs. rewrite (union_difference_L X Y Hs), sumSet_disj_union by set_solver.
  pose proof (sumSet_nonneg (Y ∖ X) Hf). lia.
Qed.

Lemma sumSet_union_inter X Y : sumSet f X + sumSet f Y = sumSet f (X ∪ Y) + sumSet f (X ∩ Y).
Proof.
  replace (X ∪ Y) with (X ∪ (Y ∖ X)) by (apply set_eq; set_solver || (intros a; destruct (decide (a ∈ X)); set_solver)).
  rewrite sumSet_disj_union by set_solver.
  assert (sumSet f Y = sumSet f (Y ∖ X) + sumSet f (X ∩ Y)) as ->; [|lia].
  rewrite <- sumSet_disj_union by set_solver. f_equal. apply set_eq. intros a.
  destruct (decide (a ∈ X)); set_solver.
Qed.

(** A sum over more than the support. *)
Lemma sumSet_support X S : (forall a, 0 <= f a) -> (forall a, a ∉ S -> f a = 0) -> sumSet f X <= sumSet f S.
Proof.
  intros Hf HS. assert (sumSet f X = sumSet f (X ∖ S) + sumSet f (X ∩ S)) as ->.
  { rewrite <- sumSet_disj_union by set_solver. f_equal. apply set_eq. intros a.
    destruct (decide (a ∈ S)); set_solver. }
  assert (sumSet f (X ∖ S) = 0) as ->.
  { unfold sumSet. rewrite (sumList_ext _ (fun _ => 0)); [by induction (elements (X ∖ S))|].
    intros a Ha%elem_of_elements. apply HS. set_solver. }
  apply (sumSet_mono (X ∩ S) S Hf). set_solver.
Qed.

End SumSet.
