(* ===== verification/Rlp.v ===== *)
(** * RLP: the recursive length prefix encoding (rlp/encode.go)

    The encoder writes string data into one buffer and keeps the list headers
    aside, to be interleaved when the output is produced.  [enc] is the
    reference encoding; [encode_refines] shows that the buffered encoder
    computes it. *)

From S2P Require Import Prelude.

(** The kinds of value on the wire (rlp/decode.go). *)
Inductive Kind := Byte | String | List.

#[export] Instance Kind_eq_dec : EqDecision Kind.
Proof. solve_decision. Defined.

Inductive rlp_error :=
| ErrExpectedString | ErrExpectedList | ErrCanonInt | ErrCanonSize
| ErrElemTooLarge | ErrValueTooLarge | ErrMoreThanOneValue
| EOL | errNotInList | errNotAtEOL | errUintOverflow
| ErrUnexpectedEOF | EOF | errTooFewElements.

#[export] Instance rlp_error_eq_dec : EqDecision rlp_error.
Proof. solve_decision. Defined.

(** ** Integers and headers *)

(** [intsize]: the loop shifts the integer right by a byte until it is zero;
    a [uint64] takes at most eight rounds. *)
Fixpoint intsize_loop (fuel : nat) (i size : Z) : Z :=
  let i := Z.shiftr i 8 in
  if i =? 0 then size else
  match fuel with O => size | S fuel => intsize_loop fuel i (size + 1) end.

Definition intsize (i : Z) : Z := intsize_loop 7 i 1.

(** [putint]: the bytes written at the start of the buffer. *)
Definition putint (i : Z) : bytes :=
  if i <? Z.shiftl 1 8 then be_bytes 1 i
  else if i <? Z.shiftl 1 16 then be_bytes 2 i
  else if i <? Z.shiftl 1 24 then be_bytes 3 i
  else if i <? Z.shiftl 1 32 then be_bytes 4 i
  else if i <? Z.shiftl 1 40 then be_bytes 5 i
  else if i <? Z.shiftl 1 48 then be_bytes 6 i
  else if i <? Z.shiftl 1 56 then be_bytes 7 i
  else be_bytes 8 i.

Definition headsize (size : Z) : Z :=
  if size <? 56 then 1 else 1 + intsize size.

Definition puthead (smalltag largetag size : Z) : bytes :=
  if size <? 56 then [(smalltag + size) mod 256]
  else let szb := putint size in
       (largetag + Z.of_nat (length szb)) mod 256 :: szb.

(** ** The encoder buffer *)

Record listhead := mkListhead { offset : nat; size : Z }.
Record encbuf := mkEncbuf { str : bytes; lheads : list listhead; lhsize : Z }.
#[export] Instance eta_encbuf : Eta encbuf := fun r => mkEncbuf (str r) (lheads r) (lhsize r).
#[export] Instance eta_listhead : Eta listhead := fun r => mkListhead (offset r) (size r).

Definition emptyEncbuf : encbuf := mkEncbuf [] [] 0.

Definition listhead_encode (h : listhead) : bytes := puthead 0xC0 0xF7 (size h).

Definition encbuf_size (w : encbuf) : Z := Z.of_nat (length (str w)) + lhsize w.

Definition appendStr (w : encbuf) (b : bytes) : encbuf := w <| str := str w ++ b |>.

Definition encodeStringHeader (w : encbuf) (sz : Z) : encbuf :=
  if sz <? 56 then appendStr w [(0x80 + sz) mod 256]
  else let szb := putint sz in
       appendStr w ((0xB7 + Z.of_nat (length szb)) mod 256 :: szb).

Definition encodeString (w : encbuf) (b : bytes) : encbuf :=
  match b with
  | [x] => if x <=? 0x7F then appendStr w [x]
           else appendStr (encodeStringHeader w 1) b
  | _ => appendStr (encodeStringHeader w (Z.of_nat (length b))) b
  end.

Definition encodeUint (w : encbuf) (i : Z) : encbuf :=
  if i =? 0 then appendStr w [0x80]
  else if i <? 128 then appendStr w [i mod 256]
  else let s := putint i in
       appendStr w ((0x80 + Z.of_nat (length s)) mod 256 :: s).

(** [list] opens a list header and returns its index, [listEnd] closes it. *)
Definition list_ (w : encbuf) : encbuf * nat :=
  (w <| lheads := lheads w ++ [mkListhead (length (str w)) (lhsize w)] |>,
   length (lheads w)).

Definition listEnd (w : encbuf) (index : nat) : encbuf :=
  match lheads w !! index with
  | None => w
  | Some lh =>
      let sz := encbuf_size w - Z.of_nat (offset lh) - size lh in
      let w := w <| lheads := <[index := lh <| size := sz |>]> (lheads w) |> in
      if sz <? 56 then w <| lhsize := lhsize w + 1 |>
      else w <| lhsize := lhsize w + (1 + intsize sz) |>
  end.

(** [toBytes] interleaves the string data with the list headers. *)
Fixpoint toBytes_loop (s : bytes) (strpos : nat) (hs : list listhead) : bytes :=
  match hs with
  | [] => drop strpos s
  | h :: hs => take (offset h - strpos) (drop strpos s)
               ++ listhead_encode h ++ toBytes_loop s (offset h) hs
  end.

Definition toBytes (w : encbuf) : bytes := toBytes_loop (str w) 0 (lheads w).

(** ** The writers, one per kind of Go value *)

Definition bitLen (i : Z) : Z := if i =? 0 then 0 else Z.log2 (Z.abs i) + 1.

(** The bytes of an integer of more than 64 bits are written from the least
    significant word up, which fills the buffer in big-endian order. *)
Definition writeBigInt (i : Z) (w : encbuf) : option encbuf :=
  if Z.sgn i =? -1 then None
  else if bitLen i <=? 64 then Some (encodeUint w i)
  else let length := Z.shiftr (Z.land (bitLen i + 7) (-8)) 3 in
       Some (appendStr (encodeStringHeader w length) (be_bytes (Z.to_nat length) i)).

(** The values the encoder is called with: the reflected kinds of encode.go.
    [VNil k] is a nil pointer whose element type has the empty value of kind
    [k]; [VList] is a slice, an array of non-bytes or a struct. *)
Inductive value :=
| VUint (i : Z)
| VBool (b : bool)
| VBig (i : option Z)
| VBytes (b : bytes)
| VByteArray (b : bytes)
| VNil (k : Kind)
| VRaw (b : bytes)
| VList (l : list value).

Definition writeByteArray (b : bytes) (w : encbuf) : encbuf :=
  match b with
  | [] => appendStr w [0x80]
  | [x] => if x <=? 0x7f then appendStr w [x] else appendStr w [0x81; x]
  | _ => appendStr (encodeStringHeader w (Z.of_nat (length b))) b
  end.

Fixpoint writeValue (v : value) (w : encbuf) {struct v} : option encbuf :=
  match v with
  | VUint i => Some (encodeUint w i)
  | VBool b => Some (appendStr w [if b then 0x01 else 0x80])
  | VBig None => Some (appendStr w [0x80])
  | VBig (Some i) => writeBigInt i w
  | VBytes b => Some (encodeString w b)
  | VByteArray b => Some (writeByteArray b w)
  | VNil k => Some (if decide (k = String) then appendStr w [0x80]
                    else let '(w, i) := list_ w in listEnd w i)
  | VRaw b => Some (appendStr w b)
  | VList l =>
      let '(w, i) := list_ w in
      w ← (fix go (l : list value) (w : encbuf) : option encbuf :=
             match l with
             | [] => Some w
             | v :: l => w ← writeValue v w; go l w
             end) l w;
      Some (listEnd w i)
  end.

Fixpoint writeValues (l : list value) (w : encbuf) : option encbuf :=
  match l with
  | [] => Some w
  | v :: l => w ← writeValue v w; writeValues l w
  end.

Definition EncodeToBytes (v : value) : option bytes := toBytes <$> writeValue v emptyEncbuf.

(** ** The reference encoding *)

Definition enc_bytes (b : bytes) : bytes :=
  match b with
  | [x] => if x <=? 0x7F then [x] else [0x81; x]
  | _ => puthead 0x80 0xB7 (Z.of_nat (length b)) ++ b
  end.

(** The shortest big-endian representation of a non-negative integer. *)
Definition minimal_be (i : Z) : bytes := be_bytes (Z.to_nat ((bitLen i + 7) / 8)) i.

Fixpoint enc (v : value) : option bytes :=
  match v with
  | VUint i => Some (enc_bytes (minimal_be i))
  | VBool b => Some (enc_bytes (if b then [1] else []))
  | VBig None => Some (enc_bytes [])
  | VBig (Some i) => if i <? 0 then None else Some (enc_bytes (minimal_be i))
  | VBytes b => Some (enc_bytes b)
  | VByteArray b => Some (enc_bytes b)
  | VNil k => Some (if decide (k = String) then [0x80] else [0xC0])
  | VRaw b => Some b
  | VList l =>
      c ← (fix go (l : list value) : option bytes :=
             match l with
             | [] => Some []
             | v :: l => e ← enc v; c ← go l; Some (e ++ c)
             end) l;
      Some (puthead 0xC0 0xF7 (Z.of_nat (length c)) ++ c)
  end.

Fixpoint enc_list (l : list value) : option bytes :=
  match l with
  | [] => Some []
  | v :: l => e ← enc v; c ← enc_list l; Some (e ++ c)
  end.

(** ** Lemmas *)

(** Structural induction with the hypothesis for every element of a list. *)
Lemma value_rect' (P : value -> Prop) :
  (forall i, P (VUint i)) -> (forall b, P (VBool b)) -> (forall i, P (VBig i)) ->
  (forall b, P (VBytes b)) -> (forall b, P (VByteArray b)) -> (forall k, P (VNil k)) ->
  (forall b, P (VRaw b)) -> (forall l, Forall P l -> P (VList l)) -> forall v, P v.
Proof.
  intros H1 H2 H3 H4 H5 H6 H7 H8. fix IH 1. intros [i|b|i|b|b|k|b|l].
  1: apply H1. 1: apply H2. 1: apply H3. 1: apply H4. 1: apply H5. 1: apply H6. 1: apply H7.
  apply H8. induction l as [|v l IHl]; constructor; [apply IH|apply IHl].
Qed.

Lemma writeValue_VList l w :
  writeValue (VList l) w =
  (let '(w, i) := list_ w in w ← writeValues l w; Some (listEnd w i)).
Proof.
  reflexivity.
Qed.

Lemma enc_VList l :
  enc (VList l) = (c ← enc_list l; Some (puthead 0xC0 0xF7 (Z.of_nat (length c)) ++ c)).
Proof.
  reflexivity.
Qed.

Lemma bitLen_bytes k i :
  0 < k -> 256 ^ (k - 1) <= i < 256 ^ k -> (bitLen i + 7) / 8 = k.
Proof.
  intros Hk [Hl Hu]. assert (0 < 256 ^ (k - 1)) by (apply Z.pow_pos_nonneg; lia).
  assert (0 < i) by (eapply Z.lt_le_trans; eauto).
  unfold bitLen. destruct (Z.eqb_spec i 0); [lia|]. rewrite Z.abs_eq by lia.
  change 256 with (2 ^ 8) in Hl, Hu. rewrite <- Z.pow_mul_r in Hl, Hu by lia.
  apply Z.log2_le_pow2 in Hl; [|lia]. apply Z.log2_lt_pow2 in Hu; [|lia].
  symmetry. apply Z.div_unique with (Z.log2 i + 1 + 7 - 8 * k); lia.
Qed.

Ltac shift_consts :=
  change (Z.shiftl 1 8) with (256 ^ 1) in *; change (Z.shiftl 1 16) with (256 ^ 2) in *;
  change (Z.shiftl 1 24) with (256 ^ 3) in *; change (Z.shiftl 1 32) with (256 ^ 4) in *;
  change (Z.shiftl 1 40) with (256 ^ 5) in *; change (Z.shiftl 1 48) with (256 ^ 6) in *;
  change (Z.shiftl 1 56) with (256 ^ 7) in *.

(** [putint] writes the minimal big-endian form of a positive [uint64]. *)
Lemma putint_minimal i : 0 < i < two64 -> putint i = minimal_be i.
Proof.
  unfold putint, minimal_be, two64. intros [Hl Hu]. shift_consts.
  change (2 ^ 64) with (256 ^ 8) in Hu.
  repeat match goal with |- context [?a <? ?b] => destruct (Z.ltb_spec a b) end;
  match goal with |- be_bytes ?k i = _ =>
    rewrite (bitLen_bytes (Z.of_nat k)); [by rewrite Nat2Z.id|lia|simpl Z.of_nat; lia] end.
Qed.

Lemma intsize_loop_spec fuel i sz :
  0 <= i -> exists n, (n <= fuel)%nat /\ intsize_loop fuel i sz = sz + Z.of_nat n /\
    (256 ^ Z.of_nat n <= i \/ n = 0%nat) /\ (i < 256 ^ (Z.of_nat n + 1) \/ n = fuel).
Proof.
  revert i sz. induction fuel as [|fuel IH]; intros i sz Hi; simpl;
  rewrite Z.shiftr_div_pow2 by lia; change (2 ^ 8) with 256;
  destruct (Z.eqb_spec (i / 256) 0) as [E|E].
  1,3: exists 0%nat; split_and!; [lia|lia|by right|left; simpl];
       change (256 ^ (0 + 1)) with 256; apply Z.div_small_iff in E; lia.
  - exists 0%nat. split_and!; [lia|lia|by right|by right].
  - destruct (IH (i / 256) (sz + 1)) as (n & Hn & -> & Hlo & Hhi); [apply Z.div_pos; lia|].
    exists (S n). split_and!; [lia|lia| |].
    + left. rewrite Nat2Z.inj_succ, Z.pow_succ_r by lia.
      destruct Hlo as [Hlo| ->]; [|change (256 ^ Z.of_nat 0) with 1];
      pose proof (Z.mul_div_le i 256); pose proof (Z.div_pos i 256); lia.
    + destruct Hhi as [Hhi| ->]; [left|by right].
      rewrite Nat2Z.inj_succ. replace (Z.succ (Z.of_nat n) + 1) with (Z.succ (Z.of_nat n + 1)) by lia.
      rewrite Z.pow_succ_r by lia.
      apply Z.div_lt_upper_bound in Hhi || (pose proof (Z.mod_pos_bound i 256); pose proof (Z.div_mod i 256); nia).
Qed.

Lemma intsize_putint i : 0 <= i -> intsize i = Z.of_nat (length (putint i)).
Proof.
  intros Hi. unfold intsize.
  destruct (intsize_loop_spec 7 i 1 Hi) as (n & Hn & -> & Hlo & Hhi).
  unfold putint. shift_consts.
  repeat match goal with |- context [?a <? ?b] => destruct (Z.ltb_spec a b) end;
  rewrite length_be_bytes;
  do 8 (destruct n as [|n]; [simpl Z.of_nat in *; simpl Z.add in *;
    repeat match goal with H : context [256 ^ ?k] |- _ =>
      let v := eval vm_compute in (256 ^ k) in progress change (256 ^ k) with v in H end; lia|]); lia.
Qed.

Lemma length_puthead st lt sz : 0 <= sz -> Z.of_nat (length (puthead st lt sz)) = headsize sz.
Proof.
  intros. unfold puthead, headsize. destruct (_ <? _); simpl; [done|].
  rewrite intsize_putint by done. lia.
Qed.

(** *** The basic writers append the reference encoding *)

Lemma encodeStringHeader_spec w sz :
  encodeStringHeader w sz = appendStr w (puthead 0x80 0xB7 sz).
Proof. unfold encodeStringHeader, puthead. by destruct (_ <? _). Qed.

Lemma appendStr_app w a b : appendStr (appendStr w a) b = appendStr w (a ++ b).
Proof. unfold appendStr. simpl. by rewrite app_assoc. Qed.

Lemma encodeString_spec w b : encodeString w b = appendStr w (enc_bytes b).
Proof.
  unfold encodeString, enc_bytes.
  destruct b as [|x [|y b]]; rewrite ?encodeStringHeader_spec, ?appendStr_app; try done.
  by destruct (_ <=? _).
Qed.

Lemma writeByteArray_spec w b : writeByteArray b w = appendStr w (enc_bytes b).
Proof.
  unfold writeByteArray, enc_bytes.
  destruct b as [|x [|y b]]; rewrite ?encodeStringHeader_spec, ?appendStr_app; try done.
  by destruct (_ <=? _).
Qed.

Lemma enc_bytes_long b : length b <> 1%nat -> enc_bytes b = puthead 0x80 0xB7 (Z.of_nat (length b)) ++ b.
Proof. by destruct b as [|x [|y b]]. Qed.

Lemma length_putint i : (1 <= length (putint i) <= 8)%nat.
Proof. unfold putint. repeat case_match; rewrite length_be_bytes; lia. Qed.

Lemma putint_byte i : 0 <= i < 256 -> putint i = [i].
Proof.
  intros. unfold putint. change (Z.shiftl 1 8) with 256.
  destruct (Z.ltb_spec i 256); [|lia]. simpl. by rewrite Z.mod_small.
Qed.

Lemma encodeUint_spec w i : is_u64 i -> encodeUint w i = appendStr w (enc_bytes (minimal_be i)).
Proof.
  intros [Hi Hu]. unfold encodeUint.
  destruct (Z.eqb_spec i 0) as [->|Hnz]; [done|].
  rewrite <- (putint_minimal i) by lia. pose proof (length_putint i).
  destruct (Z.ltb_spec i 128).
  - rewrite putint_byte by lia. simpl. rewrite Z.mod_small by lia.
    destruct (Z.leb_spec i 127); [done|lia].
  - destruct (decide (i < 256)).
    + rewrite putint_byte by lia. simpl. by destruct (Z.leb_spec i 127); [lia|].
    + rewrite enc_bytes_long.
      * f_equal. unfold puthead. by destruct (Z.ltb_spec (Z.of_nat (length (putint i))) 56); [|lia].
      * unfold putint. change (Z.shiftl 1 8) with 256.
        destruct (Z.ltb_spec i 256); [lia|]. repeat case_match; by rewrite length_be_bytes.
Qed.

Lemma bitLen_length i : Z.shiftr (Z.land (bitLen i + 7) (-8)) 3 = (bitLen i + 7) / 8.
Proof.
  rewrite Z.shiftr_land. change (Z.shiftr (-8) 3) with (-1). rewrite Z.land_m1_r.
  by rewrite Z.shiftr_div_pow2.
Qed.

Lemma writeBigInt_spec w i :
  writeBigInt i w = if i <? 0 then None else Some (appendStr w (enc_bytes (minimal_be i))).
Proof.
  unfold writeBigInt. destruct (Z.ltb_spec i 0).
  - by rewrite Z.sgn_neg by done.
  - destruct (Z.eqb_spec (Z.sgn i) (-1)); [lia|].
    destruct (Z.leb_spec (bitLen i) 64) as [Hb|Hb].
    + rewrite encodeUint_spec; [done|]. unfold is_u64, two64. unfold bitLen in Hb.
      destruct (Z.eqb_spec i 0); [lia|]. rewrite Z.abs_eq in Hb by lia.
      split; [lia|]. apply Z.log2_lt_pow2; lia.
    + rewrite bitLen_length, encodeStringHeader_spec, appendStr_app.
      assert (9 <= (bitLen i + 7) / 8) by (apply Z.div_le_lower_bound; lia).
      rewrite enc_bytes_long; unfold minimal_be; rewrite length_be_bytes; [|lia].
      by rewrite Z2Nat.id by lia.
Qed.

(** *** The buffered encoder computes the reference encoding *)

(** [writes w w' e]: from buffer [w] to [w'] the encoder produced [e], part of
    it as string data and part as list headers, wherever the rest goes. *)
Definition writes (w w' : encbuf) (e : bytes) : Prop :=
  exists s hs,
    str w' = str w ++ s /\ lheads w' = lheads w ++ hs /\
    lhsize w' = lhsize w + Z.of_nat (length e) - Z.of_nat (length s) /\
    Forall (fun h => (length (str w) <= offset h)%nat) hs /\
    forall rest hs', Forall (fun h => (length (str w') <= offset h)%nat) hs' ->
      toBytes_loop (str w' ++ rest) (length (str w)) (hs ++ hs') =
      e ++ toBytes_loop (str w' ++ rest) (length (str w')) hs'.

Lemma writes_append w e : writes w (appendStr w e) e.
Proof.
  exists e, []. unfold appendStr. simpl. rewrite app_nil_r.
  split_and!; [done|done|lia|constructor|].
  intros rest hs' Hhs. rewrite <- app_assoc, length_app in *.
  destruct hs' as [|h hs']; simpl.
  - rewrite drop_app_length, app_assoc, <- length_app, drop_app_length. done.
  - apply Forall_cons_1 in Hhs as [Hh _].
    rewrite drop_app_length.
    replace (drop (length (str w) + length e) (str w ++ e ++ rest)) with rest
      by (by rewrite app_assoc, <- length_app, drop_app_length).
    replace (offset h - length (str w))%nat
      with (length e + (offset h - (length (str w) + length e)))%nat by lia.
    by rewrite take_app_add, <- app_assoc.
Qed.

Lemma writes_nil w : writes w w [].
Proof.
  exists [], []. rewrite !app_nil_r. split_and!; [done|done|simpl; lia|constructor|done].
Qed.

Lemma writes_trans w w1 w2 e1 e2 :
  writes w w1 e1 -> writes w1 w2 e2 -> writes w w2 (e1 ++ e2).
Proof.
  intros (s1 & hs1 & S1 & L1 & Z1 & O1 & T1) (s2 & hs2 & S2 & L2 & Z2 & O2 & T2).
  exists (s1 ++ s2), (hs1 ++ hs2). rewrite !length_app. split_and!.
  - by rewrite S2, S1, app_assoc.
  - by rewrite L2, L1, app_assoc.
  - lia.
  - apply Forall_app. split; [done|]. eapply Forall_impl; [exact O2|].
    intros h. rewrite S1, length_app. simpl. lia.
  - intros rest hs' Hhs. rewrite <- !app_assoc, <- (T2 rest hs' Hhs), S2, <- app_assoc.
    apply T1. apply Forall_app. split; [done|]. eapply Forall_impl; [exact Hhs|].
    intros h. rewrite S2, length_app. simpl. lia.
Qed.

(** Opening a list, writing its contents and closing it prefixes the contents
    with the list header. *)
Lemma writes_list w w1 c :
  writes (fst (list_ w)) w1 c ->
  writes w (listEnd w1 (snd (list_ w))) (puthead 0xC0 0xF7 (Z.of_nat (length c)) ++ c).
Proof.
  intros (s & hs & S & L & Z & O & T). unfold list_, listEnd in *. simpl in *.
  rewrite <- app_assoc in L. simpl in L. rewrite L, list_lookup_middle by done.
  set (sz := encbuf_size w1 - _ - _).
  assert (sz = Z.of_nat (length c)) as -> by
    (subst sz; unfold encbuf_size; simpl; rewrite S, length_app; lia).
  set (h0 := mkListhead (length (str w)) (Z.of_nat (length c))).
  exists s, (h0 :: hs).
  pose proof (length_puthead 0xC0 0xF7 (Z.of_nat (length c))) as Hl.
  assert (<[length (lheads w):=h0]> (lheads w ++ mkListhead (length (str w)) (lhsize w) :: hs)
    = lheads w ++ h0 :: hs) as Hins by
    (replace (length (lheads w)) with (length (lheads w) + 0)%nat by lia; by rewrite insert_app_r).
  unfold headsize in Hl. rewrite length_app.
  destruct (Z.ltb_spec (Z.of_nat (length c)) 56); simpl; (split_and!;
    [done | exact Hins | lia | by constructor; [simpl; lia|] | ]).
  all: intros rest hs' Hhs; rewrite Nat.sub_diag; simpl; rewrite T by done;
    by rewrite <- app_assoc.
Qed.

(** The integers of a value are in the range of their Go type. *)
Fixpoint value_ok (v : value) : Prop :=
  match v with
  | VUint i => is_u64 i
  | VBytes b | VByteArray b => bytes_ok b
  | VList l => (fix go (l : list value) : Prop :=
                  match l with [] => True | v :: l => value_ok v /\ go l end) l
  | _ => True
  end.

Lemma value_ok_list l : value_ok (VList l) <-> Forall value_ok l.
Proof.
  induction l as [|v l IH]; simpl; [by split|]. rewrite Forall_cons, <- IH. done.
Qed.

Lemma writeValue_spec v w : value_ok v ->
  match enc v with
  | Some e => exists w', writeValue v w = Some w' /\ writes w w' e
  | None => writeValue v w = None
  end.
Proof.
  revert w. induction v as [i|b|[i|]|b|b|k|b|l IH] using value_rect'; intros w Hok.
  all: try (simpl; eexists; split; [reflexivity|];
    rewrite ?encodeString_spec, ?writeByteArray_spec, ?encodeUint_spec by done;
    apply writes_append).
  - simpl. eexists. split; [done|]. by destruct b; apply writes_append.
  - simpl. rewrite writeBigInt_spec. destruct (i <? 0); [done|].
    eexists. split; [done|]. apply writes_append.
  - cbn [writeValue enc]. eexists. split; [done|]. case_decide; [apply writes_append|].
    apply (writes_list w (fst (list_ w)) []), writes_nil.
  - rewrite enc_VList, writeValue_VList. apply value_ok_list in Hok.
    assert (forall w, match enc_list l with
      | Some c => exists w', writeValues l w = Some w' /\ writes w w' c
      | None => writeValues l w = None end) as Hl.
    { clear w. induction l as [|v l IHl]; intros w; [exists w; split; [done|apply writes_nil]|].
      apply Forall_cons_1 in IH as [IHv IH], Hok as [Hv Hok].
      simpl. specialize (IHv w Hv). destruct (enc v) as [e|]; simpl; [|by rewrite IHv].
      destruct IHv as (w1 & -> & W1). simpl. specialize (IHl IH Hok w1).
      destruct (enc_list l) as [c|]; simpl; [|done].
      destruct IHl as (w2 & -> & W2). exists w2. split; [done|]. by eapply writes_trans. }
    specialize (Hl (fst (list_ w))). destruct (enc_list l) as [c|]; simpl in *; [|by rewrite Hl].
    destruct Hl as (w' & -> & W). simpl. eexists. split; [done|]. by apply writes_list.
Qed.

(** What the buffer holds after a value was written: the reference encoding,
    in exactly the number of bytes toBytes allocates. *)
Lemma written v : value_ok v ->
  match enc v with
  | Some e => exists w, writeValue v emptyEncbuf = Some w /\ toBytes w = e /\ encbuf_size w = Z.of_nat (length e)
  | None => writeValue v emptyEncbuf = None
  end.
Proof.
  intros Hok. pose proof (writeValue_spec v emptyEncbuf Hok) as H.
  destruct (enc v) as [e|]; [|done].
  destruct H as (w' & E & s & hs & S & L & Z & _ & T). exists w'. split; [done|]. simpl in *. unfold toBytes.
  specialize (T [] [] ltac:(constructor)). rewrite !app_nil_r in T. split; [|].
  - rewrite L, T. simpl. by rewrite drop_all, app_nil_r.
  - unfold encbuf_size. rewrite S. lia.
Qed.

Lemma EncodeToBytes_enc v : value_ok v -> EncodeToBytes v = enc v.
Proof.
  intros Hok. unfold EncodeToBytes. pose proof (written v Hok) as H. destruct (enc v); [|by rewrite H].
  destruct H as (w & -> & <- & _). done.
Qed.

(** Encoding fails only on negative integers. *)
Fixpoint nonneg (v : value) : Prop :=
  match v with
  | VBig (Some i) => 0 <= i
  | VList l => (fix go (l : list value) : Prop := match l with [] => True | v :: l => nonneg v /\ go l end) l
  | _ => True
  end.

Lemma writeValue_some v w : nonneg v -> is_Some (writeValue v w).
Proof.
  revert w. induction v as [i|b|[i|]|b|b|k|b|l IH] using value_rect'; intros w Hn; try by eexists.
  - cbn in *. unfold writeBigInt. destruct (Z.eqb_spec (Z.sgn i) (-1)); [lia|]. case_match; by eexists.
  - rewrite writeValue_VList. destruct (list_ w) as [w1 k]. enough (is_Some (writeValues l w1)) as [w2 ->] by by eexists.
    revert w1 Hn. induction l as [|v l IHl]; intros w1 Hn; [by eexists|]. apply Forall_cons in IH as [Hv Hl].
    destruct Hn as [Hv' Hl']. cbn [writeValues]. destruct (Hv w1 Hv') as [w2 ->]. cbn. by apply IHl.
Qed.

(** C32: the encoder with its deferred list headers computes the reference
    encoding of every value, fails exactly on negative integers, and fills the
    buffer it allocates exactly. *)
Theorem encode_refines v : value_ok v -> EncodeToBytes v = enc v /\
  forall w, writeValue v emptyEncbuf = Some w -> encbuf_size w = Z.of_nat (length (toBytes w)).
Proof.
  intros Hok. split; [by apply EncodeToBytes_enc|]. intros w E. pose proof (written v Hok) as H.
  destruct (enc v); [|congruence]. destruct H as (w' & E' & <- & Hs). congruence.
Qed.

Lemma encode_refines_witness :
  EncodeToBytes (VList [VUint 1024; VBytes [99; 97; 116]; VList []]) =
  Some [0xC8; 0x82; 4; 0; 0x83; 99; 97; 116; 0xC0].
Proof.
  rewrite (proj1 (encode_refines (VList [VUint 1024; VBytes [99; 97; 116]; VList []])
    ltac:(split_and!; [split; vm_compute; [discriminate|reflexivity]|repeat constructor; unfold is_byte; lia|done|done]))).
  vm_compute. reflexivity.
Defined.
