(* ===== verification/RlpRaw.v ===== *)
(** * RLP without types (rlp/raw.go)

    [Split] cuts the first value off a byte string without copying.
    [Split_iff] shows that it accepts exactly the canonical encodings: it gives
    back what the encoder wrote, and whatever it accepts is what the encoder
    writes for the content.  [AppendUint64] and [SplitUint64] are inverse. *)

From S2P Require Import Prelude Rlp.

(** ** Reading headers *)

(** The [slen] bytes of a size, most significant first; [slen] is 1 to 8. *)
Definition readSize (b : bytes) (slen : Z) : Z + rlp_error :=
  if Z.of_nat (length b) <? slen then inr ErrUnexpectedEOF
  else
    let s := of_be (take (Z.to_nat slen) b) in
    if (s <? 56) || (default 0 (b !! 0%nat) =? 0) then inr ErrCanonSize else inl s.

(** The kind, the size of the tag and the size of the content. *)
Definition readKind (buf : bytes) : (Kind * Z * Z) + rlp_error :=
  match buf with
  | [] => inr ErrUnexpectedEOF
  | b :: rest =>
      let r :=
        if b <? 0x80 then inl (Byte, 0, 1)
        else if b <? 0xB8 then
          match rest with
          | x :: _ => if (b - 0x80 =? 1) && (x <? 128) then inr ErrCanonSize else inl (String, 1, b - 0x80)
          | [] => inl (String, 1, b - 0x80)
          end
        else if b <? 0xC0 then
          match readSize rest (b - 0xB7) with inl s => inl (String, b - 0xB7 + 1, s) | inr e => inr e end
        else if b <? 0xF8 then inl (List, 1, b - 0xC0)
        else match readSize rest (b - 0xF7) with inl s => inl (List, b - 0xF7 + 1, s) | inr e => inr e end in
      match r with
      | inr e => inr e
      | inl (k, tagsize, contentsize) =>
          if u64 (Z.of_nat (length buf) - tagsize) <? contentsize then inr ErrValueTooLarge
          else inl (k, tagsize, contentsize)
      end
  end.

(** ** Splitting *)

Definition Split (b : bytes) : (Kind * bytes * bytes) + rlp_error :=
  match readKind b with
  | inr e => inr e
  | inl (k, ts, cs) =>
      let body := drop (Z.to_nat ts) b in
      inl (k, take (Z.to_nat cs) body, drop (Z.to_nat cs) body)
  end.

Definition SplitString (b : bytes) : (bytes * bytes) + rlp_error :=
  match Split b with
  | inr e => inr e
  | inl (k, content, rest) => if decide (k = List) then inr ErrExpectedString else inl (content, rest)
  end.

Definition SplitList (b : bytes) : (bytes * bytes) + rlp_error :=
  match Split b with
  | inr e => inr e
  | inl (k, content, rest) => if decide (k = List) then inl (content, rest) else inr ErrExpectedList
  end.

Definition SplitUint64 (b : bytes) : (Z * bytes) + rlp_error :=
  match SplitString b with
  | inr e => inr e
  | inl (content, rest) =>
      match content with
      | [] => inl (0, rest)
      | [x] => if x =? 0 then inr ErrCanonInt else inl (x, rest)
      | _ => if 8 <? Z.of_nat (length content) then inr errUintOverflow
             else match readSize content (Z.of_nat (length content)) with
                  | inr _ => inr ErrCanonInt
                  | inl x => inl (x, rest)
                  end
      end
  end.

(** CountValues: every value takes at least one byte. *)
Fixpoint CountValues_loop (fuel : nat) (b : bytes) (i : Z) : Z + rlp_error :=
  match fuel, b with
  | S fuel, _ :: _ =>
      match readKind b with
      | inr e => inr e
      | inl (_, tagsize, size) => CountValues_loop fuel (drop (Z.to_nat (tagsize + size)) b) (i + 1)
      end
  | _, _ => inl i
  end.

Definition CountValues (b : bytes) : Z + rlp_error := CountValues_loop (length b) b 0.

Definition ListSize (contentSize : Z) : Z := u64 (headsize contentSize + contentSize).

Definition AppendUint64 (b : bytes) (i : Z) : bytes :=
  if i =? 0 then b ++ [0x80]
  else if i <? 128 then b ++ [i]
  else if i <? Z.shiftl 1 8 then b ++ 0x81 :: be_bytes 1 i
  else if i <? Z.shiftl 1 16 then b ++ 0x82 :: be_bytes 2 i
  else if i <? Z.shiftl 1 24 then b ++ 0x83 :: be_bytes 3 i
  else if i <? Z.shiftl 1 32 then b ++ 0x84 :: be_bytes 4 i
  else if i <? Z.shiftl 1 40 then b ++ 0x85 :: be_bytes 5 i
  else if i <? Z.shiftl 1 48 then b ++ 0x86 :: be_bytes 6 i
  else if i <? Z.shiftl 1 56 then b ++ 0x87 :: be_bytes 7 i
  else b ++ 0x88 :: be_bytes 8 i.

(** ** Sizes *)

Lemma of_be_cons x b : of_be (x :: b) = x * 256 ^ Z.of_nat (length b) + of_be b.
Proof.
  induction b as [|y b IH] using rev_ind; [cbn; lia|].
  rewrite app_comm_cons, !of_be_snoc, IH, length_app. simpl length.
  rewrite Nat2Z.inj_add, Z.pow_add_r by lia. change (256 ^ Z.of_nat 1) with 256. lia.
Qed.

(** A big-endian string without a leading zero is the minimal one. *)
Lemma of_be_lower x b : bytes_ok (x :: b) -> x <> 0 -> 256 ^ Z.of_nat (length b) <= of_be (x :: b).
Proof.
  intros [Hx Hb]%Forall_cons Hn. rewrite of_be_cons. unfold is_byte in Hx. pose proof (of_be_nonneg b Hb).
  assert (0 < 256 ^ Z.of_nat (length b)) by (apply Z.pow_pos_nonneg; lia). nia.
Qed.

Lemma minimal_of_be x b : bytes_ok (x :: b) -> x <> 0 -> minimal_be (of_be (x :: b)) = x :: b.
Proof.
  intros Hb Hn. unfold minimal_be.
  rewrite (bitLen_bytes (Z.of_nat (length (x :: b)))), Nat2Z.id; [| |split].
  - by apply be_bytes_of_be.
  - simpl. lia.
  - replace (Z.of_nat (length (x :: b)) - 1) with (Z.of_nat (length b)) by (simpl; lia). by apply of_be_lower.
  - by apply of_be_bound.
Qed.

Lemma minimal_be_head i : 0 < i -> exists x b, minimal_be i = x :: b /\ x <> 0 /\ of_be (x :: b) = i /\ bytes_ok (x :: b).
Proof.
  intros Hi. set (k := (bitLen i + 7) / 8).
  assert (0 < k /\ 256 ^ (k - 1) <= i < 256 ^ k) as (Hk & Hlo & Hhi).
  { unfold k, bitLen. destruct (Z.eqb_spec i 0); [lia|]. rewrite Z.abs_eq by lia.
    pose proof (Z.log2_nonneg i) as H0. destruct (Z.log2_spec i Hi) as [H1 H2].
    set (q := (Z.log2 i + 1 + 7) / 8).
    assert (8 * q <= Z.log2 i + 8 < 8 * q + 8) as Hq.
    { unfold q. pose proof (Z.mul_div_le (Z.log2 i + 1 + 7) 8). pose proof (Z.mul_succ_div_gt (Z.log2 i + 1 + 7) 8). lia. }
    change 256 with (2 ^ 8). rewrite <- !Z.pow_mul_r by lia. split; [lia|]. split.
    - etrans; [|exact H1]. apply Z.pow_le_mono_r; lia.
    - eapply Z.lt_le_trans; [exact H2|]. apply Z.pow_le_mono_r; lia. }
  assert (minimal_be i = be_bytes (Z.to_nat k) i) as E by done.
  assert (of_be (minimal_be i) = i) as Ei.
  { rewrite E, of_be_be_bytes, Z2Nat.id by lia. apply Z.mod_small. lia. }
  pose proof (be_bytes_ok (Z.to_nat k) i) as Hb. pose proof (length_be_bytes (Z.to_nat k) i) as Hl.
  rewrite <- E in Hb, Hl. destruct (minimal_be i) as [|x b]; [simpl in Hl; lia|].
  exists x, b. split_and!; try done. intros ->. rewrite of_be_cons in Ei.
  apply Forall_cons in Hb as [_ Hb]. pose proof (of_be_bound b Hb) as Hbb. simpl in Hl.
  replace (Z.of_nat (length b)) with (k - 1) in Hbb by lia. lia.
Qed.

Lemma readSize_putint s r : 56 <= s < two64 ->
  readSize (putint s ++ r) (Z.of_nat (length (putint s))) = inl s.
Proof.
  intros Hs. unfold readSize. rewrite length_app, Nat2Z.id, take_app_length.
  rewrite putint_minimal by lia. destruct (minimal_be_head s) as (x & b & -> & Hx & -> & _); [lia|].
  destruct (Z.ltb_spec (Z.of_nat (length (x :: b) + length r)) (Z.of_nat (length (x :: b)))); [lia|].
  destruct (Z.ltb_spec s 56); [lia|]. simpl. by destruct (Z.eqb_spec x 0).
Qed.

Lemma readSize_inv b slen s : bytes_ok b -> 1 <= slen <= 8 -> readSize b slen = inl s ->
  56 <= s < two64 /\ take (Z.to_nat slen) b = putint s /\ slen <= Z.of_nat (length b).
Proof.
  intros Hb Hl. unfold readSize. destruct (Z.ltb_spec (Z.of_nat (length b)) slen); [done|].
  set (t := take (Z.to_nat slen) b). destruct (Z.ltb_spec (of_be t) 56); [done|].
  assert (length t = Z.to_nat slen) as Ht by (unfold t; rewrite length_take; lia).
  assert (bytes_ok t) as Htb by by apply Forall_take.
  assert (of_be t < two64) as Hu.
  { eapply Z.lt_le_trans; [by apply of_be_bound|]. rewrite Ht, Z2Nat.id by lia.
    change two64 with (256 ^ 8). apply Z.pow_le_mono_r; lia. }
  destruct b as [|x b]; [simpl in *; lia|]. simpl default. destruct (Z.eqb_spec x 0) as [|Hx]; [done|].
  intros [= <-]. split; [lia|]. split; [|done]. rewrite putint_minimal by lia.
  destruct t as [|y t'] eqn:E; [simpl in Ht; lia|].
  assert (y = x) as -> by (unfold t in E; destruct (Z.to_nat slen); [done|by injection E]).
  symmetry. by apply minimal_of_be.
Qed.

Lemma putint_ok s : bytes_ok (putint s).
Proof. unfold putint. repeat case_match; apply be_bytes_ok. Qed.

(** ** Split reads what the encoder wrote *)

(** The encoding of a content of a kind. *)
Definition wire (k : Kind) (c : bytes) : bytes :=
  match k with
  | List => puthead 0xC0 0xF7 (Z.of_nat (length c)) ++ c
  | _ => enc_bytes c
  end.

(** Single bytes below 0x80 stand for themselves. *)
Definition kind_ok (k : Kind) (c : bytes) : Prop :=
  match k with
  | Byte => exists x, c = [x] /\ 0 <= x < 0x80
  | String => forall x, c = [x] -> 0x80 <= x
  | List => True
  end.

Definition tagOf (k : Kind) : Z * Z := if decide (k = List) then (0xC0, 0xF7) else (0x80, 0xB7).

Lemma wire_head k c : kind_ok k c -> k <> Byte ->
  wire k c = puthead (tagOf k).1 (tagOf k).2 (Z.of_nat (length c)) ++ c.
Proof.
  intros Hk Hb. destruct k; [done| |done]. unfold wire. destruct c as [|x [|y c]]; [done| |done].
  specialize (Hk x eq_refl). simpl. by destruct (Z.leb_spec x 127); [lia|].
Qed.

Lemma readKind_head k n body : (k = String \/ k = List) -> 0 <= n -> n <= Z.of_nat (length body) ->
  headsize n + Z.of_nat (length body) < two64 ->
  (k = String -> n = 1 -> forall x, body !! 0%nat = Some x -> 0x80 <= x) ->
  readKind (puthead (tagOf k).1 (tagOf k).2 n ++ body) = inl (k, headsize n, n).
Proof.
  intros Hk Hn Hl Hb H1. pose proof (length_puthead (tagOf k).1 (tagOf k).2 n Hn) as Hlen.
  assert (u64 (Z.of_nat (length (puthead (tagOf k).1 (tagOf k).2 n ++ body)) - headsize n) =
    Z.of_nat (length body)) as Hsz.
  { rewrite length_app, Nat2Z.inj_add, Hlen. rewrite u64_small; [lia|]. unfold is_u64. lia. }
  unfold puthead, headsize in *. destruct (Z.ltb_spec n 56) as [Hs|Hs].
  - assert (forall y, (u64 (Z.of_nat (length (y :: body)) - 1) <? n) = false) as Hfin.
    { intros y. apply Z.ltb_ge. etrans; [exact Hl|]. apply Z.eq_le_incl. symmetry. exact Hsz. }
    cbn [app]. unfold readKind.
    destruct Hk as [->| ->]; [change (tagOf String) with (128, 183)|change (tagOf List) with (192, 247)];
      cbn [fst snd]; rewrite Z.mod_small by lia.
    + destruct (Z.ltb_spec (128 + n) 128); [lia|]. destruct (Z.ltb_spec (128 + n) 184); [|lia].
      replace (128 + n - 128) with n by lia. destruct body as [|x body]; [by rewrite Hfin|].
      destruct (Z.eqb_spec n 1) as [E|]; cbn [andb]; [|by rewrite Hfin]. specialize (H1 eq_refl E x eq_refl).
      destruct (Z.ltb_spec x 128); [lia|]. by rewrite Hfin.
    + repeat match goal with |- context [192 + n <? ?m] => destruct (Z.ltb_spec (192 + n) m); [lia|] end.
      destruct (Z.ltb_spec (192 + n) 248); [|lia]. replace (192 + n - 192) with n by lia. by rewrite Hfin.
  - pose proof (length_putint n) as Hp. set (sz := putint n) in *.
    assert (intsize n = Z.of_nat (length sz)) as Hi by (by apply intsize_putint).
    assert (forall y, (u64 (Z.of_nat (length (y :: sz ++ body)) - (Z.of_nat (length sz) + 1)) <? n) = false) as Hfin.
    { intros y. apply Z.ltb_ge. etrans; [exact Hl|]. apply Z.eq_le_incl. symmetry.
      rewrite <- Hi, (Z.add_comm (intsize n)). exact Hsz. }
    pose proof (readSize_putint n body ltac:(lia)) as Hr. fold sz in Hr.
    cbn [app]. unfold readKind. rewrite Hi, (Z.add_comm 1).
    destruct Hk as [->| ->]; [change (tagOf String) with (128, 183)|change (tagOf List) with (192, 247)];
      cbn [fst snd]; rewrite Z.mod_small by lia.
    + repeat match goal with |- context [183 + ?a <? ?m] => destruct (Z.ltb_spec (183 + a) m); [lia|] end.
      destruct (Z.ltb_spec (183 + Z.of_nat (length sz)) 192); [|lia].
      replace (183 + Z.of_nat (length sz) - 183) with (Z.of_nat (length sz)) by lia. by rewrite Hr, Hfin.
    + repeat match goal with |- context [247 + ?a <? ?m] => destruct (Z.ltb_spec (247 + a) m); [lia|] end.
      replace (247 + Z.of_nat (length sz) - 247) with (Z.of_nat (length sz)) by lia. by rewrite Hr, Hfin.
Qed.

Lemma Split_wire k c rest : kind_ok k c -> Z.of_nat (length (wire k c ++ rest)) < two64 ->
  Split (wire k c ++ rest) = inl (k, c, rest).
Proof.
  intros Hk Hlen. destruct (decide (k = Byte)) as [->|Hb].
  - destruct Hk as (x & -> & Hx). simpl in *. destruct (Z.leb_spec x 127); [|lia]. unfold Split, readKind.
    cbn [app]. destruct (Z.ltb_spec x 128); [|lia]. rewrite u64_small by (unfold is_u64; simpl in *; lia).
    destruct (Z.ltb_spec (Z.of_nat (length (x :: rest)) - 0) 1); [simpl in *; lia|]. done.
  - rewrite (wire_head k c Hk Hb) in *. rewrite <- app_assoc in *. unfold Split.
    set (n := Z.of_nat (length c)) in *. set (hd := puthead _ _ n) in *.
    assert (Z.of_nat (length hd) = headsize n) as Hh by (apply length_puthead; lia).
    rewrite !length_app in Hlen. unfold hd at 1. rewrite (readKind_head k n (c ++ rest)).
    + rewrite <- Hh, Nat2Z.id, drop_app_length. unfold n.
      by rewrite Nat2Z.id, take_app_length, drop_app_length.
    + destruct k; naive_solver.
    + lia.
    + rewrite length_app. lia.
    + rewrite length_app. lia.
    + intros -> E x. unfold n in E. destruct c as [|y [|]]; simpl in E; try lia. intros [= ->]. by apply Hk.
Qed.

(** ** Split accepts nothing else *)

Lemma puthead_small st lt n : 0 <= n < 56 -> puthead st lt n = [(st + n) mod 256].
Proof. intros. unfold puthead. by destruct (Z.ltb_spec n 56); [|lia]. Qed.

Lemma puthead_large st lt n : 56 <= n ->
  puthead st lt n = (lt + Z.of_nat (length (putint n))) mod 256 :: putint n.
Proof. intros. unfold puthead. by destruct (Z.ltb_spec n 56); [lia|]. Qed.

(** A long header is read back from its tag and size bytes. *)
Lemma large_inv lt st x r s : bytes_ok r -> 1 <= x - lt <= 8 -> 0 <= x < 256 ->
  readSize r (x - lt) = inl s ->
  56 <= s < two64 /\ x - lt + 1 <= Z.of_nat (length (x :: r)) /\
  take (Z.to_nat (x - lt + 1)) (x :: r) = puthead st lt s.
Proof.
  intros Hr Hl Hx E. destruct (readSize_inv r (x - lt) s Hr Hl E) as (Hs & Ht & Hle).
  split; [done|]. split; [simpl; lia|]. rewrite puthead_large by lia. rewrite <- Ht, length_take.
  rewrite Nat.min_l by lia. rewrite Z2Nat.id by lia. replace (lt + (x - lt)) with x by lia.
  rewrite Z.mod_small by lia. by replace (Z.to_nat (x - lt + 1)) with (S (Z.to_nat (x - lt))) by lia.
Qed.

Lemma readKind_inv b k ts cs : bytes_ok b -> Z.of_nat (length b) < two64 -> readKind b = inl (k, ts, cs) ->
  0 <= ts /\ 0 <= cs /\ ts + cs <= Z.of_nat (length b) /\ 1 <= ts + cs /\
  (if decide (k = Byte) then ts = 0 /\ cs = 1 /\ exists x r, b = x :: r /\ 0 <= x < 0x80
   else take (Z.to_nat ts) b = puthead (tagOf k).1 (tagOf k).2 cs) /\
  (k = String -> cs = 1 -> ts = 1 /\ forall x, b !! 1%nat = Some x -> 0x80 <= x).
Proof.
  intros Hb Hlen. unfold readKind. destruct b as [|x r]; [done|].
  apply Forall_cons in Hb as [Hx Hr]. unfold is_byte in Hx. set (len := Z.of_nat (length (x :: r))) in *.
  assert (1 <= len) by (unfold len; simpl; lia).
  assert (forall k' ts' cs', (if u64 (len - ts') <? cs' then inr ErrValueTooLarge else inl (k', ts', cs'))
      = inl (k, ts, cs) -> 0 <= ts' <= len -> k = k' /\ ts = ts' /\ cs = cs' /\ ts + cs <= len) as Hfin.
  { intros k' ts' cs' E Ht. rewrite u64_small in E by (unfold is_u64; lia).
    destruct (Z.ltb_spec (len - ts') cs'); [done|]. injection E as <- <- <-. split_and!; try done. lia. }
  destruct (Z.ltb_spec x 128) as [H1|H1].
  { intros (-> & -> & -> & ?)%Hfin; [|lia]. split_and!; try lia; [|done].
    rewrite decide_True by done. split_and!; [done..|]. exists x, r. split; [done|lia]. }
  destruct (Z.ltb_spec x 184) as [H2|H2].
  { assert (forall k' ts' cs', k' = String -> ts' = 1 -> cs' = x - 128 ->
      (x - 128 = 1 -> forall y, r !! 0%nat = Some y -> 128 <= y) -> k = k' -> ts = ts' -> cs = cs' -> ts + cs <= len ->
      0 <= ts /\ 0 <= cs /\ ts + cs <= len /\ 1 <= ts + cs /\
      (if decide (k = Byte) then ts = 0 /\ cs = 1 /\ exists x' r', x :: r = x' :: r' /\ 0 <= x' < 0x80
       else take (Z.to_nat ts) (x :: r) = puthead (tagOf k).1 (tagOf k).2 cs) /\
      (k = String -> cs = 1 -> ts = 1 /\ forall y, (x :: r) !! 1%nat = Some y -> 0x80 <= y)) as Hshort.
    { intros k' ts' cs' -> -> -> Hone -> -> -> Hle. split_and!; try lia; [|auto].
      rewrite decide_False, puthead_small by (done || lia). simpl. f_equal. symmetry.
      replace (128 + (x - 128)) with x by lia. apply Z.mod_small. lia. }
    destruct r as [|y r].
    - intros (E1 & E2 & E3 & ?)%Hfin; [|lia]. by apply (Hshort String 1 (x - 128)).
    - destruct (Z.eqb_spec (x - 128) 1) as [E|E]; cbn [andb].
      + destruct (Z.ltb_spec y 128); [done|]. intros (E1 & E2 & E3 & ?)%Hfin; [|lia].
        apply (Hshort String 1 (x - 128)); try done. intros _ z [= <-]. done.
      + intros (E1 & E2 & E3 & ?)%Hfin; [|lia]. by apply (Hshort String 1 (x - 128)). }
  destruct (Z.ltb_spec x 192) as [H3|H3].
  { destruct (readSize r (x - 183)) as [s|] eqn:Es; [|done].
    destruct (large_inv 183 128 x r s Hr) as (Hs & Hl & Ht); [lia..|done|].
    intros (-> & -> & -> & ?)%Hfin; [|fold len in Hl; lia]. split_and!; try lia.
    by rewrite decide_False. }
  destruct (Z.ltb_spec x 248) as [H4|H4].
  { intros (-> & -> & -> & ?)%Hfin; [|lia]. split_and!; try lia; [|done].
    rewrite decide_False, puthead_small by (done || lia). simpl. f_equal. symmetry.
    replace (192 + (x - 192)) with x by lia. apply Z.mod_small. lia. }
  destruct (readSize r (x - 247)) as [s|] eqn:Es; [|done].
  destruct (large_inv 247 192 x r s Hr) as (Hs & Hl & Ht); [lia..|done|].
  intros (-> & -> & -> & ?)%Hfin; [|fold len in Hl; lia]. split_and!; try lia.
  by rewrite decide_False.
Qed.

Lemma Split_inv b k c rest : bytes_ok b -> Z.of_nat (length b) < two64 -> Split b = inl (k, c, rest) ->
  kind_ok k c /\ b = wire k c ++ rest.
Proof.
  intros Hb Hlen. unfold Split. destruct (readKind b) as [[[k' ts] cs]|] eqn:E; [|done].
  destruct (readKind_inv b k' ts cs Hb Hlen E) as (Hts & Hcs & Hle & _ & Hhd & Hone). intros [= -> <- <-].
  set (body := drop (Z.to_nat ts) b). set (c := take (Z.to_nat cs) body).
  assert (length c = Z.to_nat cs) as Hc.
  { unfold c, body. rewrite length_take, length_drop. lia. }
  case_decide as D.
  - subst k. destruct Hhd as (-> & -> & x & r & -> & Hx). unfold c, body. simpl. split; [by exists x|].
    simpl. by destruct (Z.leb_spec x 127); [|lia].
  - assert (kind_ok k c) as Hk.
    { destruct k; [done| |done]. intros x Ex. rewrite Ex in Hc. simpl in Hc.
      destruct (Hone eq_refl ltac:(lia)) as [-> Hx]. apply Hx.
      assert (c !! 0%nat = Some x) as El by by rewrite Ex. unfold c, body in El.
      rewrite lookup_take_lt, lookup_drop in El by lia. exact El. }
    split; [done|]. rewrite (wire_head k c Hk D), Hc, Z2Nat.id, <- Hhd, <- app_assoc by lia.
    unfold c. rewrite take_drop. unfold body. by rewrite take_drop.
Qed.

(** C33: Split inverts the encoding of strings and of lists, whatever bytes
    follow, and accepts nothing but such encodings: single bytes, sizes and
    lengths have one representation only. *)
Theorem Split_iff b k c rest : bytes_ok b -> Z.of_nat (length b) < two64 ->
  Split b = inl (k, c, rest) <-> kind_ok k c /\ b = wire k c ++ rest.
Proof.
  intros Hb Hlen. split; [by apply Split_inv|]. intros [Hk ->]. by apply Split_wire.
Qed.

Lemma Split_iff_witness : Split [0x82; 1; 2; 7] = inl (String, [1; 2], [7]).
Proof.
  apply (Split_iff [0x82; 1; 2; 7] String [1; 2] [7]).
  - repeat constructor; unfold is_byte; lia.
  - vm_compute. reflexivity.
  - split; [intros x; discriminate|reflexivity].
Defined.

(** ** Integers *)

Lemma AppendUint64_enc b i : is_u64 i -> AppendUint64 b i = b ++ enc_bytes (minimal_be i).
Proof.
  intros [Hi Hu]. unfold AppendUint64. destruct (Z.eqb_spec i 0) as [->|Hnz]; [done|].
  rewrite <- putint_minimal by lia. unfold putint.
  destruct (Z.ltb_spec i 128) as [H1|H1].
  { change (Z.shiftl 1 8) with 256. destruct (Z.ltb_spec i 256); [|lia]. cbn [be_bytes app].
    rewrite Z.mod_small by lia. simpl. by destruct (Z.leb_spec i 127); [|lia]. }
  destruct (Z.ltb_spec i (Z.shiftl 1 8)) as [H2|H2].
  { change (Z.shiftl 1 8) with 256 in H2. cbn [be_bytes app]. rewrite Z.mod_small by lia. simpl.
    by destruct (Z.leb_spec i 127); [lia|]. }
  repeat (case_match; [by rewrite enc_bytes_long by (rewrite length_be_bytes; lia); rewrite length_be_bytes|]).
  by rewrite enc_bytes_long by (rewrite length_be_bytes; lia); rewrite length_be_bytes.
Qed.

Lemma length_minimal i : is_u64 i -> (length (minimal_be i) <= 8)%nat.
Proof.
  intros [Hi Hu]. destruct (decide (i = 0)) as [->|]; [simpl; lia|].
  rewrite <- putint_minimal by lia. apply length_putint.
Qed.

(** SplitUint64 reads back what AppendUint64 wrote, for every 64-bit
    integer and whatever follows, and AppendUint64 writes what the typed
    encoder writes. *)
Theorem uint64_roundtrip b i rest : is_u64 i -> Z.of_nat (length rest) < two64 - 9 ->
  AppendUint64 b i = b ++ default [] (EncodeToBytes (VUint i)) /\
  SplitUint64 (AppendUint64 [] i ++ rest) = inl (i, rest).
Proof.
  intros Hi Hr. rewrite EncodeToBytes_enc by done. split; [by apply AppendUint64_enc|].
  rewrite AppendUint64_enc by done. cbn [app]. pose proof (length_minimal i Hi) as Hlen.
  set (k := match minimal_be i with [x] => if x <=? 127 then Byte else String | _ => String end).
  assert (exists x, minimal_be i = [x] /\ 0 <= x < 256 \/ length (minimal_be i) <> 1%nat) as [x0 Hone].
  { destruct (minimal_be i) as [|x [|y l]] eqn:E; [by exists 0; right| |by exists 0; right].
    exists x. left. split; [done|]. pose proof (be_bytes_ok (Z.to_nat ((bitLen i + 7) / 8)) i) as Hb.
    unfold minimal_be in E. rewrite E in Hb. apply Forall_cons in Hb as [Hb _]. exact Hb. }
  assert (k <> List /\ kind_ok k (minimal_be i)) as [HkL Hk].
  { destruct Hone as [[E Hx]|Hne]; unfold k.
    - rewrite E. destruct (Z.leb_spec x0 127); (split; [done|]); [exists x0; split; [done|lia]|].
      intros y [= <-]. lia.
    - destruct (minimal_be i) as [|y [|]]; try done. }
  assert (enc_bytes (minimal_be i) = wire k (minimal_be i)) as -> by (destruct k; done).
  unfold SplitUint64, SplitString. rewrite Split_wire; [|done|].
  - rewrite decide_False by done. destruct Hi as [Hi Hu]. destruct (decide (i = 0)) as [->|]; [done|].
    destruct (minimal_be_head i) as (x & l & E & Hx & Ei & Hb); [lia|]. rewrite E in *.
    destruct l as [|y l].
    + destruct (Z.eqb_spec x 0); [done|]. by rewrite <- Ei.
    + destruct (Z.ltb_spec 8 (Z.of_nat (length (x :: y :: l)))); [simpl in *; lia|]. unfold readSize.
      destruct (Z.ltb_spec (Z.of_nat (length (x :: y :: l))) (Z.of_nat (length (x :: y :: l)))); [lia|].
      rewrite Nat2Z.id, firstn_all, Ei. pose proof (of_be_lower x (y :: l) Hb Hx) as Hlow. rewrite Ei in Hlow.
      assert (256 ^ 1 <= 256 ^ Z.of_nat (length (y :: l))) by (apply Z.pow_le_mono_r; simpl; lia).
      destruct (Z.ltb_spec i 56); [lia|]. simpl. by destruct (Z.eqb_spec x 0).
  - rewrite length_app. destruct (decide (k = Byte)) as [->|Hb].
    + destruct Hk as (x & -> & ?). simpl. destruct (_ <=? _); simpl; unfold two64 in *; lia.
    + rewrite (wire_head k _ Hk Hb), length_app, !Nat2Z.inj_add, length_puthead by lia. unfold headsize.
      destruct (Z.ltb_spec (Z.of_nat (length (minimal_be i))) 56); lia.
Qed.

Lemma uint64_roundtrip_witness : SplitUint64 (AppendUint64 [] 300 ++ [7]) = inl (300, [7]).
Proof.
  apply (uint64_roundtrip [] 300 [7]); [split; vm_compute; [discriminate|reflexivity]|vm_compute; reflexivity].
Defined.
