(* ===== verification/Params.v ===== *)
(** * Chain configuration and protocol constants (params/config.go,
    params/protocol_params.go)

    A nil [*big.Int] fork block is [None]. *)

From S2P Require Import Prelude.

Record ChainConfig := mkChainConfig {
  ChainID : option Z;
  HomesteadBlock : option Z;
  DAOForkBlock : option Z;
  DAOForkSupport : bool;
  EIP150Block : option Z;
  EIP150Hash : Z;
  EIP155Block : option Z;
  EIP158Block : option Z;
  ByzantiumBlock : option Z;
  ConstantinopleBlock : option Z;
  PetersburgBlock : option Z;
  IstanbulBlock : option Z;
  MuirGlacierBlock : option Z;
  BerlinBlock : option Z;
  YoloV3Block : option Z;
  EWASMBlock : option Z;
  TotalStake : Z
}.

(** The proof of authority engine. *)
Record CliqueConfig := mkCliqueConfig { Period : Z; Epoch : Z }.

(** [isForked s head]: a fork scheduled at block [s] is active at [head]. *)
Definition isForked (s head : option Z) : bool :=
  match s, head with
  | Some s, Some head => s <=? head
  | _, _ => false
  end.

Definition IsHomestead (c : ChainConfig) (num : option Z) : bool := isForked (HomesteadBlock c) num.
Definition IsDAOFork (c : ChainConfig) (num : option Z) : bool := isForked (DAOForkBlock c) num.
Definition IsEIP150 (c : ChainConfig) (num : option Z) : bool := isForked (EIP150Block c) num.
Definition IsEIP155 (c : ChainConfig) (num : option Z) : bool := isForked (EIP155Block c) num.
Definition IsEIP158 (c : ChainConfig) (num : option Z) : bool := isForked (EIP158Block c) num.
Definition IsByzantium (c : ChainConfig) (num : option Z) : bool := isForked (ByzantiumBlock c) num.
Definition IsConstantinople (c : ChainConfig) (num : option Z) : bool :=
  isForked (ConstantinopleBlock c) num.
Definition IsMuirGlacier (c : ChainConfig) (num : option Z) : bool :=
  isForked (MuirGlacierBlock c) num.
Definition IsPetersburg (c : ChainConfig) (num : option Z) : bool :=
  isForked (PetersburgBlock c) num
  || (bool_decide (PetersburgBlock c = None) && isForked (ConstantinopleBlock c) num).
Definition IsIstanbul (c : ChainConfig) (num : option Z) : bool := isForked (IstanbulBlock c) num.
Definition IsBerlin (c : ChainConfig) (num : option Z) : bool :=
  isForked (BerlinBlock c) num || isForked (YoloV3Block c) num.
Definition IsEWASM (c : ChainConfig) (num : option Z) : bool := isForked (EWASMBlock c) num.

(** Gas schedule of a transaction. *)
Definition TxGas : Z := 21000.
Definition TxGasContractCreation : Z := 53000.
Definition TxDataZeroGas : Z := 4.
Definition TxDataNonZeroGasFrontier : Z := 68.
Definition TxDataNonZeroGasEIP2028 : Z := 16.
Definition TxAccessListAddressGas : Z := 2400.
Definition TxAccessListStorageKeyGas : Z := 1900.

(** The depth below which a chain segment cannot be reorganised
    (params/network_params.go). *)
Definition FullImmutabilityThreshold : nat := Z.to_nat 90000.

(** Contract creation and the call stack. *)
Definition CreateDataGas : Z := 200.
Definition CallCreateDepth : Z := 1024.
Definition MaxCodeSize : Z := 24576.
