(* ===== verification/Uint256.v ===== *)
(** * 256-bit words (the interface of github.com/holiman/uint256)

    The stack of the virtual machine holds words of a package the repository
    does not contain.  A word is a [Z] below [2^256]; the conversions are how
    such a number is read, and the arithmetic is behind the class [Uint256],
    with what is documented of it in [Uint256Laws].  [uint256Model] is an
    instance. *)

From S2P Require Import Prelude.

Definition two256 : Z := 2 ^ 256.
Definition is_word (x : Z) : Prop := 0 <= x < two256.

(** ** Conversions *)

Definition Uint64 (x : Z) : Z := u64 x.
Definition IsUint64 (x : Z) : bool := (0 <=? x) && (x <? two64).
(** Uint64WithOverflow: the low 64 bits, and whether there are others. *)
Definition Uint64WithOverflow (x : Z) : Z * bool := (Uint64 x, negb (IsUint64 x)).
Definition IsZero (x : Z) : bool := x =? 0.
Definition Bytes20 (x : Z) : Z := x mod 2 ^ 160.
Definition SetBytes (b : bytes) : Z := of_be b mod two256.
Definition SetFromBig (x : Z) : Z := x mod two256.
Definition BitLen (x : Z) : Z := if x =? 0 then 0 else Z.log2 x + 1.
(** The sign of the word read in two's complement. *)
Definition signed (x : Z) : Z := if x <? 2 ^ 255 then x else x - two256.
Definition boolWord (b : bool) : Z := if b then 1 else 0.

Lemma SetFromBig_word x : is_word (SetFromBig x).
Proof. unfold is_word, SetFromBig, two256. apply Z.mod_pos_bound. lia. Qed.
Lemma SetBytes_word b : is_word (SetBytes b).
Proof. apply SetFromBig_word. Qed.
Lemma boolWord_word b : is_word (boolWord b).
Proof. unfold is_word, two256. destruct b; simpl; lia. Qed.
Lemma word_0 : is_word 0.
Proof. by unfold is_word, two256. Qed.
Lemma u64_word x : is_word (u64 x).
Proof. pose proof (u64_range x) as []. unfold is_word, two256, two64 in *. lia. Qed.
Lemma Uint64_id x : IsUint64 x = true -> Uint64 x = x.
Proof. unfold IsUint64, Uint64. intros. apply u64_small. unfold is_u64. lia. Qed.

(** ** Arithmetic *)

Class Uint256 := {
  uAdd : Z -> Z -> Z; uSub : Z -> Z -> Z; uMul : Z -> Z -> Z;
  uDiv : Z -> Z -> Z; uSDiv : Z -> Z -> Z; uMod : Z -> Z -> Z; uSMod : Z -> Z -> Z;
  uExp : Z -> Z -> Z; uExtendSign : Z -> Z -> Z;
  uAddMod : Z -> Z -> Z -> Z; uMulMod : Z -> Z -> Z -> Z;
  uNot : Z -> Z; uAnd : Z -> Z -> Z; uOr : Z -> Z -> Z; uXor : Z -> Z -> Z;
  (* Byte n x: the byte of x at index n, from the most significant one *)
  uByte : Z -> Z -> Z;
  uLsh : Z -> Z -> Z; uRsh : Z -> Z -> Z; uSRsh : Z -> Z -> Z;
  uLt : Z -> Z -> bool; uGt : Z -> Z -> bool; uSlt : Z -> Z -> bool; uSgt : Z -> Z -> bool;
  uEq : Z -> Z -> bool
}.

(** Every operation returns a word; the sum is taken modulo [2^256]. *)
Class Uint256Laws `{Uint256} : Prop := {
  bin_word x y : is_word x -> is_word y ->
    Forall is_word [uAdd x y; uSub x y; uMul x y; uDiv x y; uSDiv x y; uMod x y; uSMod x y; uExp x y;
                    uExtendSign x y; uAnd x y; uOr x y; uXor x y; uByte x y];
  ter_word x y z : is_word x -> is_word y -> is_word z -> is_word (uAddMod x y z) /\ is_word (uMulMod x y z);
  not_word x : is_word x -> is_word (uNot x);
  shift_word x n : is_word x -> 0 <= n -> is_word (uLsh x n) /\ is_word (uRsh x n) /\ is_word (uSRsh x n);
  uAdd_spec x y : is_word x -> is_word y -> uAdd x y = (x + y) mod two256
}.

(** [x] to the power of [n] modulo [2^256], by repeated squaring. *)
Fixpoint powMod (x : Z) (n : positive) : Z :=
  match n with
  | xH => x mod two256
  | xO p => let r := powMod x p in (r * r) mod two256
  | xI p => let r := powMod x p in ((r * r) mod two256 * x) mod two256
  end.

(** The functions of the package, as its documentation gives them. *)
Definition uint256Model : Uint256 := {|
  uAdd x y := (x + y) mod two256;
  uSub x y := (x - y) mod two256;
  uMul x y := (x * y) mod two256;
  uDiv x y := if y =? 0 then 0 else (x / y) mod two256;
  uSDiv x y := if y =? 0 then 0 else Z.quot (signed x) (signed y) mod two256;
  uMod x y := if y =? 0 then 0 else (x mod y) mod two256;
  uSMod x y := if y =? 0 then 0 else Z.rem (signed x) (signed y) mod two256;
  uExp x y := match y with Zpos p => powMod x p | _ => 1 end;
  uExtendSign x n :=
    if 31 <=? n then x
    else let bits := 8 * (n + 1) in
         let low := x mod 2 ^ bits in
         if low <? 2 ^ (bits - 1) then low else (low - 2 ^ bits) mod two256;
  uAddMod x y m := if m =? 0 then 0 else ((x + y) mod m) mod two256;
  uMulMod x y m := if m =? 0 then 0 else ((x * y) mod m) mod two256;
  uNot x := two256 - 1 - x;
  uAnd x y := Z.land x y mod two256;
  uOr x y := Z.lor x y mod two256;
  uXor x y := Z.lxor x y mod two256;
  uByte n x := if n <? 32 then Z.shiftr x (8 * (31 - n)) mod 256 else 0;
  uLsh x n := Z.shiftl x n mod two256;
  uRsh x n := Z.shiftr x n mod two256;
  uSRsh x n := Z.shiftr (signed x) n mod two256;
  uLt x y := x <? y;
  uGt x y := y <? x;
  uSlt x y := signed x <? signed y;
  uSgt x y := signed y <? signed x;
  uEq x y := x =? y
|}.

#[local] Existing Instance uint256Model.

Lemma mod_word x : is_word (x mod two256).
Proof. apply SetFromBig_word. Qed.

Lemma powMod_word x n : is_word (powMod x n).
Proof. destruct n; apply mod_word. Qed.

Lemma uint256Model_laws : Uint256Laws.
Proof.
  split; simpl.
  - intros x y Hx Hy. repeat apply Forall_cons_2; try apply Forall_nil_2; try apply mod_word; repeat case_match;
      try apply word_0; try apply mod_word; try apply powMod_word; try done.
    + assert (0 <= x mod 2 ^ (8 * (y + 1)) <= x); [|unfold is_word in *; lia].
      split; [apply Z.mod_pos_bound; apply Z.pow_pos_nonneg; unfold is_word in *; lia|].
      apply Z.mod_le; [apply Hx|apply Z.pow_pos_nonneg; unfold is_word in *; lia].
    + pose proof (Z.mod_pos_bound (Z.shiftr y (8 * (31 - x))) 256 ltac:(lia)). unfold is_word, two256. lia.
  - intros x y z _ _ _. split; case_match; first [apply word_0|apply mod_word].
  - unfold is_word. lia.
  - intros. split_and!; apply mod_word.
  - done.
Qed.
