(* ===== verification/VmCommon.v ===== *)
(** * Stack, memory and sizes (core/vm/stack.go, memory.go, memory_table.go,
    common.go, gas.go; common/math/integer.go; params/protocol_params.go)

    The stack is the slice of the source read from its end: the head of the
    list is the top.  A stack or a slice accessed out of range is [Panic].
    The lemmas say when the accesses of an operation are in range: when the
    memory was resized to the size its memory function returned. *)

From S2P Require Import Prelude Params Uint256.

(** ** Gas schedule *)

Definition GasQuickStep : Z := 2.
Definition GasFastestStep : Z := 3.
Definition GasFastStep : Z := 5.
Definition GasMidStep : Z := 8.
Definition GasSlowStep : Z := 10.
Definition GasExtStep : Z := 20.

Definition StackLimit : Z := 1024.
Definition MemoryGas : Z := 3.
Definition QuadCoeffDiv : Z := 512.
Definition CopyGas : Z := 3.
Definition CallValueTransferGas : Z := 9000.
Definition CallNewAccountGas : Z := 25000.
Definition CallStipend : Z := 2300.
Definition Sha3Gas : Z := 30.
Definition Sha3WordGas : Z := 6.
Definition SstoreSetGas : Z := 20000.
Definition SstoreResetGas : Z := 5000.
Definition SstoreClearGas : Z := 5000.
Definition SstoreRefundGas : Z := 15000.
Definition NetSstoreNoopGas : Z := 200.
Definition NetSstoreInitGas : Z := 20000.
Definition NetSstoreCleanGas : Z := 5000.
Definition NetSstoreDirtyGas : Z := 200.
Definition NetSstoreClearRefund : Z := 15000.
Definition NetSstoreResetRefund : Z := 4800.
Definition NetSstoreResetClearRefund : Z := 19800.
Definition SstoreSentryGasEIP2200 : Z := 2300.
Definition SstoreSetGasEIP2200 : Z := 20000.
Definition SstoreResetGasEIP2200 : Z := 5000.
Definition SstoreClearsScheduleRefundEIP2200 : Z := 15000.
Definition JumpdestGas : Z := 1.
Definition ExpGas : Z := 10.
Definition ExpByteFrontier : Z := 10.
Definition ExpByteEIP158 : Z := 50.
Definition LogGas : Z := 375.
Definition LogTopicGas : Z := 375.
Definition LogDataGas : Z := 8.
Definition CreateGas : Z := 32000.
Definition Create2Gas : Z := 32000.
Definition SelfdestructRefundGas : Z := 24000.
Definition SelfdestructGasEIP150 : Z := 5000.
Definition CreateBySelfdestructGas : Z := 25000.
Definition CallGasFrontier : Z := 40.
Definition CallGasEIP150 : Z := 700.
Definition BalanceGasFrontier : Z := 20.
Definition BalanceGasEIP150 : Z := 400.
Definition BalanceGasEIP1884 : Z := 700.
Definition ExtcodeSizeGasFrontier : Z := 20.
Definition ExtcodeSizeGasEIP150 : Z := 700.
Definition SloadGasFrontier : Z := 50.
Definition SloadGasEIP150 : Z := 200.
Definition SloadGasEIP1884 : Z := 800.
Definition SloadGasEIP2200 : Z := 800.
Definition ExtcodeHashGasConstantinople : Z := 400.
Definition ExtcodeHashGasEIP1884 : Z := 700.
Definition ExtcodeCopyBaseFrontier : Z := 20.
Definition ExtcodeCopyBaseEIP150 : Z := 700.
Definition ColdAccountAccessCostEIP2929 : Z := 2600.
Definition ColdSloadCostEIP2929 : Z := 2100.
Definition WarmStorageReadCostEIP2929 : Z := 100.

(** ** Checked arithmetic on 64-bit words *)

Definition SafeAdd (x y : Z) : Z * bool := (u64 (x + y), two64 <=? x + y).
Definition SafeMul (x y : Z) : Z * bool := (u64 (x * y), two64 <=? x * y).
(** Conversion of a uint64 to an int64. *)
Definition toInt64 (x : Z) : Z := if x <? 2 ^ 63 then x else x - two64.

(** The length of a slice is an int: no slice is longer. *)
Definition slen (b : bytes) : Z := Z.min (Z.of_nat (length b)) (2 ^ 63 - 1).

(** ** The stack *)

Definition Stack := list Z.

Definition Back (st : Stack) (n : nat) : outcome Z :=
  match st !! n with Some x => Ret x | None => Panic end.
Definition peek (st : Stack) : outcome Z := Back st 0.
Definition pop (st : Stack) : outcome (Z * Stack) :=
  match st with x :: st => Ret (x, st) | [] => Panic end.
Definition push (st : Stack) (x : Z) : Stack := x :: st.
(** The cell [peek] points to is overwritten. *)
Definition setTop (st : Stack) (x : Z) : outcome Stack :=
  match st with _ :: st => Ret (x :: st) | [] => Panic end.
Definition dup (st : Stack) (n : nat) : outcome Stack :=
  x ← Back st (n - 1); Ret (push st x).
Definition swap (st : Stack) (n : nat) : outcome Stack :=
  x ← Back st (n - 1); y ← Back st 0;
  Ret (<[0%nat := x]> (<[(n - 1)%nat := y]> st)).

(** ** Memory *)

Record Memory := mkMemory { store : bytes; lastGasCost : Z }.
#[export] Instance eta_Memory : Eta Memory := fun r => mkMemory (store r) (lastGasCost r).

Definition NewMemory : Memory := mkMemory [] 0.
Definition Len (m : Memory) : Z := Z.of_nat (length (store m)).

(** copy(b[offset:], value) *)
Definition copyAt (b : bytes) (offset : Z) (value : bytes) : bytes :=
  take (Z.to_nat offset) b ++ value ++ drop (Z.to_nat offset + length value) b.

Definition mem_Set (m : Memory) (offset size : Z) (value : bytes) : outcome Memory :=
  if 0 <? size then
    if Len m <? u64 (offset + size) then Panic
    else if u64 (offset + size) <? offset then Panic     (* slice bounds *)
    else Ret (m <| store := copyAt (store m) offset (take (Z.to_nat size) value) |>)
  else Ret m.

Definition Set32 (m : Memory) (offset val : Z) : outcome Memory :=
  if Len m <? u64 (offset + 32) then Panic
  else if u64 (offset + 32) <? offset then Panic         (* slice bounds *)
  else Ret (m <| store := copyAt (store m) offset (be_bytes 32 val) |>).

Definition Resize (m : Memory) (size : Z) : Memory :=
  if Len m <? size then m <| store := store m ++ replicate (Z.to_nat (size - Len m)) 0 |> else m.

(** [b[offset : offset+size]] for int64 bounds. *)
Definition sliceOf (b : bytes) (offset size : Z) : outcome bytes :=
  if (offset <? 0) || (size <? 0) || (Z.of_nat (length b) <? offset + size) then Panic
  else Ret (take (Z.to_nat size) (drop (Z.to_nat offset) b)).

(** GetPtr shares the bytes with the memory; GetCopy is the same as a copy. *)
Definition GetPtr (m : Memory) (offset size : Z) : outcome bytes :=
  if size =? 0 then Ret []
  else if offset <? Len m then sliceOf (store m) offset size
  else Ret [].
Definition GetCopy (m : Memory) (offset size : Z) : outcome bytes := GetPtr m offset size.

(** ** Sizes *)

Definition calcMemSize64WithUint (off length64 : Z) : Z * bool :=
  if length64 =? 0 then (0, false)
  else
    let '(offset64, overflow) := Uint64WithOverflow off in
    if overflow then (0, true)
    else let val := u64 (offset64 + length64) in (val, val <? offset64).

Definition calcMemSize64 (off l : Z) : Z * bool :=
  if negb (IsUint64 l) then (0, true) else calcMemSize64WithUint off (Uint64 l).

Definition RightPadBytes (b : bytes) (l : Z) : bytes :=
  if l <=? Z.of_nat (length b) then b else b ++ replicate (Z.to_nat l - length b) 0.

Definition getData (data : bytes) (start size : Z) : outcome bytes :=
  let len := slen data in
  let start := if len <? start then len else start in
  let endd := u64 (start + size) in
  let endd := if len <? endd then len else endd in
  b ← sliceOf data start (endd - start);
  Ret (RightPadBytes b (toInt64 size)).

Definition toWordSize (size : Z) : Z :=
  if MaxUint64 - 31 <? size then MaxUint64 / 32 + 1 else (size + 31) / 32.

Definition allZero (b : bytes) : bool := forallb (Z.eqb 0) b.

(** callGas: with EIP 150 at most all but a 64th of what is left. *)
Definition callGas (isEip150 : bool) (availableGas base callCost : Z) : option Z :=
  let plain := if IsUint64 callCost then Some (Uint64 callCost) else None in
  if isEip150 then
    let availableGas := u64 (availableGas - base) in
    let gas := availableGas - availableGas / 64 in
    if negb (IsUint64 callCost) || (gas <? Uint64 callCost) then Some gas else plain
  else plain.

(** ** The memory an operation needs (core/vm/memory_table.go) *)

Definition memorySizeFunc := Stack -> outcome (Z * bool).

Definition memSize2 (i j : nat) : memorySizeFunc := fun st =>
  off ← Back st i; l ← Back st j; Ret (calcMemSize64 off l).
Definition memSizeOf (i : nat) (n : Z) : memorySizeFunc := fun st =>
  off ← Back st i; Ret (calcMemSize64WithUint off n).
(** The larger of an output and an input area. *)
Definition memSize4 (ro rl io il : nat) : memorySizeFunc := fun st =>
  '(x, overflow) ← (memSize2 ro rl st : outcome (Z * bool));
  if overflow : bool then Ret (0, true)
  else '(y, overflow) ← (memSize2 io il st : outcome (Z * bool));
       if overflow : bool then Ret (0, true) else Ret (if y <? x then x else y, false).

Definition memorySha3 : memorySizeFunc := memSize2 0 1.
Definition memoryCallDataCopy : memorySizeFunc := memSize2 0 2.
Definition memoryReturnDataCopy : memorySizeFunc := memSize2 0 2.
Definition memoryCodeCopy : memorySizeFunc := memSize2 0 2.
Definition memoryExtCodeCopy : memorySizeFunc := memSize2 1 3.
Definition memoryMLoad : memorySizeFunc := memSizeOf 0 32.
Definition memoryMStore8 : memorySizeFunc := memSizeOf 0 1.
Definition memoryMStore : memorySizeFunc := memSizeOf 0 32.
Definition memoryCreate : memorySizeFunc := memSize2 1 2.
Definition memoryCreate2 : memorySizeFunc := memSize2 1 2.
Definition memoryCall : memorySizeFunc := memSize4 5 6 3 4.
Definition memoryDelegateCall : memorySizeFunc := memSize4 4 5 2 3.
Definition memoryStaticCall : memorySizeFunc := memSize4 4 5 2 3.
Definition memoryReturn : memorySizeFunc := memSize2 0 1.
Definition memoryRevert : memorySizeFunc := memSize2 0 1.
Definition memoryLog : memorySizeFunc := memSize2 0 1.
