(* ===== verification/Analysis.v ===== *)
(** * Jump destination analysis (core/vm/analysis.go)

    [codeBitmap] marks the bytes of a program that are arguments of PUSH
    instructions in a bit vector, eight bits at a time where it can.  It stays
    inside the vector and agrees with a scan of the program one byte after the
    other ([segments]). *)

From S2P Require Import Prelude.

Definition PUSH1 : Z := 0x60.
Definition PUSH32 : Z := 0x7f.

Abbreviation bitvec := (list Z).

(** [bits[i] |= mask] *)
Definition orAt (bits : bitvec) (i mask : Z) : outcome bitvec :=
  match bits !! Z.to_nat i with
  | Some b => Ret (<[Z.to_nat i := Z.lor b mask]> bits)
  | None => Panic
  end.

Definition bits_set (bits : bitvec) (pos : Z) : outcome bitvec :=
  orAt bits (pos / 8) (Z.shiftr 0x80 (pos mod 8)).

Definition bits_set8 (bits : bitvec) (pos : Z) : outcome bitvec :=
  bits ← orAt bits (pos / 8) (Z.shiftr 0xFF (pos mod 8));
  orAt bits (pos / 8 + 1) (0xFF - Z.shiftr 0xFF (pos mod 8)).

Definition codeSegment (bits : bitvec) (pos : Z) : outcome bool :=
  match bits !! Z.to_nat (pos / 8) with
  | Some b => Ret (Z.land b (Z.shiftr 0x80 (pos mod 8)) =? 0)
  | None => Panic
  end.

(** The loop over [n] chunks of eight bits, and the one over [n] bits. *)
Fixpoint set8Loop (n : nat) (bits : bitvec) (pc : Z) : outcome (bitvec * Z) :=
  match n with
  | O => Ret (bits, pc)
  | S n => bits ← bits_set8 bits pc; set8Loop n bits (pc + 8)
  end.
Fixpoint setLoop (n : nat) (bits : bitvec) (pc : Z) : outcome (bitvec * Z) :=
  match n with
  | O => Ret (bits, pc)
  | S n => bits ← bits_set bits pc; setLoop n bits (pc + 1)
  end.

(** One round of the loop over the program counter per unit of fuel. *)
Fixpoint codeBitmapLoop (fuel : nat) (code : bytes) (bits : bitvec) (pc : Z) : outcome bitvec :=
  match code !! Z.to_nat pc, fuel with
  | None, _ => Ret bits
  | Some _, O => Panic
  | Some op, S fuel =>
      if (PUSH1 <=? op) && (op <=? PUSH32) then
        let numbits := Z.to_nat (op - PUSH1 + 1) in
        '(bits, pc) ← set8Loop (numbits / 8) bits (pc + 1);
        '(bits, pc) ← setLoop (numbits mod 8) bits pc;
        codeBitmapLoop fuel code bits pc
      else codeBitmapLoop fuel code bits (pc + 1)
  end.

Definition codeBitmap (code : bytes) : outcome bitvec :=
  codeBitmapLoop (length code) code (replicate (length code / 8 + 1 + 4) 0) 0.

(** ** The reference: [true] for an argument byte

    [skip] bytes are left of the arguments of the last PUSH. *)
Fixpoint segments (skip : nat) (code : bytes) : list bool :=
  match code with
  | [] => []
  | op :: code =>
      match skip with
      | S k => true :: segments k code
      | O => false :: segments (if (PUSH1 <=? op) && (op <=? PUSH32) then Z.to_nat (op - PUSH1 + 1) else 0) code
      end
  end.

(** ** Bits *)

Definition bit (bits : bitvec) (p : Z) : bool :=
  Z.testbit (default 0 (bits !! Z.to_nat (p / 8))) (7 - p mod 8).

Ltac octet x := let H := fresh in
  assert (x = 0 \/ x = 1 \/ x = 2 \/ x = 3 \/ x = 4 \/ x = 5 \/ x = 6 \/ x = 7) as H by lia;
  destruct_or! H; subst x.

Lemma mask_bits r q : 0 <= r < 8 -> 0 <= q < 8 ->
  Z.testbit (Z.shiftr 0x80 r) (7 - q) = (r =? q) /\
  Z.testbit (Z.shiftr 0xFF r) (7 - q) = (r <=? q) /\
  Z.testbit (0xFF - Z.shiftr 0xFF r) (7 - q) = (q <? r).
Proof. intros Hr Hq. octet r; octet q; done. Qed.

Lemma land_mask b r : 0 <= r < 8 -> (Z.land b (Z.shiftr 0x80 r) =? 0) = negb (Z.testbit b (7 - r)).
Proof.
  intros Hr. assert (Z.shiftr 0x80 r = 2 ^ (7 - r)) as -> by (octet r; done).
  destruct (Z.testbit b (7 - r)) eqn:Eb; simpl.
  - apply Z.eqb_neq. intros E. apply (f_equal (fun z => Z.testbit z (7 - r))) in E.
    rewrite Z.land_spec, Eb, Z.pow2_bits_true, Z.bits_0 in E by lia. done.
  - apply Z.eqb_eq, Z.bits_inj'. intros n Hn. rewrite Z.land_spec, Z.pow2_bits_eqb, Z.bits_0 by lia.
    destruct (Z.eqb_spec (7 - r) n) as [<-|]; [by rewrite Eb|apply andb_false_r].
Qed.

Lemma orAt_spec bits i m : 0 <= i < Z.of_nat (length bits) ->
  exists bits', orAt bits i m = Ret bits' /\ length bits' = length bits /\
    forall p, 0 <= p -> bit bits' p = bit bits p || ((p / 8 =? i) && Z.testbit m (7 - p mod 8)).
Proof.
  intros Hi. unfold orAt. destruct (lookup_lt_is_Some_2 bits (Z.to_nat i)) as [b Hb]; [lia|]. rewrite Hb.
  eexists. split; [done|]. split; [by rewrite length_insert|]. intros p Hp. unfold bit.
  destruct (Z.eqb_spec (p / 8) i) as [->|Hne].
  - rewrite list_lookup_insert_eq by lia. rewrite Hb. simpl. by rewrite Z.lor_spec.
  - rewrite list_lookup_insert_ne, orb_false_r; [done|]. assert (0 <= p / 8) by (apply Z.div_pos; lia). lia.
Qed.

(** [marks bits bits' lo hi]: the bits from [lo] below [hi] were set. *)
Definition marks (bits bits' : bitvec) (lo hi : Z) : Prop :=
  length bits' = length bits /\
  forall p, 0 <= p -> bit bits' p = bit bits p || ((lo <=? p) && (p <? hi)).

Lemma divide8 p : p = 8 * (p / 8) + p mod 8 /\ 0 <= p mod 8 < 8.
Proof. split; [apply Z.div_mod; lia|apply Z.mod_pos_bound; lia]. Qed.

Lemma bits_set_spec bits pos : 0 <= pos -> pos / 8 < Z.of_nat (length bits) ->
  exists bits', bits_set bits pos = Ret bits' /\ marks bits bits' pos (pos + 1).
Proof.
  intros Hp Hl. unfold bits_set.
  destruct (orAt_spec bits (pos / 8) (Z.shiftr 0x80 (pos mod 8))) as (bits' & -> & Hlen & Hb).
  { split; [apply Z.div_pos|]; lia. }
  eexists. split; [done|]. split; [done|]. intros p Hp'. rewrite Hb by done. f_equal.
  destruct (divide8 p), (divide8 pos). destruct (mask_bits (pos mod 8) (p mod 8)) as [-> _]; [done..|]. lia.
Qed.

Lemma bits_set8_spec bits pos : 0 <= pos -> pos / 8 + 1 < Z.of_nat (length bits) ->
  exists bits', bits_set8 bits pos = Ret bits' /\ marks bits bits' pos (pos + 8).
Proof.
  intros Hp Hl. unfold bits_set8. assert (0 <= pos / 8) by (apply Z.div_pos; lia).
  destruct (orAt_spec bits (pos / 8) (Z.shiftr 0xFF (pos mod 8))) as (b1 & -> & Hl1 & Hb1); [lia|].
  cbn [mbind outcome_bind].
  destruct (orAt_spec b1 (pos / 8 + 1) (0xFF - Z.shiftr 0xFF (pos mod 8))) as (b2 & -> & Hl2 & Hb2); [lia|].
  eexists. split; [done|]. split; [congruence|]. intros p Hp'. rewrite Hb2, Hb1, <- orb_assoc by done. f_equal.
  destruct (divide8 p), (divide8 pos). destruct (mask_bits (pos mod 8) (p mod 8)) as (_ & -> & ->); [done..|]. lia.
Qed.

Lemma marks_refl bits lo : marks bits bits lo lo.
Proof. split; [done|]. intros p Hp. destruct (bit bits p); [done|]. simpl. lia. Qed.

Lemma marks_trans b1 b2 b3 lo mid hi : lo <= mid <= hi -> marks b1 b2 lo mid -> marks b2 b3 mid hi -> marks b1 b3 lo hi.
Proof.
  intros Hm [L1 G1] [L2 G2]. split; [congruence|]. intros p Hp. rewrite G2, G1 by done.
  destruct (bit b1 p); simpl; [done|]. lia.
Qed.

Lemma set8Loop_spec n bits pc : 0 <= pc -> (pc + 8 * Z.of_nat n) / 8 < Z.of_nat (length bits) ->
  exists bits', set8Loop n bits pc = Ret (bits', pc + 8 * Z.of_nat n) /\ marks bits bits' pc (pc + 8 * Z.of_nat n).
Proof.
  revert bits pc. induction n as [|n IH]; intros bits pc Hp Hl.
  - exists bits. split; [simpl; do 2 f_equal; lia|]. replace (pc + 8 * Z.of_nat 0) with pc by lia. apply marks_refl.
  - simpl set8Loop. destruct (bits_set8_spec bits pc Hp) as (b1 & -> & G1).
    { replace (pc + 8 * Z.of_nat (S n)) with (pc + Z.of_nat (S n) * 8) in Hl by lia. rewrite Z.div_add in Hl; lia. }
    cbn [mbind outcome_bind]. destruct (IH b1 (pc + 8)) as (b2 & -> & G2); [lia| |].
    { destruct G1 as [-> _]. by replace (pc + 8 + 8 * Z.of_nat n) with (pc + 8 * Z.of_nat (S n)) by lia. }
    replace (pc + 8 + 8 * Z.of_nat n) with (pc + 8 * Z.of_nat (S n)) in * by lia.
    eexists. split; [done|]. eapply marks_trans; [|done..]. lia.
Qed.

Lemma setLoop_spec n bits pc : 0 <= pc -> (pc + Z.of_nat n) / 8 < Z.of_nat (length bits) ->
  exists bits', setLoop n bits pc = Ret (bits', pc + Z.of_nat n) /\ marks bits bits' pc (pc + Z.of_nat n).
Proof.
  revert bits pc. induction n as [|n IH]; intros bits pc Hp Hl.
  - exists bits. split; [simpl; do 2 f_equal; lia|]. replace (pc + Z.of_nat 0) with pc by lia. apply marks_refl.
  - simpl setLoop. destruct (bits_set_spec bits pc Hp) as (b1 & -> & G1).
    { eapply Z.le_lt_trans; [|done]. apply Z.div_le_mono; lia. }
    cbn [mbind outcome_bind]. destruct (IH b1 (pc + 1)) as (b2 & -> & G2); [lia| |].
    { destruct G1 as [-> _]. by replace (pc + 1 + Z.of_nat n) with (pc + Z.of_nat (S n)) by lia. }
    replace (pc + 1 + Z.of_nat n) with (pc + Z.of_nat (S n)) in * by lia.
    eexists. split; [done|]. eapply marks_trans; [|done..]. lia.
Qed.

(** ** The loop against the reference *)

Definition args (op : Z) : nat := if (PUSH1 <=? op) && (op <=? PUSH32) then Z.to_nat (op - PUSH1 + 1) else 0.

Lemma segments_skip k code : segments k code = replicate (k `min` length code) true ++ segments 0 (drop k code).
Proof.
  revert k. induction code as [|op code IH]; intros [|k]; simpl; try done.
  f_equal. apply IH.
Qed.

Lemma length_segments k code : length (segments k code) = length code.
Proof. revert k. induction code as [|op code IH]; intros [|k]; simpl; f_equal; apply IH. Qed.

(** From a boundary [pc] between instructions to the next one. *)
Lemma segments_step code pc op : code !! pc = Some op -> drop pc (segments 0 code) = segments 0 (drop pc code) ->
  segments 0 code !! pc = Some false /\
  (forall p, (pc < p <= pc + args op)%nat -> (p < length code)%nat -> segments 0 code !! p = Some true) /\
  drop (pc + 1 + args op) (segments 0 code) = segments 0 (drop (pc + 1 + args op) code).
Proof.
  intros Hop Hd. rewrite (drop_S code op pc Hop) in Hd. cbn [segments] in Hd. fold (args op) in Hd.
  rewrite (segments_skip (args op)), drop_drop in Hd. split_and!.
  - replace pc with (pc + 0)%nat at 1 by lia. by rewrite <- lookup_drop, Hd.
  - intros p Hp Hl. assert (exists k, p = pc + S k)%nat as [k ->] by (exists (p - pc - 1)%nat; lia).
    rewrite <- lookup_drop, Hd. simpl. rewrite lookup_app_l.
    + apply lookup_replicate_2. rewrite length_drop. lia.
    + rewrite length_replicate, length_drop. lia.
  - replace (pc + 1 + args op)%nat with (pc + S (args op))%nat by lia.
    rewrite <- drop_drop, Hd. cbn [drop]. replace (S pc + args op)%nat with (pc + S (args op))%nat by lia.
    destruct (decide (args op <= length (drop (S pc) code))%nat) as [Hle|Hgt].
    + rewrite Nat.min_l, drop_app_length' by (rewrite ?length_replicate; lia). done.
    + rewrite length_drop in Hgt. rewrite (drop_ge code (pc + S (args op))) by lia. cbn [segments]. rewrite app_nil_r.
      apply drop_ge. rewrite length_replicate, length_drop. lia.
Qed.

Definition marked (code : bytes) (bits : bitvec) (pc : Z) : Prop :=
  (forall p, pc <= p -> bit bits p = false) /\
  (forall p, 0 <= p < pc -> p < Z.of_nat (length code) -> segments 0 code !! Z.to_nat p = Some (bit bits p)) /\
  drop (Z.to_nat pc) (segments 0 code) = segments 0 (drop (Z.to_nat pc) code).

(** The marks of one instruction. *)
Lemma marked_step code bits bits' pc op : 0 <= pc -> code !! Z.to_nat pc = Some op -> marked code bits pc ->
  marks bits bits' (pc + 1) (pc + 1 + Z.of_nat (args op)) -> marked code bits' (pc + 1 + Z.of_nat (args op)).
Proof.
  intros Hp Hop (M1 & M2 & M3) [_ G]. destruct (segments_step code (Z.to_nat pc) op Hop M3) as (S1 & S2 & S3).
  split_and!.
  - intros p Hge. rewrite G, (M1 p) by lia. simpl. lia.
  - intros p Hlt Hl. rewrite G by lia. destruct (decide (p < pc)).
    { rewrite (M2 p) by lia. f_equal. destruct (bit bits p); simpl; [done|]. lia. }
    rewrite (M1 p) by lia. simpl. destruct (decide (p = pc)) as [->|].
    + rewrite S1. f_equal. lia.
    + rewrite (S2 (Z.to_nat p)) by lia. f_equal. lia.
  - replace (Z.to_nat (pc + 1 + Z.of_nat (args op))) with (Z.to_nat pc + 1 + args op)%nat by lia. done.
Qed.

Lemma args_bound op : (args op <= 32)%nat.
Proof. unfold args, PUSH1, PUSH32. case_match; lia. Qed.

(** The arguments of the instruction at [pc] fit into the vector. *)
Lemma args_fit (code : bytes) (bits : bitvec) pc op k : 0 <= pc -> code !! Z.to_nat pc = Some op ->
  length bits = (length code / 8 + 1 + 4)%nat -> 0 <= k <= 32 -> (pc + 1 + k) / 8 < Z.of_nat (length bits).
Proof.
  intros Hp Hop Hl Hk. apply lookup_lt_Some in Hop. rewrite Hl.
  rewrite !Nat2Z.inj_add, Nat2Z.inj_div. simpl Z.of_nat.
  assert ((pc + 1 + k) / 8 <= (Z.of_nat (length code) + 4 * 8) / 8) by (apply Z.div_le_mono; lia).
  rewrite Z.div_add in * by lia. lia.
Qed.

Lemma codeBitmapLoop_spec fuel code bits pc : 0 <= pc -> Z.of_nat (length code) <= pc + Z.of_nat fuel ->
  length bits = (length code / 8 + 1 + 4)%nat -> marked code bits pc ->
  exists bits', codeBitmapLoop fuel code bits pc = Ret bits' /\ length bits' = length bits /\
    forall p, 0 <= p < Z.of_nat (length code) -> segments 0 code !! Z.to_nat p = Some (bit bits' p).
Proof.
  revert bits pc. induction fuel as [|fuel IH]; intros bits pc Hp Hf Hl M; cbn [codeBitmapLoop];
    destruct (code !! Z.to_nat pc) as [op|] eqn:Hop.
  1: { apply lookup_lt_Some in Hop. lia. }
  1, 3: apply lookup_ge_None in Hop; exists bits; split; [done|]; split; [done|]; intros p ?; apply M; lia.
  assert (forall k, 0 <= k <= 32 -> (pc + 1 + k) / 8 < Z.of_nat (length bits)) as Hr by (intros; by eapply args_fit).
  pose proof (args_bound op) as Ha. pose proof (fun b => marked_step code bits b pc op Hp Hop M) as Hm.
  unfold args in *. destruct ((PUSH1 <=? op) && (op <=? PUSH32)) eqn:Epush.
  - set (n := Z.to_nat (op - PUSH1 + 1)) in *.
    assert (Z.of_nat n = 8 * Z.of_nat (n / 8) + Z.of_nat (n mod 8)) as Hn.
    { pose proof (Nat.div_mod_eq n 8). lia. }
    destruct (set8Loop_spec (n / 8) bits (pc + 1)) as (b1 & -> & G1); [lia|apply Hr; lia|]. cbn [mbind outcome_bind].
    destruct (setLoop_spec (n mod 8) b1 (pc + 1 + 8 * Z.of_nat (n / 8))) as (b2 & -> & G2); [lia| |].
    { destruct G1 as [-> _]. rewrite <- Z.add_assoc. apply (Hr (8 * Z.of_nat (n / 8) + Z.of_nat (n mod 8))). lia. }
    cbn [mbind outcome_bind]. replace (pc + 1 + 8 * Z.of_nat (n / 8) + Z.of_nat (n mod 8)) with (pc + 1 + Z.of_nat n) in * by lia.
    assert (marks bits b2 (pc + 1) (pc + 1 + Z.of_nat n)) as G by (eapply marks_trans; [|done..]; lia).
    destruct (IH b2 (pc + 1 + Z.of_nat n)) as (b3 & E & L & Hb); [lia..| |by apply Hm|].
    { by destruct G as [-> _]. }
    exists b3. split_and!; [done| |done]. by destruct G as [<- _].
  - destruct (IH bits (pc + 1)) as (b3 & E & L & Hb); [lia..|done| |by exists b3].
    specialize (Hm bits). rewrite Z.add_0_r in Hm. by apply Hm, marks_refl.
Qed.

(** The analysis of a program returns, and answers the jump destination test
    as the scan does. *)
Lemma codeBitmap_segments code : exists bits, codeBitmap code = Ret bits /\
  forall p, 0 <= p < Z.of_nat (length code) ->
    exists d, segments 0 code !! Z.to_nat p = Some d /\ codeSegment bits p = Ret (negb d).
Proof.
  unfold codeBitmap. set (b0 := replicate _ _).
  destruct (codeBitmapLoop_spec (length code) code b0 0) as (bits & E & L & Hb); [lia|lia| | |].
  - unfold b0; by rewrite length_replicate.
  - split_and!; [|lia|done]. intros p Hp. unfold bit, b0. destruct (replicate _ 0 !! _) eqn:Er; [|apply Z.testbit_0_l].
    apply lookup_replicate_1 in Er as [-> _]. apply Z.testbit_0_l.
  - exists bits. split; [done|]. intros p Hp. exists (bit bits p). split; [by apply Hb|].
    unfold codeSegment, bit. destruct (divide8 p) as [Ep Hm8].
    destruct (lookup_lt_is_Some_2 bits (Z.to_nat (p / 8))) as [b Eb].
    { rewrite L. unfold b0. rewrite length_replicate.
      assert (p / 8 <= Z.of_nat (length code) / 8) by (apply Z.div_le_mono; lia).
      apply Nat2Z.inj_lt. rewrite Z2Nat.id by (apply Z.div_pos; lia). rewrite !Nat2Z.inj_add, Nat2Z.inj_div. lia. }
    rewrite Eb. simpl. f_equal. apply land_mask; lia.
Qed.
