(* ===== verification/Transaction.v ===== *)
(** * Transactions, signers and messages (core/types)

    Addresses and hashes are the integers their 20 and 32 bytes stand for.
    Keccak-256 and public-key recovery are library code outside the
    repository: they are the parameters of the class [Crypto].  The caches of
    a transaction's hash and sender hold what would be recomputed and are left
    out; the cached size is kept, because decoding stores a size that
    recomputation need not give back. *)

From S2P Require Import Prelude Rlp Params.

Abbreviation Address := Z.
Abbreviation Hash := Z.

Definition AddressLength : nat := 20.
Definition HashLength : nat := 32.

Class Crypto := {
  keccak256 : bytes -> Hash;              (* golang.org/x/crypto/sha3 *)
  ecrecover : Hash -> bytes -> option bytes (* secp256k1 public key recovery *)
}.

(** A simple instance for concrete runs: the digest is the number the bytes
    spell, and the signature carries the public key. *)
Definition toyCrypto : Crypto := {|
  keccak256 b := of_be b mod 2 ^ 256;
  ecrecover _ sig := Some (4 :: take 64 sig)
|}.

(** ** Errors of core/types, core/error.go and core/tx_pool.go *)

Inductive error :=
| ErrInvalidSig | ErrInvalidChainId | ErrTxTypeNotSupported | ErrInvalidPublicKey
| ErrEcrecover
| ErrNonceTooLow | ErrNonceTooHigh | ErrGasLimitReached | ErrInsufficientFundsForTransfer
| ErrInsufficientFunds | ErrGasUintOverflow | ErrIntrinsicGas
| ErrInsufficientAcks | ErrNonceAlreadyAcked | ErrUnexpectedNonce
| ErrAlreadyKnown | ErrInvalidSender | ErrUnderpriced | ErrTxPoolOverflow
| ErrReplaceUnderpriced | ErrGasLimit | ErrNegativeValue | ErrOversizedData
| ErrUnknownAncestor | ErrFutureBlock
| errUnknownBlock | errInvalidCheckpointBeneficiary | errInvalidVote | errInvalidCheckpointVote
| errMissingVanity | errMissingSignature | errExtraSigners | errInvalidCheckpointSigners
| errMismatchingCheckpointSigners | errInvalidMixDigest | errInvalidUncleHash | errInvalidDifficulty
| errInvalidTimestamp | errInvalidVotingChain | errUnauthorizedSigner | errWrongValidatorSigned
| errForkHash | errUncles | errDatabase | errSigner
| ErrKnownBlock | ErrBlacklistedHash | ErrPrunedAncestor | errUncleRoot | errTxRoot | errFutureTime
| errNonContiguous | errMissingNode | errGasUsed | errBloom | errReceiptRoot | errMerkleRoot.

#[export] Instance error_eq_dec : EqDecision error.
Proof. solve_decision. Defined.

(** ** Transaction data *)

Record AccessTuple := mkAccessTuple { at_Address : Address; at_StorageKeys : list Hash }.
Abbreviation AccessList := (list AccessTuple).

Definition StorageKeys (al : AccessList) : Z :=
  foldr (fun t sum => Z.of_nat (length (at_StorageKeys t)) + sum) 0 al.

Record LegacyTx := mkLegacyTx {
  lt_Nonce : Z; lt_GasPrice : Z; lt_Gas : Z; lt_To : option Address;
  lt_Value : Z; lt_Data : bytes; lt_V : Z; lt_R : Z; lt_S : Z
}.

Record AccessListTx := mkAccessListTx {
  al_ChainID : Z; al_Nonce : Z; al_GasPrice : Z; al_Gas : Z; al_To : option Address;
  al_Value : Z; al_Data : bytes; al_AccessList : AccessList;
  al_V : Z; al_R : Z; al_S : Z
}.

Inductive TxData :=
| TxLegacy (t : LegacyTx)
| TxAccessList (t : AccessListTx).

Record Transaction := mkTransaction {
  inner : TxData;
  time : Z;              (* first seen locally *)
  size_cache : option Z  (* set when the transaction was decoded *)
}.

#[export] Instance AccessTuple_eq_dec : EqDecision AccessTuple.
Proof. solve_decision. Defined.
#[export] Instance LegacyTx_eq_dec : EqDecision LegacyTx.
Proof. solve_decision. Defined.
#[export] Instance AccessListTx_eq_dec : EqDecision AccessListTx.
Proof. solve_decision. Defined.
#[export] Instance TxData_eq_dec : EqDecision TxData.
Proof. solve_decision. Defined.
#[export] Instance Transaction_eq_dec : EqDecision Transaction.
Proof. solve_decision. Defined.

Definition LegacyTxType : Z := 0.
Definition AccessListTxType : Z := 1.

Definition deriveChainId (v : Z) : Z :=
  if bitLen v <=? 64 then
    let v := u64 v in
    if (v =? 27) || (v =? 28) then 0 else u64 (v - 35) / 2
  else (v - 35) / 2.

Definition Type_ (tx : Transaction) : Z :=
  match inner tx with TxLegacy _ => LegacyTxType | TxAccessList _ => AccessListTxType end.
Definition ChainId (tx : Transaction) : Z :=
  match inner tx with TxLegacy t => deriveChainId (lt_V t) | TxAccessList t => al_ChainID t end.
Definition Data (tx : Transaction) : bytes :=
  match inner tx with TxLegacy t => lt_Data t | TxAccessList t => al_Data t end.
Definition AccessList_ (tx : Transaction) : AccessList :=
  match inner tx with TxLegacy _ => [] | TxAccessList t => al_AccessList t end.
Definition Gas (tx : Transaction) : Z :=
  match inner tx with TxLegacy t => lt_Gas t | TxAccessList t => al_Gas t end.
Definition GasPrice (tx : Transaction) : Z :=
  match inner tx with TxLegacy t => lt_GasPrice t | TxAccessList t => al_GasPrice t end.
Definition Value (tx : Transaction) : Z :=
  match inner tx with TxLegacy t => lt_Value t | TxAccessList t => al_Value t end.
Definition Nonce (tx : Transaction) : Z :=
  match inner tx with TxLegacy t => lt_Nonce t | TxAccessList t => al_Nonce t end.
Definition To (tx : Transaction) : option Address :=
  match inner tx with TxLegacy t => lt_To t | TxAccessList t => al_To t end.
Definition RawSignatureValues (tx : Transaction) : Z * Z * Z :=
  match inner tx with
  | TxLegacy t => (lt_V t, lt_R t, lt_S t)
  | TxAccessList t => (al_V t, al_R t, al_S t)
  end.

(** Cost returns gas * gasPrice + value. *)
Definition Cost (tx : Transaction) : Z := GasPrice tx * Gas tx + Value tx.

Definition GasPriceCmp (tx other : Transaction) : comparison := GasPrice tx ?= GasPrice other.
Definition GasPriceIntCmp (tx : Transaction) (other : Z) : comparison := GasPrice tx ?= other.

(** ** RLP encoding, hash and size *)

Definition rlpAddress (a : Address) : value := VByteArray (be_bytes AddressLength a).
Definition rlpHash32 (h : Hash) : value := VByteArray (be_bytes HashLength h).
Definition rlpTo (to : option Address) : value :=
  match to with Some a => rlpAddress a | None => VNil String end.
Definition rlpAccessTuple (t : AccessTuple) : value :=
  VList [rlpAddress (at_Address t); VList (rlpHash32 <$> at_StorageKeys t)].
Definition rlpAccessList (l : AccessList) : value := VList (rlpAccessTuple <$> l).

Definition rlpTxData (d : TxData) : value :=
  match d with
  | TxLegacy t => VList
      [VUint (lt_Nonce t); VBig (Some (lt_GasPrice t)); VUint (lt_Gas t); rlpTo (lt_To t);
       VBig (Some (lt_Value t)); VBytes (lt_Data t);
       VBig (Some (lt_V t)); VBig (Some (lt_R t)); VBig (Some (lt_S t))]
  | TxAccessList t => VList
      [VBig (Some (al_ChainID t)); VUint (al_Nonce t); VBig (Some (al_GasPrice t));
       VUint (al_Gas t); rlpTo (al_To t); VBig (Some (al_Value t)); VBytes (al_Data t);
       rlpAccessList (al_AccessList t);
       VBig (Some (al_V t)); VBig (Some (al_R t)); VBig (Some (al_S t))]
  end.

(** An encoding error leaves the hasher, or the byte counter, without input. *)
Definition encodeOrNothing (v : value) : bytes := default [] (EncodeToBytes v).

(** [MarshalBinary]: the canonical encoding, typed transactions prefixed with
    their type. *)
Definition MarshalBinary (tx : Transaction) : option bytes :=
  match inner tx with
  | TxLegacy _ => EncodeToBytes (rlpTxData (inner tx))
  | TxAccessList _ => cons AccessListTxType <$> EncodeToBytes (rlpTxData (inner tx))
  end.

(** Size: the cached decoded size, or the size of the encoding of [inner]. *)
Definition Size (tx : Transaction) : Z :=
  match size_cache tx with
  | Some s => s
  | None => Z.of_nat (length (encodeOrNothing (rlpTxData (inner tx))))
  end.

(** ** Signers *)

Inductive Signer :=
| FrontierSigner
| HomesteadSigner
| EIP155Signer (chainId : Z)
| eip2930Signer (chainId : Z).

#[export] Instance Signer_eq_dec : EqDecision Signer.
Proof. solve_decision. Defined.

Definition secp256k1N : Z :=
  0xfffffffffffffffffffffffffffffffebaaedce6af48a03bbfd25e8cd0364141.
Definition secp256k1halfN : Z := secp256k1N / 2.

Definition ValidateSignatureValues (v r s : Z) (homestead : bool) : bool :=
  if (r <? 1) || (s <? 1) then false
  else if homestead && (secp256k1halfN <? s) then false
  else (r <? secp256k1N) && (s <? secp256k1N) && ((v =? 0) || (v =? 1)).

Definition isProtectedV (V : Z) : bool :=
  if bitLen V <=? 8 then
    let v := u64 V in
    negb (v =? 27) && negb (v =? 28) && negb (v =? 1) && negb (v =? 0)
  else true.

Definition Protected (tx : Transaction) : bool :=
  match inner tx with TxLegacy t => isProtectedV (lt_V t) | TxAccessList _ => true end.

Definition MakeSigner (config : ChainConfig) (blockNumber : option Z) : Signer :=
  if IsBerlin config blockNumber then eip2930Signer (default 0 (ChainID config))
  else if IsEIP155 config blockNumber then EIP155Signer (default 0 (ChainID config))
  else if IsHomestead config blockNumber then HomesteadSigner
  else FrontierSigner.

Definition LatestSigner (config : ChainConfig) : Signer :=
  match ChainID config with
  | Some id =>
      if bool_decide (BerlinBlock config <> None) || bool_decide (YoloV3Block config <> None)
      then eip2930Signer id
      else if bool_decide (EIP155Block config <> None) then EIP155Signer id
      else HomesteadSigner
  | None => HomesteadSigner
  end.

Section WithCrypto.
Context `{Crypto}.

Definition rlpHash (v : value) : Hash := keccak256 (encodeOrNothing v).
Definition prefixedRlpHash (prefix : Z) (v : value) : Hash :=
  keccak256 (prefix :: encodeOrNothing v).

(** Hash returns the transaction hash. *)
Definition TxHash (tx : Transaction) : Hash :=
  if Type_ tx =? LegacyTxType then rlpHash (rlpTxData (inner tx))
  else prefixedRlpHash (Type_ tx) (rlpTxData (inner tx)).

Definition frontierSigHash (tx : Transaction) : Hash :=
  rlpHash (VList [VUint (Nonce tx); VBig (Some (GasPrice tx)); VUint (Gas tx); rlpTo (To tx);
                  VBig (Some (Value tx)); VBytes (Data tx)]).

Definition eip155SigHash (chainId : Z) (tx : Transaction) : Hash :=
  rlpHash (VList [VUint (Nonce tx); VBig (Some (GasPrice tx)); VUint (Gas tx); rlpTo (To tx);
                  VBig (Some (Value tx)); VBytes (Data tx);
                  VBig (Some chainId); VUint 0; VUint 0]).

(** Signer.Hash: what the sender signs. *)
Definition SigHash (s : Signer) (tx : Transaction) : Hash :=
  match s with
  | FrontierSigner | HomesteadSigner => frontierSigHash tx
  | EIP155Signer chainId => eip155SigHash chainId tx
  | eip2930Signer chainId =>
      match inner tx with
      | TxLegacy _ => eip155SigHash chainId tx
      | TxAccessList _ =>
          prefixedRlpHash AccessListTxType
            (VList [VBig (Some chainId); VUint (Nonce tx); VBig (Some (GasPrice tx));
                    VUint (Gas tx); rlpTo (To tx); VBig (Some (Value tx)); VBytes (Data tx);
                    rlpAccessList (AccessList_ tx)])
      end
  end.

Definition recoverPlain (sighash : Hash) (R S' Vb : Z) (homestead : bool) : Address + error :=
  if 8 <? bitLen Vb then inr ErrInvalidSig
  else
    let V := u64 (u64 Vb - 27) mod 256 in
    if negb (ValidateSignatureValues V R S' homestead) then inr ErrInvalidSig
    else
      let sig := be_bytes 32 R ++ be_bytes 32 S' ++ [V] in
      match ecrecover sighash sig with
      | None => inr ErrEcrecover
      | Some pub =>
          match pub with
          | p0 :: rest => if p0 =? 4 then inl (keccak256 rest mod 2 ^ 160)
                          else inr ErrInvalidPublicKey
          | [] => inr ErrInvalidPublicKey
          end
      end.

Definition frontierSender (homestead : bool) (tx : Transaction) : Address + error :=
  if negb (Type_ tx =? LegacyTxType) then inr ErrTxTypeNotSupported
  else let '(v, r, s) := RawSignatureValues tx in
       recoverPlain (frontierSigHash tx) r s v homestead.

(** Sender derives the sending address from the signature. *)
Definition Sender (signer : Signer) (tx : Transaction) : Address + error :=
  let '(V, R, S') := RawSignatureValues tx in
  match signer with
  | FrontierSigner => frontierSender false tx
  | HomesteadSigner => frontierSender true tx
  | EIP155Signer chainId =>
      if negb (Type_ tx =? LegacyTxType) then inr ErrTxTypeNotSupported
      else if negb (Protected tx) then frontierSender true tx
      else if negb (ChainId tx =? chainId) then inr ErrInvalidChainId
      else recoverPlain (SigHash signer tx) R S' (V - chainId * 2 - 8) true
  | eip2930Signer chainId =>
      match inner tx with
      | TxLegacy _ =>
          if negb (Protected tx) then frontierSender true tx
          else if negb (ChainId tx =? chainId) then inr ErrInvalidChainId
          else recoverPlain (SigHash signer tx) R S' (V - chainId * 2 - 8) true
      | TxAccessList _ =>
          if negb (ChainId tx =? chainId) then inr ErrInvalidChainId
          else recoverPlain (SigHash signer tx) R S' (V + 27) true
      end
  end.

(** ** Messages *)

Record Message := mkMessage {
  m_to : option Address; m_from : Address; m_nonce : Z; m_amount : Z; m_gasLimit : Z;
  m_gasPrice : Z; m_data : bytes; m_accessList : AccessList; m_checkNonce : bool
}.

Definition AsMessage (tx : Transaction) (s : Signer) : Message + error :=
  match Sender s tx with
  | inr e => inr e
  | inl from => inl (mkMessage (To tx) from (Nonce tx) (Value tx) (Gas tx) (GasPrice tx)
                       (Data tx) (AccessList_ tx) true)
  end.

(** TxDifference returns the transactions of [a] whose hash is not in [b]. *)
Definition TxDifference (a b : list Transaction) : list Transaction :=
  let remove : gset Hash := list_to_set (TxHash <$> b) in
  filter (fun tx => TxHash tx ∉ remove) a.

End WithCrypto.

(** A transaction to try things on. *)
Definition tx_at (nonce price : Z) : Transaction :=
  mkTransaction (TxLegacy (mkLegacyTx nonce price 21000 None 0 [] 27 1 1)) 0 None.
