(* ===== verification/Trie.v ===== *)
(** * Merkle Patricia tries (trie/encoding.go, trie/node.go, trie/trie.go)

    A key is a list of nibbles closed by the terminator 16.  A node is one of
    the four kinds of node.go; the nil interface is [nilNode].  The database
    the trie reads nodes from is the parameter [db]: a lookup may find
    nothing, or panic on data that does not decode.

    Keys are shared between nodes and never written to, and a path built with
    append is only read by the call it is passed to, so slices are values.
    The recursion follows resolved nodes, so it takes fuel; running out
    counts as a panic. *)

From S2P Require Import Prelude Rlp RlpRaw Transaction.

(** ** Key encodings *)

Definition hasTerm (s : bytes) : bool := bool_decide (last s = Some 16).

Definition keybytesToHex (str : bytes) : bytes :=
  concat ((fun b => [b / 16; b mod 16]) <$> str) ++ [16].

(** A left shift of a byte drops the high bits. *)
Definition joinNibbles (hi lo : Z) : Z := Z.lor (Z.land (Z.shiftl hi 4) 0xff) lo.

(** An odd number of nibbles is an index out of range. *)
Fixpoint decodeNibbles (nibbles : bytes) : outcome bytes :=
  match nibbles with
  | [] => Ret []
  | [_] => Panic
  | hi :: lo :: nibbles => r ← decodeNibbles nibbles; Ret (joinNibbles hi lo :: r)
  end.

Definition hexToCompact (hex : bytes) : outcome bytes :=
  let terminator := if hasTerm hex then 1 else 0 in
  let hex := if hasTerm hex then take (length hex - 1) hex else hex in
  let flag := Z.shiftl terminator 5 in
  match hex with
  | first :: rest =>
      if Nat.odd (length hex) then
        r ← decodeNibbles rest; Ret (Z.lor (Z.lor flag (Z.shiftl 1 4)) first :: r)
      else r ← decodeNibbles hex; Ret (flag :: r)
  | [] => Ret [flag]
  end.

(** The loop of hexToCompactInPlace: byte [bi] of the buffer is written from
    the nibbles [ni] and [ni + 1] of the same buffer. *)
Fixpoint compactLoop (fuel bi ni hexLen : nat) (hex : bytes) : outcome bytes :=
  match fuel with
  | O => Panic
  | S fuel =>
      if (ni <? hexLen)%nat then
        match hex !! ni, hex !! S ni, hex !! bi with
        | Some hi, Some lo, Some _ => compactLoop fuel (S bi) (S (S ni)) hexLen (<[bi := joinNibbles hi lo]> hex)
        | _, _, _ => Panic
        end
      else Ret hex
  end.

Definition hexToCompactInPlace (hex : bytes) : outcome (bytes * nat) :=
  let term := hasTerm hex in
  let hexLen := if term then (length hex - 1)%nat else length hex in
  let firstByte := if term then Z.shiftl 1 5 else 0 in
  let binLen := (hexLen / 2 + 1)%nat in
  match hex with
  | [] => Panic
  | first :: _ =>
      let odd := Nat.odd hexLen in
      let firstByte := if odd then Z.lor (Z.lor firstByte (Z.shiftl 1 4)) first else firstByte in
      hex ← compactLoop (S (length hex)) 1 (if odd then 1 else 0) hexLen hex;
      Ret (<[0%nat := firstByte]> hex, binLen)
  end.

Definition compactToHex (compact : bytes) : bytes :=
  match compact with
  | [] => []
  | c :: _ =>
      let base := keybytesToHex compact in
      let base := if c / 16 <? 2 then take (length base - 1) base else base in
      drop (Z.to_nat (2 - Z.land (c / 16) 1)) base
  end.

Definition hexToKeybytes (hex : bytes) : outcome bytes :=
  let hex := if hasTerm hex then take (length hex - 1) hex else hex in
  if Nat.odd (length hex) then Panic else decodeNibbles hex.

Fixpoint prefixLen (a b : bytes) : nat :=
  match a, b with
  | x :: a, y :: b => if x =? y then S (prefixLen a b) else 0%nat
  | _, _ => 0%nat
  end.

(** ** Nodes *)

Record nodeFlag := mkFlag { fl_hash : option bytes; fl_dirty : bool }.

Inductive node :=
| nilNode
| fullNode (Children : list node) (flags : nodeFlag)
| shortNode (Key : bytes) (Val : node) (flags : nodeFlag)
| hashNode (h : bytes)
| valueNode (v : bytes).

Definition newFlag : nodeFlag := mkFlag None true.

(** The cached hash, and whether the node must be written; a nil interface
    has no method. *)
Definition cache (n : node) : outcome (option bytes * bool) :=
  match n with
  | nilNode => Panic
  | fullNode _ f | shortNode _ _ f => Ret (fl_hash f, fl_dirty f)
  | hashNode _ | valueNode _ => Ret (None, true)
  end.

(** common.BytesToHash: the last 32 bytes. *)
Definition BytesToHash (b : bytes) : Hash := of_be (drop (length b - HashLength) b).

Record MissingNodeError := mkMissing { NodeHash : Hash; Path : bytes }.

Record Trie := mkTrie { tr_root : node; tr_unhashed : Z }.
#[export] Instance eta_Trie : Eta Trie := fun r => mkTrie (tr_root r) (tr_unhashed r).

(** ** Operations *)

(** The index of the one child that is not nil, -1 if there is none and -2 if
    there are several. *)
Fixpoint onlyChild (i pos : Z) (cs : list node) : Z :=
  match cs with
  | [] => pos
  | nilNode :: cs => onlyChild (i + 1) pos cs
  | _ :: cs => if pos =? -1 then onlyChild (i + 1) i cs else -2
  end.

Section Operations.
Context (db : Hash -> outcome (option node)).

Definition resolveHash (n : bytes) (prefix : bytes) : outcome (node + MissingNodeError) :=
  let hash := BytesToHash n in
  r ← db hash;
  match r with
  | Some n => Ret (inl n)
  | None => Ret (inr (mkMissing hash prefix))
  end.

Definition resolve (n : node) (prefix : bytes) : outcome (node + MissingNodeError) :=
  match n with hashNode h => resolveHash h prefix | _ => Ret (inl n) end.

(** The value, the node with what was resolved on the way, and whether
    something was. *)
Fixpoint tryGet (fuel : nat) (origNode : node) (key : bytes) (pos : nat)
  : outcome (option bytes * node * bool * option MissingNodeError) :=
  match fuel with
  | O => Panic
  | S fuel =>
      match origNode with
      | nilNode => Ret (None, nilNode, false, None)
      | valueNode v => Ret (Some v, origNode, false, None)
      | shortNode k c flags =>
          if bool_decide (length key - pos < length k)%nat || bool_decide (take (length k) (drop pos key) <> k)
          then Ret (None, origNode, false, None)
          else
            '(value, newnode, didResolve, err) ← tryGet fuel c key (pos + length k);
            let n := if bool_decide (err = None) && didResolve then shortNode k newnode flags else origNode in
            Ret (value, n, didResolve, err)
      | fullNode cs flags =>
          match key !! pos with
          | None => Panic
          | Some i =>
              match cs !! Z.to_nat i with
              | None => Panic
              | Some c =>
                  '(value, newnode, didResolve, err) ← tryGet fuel c key (S pos);
                  let n := if bool_decide (err = None) && didResolve
                           then fullNode (<[Z.to_nat i := newnode]> cs) flags else origNode in
                  Ret (value, n, didResolve, err)
              end
          end
      | hashNode h =>
          r ← resolveHash h (take pos key);
          match (r : node + MissingNodeError) with
          | inr e => Ret (None, origNode, true, Some e)
          | inl child =>
              '(value, newnode, _, err) ← tryGet fuel child key pos;
              Ret (value, newnode, true, err)
          end
      end
  end.

Definition TryGet (fuel : nat) (t : Trie) (key : bytes) : outcome (Trie * option bytes * option MissingNodeError) :=
  '(value, newroot, didResolve, err) ← tryGet fuel (tr_root t) (keybytesToHex key) 0;
  Ret (if bool_decide (err = None) && didResolve then t <| tr_root := newroot |> else t, value, err).

(** Whether the trie changed, and the new node. *)
Fixpoint insert (fuel : nat) (n : node) (prefix key : bytes) (value : node)
  : outcome (bool * node * option MissingNodeError) :=
  match fuel with
  | O => Panic
  | S fuel =>
      match key with
      | [] =>
          match n with
          | valueNode v =>
              match value with
              | valueNode w => Ret (bool_decide (v <> w), value, None)
              | _ => Panic
              end
          | _ => Ret (true, value, None)
          end
      | first :: rest =>
          match n with
          | shortNode k c flags =>
              let matchlen := prefixLen key k in
              if (matchlen =? length k)%nat then
                '(dirty, nn, err) ← insert fuel c (prefix ++ take matchlen key) (drop matchlen key) value;
                if negb dirty || bool_decide (err <> None) then Ret (false, n, err)
                else Ret (true, shortNode k nn newFlag, None)
              else
                match k !! matchlen, key !! matchlen with
                | Some ki, Some i =>
                    '(_, old, err) ← insert fuel nilNode (prefix ++ take (S matchlen) k) (drop (S matchlen) k) c;
                    if bool_decide (err <> None) then Ret (false, nilNode, err)
                    else
                      '(_, new, err) ← insert fuel nilNode (prefix ++ take (S matchlen) key) (drop (S matchlen) key) value;
                      if bool_decide (err <> None) then Ret (false, nilNode, err)
                      else
                        let branch := fullNode (<[Z.to_nat i := new]> (<[Z.to_nat ki := old]> (replicate 17 nilNode))) newFlag in
                        Ret (true, if (matchlen =? 0)%nat then branch else shortNode (take matchlen key) branch newFlag, None)
                | _, _ => Panic
                end
          | fullNode cs flags =>
              match cs !! Z.to_nat first with
              | None => Panic
              | Some c =>
                  '(dirty, nn, err) ← insert fuel c (prefix ++ [first]) rest value;
                  if negb dirty || bool_decide (err <> None) then Ret (false, n, err)
                  else Ret (true, fullNode (<[Z.to_nat first := nn]> cs) newFlag, None)
              end
          | nilNode => Ret (true, shortNode key value newFlag, None)
          | hashNode h =>
              r ← resolveHash h prefix;
              match (r : node + MissingNodeError) with
              | inr e => Ret (false, nilNode, Some e)
              | inl rn =>
                  '(dirty, nn, err) ← insert fuel rn prefix key value;
                  if negb dirty || bool_decide (err <> None) then Ret (false, rn, err) else Ret (true, nn, None)
              end
          | valueNode _ => Panic
          end
      end
  end.

(** A full node whose only child is at [pos] becomes a short node. *)
Definition reduce (cs : list node) (pos : Z) (prefix : bytes) : outcome (bool * node * option MissingNodeError) :=
  match cs !! Z.to_nat pos with
  | None => Panic
  | Some c =>
      if pos =? 16 then Ret (true, shortNode [pos] c newFlag, None)
      else
        r ← resolve c prefix;
        match (r : node + MissingNodeError) with
        | inr e => Ret (false, nilNode, Some e)
        | inl (shortNode k v _) => Ret (true, shortNode (pos :: k) v newFlag, None)
        | inl _ => Ret (true, shortNode [pos] c newFlag, None)
        end
  end.

Fixpoint delete (fuel : nat) (n : node) (prefix key : bytes) : outcome (bool * node * option MissingNodeError) :=
  match fuel with
  | O => Panic
  | S fuel =>
      match n with
      | shortNode k c flags =>
          let matchlen := prefixLen key k in
          if (matchlen <? length k)%nat then Ret (false, n, None)
          else if (matchlen =? length key)%nat then Ret (true, nilNode, None)
          else
            '(dirty, child, err) ← delete fuel c (prefix ++ take (length k) key) (drop (length k) key);
            if negb dirty || bool_decide (err <> None) then Ret (false, n, err)
            else
              match child with
              | shortNode k' v _ => Ret (true, shortNode (k ++ k') v newFlag, None)
              | _ => Ret (true, shortNode k child newFlag, None)
              end
      | fullNode cs flags =>
          match key with
          | [] => Panic
          | first :: rest =>
              match cs !! Z.to_nat first with
              | None => Panic
              | Some c =>
                  '(dirty, nn, err) ← delete fuel c (prefix ++ [first]) rest;
                  if negb dirty || bool_decide (err <> None) then Ret (false, n, err)
                  else
                    let cs := <[Z.to_nat first := nn]> cs in
                    let pos := onlyChild 0 (-1) cs in
                    if 0 <=? pos then reduce cs pos prefix else Ret (true, fullNode cs newFlag, None)
              end
          end
      | valueNode _ => Ret (true, nilNode, None)
      | nilNode => Ret (false, nilNode, None)
      | hashNode h =>
          r ← resolveHash h prefix;
          match (r : node + MissingNodeError) with
          | inr e => Ret (false, nilNode, Some e)
          | inl rn =>
              '(dirty, nn, err) ← delete fuel rn prefix key;
              if negb dirty || bool_decide (err <> None) then Ret (false, rn, err) else Ret (true, nn, None)
          end
      end
  end.

(** The trie counts the update even when it fails. *)
Definition TryDelete (fuel : nat) (t : Trie) (key : bytes) : outcome (Trie * option MissingNodeError) :=
  let t := t <| tr_unhashed := tr_unhashed t + 1 |> in
  '(_, n, err) ← delete fuel (tr_root t) [] (keybytesToHex key);
  Ret (if bool_decide (err = None) then t <| tr_root := n |> else t, err).

Definition TryUpdate (fuel : nat) (t : Trie) (key value : bytes) : outcome (Trie * option MissingNodeError) :=
  if bool_decide (value <> []) then
    let t := t <| tr_unhashed := tr_unhashed t + 1 |> in
    '(_, n, err) ← insert fuel (tr_root t) [] (keybytesToHex key) (valueNode value);
    Ret (if bool_decide (err = None) then t <| tr_root := n |> else t, err)
  else TryDelete fuel t key.

End Operations.
