(* ===== verification/TrieMap.v ===== *)
(** * The trie as a finite map

    [tree] is what a trie stands for once every hash is resolved and the
    cached flags are forgotten; [rep] relates nodes to it, with a database
    that may lack nodes. *)

From S2P Require Import Prelude Rlp RlpRaw Transaction Trie.

Inductive tree :=
| TNil
| TVal (v : bytes)
| TShort (k : bytes) (t : tree)
| TFull (ts : list tree).

(** ** Contents *)

Definition at_index {A} (l : list A) (i : Z) : option A := if 0 <=? i then l !! Z.to_nat i else None.

Fixpoint tget (t : tree) (key : bytes) {struct t} : option bytes :=
  match t with
  | TNil => None
  | TVal v => match key with [] => Some v | _ => None end
  | TShort k t => if bool_decide (take (length k) key = k) then tget t (drop (length k) key) else None
  | TFull ts =>
      match key with
      | [] => None
      | i :: key => match at_index (List.map tget ts) i with Some get => get key | None => None end
      end
  end.

(** ** Well-formed trees *)

Definition nibble (x : Z) : Prop := 0 <= x < 16.

(** Nibbles closed by the terminator. *)
Fixpoint term (k : bytes) : Prop :=
  match k with
  | [] => False
  | x :: k => (x = 16 /\ k = []) \/ (nibble x /\ term k)
  end.

Definition isVal (t : tree) : Prop := exists v, t = TVal v /\ v <> [].

(** A leaf holds the rest of its key; an extension leads to a branch; a
    branch has two children at least, and a value only at the terminator. *)
Inductive wf : tree -> Prop :=
| wf_leaf k v : term k -> v <> [] -> wf (TShort k (TVal v))
| wf_ext k ts : k <> [] -> Forall nibble k -> wf (TFull ts) -> wf (TShort k (TFull ts))
| wf_branch ts i j a b : length ts = 17%nat ->
    i <> j -> ts !! i = Some a -> ts !! j = Some b -> a <> TNil -> b <> TNil ->
    (forall c, ts !! 16%nat = Some c -> c = TNil \/ isVal c) ->
    (forall i c, (i < 16)%nat -> ts !! i = Some c -> c <> TNil -> wf c) ->
    wf (TFull ts).

Definition wf0 (t : tree) : Prop := t = TNil \/ wf t.

(** ** Commitments *)

Definition orNil (r : outcome bytes) : bytes := match r with Ret b => b | Panic => [] end.

Section Hashes.
Context `{Crypto}.

Definition digest (v : value) : bytes := be_bytes HashLength (keccak256 (encodeOrNothing v)).

(** A node of 32 bytes or more is referred to by its hash. *)
Definition shrink (v : value) : value :=
  if bool_decide (length (encodeOrNothing v) < 32)%nat then v else VBytes (digest v).

(** The consensus encoding of a tree, its children by reference. *)
Fixpoint collapse (t : tree) : value :=
  match t with
  | TNil => VBytes []
  | TVal v => VBytes v
  | TShort k t =>
      VList [VBytes (orNil (hexToCompact k));
             match t with TFull _ | TShort _ _ => shrink (collapse t) | _ => collapse t end]
  | TFull ts =>
      VList (List.map (fun t => match t with TFull _ | TShort _ _ => shrink (collapse t) | _ => collapse t end) ts)
  end.

Definition hashBytes (t : tree) : bytes := digest (collapse t).

Lemma length_hashBytes t : length (hashBytes t) = HashLength.
Proof. apply length_be_bytes. Qed.

End Hashes.

(** ** Keys *)

Lemma term_cons x k : x <> 16 -> term (x :: k) <-> nibble x /\ term k.
Proof. cbn. naive_solver. Qed.

Lemma term_16 k : term (16 :: k) <-> k = [].
Proof. cbn. unfold nibble. split; [intros [[_ ->]|[? _]]; [done|lia]|auto]. Qed.

Lemma term_app p k : Forall nibble p -> term (p ++ k) <-> term k.
Proof.
  induction 1 as [|x p Hx Hp IH]; [done|]. cbn [app]. unfold nibble in Hx.
  rewrite term_cons by lia. rewrite IH. unfold nibble. tauto.
Qed.

(** No key is a proper prefix of another. *)
Lemma term_prefix_free p k : term p -> term (p ++ k) -> k = [].
Proof.
  induction p as [|x p IH]; [done|]. cbn [term app].
  intros [[-> ->]|[Hx Hp]] [[E1 E2]|[H1 H2]]; try done; unfold nibble in *; try lia.
  by apply IH.
Qed.

Lemma term_bound x k : term (x :: k) -> 0 <= x <= 16.
Proof. cbn. unfold nibble. lia. Qed.

(** ** Lookups *)

Lemma tget_val v k : tget (TVal v) k = if bool_decide (k = []) then Some v else None.
Proof. by destruct k. Qed.

Lemma tget_short_app p t k : tget (TShort p t) (p ++ k) = tget t k.
Proof. cbn. by rewrite take_app_length, drop_app_length, bool_decide_eq_true_2. Qed.

(** A key in a short node starts with the key of the node. *)
Lemma tget_short_inv p t k v : tget (TShort p t) k = Some v -> exists k', k = p ++ k' /\ tget t k' = Some v.
Proof.
  cbn. case_bool_decide as E; [|done]. intros G. exists (drop (length p) k). split; [|done].
  by rewrite <- E at 1; rewrite take_drop.
Qed.

Lemma tget_full ts k : tget (TFull ts) k =
  match k with [] => None | i :: k => match at_index ts i with Some t => tget t k | None => None end end.
Proof.
  destruct k as [|i k]; [done|]. cbn. unfold at_index. destruct (0 <=? i); [|done].
  change (List.map tget ts) with (tget <$> ts). rewrite list_lookup_fmap. by destruct (ts !! Z.to_nat i).
Qed.

Lemma at_index_nat {A} (l : list A) (i : nat) : at_index l (Z.of_nat i) = l !! i.
Proof. unfold at_index. by rewrite (proj2 (Z.leb_le _ _)), Nat2Z.id by lia. Qed.

Lemma at_index_insert {A} (l : list A) (i j : Z) x : 0 <= i < Z.of_nat (length l) ->
  at_index (<[Z.to_nat i := x]> l) j = if bool_decide (i = j) then Some x else at_index l j.
Proof.
  intros Hi. unfold at_index. destruct (Z.leb_spec 0 j); case_bool_decide; subst; try done; try lia.
  - rewrite list_lookup_insert_eq; [done|lia].
  - rewrite list_lookup_insert_ne; [done|lia].
Qed.

(** Every well-formed tree holds a key, and a branch holds two that differ in
    the first nibble. *)
Definition member (t : tree) (k : bytes) : Prop := term k /\ is_Some (tget t k).

Lemma child_member ts i c : length ts = 17%nat ->
  (forall c, ts !! 16%nat = Some c -> c = TNil \/ isVal c) ->
  (forall i c, (i < 16)%nat -> ts !! i = Some c -> c <> TNil -> exists k, member c k) ->
  ts !! i = Some c -> c <> TNil -> exists k, member (TFull ts) (Z.of_nat i :: k).
Proof.
  intros L Hl Hc Hi Hn. pose proof (lookup_lt_Some _ _ _ Hi). rewrite L in *.
  destruct (decide (i = 16%nat)) as [->|Hne].
  - destruct (Hl _ Hi) as [->|(v & -> & Hv)]; [done|]. exists []. split; [by apply term_16|].
    rewrite tget_full, at_index_nat, Hi. by eexists.
  - destruct (Hc i c) as (k & Hk & Hs); [lia|done..|]. exists k. split.
    + apply term_cons; [lia|]. unfold nibble. split; [lia|done].
    + by rewrite tget_full, at_index_nat, Hi.
Qed.

Lemma wf_member t : wf t -> exists k, member t k.
Proof.
  induction 1 as [k v Hk Hv|k ts Hn Hk Hw (k' & Hk' & Hs)|ts i j a b L Hij Hi Hj Ha Hb Hl Hc IH].
  - exists k. split; [done|]. rewrite <- (app_nil_r k) at 2. rewrite tget_short_app. by eexists.
  - exists (k ++ k'). split; [by apply term_app|]. by rewrite tget_short_app.
  - destruct (child_member ts i a) as [k Hk]; [done..|]. by eexists.
Qed.

Lemma branch_members ts : wf (TFull ts) ->
  exists x y kx ky, x <> y /\ member (TFull ts) (x :: kx) /\ member (TFull ts) (y :: ky).
Proof.
  inversion_clear 1 as [| |? i j a b L Hij Hi Hj Ha Hb Hl Hc].
  destruct (child_member ts i a) as [kx Hx]; [done|done|intros; by apply wf_member, Hc with i0|done..|].
  destruct (child_member ts j b) as [ky Hy]; [done|done|intros; by apply wf_member, Hc with i0|done..|].
  exists (Z.of_nat i), (Z.of_nat j), kx, ky. split; [lia|done].
Qed.

Lemma short_member p t k : member (TShort p t) k -> exists k', k = p ++ k'.
Proof. intros [_ [v Hv]]. apply tget_short_inv in Hv as (k' & -> & _). by eexists. Qed.

(** ** A tree is determined by its contents *)

Definition same (t u : tree) : Prop := forall k, term k -> tget t k = tget u k.

Lemma same_sym t u : same t u -> same u t.
Proof. intros E k Hk. by rewrite E. Qed.

Lemma same_member t u k : same t u -> member t k -> member u k.
Proof. intros E [Hk Hs]. split; [done|]. by rewrite <- E. Qed.

(** A prefix of two lists that part after [k] is a prefix of [k]. *)
Lemma common_prefix (p k q q' r r' : bytes) x y : x <> y ->
  k ++ x :: q = p ++ r -> k ++ y :: q' = p ++ r' -> p `prefix_of` k.
Proof.
  intros Hxy. revert k. induction p as [|z p IH]; intros k E E'; [apply prefix_nil|].
  destruct k as [|w k]; cbn in *; [congruence|]. injection E as -> E. injection E' as E'.
  apply prefix_cons. by apply (IH k).
Qed.

Lemma branch_not_short ts p t : p <> [] -> wf (TFull ts) -> ~ same (TFull ts) (TShort p t).
Proof.
  intros Hp Hw E. destruct (branch_members _ Hw) as (x & y & kx & ky & Hxy & Mx & My).
  apply (same_member _ _ _ E), short_member in Mx as [k Ex].
  apply (same_member _ _ _ E), short_member in My as [k' Ey].
  destruct p; [done|]. cbn in *. congruence.
Qed.

(** The path to a branch is the longest prefix its keys share. *)
Lemma ext_prefix p ts q t : wf (TFull ts) -> Forall nibble p -> same (TShort p (TFull ts)) (TShort q t) ->
  q `prefix_of` p.
Proof.
  intros Hw Hp E. destruct (branch_members _ Hw) as (x & y & kx & ky & Hxy & [Tx Sx] & [Ty Sy]).
  assert (forall k, term k -> is_Some (tget (TFull ts) k) -> exists k', p ++ k = q ++ k') as P.
  { intros k Hk Hs. apply (short_member q t), (same_member _ _ _ E). split; [by apply term_app|].
    by rewrite tget_short_app. }
  destruct (P _ Tx Sx) as [k Ex], (P _ Ty Sy) as [k' Ey]. by eapply common_prefix.
Qed.

Lemma leaf_not_ext k v p ts : wf (TFull ts) -> Forall nibble p -> ~ same (TShort p (TFull ts)) (TShort k (TVal v)).
Proof.
  intros Hw Hp E. destruct (branch_members _ Hw) as (x & y & kx & ky & Hxy & [Tx Sx] & [Ty Sy]).
  assert (forall q, term q -> is_Some (tget (TFull ts) q) -> p ++ q = k) as P.
  { intros q Hq Hs. assert (is_Some (tget (TShort k (TVal v)) (p ++ q))) as [w Hv].
    { rewrite <- E by by apply term_app. by rewrite tget_short_app. }
    apply tget_short_inv in Hv as ([|? ?] & -> & Hv); [|done]. by rewrite app_nil_r. }
  pose proof (P _ Tx Sx) as E1. rewrite <- (P _ Ty Sy) in E1. apply app_inv_head in E1. congruence.
Qed.

Lemma same_leaf k v k' v' : term k -> same (TShort k (TVal v)) (TShort k' (TVal v')) -> k = k' /\ v = v'.
Proof.
  intros Hk E. specialize (E k Hk). rewrite <- (app_nil_r k) in E at 2. rewrite tget_short_app, tget_val in E.
  symmetry in E. apply tget_short_inv in E as ([|? ?] & -> & E'); [|done].
  rewrite app_nil_r. split; [done|]. cbn in E'. congruence.
Qed.

Lemma same_children ts us i c d : (i < 17)%nat -> same (TFull ts) (TFull us) -> ts !! i = Some c -> us !! i = Some d ->
  if (i <? 16)%nat then same c d else tget c [] = tget d [].
Proof.
  intros Hi E Hc Hd. destruct (Nat.ltb_spec i 16).
  - intros k Hk. specialize (E (Z.of_nat i :: k)). rewrite !tget_full, !at_index_nat, Hc, Hd in E. apply E.
    apply term_cons; [lia|]. unfold nibble. split; [lia|done].
  - assert (i = 16)%nat as -> by lia. specialize (E [16]). rewrite !tget_full in E.
    change 16 with (Z.of_nat 16) in E. rewrite !at_index_nat, Hc, Hd in E. apply E. by apply term_16.
Qed.

Lemma same_last c d : (c = TNil \/ isVal c) -> (d = TNil \/ isVal d) -> tget c [] = tget d [] -> c = d.
Proof. intros [->|(v & -> & _)] [->|(w & -> & _)]; cbn; congruence. Qed.

Lemma wf_nil t : wf t -> ~ same t TNil.
Proof. intros Hw E. destruct (wf_member _ Hw) as (k & Hk & v & Hv). rewrite E in Hv; done. Qed.

Lemma TNil_dec t : t = TNil \/ t <> TNil.
Proof. destruct t; auto. Qed.

Lemma canonical t u : wf t -> wf u -> same t u -> t = u.
Proof.
  intros Ht. revert u. induction Ht as [k v Hk Hv|k ts Hn Hk Hw IH|ts i j a b L Hij Hi Hj Ha Hb Hl Hc IH];
    intros u Hu E; inversion Hu as [k' v' Hk' Hv'|k' us Hn' Hp' Hw'|us i' j' a' b' L' Hij' Hi' Hj' Ha' Hb' Hl' Hc']; subst.
  - by destruct (same_leaf _ _ _ _ Hk E) as [-> ->].
  - by apply same_sym, leaf_not_ext in E.
  - exfalso. apply (branch_not_short us k (TVal v)); [by destruct k|done|by apply same_sym].
  - by apply leaf_not_ext in E.
  - pose proof (ext_prefix _ _ _ _ Hw Hk E) as [r R]. pose proof (ext_prefix _ _ _ _ Hw' Hp' (same_sym _ _ E)) as [s S].
    assert (r = []) as ->. { apply (f_equal length) in R, S. rewrite !length_app in *. destruct r; [done|cbn in *; lia]. }
    rewrite app_nil_r in R. subst k'. f_equal. apply IH; [done|]. intros q Hq.
    specialize (E (k ++ q)). rewrite !tget_short_app in E. apply E. by apply term_app.
  - exfalso. apply (branch_not_short us k (TFull ts)); [done|done|by apply same_sym].
  - exfalso. apply (branch_not_short ts k' (TVal v')); [by destruct k'|by eapply wf_branch|done].
  - exfalso. apply (branch_not_short ts k' (TFull us)); [done|by eapply wf_branch|done].
  - f_equal. apply (list_eq_same_length _ _ 17); [done..|]. intros m c d Hm Hmc Hmd.
    pose proof (same_children _ _ m c d Hm E Hmc Hmd) as S. destruct (Nat.ltb_spec m 16).
    + destruct (TNil_dec c) as [->|Hcn], (TNil_dec d) as [->|Hdn]; [done| | |].
      * apply same_sym, wf_nil in S; [done|]. by apply (Hc' m).
      * apply wf_nil in S; [done|]. by apply (Hc m).
      * apply (IH m); [done..| |done]. by apply (Hc' m).
    + assert (m = 16)%nat as -> by lia. apply same_last; [by apply Hl|by apply Hl'|done].
Qed.

Lemma canonical0 t u : wf0 t -> wf0 u -> same t u -> t = u.
Proof.
  intros [->|Ht] [->|Hu] E; [done| | |by apply canonical].
  - by apply same_sym, wf_nil in E.
  - by apply wf_nil in E.
Qed.

(** ** Changing one key *)

Definition updates (t t' : tree) (key : bytes) (o : option bytes) : Prop :=
  forall k, tget t' k = if bool_decide (k = key) then o else tget t k.

Lemma updates_same t key : updates t t key (tget t key).
Proof. intros k. case_bool_decide; by subst. Qed.

Lemma updates_short p t t' key o : updates t t' key o -> updates (TShort p t) (TShort p t') (p ++ key) o.
Proof.
  intros U k. cbn [tget]. case_bool_decide as E.
  - rewrite U. assert (k = p ++ drop (length p) k) as Ek by (rewrite <- E at 1; by rewrite take_drop).
    case_bool_decide as D; case_bool_decide as D'; try done; [by rewrite Ek, D in D'|].
    rewrite D', drop_app_length in D. done.
  - rewrite bool_decide_eq_false_2; [done|]. intros ->. by rewrite take_app_length in E.
Qed.

Lemma updates_full ts i c c' key o : ts !! Z.to_nat i = Some c -> 0 <= i -> updates c c' key o ->
  updates (TFull ts) (TFull (<[Z.to_nat i := c']> ts)) (i :: key) o.
Proof.
  intros Hc Hi U [|j k]; [done|]. rewrite !tget_full.
  rewrite at_index_insert by (apply lookup_lt_Some in Hc; lia).
  destruct (decide (i = j)) as [<-|Hne].
  - rewrite bool_decide_eq_true_2 by done. rewrite U. unfold at_index. rewrite (proj2 (Z.leb_le _ _) Hi), Hc.
    case_bool_decide; case_bool_decide; congruence.
  - rewrite (bool_decide_eq_false_2 (i = j)) by done. rewrite bool_decide_eq_false_2 by congruence. done.
Qed.

Lemma tget_short_nil t k : tget (TShort [] t) k = tget t k.
Proof. done. Qed.

Lemma tget_short_short p q t k : tget (TShort (p ++ q) t) k = tget (TShort p (TShort q t)) k.
Proof.
  apply option_eq. intros v. split.
  - intros (k' & -> & G)%tget_short_inv. by rewrite <- app_assoc, !tget_short_app.
  - intros (k1 & -> & (k2 & -> & G)%tget_short_inv)%tget_short_inv. by rewrite app_assoc, tget_short_app.
Qed.

(** ** Building well-formed trees *)

(** What a branch may hold at [i]. *)
Definition child_ok (i : Z) (c : tree) : Prop := (i = 16 /\ isVal c) \/ (nibble i /\ wf c).

(** A subtree, not empty, where [k] is left of the key. *)
Definition full_at (t : tree) (k : bytes) : Prop := (k = [] /\ isVal t) \/ (term k /\ wf t).

Lemma full_at_child i k c : term (i :: k) -> full_at c k -> child_ok i c.
Proof.
  cbn [term]. unfold full_at, child_ok. intros [[-> E]|[Hi Hk]] [[E' Hc]|[Hk' Hc]]; subst; auto; done.
Qed.

Lemma child_ok_not_nil i c : child_ok i c -> c <> TNil.
Proof. intros [[_ (v & -> & _)]|[_ Hw]]; [done|]. intros ->. inversion Hw. Qed.

Lemma child_ok_bound i c : child_ok i c -> 0 <= i < 17.
Proof. unfold child_ok, nibble. lia. Qed.

(** The conditions of a branch, child by child. *)
Lemma wf_branch_iff ts : wf (TFull ts) <-> length ts = 17%nat /\
  (exists i j a b, i <> j /\ ts !! i = Some a /\ ts !! j = Some b /\ a <> TNil /\ b <> TNil) /\
  (forall i c, ts !! i = Some c -> c = TNil \/ child_ok (Z.of_nat i) c).
Proof.
  unfold child_ok. split.
  - inversion_clear 1 as [| |? i j a b L Hij Hi Hj Ha Hb Hl Hc]. split_and!; [done|by eauto 10|].
    intros m c Hm. pose proof (lookup_lt_Some _ _ _ Hm). rewrite L in *. destruct (TNil_dec c) as [->|Hn]; [by left|].
    right. destruct (decide (m = 16%nat)) as [->|Hne].
    + left. split; [done|]. by destruct (Hl _ Hm).
    + right. unfold nibble. split; [lia|]. apply (Hc m); [lia|done..].
  - intros (L & (i & j & a & b & Hij & Hi & Hj & Ha & Hb) & Hc). apply (wf_branch ts i j a b); try done.
    + intros c Hm. destruct (Hc _ _ Hm) as [->|[[_ Hv]|[Hv _]]]; [by left|by right|]. unfold nibble in Hv. lia.
    + intros m c Hm Hl Hn. destruct (Hc _ _ Hl) as [->|[[E _]|[_ Hw]]]; [done|lia|done].
Qed.

(** A branch with a child replaced or added. *)
Lemma wf_set ts i c : wf (TFull ts) -> child_ok i c -> wf (TFull (<[Z.to_nat i := c]> ts)).
Proof.
  intros (L & (m & n & a & b & Hmn & Hm & Hn & Ha & Hb) & Hc)%wf_branch_iff Hok. apply wf_branch_iff.
  pose proof (child_ok_bound _ _ Hok). pose proof (child_ok_not_nil _ _ Hok). rewrite length_insert. split_and!; [done| |].
  - assert (forall j d, ts !! j = Some d -> d <> TNil -> exists e, <[Z.to_nat i:=c]> ts !! j = Some e /\ e <> TNil) as P.
    { intros j d Hj Hd. destruct (decide (Z.to_nat i = j)) as [<-|Hne].
      - rewrite list_lookup_insert_eq by lia. by eexists.
      - rewrite list_lookup_insert_ne by done. by eexists. }
    destruct (P _ _ Hm Ha) as (a' & ? & ?), (P _ _ Hn Hb) as (b' & ? & ?). by exists m, n, a', b'.
  - intros j d Hj. destruct (decide (Z.to_nat i = j)) as [<-|Hne].
    + rewrite list_lookup_insert_eq in Hj by lia. right. rewrite Z2Nat.id by lia. congruence.
    + rewrite list_lookup_insert_ne in Hj by done. by apply Hc.
Qed.

(** A new branch with two children. *)
Lemma wf_two i j a b : i <> j -> child_ok i a -> child_ok j b ->
  wf (TFull (<[Z.to_nat i := a]> (<[Z.to_nat j := b]> (replicate 17 TNil)))).
Proof.
  intros Hij Ha Hb. pose proof (child_ok_bound _ _ Ha). pose proof (child_ok_bound _ _ Hb). apply wf_branch_iff.
  rewrite !length_insert, length_replicate. split_and!; [done| |].
  - exists (Z.to_nat i), (Z.to_nat j), a, b. split_and!; [lia| | |by eapply child_ok_not_nil..].
    + rewrite list_lookup_insert_eq; [done|]. rewrite length_insert, length_replicate. lia.
    + rewrite list_lookup_insert_ne by lia. apply list_lookup_insert_eq. rewrite length_replicate. lia.
  - intros m c Hm. apply list_lookup_insert_Some in Hm as [(<- & -> & _)|[_ Hm]]; [right; by rewrite Z2Nat.id by lia|].
    apply list_lookup_insert_Some in Hm as [(<- & -> & _)|[_ Hm]]; [right; by rewrite Z2Nat.id by lia|].
    apply lookup_replicate_1 in Hm as [-> _]. by left.
Qed.

(** ** Splitting a key *)

(** Two keys share a prefix and part after it, or one ends. *)
Lemma prefixLen_spec a b : exists p ra rb, a = p ++ ra /\ b = p ++ rb /\ prefixLen a b = length p /\
  (forall x y qa qb, ra = x :: qa -> rb = y :: qb -> x <> y).
Proof.
  revert b. induction a as [|x a IH]; intros b; [by exists [], [], b|].
  destruct b as [|y b]; [by exists [], (x :: a), []|]. cbn. destruct (Z.eqb_spec x y) as [->|Hne].
  - destruct (IH b) as (p & ra & rb & -> & -> & -> & Hd). by exists (y :: p), ra, rb.
  - exists [], (x :: a), (y :: b). split_and!; [done..|]. congruence.
Qed.

Lemma term_split p x k : term (p ++ x :: k) -> Forall nibble p /\ term (x :: k).
Proof.
  induction p as [|y p IH]; [done|]. cbn [app]. intros [[-> E]|[Hy Hk]]; [by destruct p|].
  destruct (IH Hk). split; [by constructor|done].
Qed.

Lemma nibbles_not_term k : Forall nibble k -> ~ term k.
Proof.
  induction 1 as [|x k Hx Hk IH]; [by intros []|]. cbn. unfold nibble in Hx. intros [[? _]|[_ ?]]; [lia|done].
Qed.

(** What is left of a short node below the first [p] of its key. *)
Definition rest (k : bytes) (t : tree) : tree := match k with [] => t | _ => TShort k t end.

Lemma tget_rest k t q : tget (rest k t) q = tget (TShort k t) q.
Proof. by destruct k. Qed.

Lemma rest_ok p x k t : wf (TShort (p ++ x :: k) t) -> child_ok x (rest k t).
Proof.
  inversion_clear 1 as [? v Hp Hv|? ts Hn Hp Hw|].
  - apply term_split in Hp as [_ [[-> ->]|[Hx Hk]]].
    + left. split; [done|]. by eexists.
    + right. split; [done|]. destruct k; [done|]. by constructor.
  - apply Forall_app in Hp as [_ [Hx Hk]%Forall_cons]. right. split; [done|]. destruct k; [done|]. by constructor.
Qed.

(** A branch with one child holds what the short node held. *)
Lemma tget_single x k t q : 0 <= x < 17 ->
  tget (TFull (<[Z.to_nat x := rest k t]> (replicate 17 TNil))) q = tget (TShort (x :: k) t) q.
Proof.
  intros Hx. rewrite tget_full. destruct q as [|y q]; [done|].
  rewrite at_index_insert by (rewrite length_replicate; lia). case_bool_decide as E; [subst y|].
  - rewrite tget_rest. change (x :: k) with ([x] ++ k). rewrite tget_short_short.
    by rewrite (tget_short_app [x] (TShort k t) q : tget _ (x :: q) = _).
  - assert (tget (TShort (x :: k) t) (y :: q) = None) as ->.
    { destruct (tget (TShort (x :: k) t) (y :: q)) as [w|] eqn:G; [|done].
      apply tget_short_inv in G as (k' & E' & _). by injection E' as ->. }
    unfold at_index. destruct (0 <=? y); [|done]. destruct (replicate 17 TNil !! Z.to_nat y) as [c|] eqn:G; [|done].
    by apply lookup_replicate_1 in G as [-> _].
Qed.

(** ** Subtrees on the way to a key *)

(** A subtree at the place where [k] is left of the key. *)
Definition at_key (t : tree) (k : bytes) : Prop :=
  (k = [] /\ (t = TNil \/ isVal t)) \/ (term k /\ wf0 t).

Lemma at_key_short p c k : wf (TShort p c) -> term (p ++ k) -> at_key c k.
Proof.
  inversion_clear 1 as [? v Hp Hv|? ts Hn Hp Hw|]; intros Hk.
  - left. split; [by apply (term_prefix_free p)|]. right. by eexists.
  - right. split; [by eapply (term_app p)|]. by right.
Qed.

Lemma at_key_full ts i k : wf (TFull ts) -> term (i :: k) ->
  exists c, ts !! Z.to_nat i = Some c /\ 0 <= i < 17 /\ at_key c k.
Proof.
  inversion_clear 1 as [| |? i1 j1 a1 b1 L H1 H2 H3 H4 H5 Hl Hc]; intros Hk. pose proof (term_bound _ _ Hk).
  destruct (lookup_lt_is_Some_2 ts (Z.to_nat i)) as [c Hi]; [lia|]. exists c. split_and!; [done|lia..|].
  destruct (decide (i = 16)) as [->|Hne].
  - apply term_16 in Hk as ->. left. by auto.
  - apply term_cons in Hk as [? Hk]; [|done]. right. split; [done|].
    destruct (TNil_dec c); [by left|]. right. apply (Hc (Z.to_nat i)); [lia|done..].
Qed.

(** The first nibble of a path differs from the one at another child. *)
Lemma tget_full_cons ts i k c : ts !! Z.to_nat i = Some c -> 0 <= i -> tget (TFull ts) (i :: k) = tget c k.
Proof. intros E Hi. rewrite tget_full. unfold at_index. by rewrite (proj2 (Z.leb_le _ _)), E. Qed.
