(* ===== verification/TrieRefine.v ===== *)
(** * The trie refines a finite map

    [rep] relates nodes to the tree they stand for.  A hash, and a node that
    is flagged clean, stand for a tree that is [Known] to the database; a
    database [serves] the known trees when it has nothing or a node for the
    hash of each. *)

From S2P Require Import Prelude Rlp RlpRaw Transaction Trie TrieMap.

Definition isNode (n : node) : Prop := match n with shortNode _ _ _ | fullNode _ _ => True | _ => False end.

(** Whether a node has a hash to refer to it by. *)
Definition hashed (n : node) : bool :=
  match n with
  | hashNode _ => true
  | fullNode _ f | shortNode _ _ f => bool_decide (is_Some (fl_hash f))
  | _ => false
  end.

(** A node made by an update. *)
Definition fresh (n : node) : Prop :=
  match n with fullNode _ f | shortNode _ _ f => f = newFlag | hashNode _ => False | _ => True end.

(** A root is clean only if its hash is known. *)
Definition root_ok (n : node) : Prop :=
  match n with fullNode _ f | shortNode _ _ f => fl_hash f = None -> fl_dirty f = true | _ => True end.

Lemma fresh_hashed n : fresh n -> hashed n = false.
Proof. destruct n; cbn; try done; by intros ->. Qed.

Lemma fresh_root n : fresh n -> root_ok n.
Proof. destruct n; cbn; try done; by intros ->. Qed.

Lemma hashed_root n : hashed n = true -> root_ok n.
Proof. destruct n; cbn; try done; intros E%bool_decide_eq_true Hn; rewrite Hn in E; by destruct E. Qed.

Section Refinement.
Context `{Crypto} (Known : tree -> Prop).

Definition big (t : tree) : Prop := (32 <= length (encodeOrNothing (collapse t)))%nat.

(** A cached hash is the hash of the tree.  A clean node is known by its hash,
    or embedded in its parent. *)
Definition flag_ok (fl : nodeFlag) (t : tree) : Prop :=
  (forall h, fl_hash fl = Some h -> h = hashBytes t) /\
  (fl_dirty fl = false -> match fl_hash fl with Some _ => Known t | None => ~ big t end).

(** A child with a hash is too big to be embedded. *)
Definition ref_ok (n : node) (t : tree) : Prop := hashed n = true -> big t.

(** Every node that is not embedded has its hash cached. *)
Inductive ready : node -> tree -> Prop :=
| ready_nil : ready nilNode TNil
| ready_val v : ready (valueNode v) (TVal v)
| ready_short k n fl t : (big (TShort k t) -> fl_hash fl <> None) -> ready n t -> ready (shortNode k n fl) (TShort k t)
| ready_full cs fl ts : (big (TFull ts) -> fl_hash fl <> None) ->
    (forall i c t, cs !! i = Some c -> ts !! i = Some t -> ready c t) -> ready (fullNode cs fl) (TFull ts)
| ready_hash h t : ready (hashNode h) t.

Inductive rep : node -> tree -> Prop :=
| rep_nil : rep nilNode TNil
| rep_val v : rep (valueNode v) (TVal v)
| rep_short k n fl t : flag_ok fl (TShort k t) -> (fl_hash fl <> None -> ready n t) -> ref_ok n t -> rep n t ->
    rep (shortNode k n fl) (TShort k t)
| rep_full cs fl ts : flag_ok fl (TFull ts) -> length cs = length ts ->
    (fl_hash fl <> None -> forall i c t, cs !! i = Some c -> ts !! i = Some t -> ready c t) ->
    (forall i c t, cs !! i = Some c -> ts !! i = Some t -> ref_ok c t) ->
    (forall i c t, cs !! i = Some c -> ts !! i = Some t -> rep c t) -> rep (fullNode cs fl) (TFull ts)
| rep_hash t : wf t -> Known t -> rep (hashNode (hashBytes t)) t.

Definition serves (db : Hash -> outcome (option node)) : Prop := forall t, wf t -> Known t ->
  db (BytesToHash (hashBytes t)) = Ret None \/
  exists n, db (BytesToHash (hashBytes t)) = Ret (Some n) /\ isNode n /\ hashed n = true /\ ready n t /\ rep n t.

Context (db : Hash -> outcome (option node)) (Hdb : serves db).

(** The error names a known node that the database does not have. *)
Definition missing (e : MissingNodeError) : Prop :=
  db (NodeHash e) = Ret None /\ exists t, wf t /\ Known t /\ NodeHash e = BytesToHash (hashBytes t).

Lemma missing_known t prefix : wf t -> Known t -> db (BytesToHash (hashBytes t)) = Ret None ->
  missing (mkMissing (BytesToHash (hashBytes t)) prefix).
Proof. intros W K D. split; [exact D|]. by exists t. Qed.

Lemma rep_nil_iff n t : rep n t -> n = nilNode <-> t = TNil.
Proof.
  destruct 1 as [|v|k n fl t Fl Ry Rk R|cs fl ts Fl L Ry Rk R|t W K]; try (by split).
  split; [done|]. intros ->. inversion W.
Qed.

Lemma flag_new t : flag_ok newFlag t.
Proof. by split. Qed.

Lemma fresh_ref n t : fresh n -> ref_ok n t.
Proof. intros Hn%fresh_hashed E. congruence. Qed.

(** The fuel a node needs with [rem] nibbles left. *)
Definition need (n : node) (rem : nat) : nat :=
  match n with hashNode _ => 2 * rem + 2 | _ => 2 * rem + 1 end.

Lemma need_le n rem : (need n rem <= 2 * rem + 2)%nat.
Proof. destruct n; cbn; lia. Qed.

Lemma need_node n rem : isNode n -> (need n rem <= 2 * rem + 1)%nat.
Proof. by destruct n. Qed.

Lemma ready_child cs fl ts i c n t : cs !! i = Some c -> ts !! i = Some t -> (ready c t -> ready n t) ->
  ready (fullNode cs fl) (TFull ts) -> ready (fullNode (<[i := n]> cs) fl) (TFull ts).
Proof.
  intros Hc Ht Hy. inversion_clear 1 as [| | |? ? ? Fl R|]. constructor; [done|]. intros j d u Hd Hu.
  destruct (decide (i = j)) as [<-|Hne].
  - rewrite list_lookup_insert_eq in Hd by (by eapply lookup_lt_Some). simplify_eq. by eauto.
  - rewrite list_lookup_insert_ne in Hd by done. by eauto.
Qed.

(** A child replaced by one that stands for the same tree. *)
Lemma rep_child cs fl ts i c n t : rep (fullNode cs fl) (TFull ts) -> cs !! i = Some c -> ts !! i = Some t ->
  rep n t -> (ref_ok c t -> ref_ok n t) -> (ready c t -> ready n t) -> rep (fullNode (<[i := n]> cs) fl) (TFull ts).
Proof.
  inversion_clear 1 as [| | |? ? ? Fl L Ry Rk R|]. intros Hc Ht Rn Hk Hy.
  constructor; [done|by rewrite length_insert|intros Hn| |]; intros j d u Hd Hu;
    (destruct (decide (i = j)) as [<-|Hne];
     [rewrite list_lookup_insert_eq in Hd by (by eapply lookup_lt_Some); simplify_eq; by eauto
     |rewrite list_lookup_insert_ne in Hd by done; by eauto]).
Qed.

Definition got (n : node) (t : tree) (key : bytes) (r : option bytes * node * bool * option MissingNodeError) : Prop :=
  match r with
  | (v, n', _, None) => v = tget t key /\ rep n' t /\ (ref_ok n t -> ref_ok n' t) /\ (root_ok n -> root_ok n') /\ (ready n t -> ready n' t)
  | (_, _, _, Some e) => missing e
  end.

Lemma tryGet_spec fuel n t key pos : rep n t -> at_key t (drop pos key) -> (pos <= length key)%nat ->
  (need n (length key - pos) <= fuel)%nat ->
  exists r, tryGet db fuel n key pos = Ret r /\ got n t (drop pos key) r.
Proof.
  revert n t pos. induction fuel as [|fuel IH]; intros n t pos R A Hp Hf; [destruct n; cbn in Hf; lia|].
  destruct R as [|v|k c fl t Fl Ry Rk R|cs fl ts Fl L Ry Rk R|t W K].
  - eexists. split; [done|]. cbn. split_and!; [done|constructor|done..].
  - eexists. split; [done|]. destruct A as [[-> _]|[_ [?|Hw]]]; [|done|inversion Hw].
    split_and!; [done|constructor|done..].
  - destruct A as [[_ [?|(? & ? & _)]]|[Hk [?|Hw]]]; try done. cbn [tryGet].
    destruct (decide (take (length k) (drop pos key) = k)) as [E|E].
    + assert (length k <= length key - pos)%nat by (rewrite <- E; rewrite length_take, length_drop; lia).
      rewrite bool_decide_eq_false_2 by lia. rewrite bool_decide_eq_false_2 by tauto. cbn [orb].
      assert (0 < length k)%nat by (inversion Hw; destruct k; done || cbn; lia).
      destruct (IH c t (pos + length k)%nat) as ([[[v n'] d] err] & Eq & G); [done| |lia|cbn in Hf; pose proof (need_le c (length key - (pos + length k))); lia|].
      { rewrite <- drop_drop. apply (at_key_short k); [done|]. by rewrite <- E at 1; rewrite take_drop. }
      rewrite Eq. cbn [mbind outcome_bind]. eexists. split; [done|]. unfold got in *. destruct err as [e|]; [done|].
      destruct G as (-> & R' & Rk' & _ & Ry'). split_and!.
      * cbn. rewrite bool_decide_eq_true_2 by done. by rewrite drop_drop.
      * cbn. destruct d; [|by constructor]. constructor; auto.
      * cbn. by destruct d.
      * cbn. by destruct d.
      * cbn. destruct d; [|done]. inversion_clear 1. constructor; auto.
    + rewrite (bool_decide_eq_true_2 (take _ _ <> _)) by done. rewrite orb_true_r. eexists. split; [done|]. cbn.
      rewrite bool_decide_eq_false_2 by done. split_and!; [done|by constructor|done..].
  - destruct A as [[_ [?|(? & ? & _)]]|[Hk [?|Hw]]]; try done. cbn [tryGet].
    destruct (drop pos key) as [|i k] eqn:Ek; [done|].
    assert (key !! pos = Some i) as -> by (rewrite <- (Nat.add_0_r pos), <- lookup_drop, Ek; done).
    destruct (at_key_full _ _ _ Hw Hk) as (t & Ht & Hi & A).
    destruct (lookup_lt_is_Some_2 cs (Z.to_nat i)) as [c Hc]; [rewrite L; by eapply lookup_lt_Some|]. rewrite Hc.
    assert (drop (S pos) key = k) as Ek' by (rewrite <- Nat.add_1_r, <- drop_drop, Ek; done).
    assert (pos < length key)%nat by (apply (f_equal length) in Ek; rewrite length_drop in Ek; cbn in Ek; lia).
    destruct (IH c t (S pos)) as ([[[v n'] d] err] & Eq & G); [by eapply R|by rewrite Ek'|lia|cbn in Hf; pose proof (need_le c (length key - S pos)); lia|].
    rewrite Eq. cbn [mbind outcome_bind]. eexists. split; [done|]. unfold got in *. destruct err as [e|]; [done|].
    rewrite Ek' in G. destruct G as (-> & R' & Rk' & _ & Ry'). split_and!; [by rewrite (tget_full_cons _ _ _ t) by (done || lia)| | | |].
    + cbn. destruct d; [|by constructor]. apply (rep_child _ _ _ _ c _ t); [by constructor|done..].
    + cbn. by destruct d.
    + cbn. by destruct d.
    + cbn. destruct d; [|done]. by apply (ready_child _ _ _ _ c _ t).
  - cbn [tryGet]. unfold resolveHash. destruct (Hdb t W K) as [D|(n & D & N & Hh & Rd & R)]; rewrite D; [eexists; split; [done|by apply missing_known]|]. cbn [mbind outcome_bind].
    destruct (IH n t pos) as ([[[v n'] d] err] & Eq & G); [done..|cbn in Hf; pose proof (need_node n (length key - pos) N); lia|].
    rewrite Eq. cbn [mbind outcome_bind]. eexists. split; [done|]. unfold got in *. destruct err as [e|]; [done|].
    destruct G as (-> & R' & Rk' & Ro & Ry'). split_and!; [done|done| | |].
    + intros Hb _. by apply Hb.
    + intros _. by apply Ro, hashed_root.
    + intros _. by apply Ry'.
Qed.
(** *** Insertion *)

Definition isFull (t : tree) : Prop := match t with TFull _ => True | _ => False end.

Definition inserted (n : node) (t : tree) (key v : bytes) (r : bool * node * option MissingNodeError) : Prop :=
  match r with
  | (_, _, Some e) => missing e
  | (true, n', None) => exists t', rep n' t' /\ fresh n' /\ full_at t' key /\
                                   updates t t' key (Some v) /\ (isFull t -> isFull t')
  | (false, n', None) => rep n' t /\ tget t key = Some v /\ (root_ok n -> root_ok n')
  end.

Definition restNode (k : bytes) (n : node) : node := match k with [] => n | _ => shortNode k n newFlag end.

Lemma insert_nil fuel prefix key value :
  insert db (S fuel) nilNode prefix key value = Ret (true, restNode key value, None).
Proof. by destruct key. Qed.

Lemma rep_rest k n t : rep n t -> ref_ok n t -> rep (restNode k n) (rest k t) /\ ref_ok (restNode k n) (rest k t).
Proof. intros R Rk. destruct k; [done|]. split; [|done]. constructor; [apply flag_new|done..]. Qed.

(** A new branch. *)
Lemma rep_two i j a b ta tb : rep a ta -> ref_ok a ta -> rep b tb -> ref_ok b tb ->
  rep (fullNode (<[i := a]> (<[j := b]> (replicate 17 nilNode))) newFlag)
      (TFull (<[i := ta]> (<[j := tb]> (replicate 17 TNil)))).
Proof.
  intros Ra Ka Rb Kb.
  assert (forall m c t, <[i := a]> (<[j := b]> (replicate 17 nilNode)) !! m = Some c ->
    <[i := ta]> (<[j := tb]> (replicate 17 TNil)) !! m = Some t -> rep c t /\ ref_ok c t) as P.
  { intros m c t. rewrite !list_lookup_insert, !length_insert, !length_replicate.
    repeat (case_decide; [intros; by simplify_eq|]). intros [-> _]%lookup_replicate_1 [-> _]%lookup_replicate_1.
    split; [constructor|done]. }
  constructor; [apply flag_new|by rewrite !length_insert, !length_replicate|by intros []| |];
    intros m c t Hc Ht; by destruct (P m c t).
Qed.

Lemma updates_ext t t1 t2 key o : (forall k, tget t1 k = tget t2 k) -> updates t1 t key o -> updates t2 t key o.
Proof. intros E U k. by rewrite U, E. Qed.

Lemma updates_leaf key v : updates TNil (rest key (TVal v)) key (Some v).
Proof.
  intros k. rewrite tget_rest. case_bool_decide as E.
  - subst. rewrite <- (app_nil_r key) at 2. by rewrite tget_short_app.
  - destruct (tget _ k) as [w|] eqn:G; [|done]. apply tget_short_inv in G as ([|x k'] & -> & G); [|done].
    by rewrite app_nil_r in E.
Qed.

Lemma drop_middle {A} (p q : list A) x : drop (S (length p)) (p ++ x :: q) = q.
Proof. replace (S (length p)) with (length p + 1)%nat by lia. by rewrite <- drop_drop, drop_app_length. Qed.

Lemma restNode_if p n : (if (length p =? 0)%nat then n else shortNode p n newFlag) = restNode p n.
Proof. by destruct p. Qed.

Lemma wf_rest p ts : Forall nibble p -> wf (TFull ts) -> wf (rest p (TFull ts)).
Proof. intros. destruct p; [done|]. by constructor. Qed.

(** A key that parts from the one of a short node. *)
Lemma updates_branch p x y ra rb t v : x <> y -> term (x :: ra) -> wf (TShort (p ++ y :: rb) t) ->
  updates (TShort (p ++ y :: rb) t)
    (rest p (TFull (<[Z.to_nat x := rest ra (TVal v)]> (<[Z.to_nat y := rest rb t]> (replicate 17 TNil)))))
    (p ++ x :: ra) (Some v).
Proof.
  intros Hxy Hx Hw. pose proof (term_bound _ _ Hx). pose proof (child_ok_bound _ _ (rest_ok _ _ _ _ Hw)).
  intros k. rewrite tget_rest, tget_short_short. revert k. apply updates_short.
  apply updates_ext with (TFull (<[Z.to_nat y := rest rb t]> (replicate 17 TNil))).
  { intros k. by apply tget_single. }
  apply updates_full with TNil; [|lia|apply updates_leaf].
  rewrite list_lookup_insert_ne by lia. apply lookup_replicate_2. lia.
Qed.

Lemma insert_branch fuel k c fl t prefix key v : rep (shortNode k c fl) (TShort k t) -> wf (TShort k t) ->
  v <> [] -> term key -> prefixLen key k <> length k -> (0 < fuel)%nat ->
  exists r, insert db (S fuel) (shortNode k c fl) prefix key (valueNode v) = Ret r /\ inserted (shortNode k c fl) (TShort k t) key v r.
Proof.
  intros R Hw Hv Hk Hm Hf. destruct (prefixLen_spec key k) as (p & ra & rb & Ea & Eb & El & Hd).
  destruct rb as [|y rb]; [rewrite El, Eb, app_nil_r in Hm; done|].
  destruct ra as [|x ra].
  { exfalso. rewrite app_nil_r in Ea. subst. inversion Hw as [? ? Ht|? ? _ Hn|]; subst.
    - by apply term_prefix_free in Ht.
    - apply Forall_app in Hn as [Hn _]. by apply nibbles_not_term in Hn. }
  subst key k. specialize (Hd x y ra rb eq_refl eq_refl). pose proof (term_split _ _ _ Hk) as [Hp Hx].
  assert (exists x0 k0, p ++ x :: ra = x0 :: k0) as (x0 & k0 & E0) by (destruct p; by do 2 eexists).
  cbn [insert]. rewrite E0. rewrite <- E0.
  rewrite El, (proj2 (Nat.eqb_neq _ _)) by (rewrite length_app; cbn; lia).
  rewrite !list_lookup_middle by done.
  destruct fuel as [|fuel]; [lia|]. rewrite !insert_nil. cbn [mbind outcome_bind]. rewrite !bool_decide_eq_false_2 by tauto.
  rewrite !drop_middle, take_app_length.
  assert (rep c t /\ ref_ok c t) as [Rc Kc] by by inversion R.
  pose proof (rep_rest ra (valueNode v) (TVal v) (rep_val v) ltac:(done)) as [Rn Kn].
  pose proof (rep_rest rb c t Rc Kc) as [Ro Ko].
  pose proof (rep_two (Z.to_nat x) (Z.to_nat y) _ _ _ _ Rn Kn Ro Ko) as Rb.
  eexists. split; [by rewrite (restNode_if p)|]. exists (rest p (TFull (<[Z.to_nat x := rest ra (TVal v)]> (<[Z.to_nat y := rest rb t]> (replicate 17 TNil))))).
  split_and!; [by apply rep_rest|by destruct p| |by apply updates_branch|done].
  right. split; [done|]. apply wf_rest; [done|]. apply wf_two; [done| |by eapply rest_ok].
  by apply (rest_ok p), wf_leaf.
Qed.
(** The whole key of a short node matches. *)
Lemma inserted_short k c fl t key v r : rep (shortNode k c fl) (TShort k t) -> wf (TShort k t) ->
  inserted c t key v r -> term (k ++ key) ->
  inserted (shortNode k c fl) (TShort k t) (k ++ key) v
    (let '(dirty, nn, err) := r in
     if negb dirty || bool_decide (err <> None) then (false, shortNode k c fl, err) else (true, shortNode k nn newFlag, None)).
Proof.
  destruct r as [[d nn] [e|]]; cbn -[tget].
  { intros ? ? ? _. by destruct d; cbn. }
  destruct d; cbn -[tget]; intros R Hw.
  - intros (t' & R' & Hh & Ft & U & Hf) Hk. exists (TShort k t'). split_and!; [|done| |by apply updates_short|done].
    + constructor; [apply flag_new|by intros []| |done]. by apply fresh_ref.
    + right. split; [done|]. inversion Hw as [? w Ht Hv|? ts Hn Hp Hw'|]; subst.
      * apply term_prefix_free in Hk as ->; [|done]. destruct Ft as [[_ (w' & -> & ?)]|[? _]]; [|done]. by constructor.
      * apply term_app in Hk; [|done]. destruct Ft as [[-> _]|[_ Hw2]]; [done|].
        specialize (Hf I). destruct t'; try done. by constructor.
  - intros (_ & G & _) _. split_and!; [done| |done]. by rewrite tget_short_app.
Qed.

Lemma rep_full_set cs fl ts i n t : rep (fullNode cs fl) (TFull ts) -> rep n t -> ref_ok n t ->
  rep (fullNode (<[i := n]> cs) newFlag) (TFull (<[i := t]> ts)).
Proof.
  inversion_clear 1 as [| | |? ? ? Fl L Ry Rk R|]. intros Rn Kn.
  constructor; [apply flag_new|by rewrite !length_insert|by intros []| |]; intros j d u; rewrite !list_lookup_insert, L;
    (case_decide; [intros; by simplify_eq|by eauto]).
Qed.

Lemma inserted_full cs fl ts i c t key v r : rep (fullNode cs fl) (TFull ts) -> wf (TFull ts) ->
  ts !! Z.to_nat i = Some t -> term (i :: key) -> inserted c t key v r ->
  inserted (fullNode cs fl) (TFull ts) (i :: key) v
    (let '(dirty, nn, err) := r in
     if negb dirty || bool_decide (err <> None) then (false, fullNode cs fl, err)
     else (true, fullNode (<[Z.to_nat i := nn]> cs) newFlag, None)).
Proof.
  intros R Hw Ht Hk. pose proof (term_bound _ _ Hk). destruct r as [[d nn] [e|]]; cbn -[tget].
  { intros. by destruct d; cbn. }
  destruct d; cbn -[tget].
  - intros (t' & R' & Hh & Ft & U & Hf). exists (TFull (<[Z.to_nat i := t']> ts)). split_and!; [|done| | |done].
    + eapply rep_full_set; [done..|]. by apply fresh_ref.
    + right. split; [done|]. apply wf_set; [done|]. by eapply full_at_child.
    + eapply updates_full; [done|lia|done].
  - intros (_ & G & _). split_and!; [done| |done]. by rewrite (tget_full_cons _ _ _ t) by (done || lia).
Qed.

Lemma rep_val_inv n v : rep n (TVal v) -> n = valueNode v.
Proof.
  inversion_clear 1 as [| | | |t W K]; [done|]. inversion W.
Qed.

(** The key ends here. *)
Lemma insert_end fuel n t prefix v : rep n t -> t = TNil \/ isVal t -> v <> [] ->
  exists r, insert db (S fuel) n prefix [] (valueNode v) = Ret r /\ inserted n t [] v r.
Proof.
  intros R A Hv. assert (full_at (TVal v) []) by (left; split; [done|by eexists]). destruct A as [->|(w & -> & Hw)].
  - apply rep_nil_iff in R as E. rewrite (proj2 E) by done. eexists. split; [done|]. exists (TVal v).
    split_and!; [constructor|done|done|apply (updates_leaf [])|done].
  - apply rep_val_inv in R as ->. eexists. split; [done|]. cbn [inserted]. case_bool_decide as E.
    + exists (TVal v). split_and!; [constructor|done|done| |done]. intros k. rewrite !tget_val. by repeat case_bool_decide.
    + assert (w = v) as -> by (by destruct (decide (w = v))). split; [constructor|done].
Qed.

Lemma insert_spec fuel n t prefix key v : rep n t -> at_key t key -> v <> [] -> (need n (length key) <= fuel)%nat ->
  exists r, insert db fuel n prefix key (valueNode v) = Ret r /\ inserted n t key v r.
Proof.
  revert n t prefix key. induction fuel as [|fuel IH]; intros n t prefix key R A Hv Hf; [destruct n; cbn in Hf; lia|].
  destruct A as [[-> A]|[Hk A]]; [by apply insert_end|]. destruct key as [|x key]; [done|].
  destruct R as [|w|k c fl t Fl Ry Rk R|cs fl ts Fl L Ry Rk R|t W K].
  - eexists. split; [done|]. exists (rest (x :: key) (TVal v)).
    split_and!; [by apply (rep_rest (x :: key) (valueNode v)); [constructor|]|done| |apply updates_leaf|done].
    right. split; [done|]. by constructor.
  - destruct A as [A|A]; [done|inversion A].
  - destruct A as [A|A]; [done|]. destruct (decide (prefixLen (x :: key) k = length k)) as [E|E]; cycle 1.
    { apply insert_branch; try done; [by constructor|]. cbn in Hf. lia. }
    destruct (prefixLen_spec (x :: key) k) as (p & ra & rb & Ea & -> & El & _).
    assert (rb = []) as -> by (rewrite E, length_app in El; destruct rb; [done|cbn in El; lia]). rewrite app_nil_r in *.
    assert (0 < length p)%nat by (inversion A; destruct p; done || cbn; lia).
    destruct (IH c t (prefix ++ take (length p) (x :: key)) ra) as (r & Er & Hr); [done|by apply (at_key_short p); [|rewrite <- Ea]|done| |].
    { apply (f_equal length) in Ea. rewrite length_app in Ea. cbn in *. pose proof (need_le c (length ra)). lia. }
    eexists. split; [|rewrite Ea; by apply (inserted_short _ c fl _ _ _ r); [constructor| | |rewrite <- Ea]].
    cbn [insert]. rewrite E, Nat.eqb_refl. replace (drop (length p) (x :: key)) with ra by (by rewrite Ea, drop_app_length).
    rewrite Er. cbn [mbind outcome_bind]. destruct r as [[d nn] e]. by case_match.
  - destruct A as [A|A]; [done|]. destruct (at_key_full _ _ _ A Hk) as (t & Ht & Hi & At).
    destruct (lookup_lt_is_Some_2 cs (Z.to_nat x)) as [c Hc]; [rewrite L; by eapply lookup_lt_Some|].
    destruct (IH c t (prefix ++ [x]) key) as (r & Er & Hr); [by eapply R|done|done|cbn in *; pose proof (need_le c (length key)); lia|].
    eexists. split; [|by apply (inserted_full cs fl ts x c t key v r); [constructor|..]].
    cbn [insert]. rewrite Hc, Er. cbn [mbind outcome_bind]. destruct r as [[d nn] e]. by case_match.
  - cbn [insert]. unfold resolveHash. destruct (Hdb t W K) as [D|(n & D & N & Hh & Rd & R)]; rewrite D; [eexists; split; [done|by apply missing_known]|]. cbn [mbind outcome_bind].
    destruct (IH n t prefix (x :: key)) as (r & Er & Hr); [done|by right|done|pose proof (need_node n (length (x :: key)) N); cbn in *; lia|].
    rewrite Er. cbn [mbind outcome_bind].
    destruct r as [[d nn] [e|]]; destruct d; cbn [negb orb]; rewrite ?bool_decide_eq_true_2, ?bool_decide_eq_false_2 by (done || tauto);
      (eexists; split; [done|]); try done.
    destruct Hr as (_ & G & _). split_and!; [done..|]. intros _. by apply hashed_root.
Qed.

(** *** Deletion *)

Lemma nilNode_dec n : n = nilNode \/ n <> nilNode.
Proof. destruct n; auto. Qed.

Lemma onlyChild_cons i pos c cs : c <> nilNode ->
  onlyChild i pos (c :: cs) = if pos =? -1 then onlyChild (i + 1) i cs else -2.
Proof. by destruct c. Qed.

(** Whether there is another child after the one at [pos]. *)
Lemma onlyChild_more i pos cs : 0 <= pos ->
  (onlyChild i pos cs = pos /\ forall j c, cs !! j = Some c -> c = nilNode) \/
  (onlyChild i pos cs = -2 /\ exists j c, cs !! j = Some c /\ c <> nilNode).
Proof.
  intros Hp. revert i. induction cs as [|c cs IH]; intros i; [by left|].
  destruct (nilNode_dec c) as [->|Hc].
  - destruct (IH (i + 1)) as [[E N]|[E (j & d & Hj & Hd)]]; [left|right]; (split; [done|]).
    + intros [|j] d; cbn; [congruence|apply N].
    + by exists (S j), d.
  - right. rewrite onlyChild_cons by done. rewrite (proj2 (Z.eqb_neq _ _)) by lia. split; [done|]. by exists 0%nat, c.
Qed.

Definition alone {A} (l : list A) (e : A) (j : nat) : Prop := forall j' c, j' <> j -> l !! j' = Some c -> c = e.

Lemma onlyChild_spec i cs : 0 <= i ->
  (onlyChild i (-1) cs = -1 /\ forall j c, cs !! j = Some c -> c = nilNode) \/
  (exists j c, onlyChild i (-1) cs = i + Z.of_nat j /\ cs !! j = Some c /\ c <> nilNode /\ alone cs nilNode j) \/
  (onlyChild i (-1) cs = -2 /\ exists j j' c c', j <> j' /\ cs !! j = Some c /\ cs !! j' = Some c' /\ c <> nilNode /\ c' <> nilNode).
Proof.
  revert i. induction cs as [|c cs IH]; intros i Hi; [by left|].
  destruct (nilNode_dec c) as [->|Hc].
  - cbn [onlyChild]. destruct (IH (i + 1)) as [[E N]|[(j & d & E & Hj & Hd & Ha)|(E & j & j' & d & d' & P)]]; [lia|left|right; left|right; right].
    + split; [done|]. intros [|j] d; cbn; [congruence|apply N].
    + exists (S j), d. split_and!; [lia|done..|]. intros [|j'] d' Hne; cbn; [congruence|apply Ha; lia].
    + split; [done|]. exists (S j), (S j'), d, d'. destruct P as (? & ?). split; [lia|done].
  - rewrite onlyChild_cons by done. rewrite Z.eqb_refl. right.
    destruct (onlyChild_more (i + 1) i cs Hi) as [[E N]|[E (j & d & Hj & Hd)]]; [left|right].
    + exists 0%nat, c. split_and!; [lia|done..|]. intros [|j'] d' Hne; cbn; [done|apply N].
    + split; [done|]. by exists 0%nat, (S j), c, d.
Qed.

Definition deleted (n : node) (t : tree) (key : bytes) (r : bool * node * option MissingNodeError) : Prop :=
  match r with
  | (_, _, Some e) => missing e
  | (true, n', None) => exists t', rep n' t' /\ fresh n' /\ at_key t' key /\
                                   updates t t' key None /\ (isFull t -> t' <> TNil)
  | (false, n', None) => rep n' t /\ tget t key = None /\ (root_ok n -> root_ok n')
  end.

(** A list with one entry that is not empty. *)
Lemma alone_eq ts j t : length ts = 17%nat -> ts !! j = Some t -> alone ts TNil j -> ts = <[j := t]> (replicate 17 TNil).
Proof.
  intros L Hj Ha. apply list_eq_same_length with 17%nat; [by rewrite length_insert, length_replicate|done|].
  intros m x y Hm Hx Hy. rewrite list_lookup_insert, length_replicate in Hy. case_decide as D.
  - destruct D as [<- _]. congruence.
  - apply lookup_replicate_1 in Hy as [-> _]. apply (Ha m); [|done]. intros ->. by apply D.
Qed.

Lemma resolve_spec c t prefix : rep c t -> wf t ->
  (exists e, resolve db c prefix = Ret (inr e) /\ missing e) \/
  (exists n, resolve db c prefix = Ret (inl n) /\ isNode n /\ rep n t).
Proof.
  intros R Hw. destruct R as [|v|k n fl t Fl Ry Rk R|cs fl ts Fl L Ry Rk R|t W K]; try by inversion Hw.
  - right. eexists. split_and!; [done..|by constructor].
  - right. eexists. split_and!; [done..|by constructor].
  - unfold resolve, resolveHash. destruct (Hdb t W K) as [D|(n & D & N & _ & _ & R)]; rewrite D; [left; eexists; split; [done|by apply missing_known]|right; by exists n].
Qed.

(** A branch with one child left becomes a short node. *)
Lemma reduce_spec cs ts j c t prefix : rep (fullNode cs newFlag) (TFull ts) -> length ts = 17%nat ->
  cs !! j = Some c -> ts !! j = Some t -> child_ok (Z.of_nat j) t -> alone ts TNil j ->
  exists r, reduce db cs (Z.of_nat j) prefix = Ret r /\
    match r with
    | (_, _, Some e) => missing e
    | (d, n', None) => d = true /\ exists t', rep n' t' /\ fresh n' /\ wf t' /\ forall k, tget t' k = tget (TFull ts) k
    end.
Proof.
  intros R L Hc Ht Hok Ha. inversion R as [| | |? ? ? Fl L' Ry Rk Rc|]; subst.
  assert (forall k, tget (TShort [Z.of_nat j] t) k = tget (TFull ts) k) as G.
  { intros k. rewrite (alone_eq ts j t L Ht Ha) by done. rewrite <- (tget_single (Z.of_nat j) [] t) by (apply child_ok_bound in Hok; lia).
    by rewrite Nat2Z.id. }
  unfold reduce. rewrite Nat2Z.id, Hc.
  assert (rep (shortNode [Z.of_nat j] c newFlag) (TShort [Z.of_nat j] t)) as Rs by (constructor; [apply flag_new|by eauto..]).
  destruct Hok as [[E (v & -> & Hv)]|[Hn Hw]].
  { rewrite E. eexists. split; [done|]. split; [done|]. exists (TShort [16] (TVal v)). rewrite <- E.
    split_and!; [done..| |done]. rewrite E. constructor; [by apply term_16|done]. }
  rewrite (proj2 (Z.eqb_neq _ _)) by (unfold nibble in Hn; lia).
  destruct (resolve_spec c t prefix) as [(e & -> & He)|(n & -> & N & Rn)]; [by eauto|done|by eexists|].
  cbn [mbind outcome_bind]. inversion Rn as [| |k v fl tv Fl2 Ry2 Rk2 Rv|ds fl us Fl2 L2 Ry2 Rk2 Rd|]; subst; try done; (eexists; split; [done|split; [done|]]).
  - exists (TShort (Z.of_nat j :: k) tv). split_and!; [constructor; [apply flag_new|done..]|done| |].
    + inversion Hw as [? w Hk Hv|? us Hk1 Hk2 Hw'|]; subst.
      * constructor; [|done]. apply term_cons; [unfold nibble in Hn; lia|done].
      * constructor; [done|by constructor|done].
    + intros k'. rewrite <- G. apply (tget_short_short [Z.of_nat j]).
  - exists (TShort [Z.of_nat j] (TFull us)). split_and!; [done..| |done]. constructor; [done|by constructor|done].
Qed.
(** A full node after the deletion in its child. *)
Definition shrunk (cs : list node) (fl : nodeFlag) (i : Z) (prefix : bytes) (r : bool * node * option MissingNodeError)
  : outcome (bool * node * option MissingNodeError) :=
  let '(dirty, nn, err) := r in
  if negb dirty || bool_decide (err <> None) then Ret (false, fullNode cs fl, err)
  else
    let cs := <[Z.to_nat i := nn]> cs in
    let pos := onlyChild 0 (-1) cs in
    if 0 <=? pos then reduce db cs pos prefix else Ret (true, fullNode cs newFlag, None).

Lemma rep_nils cs ts fl j n : rep (fullNode cs fl) (TFull ts) -> cs !! j = Some n ->
  exists t, ts !! j = Some t /\ rep n t /\ (n = nilNode <-> t = TNil).
Proof.
  inversion_clear 1 as [| | |? ? ? Fl L Ry Rk R|]. intros Hn.
  destruct (lookup_lt_is_Some_2 ts j) as [t Ht]; [rewrite <- L; by eapply lookup_lt_Some|].
  exists t. split_and!; [done|by eauto|]. apply rep_nil_iff. eauto.
Qed.

Lemma rep_nils' cs ts fl j t : rep (fullNode cs fl) (TFull ts) -> ts !! j = Some t ->
  exists n, cs !! j = Some n /\ rep n t /\ (n = nilNode <-> t = TNil).
Proof.
  inversion_clear 1 as [| | |? ? ? Fl L Ry Rk R|]. intros Ht.
  destruct (lookup_lt_is_Some_2 cs j) as [n Hn]; [rewrite L; by eapply lookup_lt_Some|].
  exists n. split_and!; [done|by eauto|]. apply rep_nil_iff. eauto.
Qed.

(** The children of a branch after one was replaced. *)
Lemma set_children ts i t : wf (TFull ts) -> 0 <= i < 17 -> t = TNil \/ child_ok i t ->
  (exists j c, j <> Z.to_nat i /\ <[Z.to_nat i := t]> ts !! j = Some c /\ c <> TNil) /\
  forall j c, <[Z.to_nat i := t]> ts !! j = Some c -> c = TNil \/ child_ok (Z.of_nat j) c.
Proof.
  intros (L & (m & n & a & b & Hmn & Hm & Hn & Ha & Hb) & Hc)%wf_branch_iff Hi Ht. split.
  - destruct (decide (m = Z.to_nat i)) as [->|Hne].
    + exists n, b. rewrite list_lookup_insert_ne by done. done.
    + exists m, a. rewrite list_lookup_insert_ne by done. done.
  - intros j c. rewrite list_lookup_insert. case_decide as D; [|apply Hc].
    destruct D as [<- _]. rewrite Z2Nat.id by lia. intros. by simplify_eq.
Qed.

Lemma at_key_child i k t : term (i :: k) -> at_key t k -> t = TNil \/ child_ok i t.
Proof.
  intros Hk [[-> [->|Hv]]|[Hk' [->|Hw]]]; auto; right; apply (full_at_child i _ _ Hk).
  - by left.
  - by right.
Qed.

Lemma shrunk_spec cs fl ts i c t key prefix r : rep (fullNode cs fl) (TFull ts) -> wf (TFull ts) ->
  ts !! Z.to_nat i = Some t -> term (i :: key) -> deleted c t key r ->
  exists r', shrunk cs fl i prefix r = Ret r' /\ deleted (fullNode cs fl) (TFull ts) (i :: key) r'.
Proof.
  intros R Hw Ht Hk. pose proof (term_bound _ _ Hk). destruct r as [[d nn] [e|]].
  { intros He. exists (false, fullNode cs fl, Some e). by destruct d. }
  destruct d; cbn -[tget Z.leb onlyChild]; cycle 1.
  { intros (_ & G & _). eexists. split; [done|]. split_and!; [done| |done]. by rewrite (tget_full_cons _ _ _ t) by (done || lia). }
  intros (t1 & R1 & Hh & A1 & U & _).
  pose proof (at_key_child _ _ _ Hk A1) as Hok. destruct (set_children ts i t1 Hw ltac:(lia) Hok) as [(m & x & Hmi & Hm & Hx) Hch].
  assert (ref_ok nn t1) as K1 by (by apply fresh_ref).
  pose proof (rep_full_set _ _ _ (Z.to_nat i) _ _ R R1 K1) as R2.
  pose proof (updates_full _ _ _ _ _ _ Ht ltac:(lia) U) as U2.
  assert (length (<[Z.to_nat i := t1]> ts) = 17%nat) as L by (rewrite length_insert; by apply wf_branch_iff in Hw as [? _]).
  set (cs' := <[Z.to_nat i := nn]> cs) in *. set (ts' := <[Z.to_nat i := t1]> ts) in *.
  destruct (onlyChild_spec 0 cs') as [[E N]|[(j & d & E & Hj & Hd & Ha)|(E & j & j' & d & d' & Hjj & Hj & Hj' & Hd & Hd')]]; [lia|..]; rewrite E.
  - destruct (rep_nils' _ _ _ _ _ R2 Hm) as (n & Hn & _ & I). rewrite (N _ _ Hn) in I. by apply proj1 in I; rewrite I in Hx.
  - rewrite (proj2 (Z.leb_le _ _)) by lia. rewrite Z.add_0_l.
    destruct (rep_nils _ _ _ _ _ R2 Hj) as (u & Hu & Ru & I).
    destruct (Hch _ _ Hu) as [->|Hju]; [by rewrite (proj2 I) in Hd|].
    destruct (reduce_spec cs' ts' j d u prefix R2 L Hj Hu Hju) as (r & Er & Hr).
    { intros m' y Hne Hy. destruct (rep_nils' _ _ _ _ _ R2 Hy) as (n & Hn & _ & I'). apply I'. by apply (Ha m'). }
    exists r. split; [done|]. destruct r as [[d' n'] [e|]]; [by destruct d'|]. destruct Hr as (-> & t' & R' & H' & W' & G').
    exists t'. split_and!; [done..|by right; split; [|right]| |intros _ ->; inversion W'].
    intros k. rewrite G'. apply U2.
  - rewrite (proj2 (Z.leb_gt _ _)) by lia. eexists. split; [done|]. exists (TFull ts').
    destruct (rep_nils _ _ _ _ _ R2 Hj) as (u & Hu & _ & I), (rep_nils _ _ _ _ _ R2 Hj') as (u' & Hu' & _ & I').
    split_and!; [done..| |done|done]. right. split; [done|]. right. apply wf_branch_iff. split_and!; [done| |done].
    exists j, j', u, u'. split_and!; [done..| |]; intros ->; [by rewrite (proj2 I) in Hd|by rewrite (proj2 I') in Hd'].
Qed.

(** A short node after the deletion in its child. *)
Definition merged (k : bytes) (c : node) (fl : nodeFlag) (r : bool * node * option MissingNodeError)
  : bool * node * option MissingNodeError :=
  let '(dirty, child, err) := r in
  if negb dirty || bool_decide (err <> None) then (false, shortNode k c fl, err)
  else match child with
       | shortNode k' v _ => (true, shortNode (k ++ k') v newFlag, None)
       | _ => (true, shortNode k child newFlag, None)
       end.

Lemma merged_spec k c fl ts key r : rep (shortNode k c fl) (TShort k (TFull ts)) -> wf (TShort k (TFull ts)) ->
  term (k ++ key) -> deleted c (TFull ts) key r -> deleted (shortNode k c fl) (TShort k (TFull ts)) (k ++ key) (merged k c fl r).
Proof.
  intros R Hw Hk. destruct r as [[d n] [e|]]; [by destruct d|]. destruct d; cbn -[tget]; cycle 1.
  { intros (_ & G & _). split_and!; [done| |done]. by rewrite tget_short_app. }
  intros (t' & R' & Hh & A & U & Hn). specialize (Hn I). apply (updates_short k) in U.
  inversion Hw as [|? ? Hk0 Hkn Hwf|]; subst. assert (wf t') as Hw'.
  { apply term_app in Hk; [|done]. destruct A as [[-> _]|[_ [->|?]]]; done. }
  destruct R' as [|v|k' v fl' tv Fl Ry Rk Rv|cs fl' us Fl L Ry Rk Rc|t' W K]; try done; try by inversion Hw'.
  - exists (TShort (k ++ k') tv). split_and!; [constructor; [apply flag_new|done..]|done| | |done].
    + right. split; [done|]. right. inversion Hw' as [? w Ht Hv|? us Hk1 Hk2 Hu|]; subst.
      * constructor; [by apply term_app|done].
      * constructor; [by destruct k|by apply Forall_app|done].
    + intros q. rewrite tget_short_short. apply U.
  - exists (TShort k (TFull us)). split_and!; [|done| |done|done].
    + constructor; [apply flag_new|by intros []|by apply fresh_ref|by constructor].
    + right. split; [done|]. right. by constructor.
Qed.

Lemma tget_short_none p t k : ~ p `prefix_of` k -> tget (TShort p t) k = None.
Proof.
  intros Hp. destruct (tget (TShort p t) k) as [v|] eqn:G; [|done].
  apply tget_short_inv in G as (k' & -> & _). destruct Hp. by exists k'.
Qed.

Lemma updates_whole k v : updates (TShort k (TVal v)) TNil k None.
Proof.
  intros q. case_bool_decide as E; [done|]. destruct (tget (TShort k _) q) as [w|] eqn:G; [|done].
  apply tget_short_inv in G as ([|x k'] & -> & G); [|done]. by rewrite app_nil_r in E.
Qed.

Lemma delete_spec fuel n t prefix key : rep n t -> at_key t key -> (need n (length key) <= fuel)%nat ->
  exists r, delete db fuel n prefix key = Ret r /\ deleted n t key r.
Proof.
  revert n t prefix key. induction fuel as [|fuel IH]; intros n t prefix key R A Hf; [destruct n; cbn in Hf; lia|].
  destruct R as [|v|k c fl t Fl Ry Rk R|cs fl ts Fl L Ry Rk R|t W K].
  - eexists. split; [done|]. split; [constructor|done].
  - destruct A as [[-> _]|[_ [?|A]]]; [|done|inversion A]. eexists. split; [done|]. exists TNil.
    split_and!; [constructor|done|by left; auto| |done]. intros k. rewrite tget_val. by repeat case_bool_decide.
  - destruct A as [[_ [?|(? & ? & _)]]|[Hk [?|A]]]; try done.
    destruct (prefixLen_spec key k) as (p & ra & rb & -> & -> & El & Hd). cbn [delete]. rewrite El.
    destruct rb as [|y rb]; cycle 1.
    { rewrite (proj2 (Nat.ltb_lt _ _)) by (rewrite length_app; cbn; lia). eexists. split; [done|].
      split_and!; [by constructor| |done]. apply tget_short_none. intros [q E]. rewrite <- app_assoc in E. apply app_inv_head in E.
      destruct ra as [|x ra]; [done|]. injection E as -> _. by apply (Hd y y ra rb). }
    rewrite app_nil_r in *. rewrite Nat.ltb_irrefl. destruct ra as [|x ra].
    { rewrite app_nil_r in *. rewrite Nat.eqb_refl. eexists. split; [done|]. exists TNil.
      split_and!; [constructor|done|right; split; [done|by left]| |done].
      inversion A as [? w Ht Hv|? ts Hn Hp Hw|]; subst; [apply updates_whole|]. by apply nibbles_not_term in Hp. }
    rewrite (proj2 (Nat.eqb_neq _ _)) by (rewrite length_app; cbn; lia). rewrite drop_app_length.
    destruct (IH c t (prefix ++ take (length p) (p ++ x :: ra)) (x :: ra)) as (r & Er & Hr); [done|by apply (at_key_short p)| |].
    { assert (0 < length p)%nat by (inversion A; destruct p; done || cbn; lia).
      cbn in *. rewrite length_app in Hf. cbn in *. pose proof (need_le c (S (length ra))). lia. }
    exists (merged p c fl r). rewrite Er. split; [destruct r as [[d nn] e]; cbn [mbind outcome_bind merged]; case_match; [done|by destruct nn]|].
    inversion A as [? w Ht Hv|? ts Hn Hp Hw|]; subst; [by apply term_prefix_free in Hk|]. apply merged_spec; [by constructor|done..].
  - destruct A as [[_ [?|(? & ? & _)]]|[Hk [?|A]]]; try done. destruct key as [|x key]; [done|].
    destruct (at_key_full _ _ _ A Hk) as (t & Ht & Hi & At).
    destruct (lookup_lt_is_Some_2 cs (Z.to_nat x)) as [c Hc]; [rewrite L; by eapply lookup_lt_Some|].
    destruct (IH c t (prefix ++ [x]) key) as (r & Er & Hr); [by eapply R|done|cbn in *; pose proof (need_le c (length key)); lia|].
    destruct (shrunk_spec cs fl ts x c t key prefix r) as (r' & Er' & Hr'); [by constructor|done..|].
    exists r'. split; [|done]. rewrite <- Er'. cbn [delete]. rewrite Hc, Er. by destruct r as [[d nn] e].
  - cbn [delete]. unfold resolveHash. destruct (Hdb t W K) as [D|(n & D & N & Hh & Rd & R)]; rewrite D; [eexists; split; [done|by apply missing_known]|]. cbn [mbind outcome_bind].
    destruct (IH n t prefix key) as (r & Er & Hr); [done|done|pose proof (need_node n (length key) N); cbn in *; lia|].
    rewrite Er. cbn [mbind outcome_bind].
    destruct r as [[d nn] [e|]]; destruct d; cbn [negb orb]; rewrite ?bool_decide_eq_true_2, ?bool_decide_eq_false_2 by (done || tauto);
      (eexists; split; [done|]); try done.
    destruct Hr as (_ & G & _). split_and!; [done..|]. intros _. by apply hashed_root.
Qed.

(** ** The trie and a finite map *)

(** The keys of the tree are those of the map. *)
Definition contents (t : tree) (m : gmap bytes bytes) : Prop :=
  forall k v, term k -> tget t k = Some v <-> exists key, bytes_ok key /\ k = keybytesToHex key /\ m !! key = Some v.

Definition holds (t : Trie) (m : gmap bytes bytes) : Prop :=
  exists tr, rep (tr_root t) tr /\ root_ok (tr_root t) /\ wf0 tr /\ contents tr m.

End Refinement.

(** *** Keys as nibbles *)

Lemma nibbles_ok key : bytes_ok key -> Forall nibble (concat ((fun b => [b / 16; b mod 16]) <$> key)).
Proof.
  induction 1 as [|b key Hb _ IH]; [constructor|]. cbn. unfold is_byte in Hb. pose proof (Z.mod_pos_bound b 16).
  repeat constructor; [apply Z.div_pos; lia|apply Z.div_lt_upper_bound; lia|lia|lia|done].
Qed.

Lemma term_keybytes key : bytes_ok key -> term (keybytesToHex key).
Proof. intros Hk. apply term_app; [by apply nibbles_ok|]. by apply term_16. Qed.

Lemma keybytes_inj a b : keybytesToHex a = keybytesToHex b -> a = b.
Proof.
  unfold keybytesToHex. intros E%app_inv_tail. revert b E. induction a as [|x a IH]; intros [|y b] E; try done.
  cbn in E. injection E as E1 E2 E3. f_equal; [|by apply IH]. rewrite (Z.div_mod x 16), (Z.div_mod y 16) by lia. congruence.
Qed.

Lemma length_keybytes key : length (keybytesToHex key) = (2 * length key + 1)%nat.
Proof. unfold keybytesToHex. rewrite length_app. cbn. induction key as [|b key IH]; cbn in *; lia. Qed.

Lemma contents_get t m key : contents t m -> bytes_ok key -> tget t (keybytesToHex key) = m !! key.
Proof.
  intros C Hk. apply option_eq. intros v. rewrite (C _ v (term_keybytes _ Hk)). split; [|by eauto].
  intros (key' & _ & E & G). by apply keybytes_inj in E as ->.
Qed.

Lemma contents_updates t t' m key o : contents t m -> bytes_ok key -> updates t t' (keybytesToHex key) o ->
  contents t' (partial_alter (fun _ => o) key m).
Proof.
  intros C Hk U k v Ht. rewrite U. case_bool_decide as E.
  - subst. split.
    + intros ->. exists key. by rewrite lookup_partial_alter_eq.
    + intros (key' & _ & E & G). apply keybytes_inj in E as ->. by rewrite lookup_partial_alter_eq in G.
  - rewrite (C _ v Ht). split; intros (key' & Ho & -> & G); exists key'; (split_and!; [done..|]).
    + rewrite lookup_partial_alter_ne; [done|]. by intros ->.
    + rewrite lookup_partial_alter_ne in G; [done|]. by intros ->.
Qed.

Lemma contents_same t m key o : contents t m -> bytes_ok key -> tget t (keybytesToHex key) = o ->
  contents t (partial_alter (fun _ => o) key m).
Proof. intros C Hk <-. apply (contents_updates t); [done..|]. apply updates_same. Qed.

(** The tree is a function of the map. *)
Lemma contents_unique t u m : wf0 t -> wf0 u -> contents t m -> contents u m -> t = u.
Proof.
  intros Ht Hu Ct Cu. apply canonical0; [done..|]. intros k Hk. apply option_eq. intros v.
  by rewrite (Ct k v Hk), (Cu k v Hk).
Qed.

(** ** Sequences of operations *)

Inductive trieOp := OpGet (key : bytes) | OpUpdate (key value : bytes) | OpDelete (key : bytes).

Definition opKey (op : trieOp) : bytes := match op with OpGet k | OpUpdate k _ | OpDelete k => k end.

(** A read returns its value; an operation that misses a node fails. *)
Definition trieStep (db : Hash -> outcome (option node)) (fuel : nat) (t : Trie) (op : trieOp)
  : outcome (Trie * (option bytes + MissingNodeError)) :=
  match op with
  | OpGet key => '(t, v, err) ← TryGet db fuel t key; Ret (t, match err with Some e => inr e | None => inl v end)
  | OpUpdate key value => '(t, err) ← TryUpdate db fuel t key value; Ret (t, match err with Some e => inr e | None => inl None end)
  | OpDelete key => '(t, err) ← TryDelete db fuel t key; Ret (t, match err with Some e => inr e | None => inl None end)
  end.

Fixpoint trieRun db fuel (t : Trie) (ops : list trieOp) : outcome (Trie * list (option bytes + MissingNodeError)) :=
  match ops with
  | [] => Ret (t, [])
  | op :: ops =>
      '(t, r) ← trieStep db fuel t op;
      '(t, rs) ← trieRun db fuel t ops;
      Ret (t, r :: rs)
  end.

Definition mapStep (m : gmap bytes bytes) (op : trieOp) : gmap bytes bytes * option bytes :=
  match op with
  | OpGet key => (m, m !! key)
  | OpUpdate key value => (if bool_decide (value <> []) then <[key := value]> m else base.delete key m, None)
  | OpDelete key => (base.delete key m, None)
  end.

(** The results are those of the map; an operation that fails met a node that
    is missing and leaves the map as it was. *)
Fixpoint agrees `{Crypto} (Known : tree -> Prop) (db : Hash -> outcome (option node)) (m : gmap bytes bytes) (ops : list trieOp)
    (rs : list (option bytes + MissingNodeError)) (m' : gmap bytes bytes) : Prop :=
  match ops, rs with
  | [], [] => m = m'
  | op :: ops, inl v :: rs => v = (mapStep m op).2 /\ agrees Known db (mapStep m op).1 ops rs m'
  | op :: ops, inr e :: rs => missing Known db e /\ agrees Known db m ops rs m'
  | _, _ => False
  end.

Section Steps.
Context `{Crypto} (Known : tree -> Prop) (db : Hash -> outcome (option node)) (Hdb : serves Known db) (fuel : nat).

Definition enough (key : bytes) : Prop := bytes_ok key /\ (4 * length key + 4 <= fuel)%nat.

Lemma enough_at t key : wf0 t -> enough key ->
  at_key t (keybytesToHex key) /\ forall n, (need n (length (keybytesToHex key)) <= fuel)%nat.
Proof.
  intros Hw [Hk Hf]. split; [right; split; [by apply term_keybytes|done]|].
  intros n. pose proof (need_le n (length (keybytesToHex key))). rewrite length_keybytes in *. lia.
Qed.

Lemma TryGet_spec t m key : holds Known t m -> enough key ->
  exists t' v err, TryGet db fuel t key = Ret (t', v, err) /\ holds Known t' m /\
    match err with None => v = m !! key | Some e => missing Known db e end.
Proof.
  intros (tr & R & Ro & Hw & C) He. destruct (enough_at tr key Hw He) as [A Hn]. destruct He as [Hk _].
  destruct (tryGet_spec Known db Hdb fuel (tr_root t) tr (keybytesToHex key) 0 R) as ([[[v n] d] err] & E & G);
    [done|lia|by rewrite Nat.sub_0_r|].
  unfold TryGet. rewrite E. cbn [mbind outcome_bind]. do 3 eexists. split; [done|]. destruct err as [e|]; cbn.
  - split; [by exists tr|done].
  - destruct G as (-> & R' & _ & Ro' & _). split; [|by apply contents_get]. exists tr. destruct d; cbn; auto.
Qed.

Lemma TryDelete_spec t m key : holds Known t m -> enough key ->
  exists t' err, TryDelete db fuel t key = Ret (t', err) /\
    match err with None => holds Known t' (base.delete key m) | Some e => missing Known db e /\ holds Known t' m end.
Proof.
  intros (tr & R & Ro & Hw & C) He. destruct (enough_at tr key Hw He) as [A Hn]. destruct He as [Hk _].
  destruct (delete_spec Known db Hdb fuel (tr_root t) tr [] (keybytesToHex key) R A (Hn _)) as ([[d n] err] & E & G).
  unfold TryDelete. cbn [tr_root setf]. cbn. rewrite E. cbn [mbind outcome_bind]. do 2 eexists. split; [done|].
  destruct err as [e|]; cbn; [by destruct d; (split; [done|by exists tr])|]. unfold deleted in G. destruct d.
  - destruct G as (t' & R' & Fn & A' & U & _). exists t'. split_and!; [done|by apply fresh_root| |by eapply contents_updates].
    pose proof (term_keybytes key Hk). destruct A' as [[E' _]|[_ ?]]; [by rewrite E' in *|done].
  - destruct G as (R' & G & Ro'). exists tr. split_and!; [done|by apply Ro'|done|]. by apply (contents_same tr m key None).
Qed.

Lemma TryUpdate_spec t m key value : holds Known t m -> enough key ->
  exists t' err, TryUpdate db fuel t key value = Ret (t', err) /\
    match err with
    | None => holds Known t' (if bool_decide (value <> []) then <[key := value]> m else base.delete key m)
    | Some e => missing Known db e /\ holds Known t' m
    end.
Proof.
  intros Hh He. unfold TryUpdate. case_bool_decide as Hv; [|by apply TryDelete_spec].
  destruct Hh as (tr & R & Ro & Hw & C). destruct (enough_at tr key Hw He) as [A Hn]. destruct He as [Hk _].
  destruct (insert_spec Known db Hdb fuel (tr_root t) tr [] (keybytesToHex key) value R A Hv (Hn _)) as ([[d n] err] & E & G).
  cbn [tr_root setf]. cbn. rewrite E. cbn [mbind outcome_bind]. do 2 eexists. split; [done|].
  destruct err as [e|]; cbn; [by destruct d; (split; [done|by exists tr])|]. unfold inserted in G. destruct d.
  - destruct G as (t' & R' & Fn & A' & U & _). exists t'. split_and!; [done|by apply fresh_root| |by eapply contents_updates].
    pose proof (term_keybytes key Hk). destruct A' as [[E' _]|[_ ?]]; [by rewrite E' in *|by right].
  - destruct G as (R' & G & Ro'). exists tr. split_and!; [done|by apply Ro'|done|]. by apply (contents_same tr m key (Some value)).
Qed.

Lemma trieStep_spec t m op : holds Known t m -> enough (opKey op) ->
  exists t' r, trieStep db fuel t op = Ret (t', r) /\
    match r with
    | inl v => v = (mapStep m op).2 /\ holds Known t' (mapStep m op).1
    | inr e => missing Known db e /\ holds Known t' m
    end.
Proof.
  intros Hh He. destruct op as [key|key value|key]; cbn [trieStep mapStep opKey] in *.
  - destruct (TryGet_spec t m key Hh He) as (t' & v & err & -> & Hh' & G). cbn. do 2 eexists. split; [done|]. by destruct err.
  - destruct (TryUpdate_spec t m key value Hh He) as (t' & err & -> & G). cbn. do 2 eexists. split; [done|]. by destruct err.
  - destruct (TryDelete_spec t m key Hh He) as (t' & err & -> & G). cbn. do 2 eexists. split; [done|]. by destruct err.
Qed.

Lemma trieRun_agrees t m ops : holds Known t m -> Forall (fun op => enough (opKey op)) ops ->
  exists t' rs m', trieRun db fuel t ops = Ret (t', rs) /\ agrees Known db m ops rs m' /\ holds Known t' m'.
Proof.
  intros Hh He. revert t m Hh. induction He as [|op ops Ho _ IH]; intros t m Hh; cbn [trieRun]; [by exists t, [], m|].
  destruct (trieStep_spec t m op Hh Ho) as (t1 & r & -> & G). cbn [mbind outcome_bind].
  destruct r as [v|e]; destruct G as [Hr Hh1];
    destruct (IH _ _ Hh1) as (t' & rs & m' & -> & A & Hh'); cbn [mbind outcome_bind]; by do 3 eexists.
Qed.

(** C24: A trie is a finite map from keys to non-empty values: every sequence
    of reads, updates and deletions returns, with the fuel the key length
    gives, and its results are those of the map; an operation that needs a
    node the database lacks reports it and changes nothing.  Resolving nodes
    on demand, splitting and merging them is not visible. *)
Theorem trie_refines_map t m ops : holds Known t m -> Forall (fun op => enough (opKey op)) ops ->
  exists t' rs m', trieRun db fuel t ops = Ret (t', rs) /\ agrees Known db m ops rs m' /\ holds Known t' m'.
Proof. apply trieRun_agrees. Qed.

End Steps.

(** The empty trie. *)
Lemma holds_empty `{Crypto} Known n : holds Known (mkTrie nilNode n) ∅.
Proof.
  exists TNil. split_and!; [constructor|done|by left|]. intros k v _. split; [done|].
  intros (key & _ & _ & E). by rewrite lookup_empty in E.
Qed.

Definition noNodes (_ : Hash) : outcome (option node) := Ret None.

Lemma trie_refines_map_witness :
  (let ops := [OpUpdate [1; 2] [7]; OpUpdate [1; 3] [8]; OpDelete [1; 2]; OpGet [1; 3]; OpGet [1; 2]] in
   exists t' rs m', trieRun noNodes 12 (mkTrie nilNode 0) ops = Ret (t', rs) /\ @agrees toyCrypto (fun _ => False) noNodes ∅ ops rs m' /\
     @holds toyCrypto (fun _ => False) t' m' /\ rs = [inl None; inl None; inl None; inl (Some [8]); inl None])%Z.
Proof.
  intros ops.
  destruct (@trie_refines_map toyCrypto (fun _ => False) noNodes ltac:(by intros ? ? []) 12 (mkTrie nilNode 0) ∅ ops) as (t' & rs & m' & E & A & Hh).
  - apply holds_empty.
  - repeat constructor; cbn; unfold is_byte; try lia.
  - exists t', rs, m'. split_and!; [done..|]. vm_compute in E. congruence.
Defined.
