(* ===== verification/TrieHash.v ===== *)
(** * Hashing tries (trie/hasher.go, trie/trie.go: Hash)

    The hasher collapses a trie bottom up: the encoding of a node of 32 bytes
    or more is replaced by its hash, and the hashes are cached in the nodes.
    With [parallel] set the children of a branch are hashed concurrently,
    each goroutine writing its own slots, so the result is the same; the model
    hashes them in order. *)

From S2P Require Import Prelude Rlp RlpRaw Transaction Trie TrieMap TrieRefine.

(** What rlp.Encode writes for a node: EncodeRLP of a full node, the exported
    fields of a short one; a nil interface is an empty list. *)
Fixpoint rlpNode (n : node) : value :=
  match n with
  | nilNode => VNil List
  | fullNode cs _ => VList (List.map (fun c => match c with nilNode => VBytes [] | _ => rlpNode c end) cs)
  | shortNode k v _ => VList [VBytes k; rlpNode v]
  | hashNode h => VBytes h
  | valueNode v => VBytes v
  end.

(** emptyRoot, the root of the empty trie. *)
Definition emptyRoot : Hash := 0x56e81f171bcc55a6ff8345e692c0f86e5b48e01b996cadc001622fb5e363b421.

Section Hasher.
Context `{Crypto}.

Definition hashData (data : bytes) : node := hashNode (be_bytes HashLength (keccak256 data)).

(** shortnodeToHash and fullnodeToHash. *)
Definition nodeToHash (n : node) (force : bool) : outcome node :=
  match EncodeToBytes (rlpNode n) with
  | None => Panic
  | Some enc => Ret (if bool_decide (length enc < 32)%nat && negb force then n else hashData enc)
  end.

(** The cached node remembers its hash, if it has one. *)
Definition setHash (n hashed : node) : node :=
  let hash := match hashed with hashNode h => Some h | _ => None end in
  match n with
  | shortNode k v f => shortNode k v (mkFlag hash (fl_dirty f))
  | fullNode cs f => fullNode cs (mkFlag hash (fl_dirty f))
  | _ => n
  end.

(** A loop over the children that fills two arrays. *)
Definition forChildren (f : nat -> node -> outcome (node * node)) :=
  fix go (i : nat) (cs : list node) : outcome (list node * list node) :=
    match cs with
    | [] => Ret ([], [])
    | c :: cs => '(d, e) ← f i c; '(ds, es) ← go (S i) cs; Ret (d :: ds, e :: es)
    end.

Fixpoint hash (n : node) (force : bool) {struct n} : outcome (node * node) :=
  '(h, _) ← cache n;
  match h with
  | Some h => Ret (hashNode h, n)
  | None =>
      match n with
      | shortNode k v fl =>
          (* hashShortNodeChildren *)
          key ← hexToCompact k;
          '(collapsed, cached) ← match v with fullNode _ _ | shortNode _ _ _ => hash v false | _ => Ret (v, v) end;
          hashed ← nodeToHash (shortNode key collapsed fl) force;
          Ret (hashed, setHash (shortNode k cached fl) hashed)
      | fullNode cs fl =>
          (* hashFullNodeChildren *)
          '(collapsed, cached) ←
            forChildren (fun i c =>
              if (i <? 16)%nat then match c with nilNode => Ret (valueNode [], nilNode) | _ => hash c false end
              else Ret (c, c)) 0 cs;
          hashed ← nodeToHash (fullNode collapsed fl) force;
          Ret (hashed, setHash (fullNode cached fl) hashed)
      | _ => Ret (n, n)
      end
  end.

(** hashRoot and Hash; the result of the hasher is a hash since it is forced. *)
Definition Trie_Hash (t : Trie) : outcome (Trie * Hash) :=
  match tr_root t with
  | nilNode => Ret (t, BytesToHash (be_bytes HashLength emptyRoot))
  | root =>
      '(hashed, cached) ← hash root true;
      match hashed with
      | hashNode h => Ret (mkTrie cached 0, BytesToHash h)
      | _ => Panic
      end
  end.

(** ** Correctness *)

Definition childRef (t : tree) : value :=
  match t with TFull _ | TShort _ _ => shrink (collapse t) | _ => collapse t end.
Definition rlpChild (c : node) : value := match c with nilNode => VBytes [] | _ => rlpNode c end.

Lemma collapse_short k t : collapse (TShort k t) = VList [VBytes (orNil (hexToCompact k)); childRef t].
Proof. done. Qed.
Lemma collapse_full ts : collapse (TFull ts) = VList (childRef <$> ts).
Proof. done. Qed.
Lemma rlpNode_full cs fl : rlpNode (fullNode cs fl) = VList (rlpChild <$> cs).
Proof. done. Qed.

(** The hasher on one child of a full node. *)
Definition hashChild (i : nat) (c : node) : outcome (node * node) :=
  if (i <? 16)%nat then match c with nilNode => Ret (valueNode [], nilNode) | _ => hash c false end else Ret (c, c).

Lemma hash_full cs fl force : fl_hash fl = None -> hash (fullNode cs fl) force =
  ('(collapsed, cached) ← forChildren hashChild 0 cs;
   hashed ← nodeToHash (fullNode collapsed fl) force;
   Ret (hashed, setHash (fullNode cached fl) hashed)).
Proof. intros E. cbn [hash cache mbind outcome_bind]. by rewrite E. Qed.

Lemma decodeNibbles_even k : Nat.even (length k) = true -> exists b, decodeNibbles k = Ret b.
Proof.
  induction k as [k IH] using (induction_ltof1 _ (@length Z)). unfold ltof in IH.
  destruct k as [|x [|y k]]; [by eexists|done|]. intros E. destruct (IH k) as [b Hb]; [cbn; lia|done|].
  exists (joinNibbles x y :: b). cbn. by rewrite Hb.
Qed.

Lemma hexToCompact_ret k : hexToCompact k = Ret (orNil (hexToCompact k)).
Proof.
  enough (exists b, hexToCompact k = Ret b) as [b ->] by done. unfold hexToCompact.
  set (hex := if hasTerm k then _ else _ : bytes). destruct hex as [|x hex]; [by eexists|].
  destruct (Nat.odd (length (x :: hex))) eqn:E.
  - destruct (decodeNibbles_even hex) as [b ->]; [|by eexists]. cbn in E. by rewrite Nat.odd_succ in E.
  - destruct (decodeNibbles_even (x :: hex)) as [b ->]; [|by eexists]. rewrite <- Nat.negb_odd. by rewrite E.
Qed.

(** Encoding never fails. *)
Lemma tree_ind' (P : tree -> Prop) : P TNil -> (forall v, P (TVal v)) -> (forall k t, P t -> P (TShort k t)) ->
  (forall ts, Forall P ts -> P (TFull ts)) -> forall t, P t.
Proof.
  intros Hn Hv Hs Hf. fix IH 1. intros [|v|k t|ts]; [done|done|by apply Hs|]. apply Hf.
  induction ts as [|t ts IHts]; constructor; [apply IH|done].
Qed.

Lemma nonneg_list l : Forall nonneg l -> nonneg (VList l).
Proof. induction 1 as [|v l Hv _ IH]; [done|]. split; [done|]. exact IH. Qed.

Lemma shrink_nonneg v : nonneg v -> nonneg (shrink v).
Proof. intros Hv. unfold shrink. by case_bool_decide. Qed.

Lemma collapse_nonneg t : nonneg (collapse t).
Proof.
  induction t as [|v|k t IH|ts IH] using tree_ind'; [done|done| |].
  - rewrite collapse_short. split; [done|]. split; [|done]. unfold childRef. destruct t; try done; by apply shrink_nonneg.
  - rewrite collapse_full. apply nonneg_list, Forall_fmap. eapply Forall_impl; [done|]. intros t Ht.
    unfold compose, childRef. destruct t; try done; by apply shrink_nonneg.
Qed.

Lemma encode_collapse t : EncodeToBytes (collapse t) = Some (encodeOrNothing (collapse t)).
Proof.
  unfold encodeOrNothing, EncodeToBytes. destruct (writeValue_some (collapse t) emptyEncbuf (collapse_nonneg t)) as [w ->]. done.
Qed.

Lemma nodeToHash_spec n t force : rlpNode n = collapse t ->
  nodeToHash n force =
    Ret (if bool_decide (length (encodeOrNothing (collapse t)) < 32)%nat && negb force then n else hashNode (hashBytes t)).
Proof. intros E. unfold nodeToHash. by rewrite E, encode_collapse. Qed.

Context (Known : tree -> Prop).

(** The result of the hasher: the reference the parent stores, or the hash
    when it is forced; the cached node stands for the same tree and has its
    hashes. *)
Definition hashes (n : node) (t : tree) (force : bool) : Prop :=
  exists hd cd, hash n force = Ret (hd, cd) /\ rep Known cd t /\ ready cd t /\
    if force then hd = hashNode (hashBytes t) /\ hashed cd = true
    else rlpNode hd = shrink (collapse t) /\ hd <> nilNode /\ ref_ok cd t.

(** What hashing needs of the node: a root that is clean has its hash. *)
Definition hashable (n : node) (t : tree) (force : bool) : Prop := if force then root_ok n else ref_ok n t.

Lemma shrink_big t : big t -> shrink (collapse t) = VBytes (hashBytes t).
Proof. intros B. unfold shrink. by rewrite bool_decide_eq_false_2 by (unfold big in B; lia). Qed.

Lemma hashes_hash n t force : hash n force = Ret (hashNode (hashBytes t), n) -> rep Known n t -> ready n t ->
  hashed n = true -> hashable n t force -> hashes n t force.
Proof.
  intros E R Ry Hh Hr. exists (hashNode (hashBytes t)), n. split_and!; [done..|]. destruct force; [done|].
  cbn. by rewrite shrink_big by auto.
Qed.

Definition withHash (n : node) (h : option bytes) : node :=
  match n with
  | shortNode k v f => shortNode k v (mkFlag h (fl_dirty f))
  | fullNode cs f => fullNode cs (mkFlag h (fl_dirty f))
  | _ => n
  end.

(** The last step of the hasher, on a node and the copy that is cached. *)
Lemma hashes_node n t force fl collapsed cached :
  hash n force = (hashed ← nodeToHash collapsed force; Ret (hashed, setHash cached hashed)) ->
  rlpNode collapsed = collapse t -> isNode collapsed -> isNode cached ->
  flag_ok Known fl t -> fl_hash fl = None -> (force = true -> fl_dirty fl = true) ->
  (forall h, flag_ok Known (mkFlag h (fl_dirty fl)) t -> (big t -> h <> None) ->
     rep Known (withHash cached h) t /\ ready (withHash cached h) t) ->
  hashes n t force.
Proof.
  intros E Ec Nc Nk [_ Fl] Fn Fd R. rewrite (nodeToHash_spec _ t) in E by done. cbn [mbind outcome_bind] in E. rewrite Fn in Fl.
  assert (forall h, hashed (withHash cached h) = bool_decide (is_Some h)) as Hs by (by destruct cached).
  destruct (bool_decide (length (encodeOrNothing (collapse t)) < 32)%nat && negb force) eqn:B.
  - apply andb_true_iff in B as [B F]. destruct force; [done|]. exists collapsed, (withHash cached None).
    destruct (R None) as [R1 R2]; [by split|intros Hb; apply bool_decide_eq_true in B; unfold big in Hb; lia|].
    split_and!; [|done|done|unfold shrink; by rewrite B|by destruct collapsed|].
    + rewrite E. do 2 f_equal. by destruct collapsed, cached.
    + intros Hh. by rewrite Hs in Hh.
  - exists (hashNode (hashBytes t)), (withHash cached (Some (hashBytes t))).
    assert (force = false -> big t) as Hb.
    { intros ->. rewrite andb_true_r in B. apply bool_decide_eq_false in B. unfold big. lia. }
    destruct (R (Some (hashBytes t))) as [R1 R2]; [|done|].
    { split; [intros h Hh; by simplify_eq/=|]. cbn. intros D. destruct force; [rewrite Fd in D; done|]. by destruct (Fl D); auto. }
    split_and!; [rewrite E; by destruct cached|done|done|]. destruct force; [split; [done|by rewrite Hs]|].
    split_and!; [by rewrite shrink_big by auto|done|]. intros _. auto.
Qed.

(** What the loop needs of each child, and what it gives. *)
Definition hashableChild (i : nat) (c : node) (t : tree) : Prop :=
  rep Known c t /\ ref_ok c t /\ (t = TNil \/ (i = 16%nat /\ isVal t) \/ ((i < 16)%nat /\ wf t /\ hashes c t false)).

Lemma hashChild_spec i c t : hashableChild i c t ->
  exists d e, hashChild i c = Ret (d, e) /\ rlpChild d = childRef t /\ rep Known e t /\ ref_ok e t /\ ready e t.
Proof.
  unfold hashChild. intros (R & Rk & [->|[[-> (v & -> & _)]|(Hi & Hw & hd & cd & E & R' & Ry & Eh & Hn & Rk')]]).
  - apply rep_nil_iff in R as I. rewrite (proj2 I) in * by done.
    destruct (i <? 16)%nat; do 2 eexists; (split_and!; [done..|constructor|done|constructor]).
  - apply rep_val_inv in R as ->. do 2 eexists. split_and!; [done..|constructor|done|constructor].
  - rewrite (proj2 (Nat.ltb_lt _ _) Hi). exists hd, cd. split_and!; [| |done..].
    + by destruct c.
    + assert (rlpChild hd = rlpNode hd) as -> by by destruct hd. rewrite Eh. destruct t; try by inversion Hw.
Qed.

Lemma forChildren_spec i cs ts : length cs = length ts ->
  (forall j c t, cs !! j = Some c -> ts !! j = Some t -> hashableChild (i + j) c t) ->
  exists ds es, forChildren hashChild i cs = Ret (ds, es) /\ rlpChild <$> ds = childRef <$> ts /\ length es = length ts /\
    (forall j e t, es !! j = Some e -> ts !! j = Some t -> rep Known e t /\ ref_ok e t /\ ready e t).
Proof.
  revert i ts. induction cs as [|c cs IH]; intros i [|t ts] L Hc; try done; [by exists [], []|].
  destruct (hashChild_spec i c t) as (d & e & E & Ed & R & Rk); [rewrite <- (Nat.add_0_r i); by apply Hc|].
  destruct (IH (S i) ts) as (ds & es & E' & Ed' & L' & R'); [by injection L|intros j c' t' H1 H2; rewrite Nat.add_succ_comm; by apply Hc|].
  exists (d :: ds), (e :: es). cbn [forChildren]. rewrite E. cbn [mbind outcome_bind]. cbn [forChildren] in E'. rewrite E'.
  cbn [mbind outcome_bind]. split_and!; [done|rewrite !fmap_cons; congruence|cbn; congruence|intros [|j]; cbn];
    [intros; by simplify_eq|by eauto].
Qed.

Lemma root_dirty fl force t n : hashable n t force -> fl_hash fl = None ->
  match n with shortNode _ _ f | fullNode _ f => f = fl | _ => False end -> force = true -> fl_dirty fl = true.
Proof. destruct n; cbn; try done; intros R E <- ->; by apply R. Qed.

Lemma hash_short k n fl t force : rep Known (shortNode k n fl) (TShort k t) -> wf (TShort k t) ->
  (wf t -> hashes n t false) -> hashable (shortNode k n fl) (TShort k t) force -> hashes (shortNode k n fl) (TShort k t) force.
Proof.
  intros R0 Hw IH Hr. inversion R0 as [| |? ? ? ? Fl Ry Rk R| |]; subst. destruct (fl_hash fl) as [h|] eqn:E.
  { apply hashes_hash; [cbn; by rewrite E, (proj1 Fl h E)|done|by constructor; [rewrite E|apply Ry]|cbn; by rewrite E|done]. }
  assert (exists cv hv, match n with fullNode _ _ | shortNode _ _ _ => hash n false | _ => Ret (n, n) end = Ret (cv, hv) /\
    rlpNode cv = childRef t /\ rep Known hv t /\ ref_ok hv t /\ ready hv t) as (cv & hv & Ev & Ec & Rv & Kv & Yv).
  { inversion Hw as [? w Hk Hv|? us Hk1 Hk2 Hu|]; subst.
    - apply rep_val_inv in R as ->. exists (valueNode w), (valueNode w). split_and!; [done..|constructor|done|constructor].
    - destruct (IH Hu) as (hd & cd & Eh & Rh & Rdy & Er & _ & Kh). exists hd, cd. split_and!; [|done..]. by destruct n. }
  apply (hashes_node _ _ _ fl (shortNode (orNil (hexToCompact k)) cv fl) (shortNode k hv fl)); try done.
  - cbn [hash cache mbind outcome_bind]. rewrite E, hexToCompact_ret. cbn [mbind outcome_bind]. rewrite Ev. done.
  - rewrite collapse_short, <- Ec. done.
  - by eapply root_dirty.
  - intros h Hf Hh. cbn. split; by constructor.
Qed.

Lemma hash_spec n t : rep Known n t -> wf t -> forall force, hashable n t force -> hashes n t force.
Proof.
  induction 1 as [|v|k n fl t Fl Ry Rk R IH|cs fl ts Fl L Ry Rk R IH|t W K]; intros Hw force Hr; try by inversion Hw.
  - apply hash_short; [by constructor|done| |done]. intros Hu. by apply (IH Hu false).
  - destruct (fl_hash fl) as [h|] eqn:E.
    { apply hashes_hash; [cbn; by rewrite E, (proj1 Fl h E)|constructor; try done; by rewrite E|constructor; [by rewrite E|by apply Ry]|cbn; by rewrite E|done]. }
    destruct (forChildren_spec 0 cs ts L) as (ds & es & Ef & Ed & L' & R').
    { intros j c t Hc Ht. apply wf_branch_iff in Hw as (_ & _ & Hch). split_and!; [by eauto..|].
      destruct (Hch _ _ Ht) as [->|[[Hj Hv]|[Hj Hw]]]; [by left|right; left; split; [lia|done]|right; right].
      unfold nibble in Hj. split_and!; [lia|done|]. eapply IH; [done..|]. by eapply Rk. }
    apply (hashes_node _ _ _ fl (fullNode ds fl) (fullNode es fl)); try done.
    + rewrite hash_full, Ef by done. done.
    + rewrite rlpNode_full, collapse_full. by f_equal.
    + by eapply root_dirty.
    + intros h Hf Hh. cbn. split; constructor; try done; intros; by edestruct R' as (? & ? & ?).
  - apply hashes_hash; [done|by apply rep_hash|constructor|done..].
Qed.

End Hasher.

(** ** The root is a function of the contents *)

Definition rootOf `{Crypto} (t : tree) : Hash :=
  match t with TNil => BytesToHash (be_bytes HashLength emptyRoot) | _ => BytesToHash (hashBytes t) end.

Lemma rootOf_wf `{Crypto} t : wf t -> rootOf t = BytesToHash (hashBytes t).
Proof. intros []; reflexivity. Qed.

Lemma Trie_Hash_spec `{Crypto} Known t tr : rep Known (tr_root t) tr -> root_ok (tr_root t) -> wf0 tr ->
  exists t', Trie_Hash t = Ret (t', rootOf tr) /\ rep Known (tr_root t') tr /\ root_ok (tr_root t') /\ ready (tr_root t') tr /\
    (tr <> TNil -> hashed (tr_root t') = true).
Proof.
  intros R Ro [->|Hw].
  - apply rep_nil_iff in R as I. exists t. unfold Trie_Hash. rewrite (proj2 I) by done. split_and!; [done|constructor|done|constructor|done].
  - destruct (hash_spec Known _ _ R Hw true Ro) as (hd & cd & E & R' & Ry & -> & Hh).
    exists (mkTrie cd 0). split_and!; [|done|by apply hashed_root|done|done]. unfold Trie_Hash.
    apply rep_nil_iff in R as [E' _]. destruct (tr_root t) eqn:Er; [rewrite E' in Hw by done; by inversion Hw|..];
      (rewrite E, rootOf_wf by exact Hw; reflexivity).
Qed.

(** C27: The root hash is a function of the contents alone: tries that hold the
    same map have the same root, whatever order the keys were written in,
    whatever was cached or is still in the database, and hashing changes no
    value. *)
Theorem root_canonical `{Crypto} (Known Known' : tree -> Prop) (t u : Trie) (m : gmap bytes bytes) :
  holds Known t m -> holds Known' u m ->
  exists t' u' root, Trie_Hash t = Ret (t', root) /\ Trie_Hash u = Ret (u', root) /\ holds Known t' m /\ holds Known' u' m.
Proof.
  intros (tr & R & Ro & Hw & C) (ur & Ru & Rou & Hwu & Cu). pose proof (contents_unique _ _ _ Hw Hwu C Cu) as <-.
  destruct (Trie_Hash_spec Known t tr R Ro Hw) as (t' & -> & R' & Ro' & _), (Trie_Hash_spec Known' u tr Ru Rou Hwu) as (u' & -> & Ru' & Rou' & _).
  exists t', u', (rootOf tr). split_and!; [done..|by exists tr|by exists tr].
Qed.

(** Two orders of writing, one with a key written and removed again. *)
Lemma root_canonical_witness :
  let t := trieRun noNodes 12 (mkTrie nilNode 0) [OpUpdate [1; 2] [7]; OpUpdate [1; 3] [8]] in
  let u := trieRun noNodes 12 (mkTrie nilNode 0) [OpUpdate [1; 3] [8]; OpUpdate [9] [1]; OpUpdate [1; 2] [7]; OpDelete [9]] in
  exists t1 u1 rt ru t' u' root, t = Ret (t1, rt) /\ u = Ret (u1, ru) /\
    @Trie_Hash toyCrypto t1 = Ret (t', root) /\ @Trie_Hash toyCrypto u1 = Ret (u', root).
Proof.
  intros t u.
  destruct (@trieRun_agrees toyCrypto (fun _ => False) noNodes ltac:(by intros ? ? []) 12 (mkTrie nilNode 0) ∅ [OpUpdate [1; 2] [7]; OpUpdate [1; 3] [8]])
    as (t1 & rt & mt & Et & At & Ht); [apply holds_empty|repeat constructor; cbn; unfold is_byte; try lia|].
  destruct (@trieRun_agrees toyCrypto (fun _ => False) noNodes ltac:(by intros ? ? []) 12 (mkTrie nilNode 0) ∅ [OpUpdate [1; 3] [8]; OpUpdate [9] [1]; OpUpdate [1; 2] [7]; OpDelete [9]])
    as (u1 & ru & mu & Eu & Au & Hu); [apply holds_empty|repeat constructor; cbn; unfold is_byte; try lia|].
  assert (rt = [inl None; inl None]) as -> by (vm_compute in Et; congruence).
  assert (ru = [inl None; inl None; inl None; inl None]) as -> by (vm_compute in Eu; congruence).
  assert (mt = mu) as <- by (destruct At as (_ & _ & <-), Au as (_ & _ & _ & _ & <-); vm_compute; reflexivity).
  destruct (@root_canonical toyCrypto _ _ t1 u1 mt Ht Hu) as (t' & u' & root & E1 & E2 & _).
  exists t1, u1, [inl None; inl None], [inl None; inl None; inl None; inl None], t', u', root. split_and!; assumption.
Defined.
