(* ===== verification/TrieKeys.v ===== *)
(** * Key encodings of the trie (trie/encoding.go)

    The compact encoding of a path is read back as it was, also when it is
    computed in the buffer that held the nibbles. *)

From S2P Require Import Prelude Rlp RlpRaw Transaction Trie TrieMap TrieHash.

(** ** Nibbles *)

(** A fact about nibbles, checked on each of them. *)
Lemma nibble_cases (f : Z -> bool) : forallb f (seqZ 0 16) = true -> forall x, nibble x -> f x = true.
Proof.
  intros E x Hx. unfold nibble in Hx. rewrite forallb_forall in E. apply E, list_elem_of_In, elem_of_seqZ. lia.
Qed.

Lemma joinNibbles_eq hi lo : nibble hi -> nibble lo -> joinNibbles hi lo = hi * 16 + lo.
Proof.
  intros Hh Hl. apply Z.eqb_eq. revert lo Hl. apply nibble_cases. revert hi Hh.
  apply (nibble_cases (fun hi => forallb (fun lo => joinNibbles hi lo =? hi * 16 + lo) (seqZ 0 16))). vm_compute. reflexivity.
Qed.

(** The first byte of an odd path. *)
Lemma oddFlag_eq (t : bool) x : nibble x ->
  Z.lor (Z.lor (if t then 32 else 0) (Z.shiftl 1 4)) x = (if t then 48 else 16) + x.
Proof. intros Hx. apply Z.eqb_eq. revert x Hx. apply nibble_cases. by destruct t; vm_compute. Qed.

Definition splitBytes (b : bytes) : bytes := concat ((fun b => [b / 16; b mod 16]) <$> b).

Lemma keybytesToHex_split b : keybytesToHex b = splitBytes b ++ [16].
Proof. done. Qed.

(** Joining nibbles and splitting bytes are inverse. *)
Lemma split_join p : Forall nibble p -> Nat.even (length p) = true ->
  exists b, decodeNibbles p = Ret b /\ bytes_ok b /\ splitBytes b = p /\ length p = (2 * length b)%nat.
Proof.
  induction p as [p IH] using (induction_ltof1 _ (@length Z)). unfold ltof in IH.
  destruct p as [|x [|y p]]; [exists []; split_and!; [done|constructor|done..]|done|].
  intros Hp E. apply Forall_cons in Hp as [Hx Hp]. apply Forall_cons in Hp as [Hy Hp].
  destruct (IH p) as (b & Hb & Ob & Sb & Lb); [cbn; lia|done|done|]. exists (joinNibbles x y :: b).
  cbn [decodeNibbles]. rewrite Hb. rewrite joinNibbles_eq by done. unfold nibble in *. split_and!; [done| | |cbn; lia].
  - constructor; [unfold is_byte; lia|done].
  - change (splitBytes (x * 16 + y :: b)) with ((x * 16 + y) / 16 :: (x * 16 + y) mod 16 :: splitBytes b).
    rewrite Sb, Z.div_add_l, Z.div_small, Z.add_0_r by lia. rewrite Z.add_comm, Z.mod_add, Z.mod_small by lia. done.
Qed.

Lemma join_split b : bytes_ok b -> decodeNibbles (splitBytes b) = Ret b.
Proof.
  induction 1 as [|x b Hx _ IH]; [done|]. change (splitBytes (x :: b)) with (x / 16 :: x mod 16 :: splitBytes b).
  cbn [decodeNibbles]. rewrite IH. cbn. unfold is_byte in Hx. pose proof (Z.mod_pos_bound x 16).
  rewrite joinNibbles_eq; [|split; [apply Z.div_pos|apply Z.div_lt_upper_bound]; lia|unfold nibble; lia].
  by rewrite (Z.div_mod x 16) at 3; [rewrite Z.mul_comm|].
Qed.

Lemma hasTerm_snoc p : hasTerm (p ++ [16]) = true.
Proof. unfold hasTerm. rewrite last_snoc. by apply bool_decide_eq_true_2. Qed.

Lemma hasTerm_nibbles p : Forall nibble p -> hasTerm p = false.
Proof.
  intros Hp. unfold hasTerm. apply bool_decide_eq_false_2. intros E. apply last_Some_elem_of in E.
  rewrite Forall_forall in Hp. specialize (Hp _ E). unfold nibble in Hp. lia.
Qed.

Lemma term_iff k : term k <-> exists p, k = p ++ [16] /\ Forall nibble p.
Proof.
  split.
  - induction k as [|x k IH]; [done|]. intros [[-> ->]|[Hx Hk]]; [by exists []|].
    destruct (IH Hk) as (p & -> & Hp). exists (x :: p). split; [done|by constructor].
  - intros (p & -> & Hp). by apply term_app, term_16.
Qed.

(** The parts of a path: its nibbles, and whether it ends in a value. *)
Definition path (k : bytes) : Prop := term k \/ Forall nibble k.
Definition pathOf (p : bytes) (t : bool) : bytes := if t then p ++ [16] else p.

Lemma path_parts k : path k -> exists p t, k = pathOf p t /\ Forall nibble p.
Proof.
  intros [(p & -> & Hp)%term_iff|Hp]; [by exists p, true|by exists k, false].
Qed.

Lemma hexToCompact_parts p t : Forall nibble p -> exists c b, hexToCompact (pathOf p t) = Ret (c :: b) /\ bytes_ok b /\
  c / 16 = (if t then 2 else 0) + (if Nat.odd (length p) then 1 else 0) /\ is_byte c /\
  p = (if Nat.odd (length p) then [c mod 16] else []) ++ splitBytes b.
Proof.
  intros Hp. unfold hexToCompact. set (hex := if hasTerm (pathOf p t) then take (length (pathOf p t) - 1) (pathOf p t) else pathOf p t).
  assert (hex = p) as ->.
  { subst hex. destruct t; cbn [pathOf].
    - rewrite hasTerm_snoc, length_app. cbn. by rewrite Nat.add_sub, take_app_length.
    - by rewrite hasTerm_nibbles. }
  replace (hasTerm (pathOf p t)) with t by (destruct t; cbn; [by rewrite hasTerm_snoc|by rewrite hasTerm_nibbles]).
  set (flag := Z.shiftl (if t then 1 else 0) 5).
  assert (flag = if t then 32 else 0) as Ef by (by destruct t).
  destruct p as [|x p].
  { exists flag, []. rewrite Ef. split_and!; [done|constructor|by destruct t|destruct t; unfold is_byte; lia|done]. }
  pose proof Hp as [Hx Hp']%Forall_cons. destruct (Nat.odd (length (x :: p))) eqn:E.
  - destruct (split_join p Hp') as (b & -> & Ob & Sb & _); [cbn in E; by rewrite Nat.odd_succ in E|].
    assert (Z.lor (Z.lor flag (Z.shiftl 1 4)) x = (if t then 48 else 16) + x) as ->.
    { rewrite Ef. by apply oddFlag_eq. }
    cbn [mbind outcome_bind]. do 2 eexists. split; [done|]. unfold nibble in Hx.
    assert (((if t then 48 else 16) + x) / 16 = (if t then 2 else 0) + 1) as -> by (destruct t; symmetry; apply (Z.div_unique _ _ _ x); lia).
    assert (((if t then 48 else 16) + x) mod 16 = x) as -> by (destruct t; symmetry; [apply (Z.mod_unique _ _ 3)|apply (Z.mod_unique _ _ 1)]; lia).
    split_and!; [done|done|destruct t; unfold is_byte; lia|cbn; by rewrite Sb].
  - destruct (split_join (x :: p) Hp) as (b & -> & Ob & Sb & _); [rewrite <- Nat.negb_odd; by rewrite E|].
    cbn [mbind outcome_bind]. exists flag, b. rewrite Ef. split_and!; [done|done|by destruct t|destruct t; unfold is_byte; lia|done].
Qed.

Lemma compact_of_parts c b p (t : bool) : c / 16 = (if t then 2 else 0) + (if Nat.odd (length p) then 1 else 0) ->
  p = (if Nat.odd (length p) then [c mod 16] else []) ++ splitBytes b -> compactToHex (c :: b) = pathOf p t.
Proof.
  intros Ec Ep. unfold compactToHex. rewrite keybytesToHex_split.
  change (splitBytes (c :: b)) with (c / 16 :: c mod 16 :: splitBytes b).
  assert ((if c / 16 <? 2 then take (length ((c / 16 :: c mod 16 :: splitBytes b) ++ [16]) - 1) ((c / 16 :: c mod 16 :: splitBytes b) ++ [16])
           else (c / 16 :: c mod 16 :: splitBytes b) ++ [16]) = c / 16 :: c mod 16 :: pathOf (splitBytes b) t) as ->.
  { rewrite Ec. destruct t.
    - rewrite (proj2 (Z.ltb_ge _ _)) by (case_match; lia). done.
    - rewrite (proj2 (Z.ltb_lt _ _)) by (case_match; lia). rewrite length_app. cbn [length]. rewrite Nat.add_sub.
      rewrite <- Ec. apply (take_app_length (c / 16 :: c mod 16 :: splitBytes b)). }
  rewrite Ep at 1. rewrite Ec. destruct t, (Nat.odd (length p)); done.
Qed.

Lemma compact_inverse k : path k -> compactToHex (orNil (hexToCompact k)) = k /\ bytes_ok (orNil (hexToCompact k)).
Proof.
  intros (p & t & -> & Hp)%path_parts. destruct (hexToCompact_parts p t Hp) as (c & b & -> & Ob & Ec & Oc & Ep).
  cbn [orNil]. split; [by apply compact_of_parts|by constructor].
Qed.

(** The compact encoding of a path, with or without a terminator, is read
    back as it was, and a key that was turned into nibbles is read back as its
    bytes. *)
Theorem compact_roundtrip k key : path k -> bytes_ok key ->
  (exists c, hexToCompact k = Ret c /\ bytes_ok c /\ compactToHex c = k) /\ hexToKeybytes (keybytesToHex key) = Ret key.
Proof.
  intros Hk Ho. split.
  - exists (orNil (hexToCompact k)). destruct (compact_inverse k Hk). split_and!; [apply hexToCompact_ret|done..].
  - unfold hexToKeybytes. rewrite keybytesToHex_split, hasTerm_snoc, length_app. cbn [length].
    rewrite Nat.add_sub, take_app_length, join_split by done.
    assert (Nat.odd (length (splitBytes key)) = false) as ->; [|done].
    rewrite <- Nat.negb_even. apply negb_false_iff. clear. induction key as [|x key IH]; [done|exact IH].
Qed.

Lemma compact_roundtrip_witness :
  (exists c, hexToCompact [1; 2; 3; 16] = Ret c /\ bytes_ok c /\ compactToHex c = [1; 2; 3; 16]) /\
  hexToKeybytes (keybytesToHex [0x12; 0xff]) = Ret [0x12; 0xff].
Proof.
  apply (compact_roundtrip [1; 2; 3; 16] [0x12; 0xff]).
  - left. do 3 (right; split; [unfold nibble; lia|]). by left.
  - repeat constructor; unfold is_byte; lia.
Defined.

(** ** Encoding in place *)

(** The loop only overwrites nibbles it has read. *)
Lemma compactLoop_spec fuel bi ni hexLen hex : (hexLen <= length hex)%nat -> (1 <= bi <= ni + 1)%nat ->
  Nat.even (hexLen - ni) = true -> (hexLen - ni < fuel)%nat ->
  exists ds, decodeNibbles (take (hexLen - ni) (drop ni hex)) = Ret ds /\ (2 * length ds = hexLen - ni)%nat /\
    compactLoop fuel bi ni hexLen hex = Ret (take bi hex ++ ds ++ drop (bi + length ds) hex).
Proof.
  revert bi ni hex. induction fuel as [|fuel IH]; intros bi ni hex Hl Hb He Hf; [lia|].
  cbn [compactLoop]. destruct (Nat.ltb_spec ni hexLen) as [Hn|Hn]; cycle 1.
  { replace (hexLen - ni)%nat with 0%nat by lia. exists []. cbn. by rewrite Nat.add_0_r, take_drop. }
  destruct (hexLen - ni)%nat as [|[|m]] eqn:E; [lia|done|].
  destruct (lookup_lt_is_Some_2 hex ni) as [hi Hhi]; [lia|]. destruct (lookup_lt_is_Some_2 hex (S ni)) as [lo Hlo]; [lia|].
  destruct (lookup_lt_is_Some_2 hex bi) as [old Hold]; [lia|]. rewrite Hhi, Hlo, Hold.
  destruct (IH (S bi) (S (S ni)) (<[bi := joinNibbles hi lo]> hex)) as (ds & Ed & El & Ec).
  - rewrite length_insert. lia.
  - lia.
  - replace (hexLen - S (S ni))%nat with m by lia. done.
  - lia.
  - exists (joinNibbles hi lo :: ds). rewrite (drop_S _ _ _ Hhi), (drop_S _ _ _ Hlo).
    rewrite drop_insert_lt in Ed by lia. replace (hexLen - S (S ni))%nat with m in * by lia. cbn [take decodeNibbles]. rewrite Ed.
    split_and!; [done|cbn; lia|]. rewrite Ec. f_equal.
    rewrite (take_S_r _ _ (joinNibbles hi lo)) by (apply list_lookup_insert_eq; by eapply lookup_lt_Some).
    rewrite take_insert_ge, drop_insert_lt by lia. cbn [length]. by rewrite <- app_assoc, Nat.add_succ_comm.
Qed.

Lemma compact_buffer hex : hex <> [] ->
  exists buf n, hexToCompactInPlace hex = Ret (buf, n) /\ hexToCompact hex = Ret (take n buf) /\ length buf = length hex.
Proof.
  intros Hn. unfold hexToCompactInPlace, hexToCompact. destruct hex as [|first rest]; [done|].
  set (hex := first :: rest). set (hexLen := if hasTerm hex then (length hex - 1)%nat else length hex).
  assert ((if hasTerm hex then take (length hex - 1) hex else hex) = take hexLen hex) as ->.
  { subst hexLen. destruct (hasTerm hex); [done|]. by rewrite firstn_all. }
  assert (hexLen <= length hex)%nat as Hl by (subst hexLen; destruct (hasTerm hex); lia).
  assert (Z.shiftl (if hasTerm hex then 1 else 0) 5 = if hasTerm hex then Z.shiftl 1 5 else 0) as -> by (by destruct (hasTerm hex)).
  set (flag := if hasTerm hex then Z.shiftl 1 5 else 0). clearbody hexLen flag.
  destruct (compactLoop_spec (S (length hex)) 1 (if Nat.odd hexLen then 1 else 0) hexLen hex) as (ds & Ed & El & ->);
    [done|destruct (Nat.odd hexLen); lia| |lia|].
  { destruct (Nat.odd hexLen) eqn:Eo; [|by rewrite Nat.sub_0_r, <- Nat.negb_odd, Eo].
    destruct hexLen; [done|]. by rewrite Nat.sub_succ, Nat.sub_0_r, <- Nat.odd_succ. }
  cbn [mbind outcome_bind]. do 2 eexists. split; [done|].
  assert (length ds = hexLen / 2 /\ length ds + 1 <= length hex)%nat as [Hd Hd'].
  { subst hex. cbn [length] in *. destruct (Nat.odd hexLen) eqn:Eo.
    - apply Nat.odd_spec in Eo as [q ->]. split; [|lia]. rewrite Nat.mul_comm, Nat.div_add_l by lia. cbn. lia.
    - rewrite <- Nat.negb_even in Eo. apply negb_false_iff, Nat.even_spec in Eo as [q ->]. split; [|lia].
      rewrite Nat.mul_comm, Nat.div_mul by lia. lia. }
  split; [|rewrite length_insert, !length_app, length_take, length_drop; lia].
  rewrite <- Hd, Nat.add_1_r. change (take 1 hex) with [first].
  change (<[0%nat := ?x]> ([first] ++ ?l)) with (x :: l). cbn [take]. rewrite take_app_length.
  rewrite length_take, Nat.min_l by done. destruct (Nat.odd hexLen) eqn:Eo.
  - destruct hexLen as [|n]; [done|]. rewrite Nat.sub_succ, Nat.sub_0_r in Ed. change (drop 1 hex) with rest in Ed.
    change (take (S n) hex) with (first :: take n rest). cbn. by rewrite Ed.
  - rewrite Nat.sub_0_r in Ed. change (drop 0 hex) with hex in Ed. destruct hexLen as [|n]; [by simplify_eq/=|].
    rewrite Ed. change (take (S n) hex) with (first :: take n rest). done.
Qed.

(** Compacting a path in the buffer that holds it gives the same bytes as
    the routine that allocates: the first [n] bytes of the buffer are the
    compact encoding.  Only an empty buffer panics. *)
Theorem compact_in_place hex : hex <> [] ->
  exists buf n, hexToCompactInPlace hex = Ret (buf, n) /\ hexToCompact hex = Ret (take n buf) /\ length buf = length hex.
Proof. apply compact_buffer. Qed.

Lemma compact_in_place_witness :
  exists buf n, hexToCompactInPlace [1; 2; 3; 16] = Ret (buf, n) /\ hexToCompact [1; 2; 3; 16] = Ret (take n buf) /\
    length buf = length [1; 2; 3; 16].
Proof. apply (compact_in_place [1; 2; 3; 16]). discriminate. Defined.
