(* ===== verification/TrieStore.v ===== *)
(** * Storing tries (trie/node.go, trie/committer.go, trie/database.go)

    Committing a trie collapses its nodes and hands them to the database,
    which keeps them in memory in a simplified form until they are written to
    disk as RLP.  The database of this model has the memory layer with its
    reference counts and flush list, and the disk; the clean cache only holds
    copies of what is on disk and is left out, and so are the preimages of
    keys.  With a leaf callback the nodes go to the database through a
    channel, in the same order. *)

From S2P Require Import Prelude Rlp RlpRaw Transaction Trie TrieMap TrieRefine TrieHash TrieKeys.

(** ** Decoding nodes *)

Inductive decodeError :=
| DUnexpectedEOF | DRlp (e : rlp_error) | DElements (n : Z) | DOversized (size : nat) | DStringSize (n : nat) | DFuel.

Definition hashLen : nat := HashLength.

Section Decode.
Context (decode : bytes -> node + decodeError).

(** A reference to a child and what follows it. *)
Definition decodeRef (buf : bytes) : (node * bytes) + decodeError :=
  match Split buf with
  | inr e => inr (DRlp e)
  | inl (kind, val, rest) =>
      if decide (kind = List) then
        let size := (length buf - length rest)%nat in
        if bool_decide (hashLen < size)%nat then inr (DOversized size)
        else match decode buf with inr e => inr e | inl n => inl (n, rest) end
      else if bool_decide (kind = String) && bool_decide (length val = 0)%nat then inl (nilNode, rest)
      else if bool_decide (kind = String) && bool_decide (length val = 32)%nat then inl (hashNode val, rest)
      else inr (DStringSize (length val))
  end.

Definition decodeShort (hash : option bytes) (elems : bytes) : node + decodeError :=
  match SplitString elems with
  | inr e => inr (DRlp e)
  | inl (kbuf, rest) =>
      let flag := mkFlag hash false in
      let key := compactToHex kbuf in
      if hasTerm key then
        match SplitString rest with
        | inr e => inr (DRlp e)
        | inl (val, _) => inl (shortNode key (valueNode val) flag)
        end
      else
        match decodeRef rest with
        | inr e => inr e
        | inl (r, _) => inl (shortNode key r flag)
        end
  end.

(** The loop over the first [n] children. *)
Fixpoint decodeRefs (n : nat) (elems : bytes) : (list node * bytes) + decodeError :=
  match n with
  | O => inl ([], elems)
  | S n =>
      match decodeRef elems with
      | inr e => inr e
      | inl (c, rest) =>
          match decodeRefs n rest with
          | inr e => inr e
          | inl (cs, rest) => inl (c :: cs, rest)
          end
      end
  end.

Definition decodeFull (hash : option bytes) (elems : bytes) : node + decodeError :=
  match decodeRefs 16 elems with
  | inr e => inr e
  | inl (cs, elems) =>
      match SplitString elems with
      | inr e => inr (DRlp e)
      | inl (val, _) =>
          inl (fullNode (cs ++ [if bool_decide (val = []) then nilNode else valueNode val]) (mkFlag hash false))
      end
  end.

End Decode.

(** An embedded node is shorter than the node that embeds it, so the length of
    the buffer is enough fuel. *)
Fixpoint decodeNode (fuel : nat) (hash : option bytes) (buf : bytes) : node + decodeError :=
  match fuel with
  | O => inr DFuel
  | S fuel =>
      match buf with
      | [] => inr DUnexpectedEOF
      | _ =>
          match SplitList buf with
          | inr e => inr (DRlp e)
          | inl (elems, _) =>
              let c := match CountValues elems with inl c => c | inr _ => 0 end in
              if c =? 2 then decodeShort (decodeNode fuel None) hash elems
              else if c =? 17 then decodeFull (decodeNode fuel None) hash elems
              else inr (DElements c)
          end
      end
  end.

Definition mustDecodeNode (hash : Hash) (buf : bytes) : outcome node :=
  match decodeNode (length buf) (Some (be_bytes HashLength hash)) buf with
  | inl n => Ret n
  | inr _ => Panic
  end.

(** ** The database *)

(** Nodes without flags, as the database keeps them; keys are compact. *)
Inductive rawnode :=
| rawNil
| rawFullNode (cs : list rawnode)
| rawShortNode (Key : bytes) (Val : rawnode)
| rawHash (h : bytes)
| rawValue (v : bytes).

Fixpoint simplifyNode (n : node) : outcome rawnode :=
  match n with
  | shortNode k v _ => r ← simplifyNode v; Ret (rawShortNode k r)
  | fullNode cs _ =>
      rs ← mapM (fun c => match c with nilNode => Ret rawNil | _ => simplifyNode c end) cs;
      Ret (rawFullNode rs)
  | valueNode v => Ret (rawValue v)
  | hashNode h => Ret (rawHash h)
  | nilNode => Panic
  end.

Fixpoint expandNode (hash : option bytes) (n : rawnode) : outcome node :=
  match n with
  | rawShortNode k v => c ← expandNode None v; Ret (shortNode (compactToHex k) c (mkFlag hash false))
  | rawFullNode rs =>
      cs ← mapM (fun r => match r with rawNil => Ret nilNode | _ => expandNode None r end) rs;
      Ret (fullNode cs (mkFlag hash false))
  | rawValue v => Ret (valueNode v)
  | rawHash h => Ret (hashNode h)
  | rawNil => Panic
  end.

(** What rlp.Encode writes for it. *)
Fixpoint rlpRaw (n : rawnode) : value :=
  match n with
  | rawNil => VNil List
  | rawFullNode rs => VList (List.map (fun r => match r with rawNil => VBytes [] | _ => rlpRaw r end) rs)
  | rawShortNode k v => VList [VBytes k; rlpRaw v]
  | rawHash h => VBytes h
  | rawValue v => VBytes v
  end.

Record cachedNode := mkCached {
  cn_node : rawnode;
  cn_size : Z;
  cn_parents : Z;
  cn_children : option (gmap Hash Z);
  cn_flushPrev : Hash;
  cn_flushNext : Hash
}.
#[export] Instance eta_cachedNode : Eta cachedNode := fun r =>
  mkCached (cn_node r) (cn_size r) (cn_parents r) (cn_children r) (cn_flushPrev r) (cn_flushNext r).

Record Database := mkDatabase {
  db_disk : gmap Hash bytes;
  db_dirties : gmap Hash cachedNode;
  db_oldest : Hash;
  db_newest : Hash;
  db_dirtiesSize : Z;
  db_childrenSize : Z
}.
#[export] Instance eta_Database : Eta Database := fun r =>
  mkDatabase (db_disk r) (db_dirties r) (db_oldest r) (db_newest r) (db_dirtiesSize r) (db_childrenSize r).

(** The zero hash is the meta root, whose children are the roots in use. *)
Definition NewDatabase (disk : gmap Hash bytes) : Database :=
  mkDatabase disk {[ 0 := mkCached rawNil 0 0 (Some ∅) 0 0 ]} 0 0 0 0.

Definition u16 (z : Z) : Z := z mod 2 ^ 16.
Definition u32 (z : Z) : Z := z mod 2 ^ 32.

(** forGatherChildren: the hashes a node refers to; the slot of the value is
    not looked at. *)
Fixpoint gatherChildren (n : rawnode) : list Hash :=
  match n with
  | rawShortNode _ v => gatherChildren v
  | rawFullNode rs => concat (take 16 (List.map gatherChildren rs))
  | rawHash h => [BytesToHash h]
  | rawValue _ | rawNil => []
  end.

(** forChilds: the external references and the ones inside the node. *)
Definition forChilds (n : cachedNode) : list Hash :=
  (match cn_children n with Some m => (map_to_list m).*1 | None => [] end) ++ gatherChildren (cn_node n).

Definition addParent (d : gmap Hash cachedNode) (child : Hash) : gmap Hash cachedNode :=
  match d !! child with
  | Some c => <[child := c <| cn_parents := u32 (cn_parents c + 1) |>]> d
  | None => d
  end.

(** Database.insert; the node last in the flush list must be cached. *)
Definition db_insert (db : Database) (hash : Hash) (size : Z) (n : node) : outcome Database :=
  match db_dirties db !! hash with
  | Some _ => Ret db
  | None =>
      r ← simplifyNode n;
      let entry := mkCached r (u16 size) 0 None (db_newest db) 0 in
      let d := <[hash := entry]> (fold_left addParent (forChilds entry) (db_dirties db)) in
      let db := db <| db_dirtiesSize := db_dirtiesSize db + u16 (Z.of_nat HashLength + u16 size) |> in
      if db_oldest db =? 0
      then Ret (db <| db_dirties := d |> <| db_oldest := hash |> <| db_newest := hash |>)
      else match d !! db_newest db with
           | None => Panic
           | Some e => Ret (db <| db_dirties := <[db_newest db := e <| cn_flushNext := hash |>]> d |> <| db_newest := hash |>)
           end
  end.

(** Database.node; data on disk that does not decode panics. *)
Definition db_node (db : Database) (hash : Hash) : outcome (option node) :=
  match db_dirties db !! hash with
  | Some dirty => n ← expandNode (Some (be_bytes HashLength hash)) (cn_node dirty); Ret (Some n)
  | None =>
      match db_disk db !! hash with
      | None => Ret None
      | Some enc => n ← mustDecodeNode hash enc; Ret (Some n)
      end
  end.

(** ** The committer *)

(** The sum of [f] over the first 16 children. *)
Definition sumChildren (f : node -> outcome Z) :=
  fix go (i : nat) (cs : list node) : outcome Z :=
    match cs with
    | [] => Ret 0
    | c :: cs => if (i <? 16)%nat then s ← f c; r ← go (S i) cs; Ret (s + r) else Ret 0
    end.

Fixpoint estimateSize (n : node) : outcome Z :=
  match n with
  | shortNode k v _ => s ← estimateSize v; Ret (3 + Z.of_nat (length k) + s)
  | fullNode cs _ =>
      s ← sumChildren (fun c => match c with nilNode => Ret 1 | _ => estimateSize c end) 0 cs;
      Ret (3 + s)
  | valueNode v => Ret (1 + Z.of_nat (length v))
  | hashNode h => Ret (1 + Z.of_nat (length h))
  | nilNode => Panic
  end.

(** A loop over the children that passes the database along. *)
Definition commitEach (f : nat -> node -> Database -> outcome (node * Database)) :=
  fix go (i : nat) (cs : list node) (db : Database) : outcome (list node * Database) :=
    match cs with
    | [] => Ret ([], db)
    | c :: cs => '(d, db) ← f i c db; '(ds, db) ← go (S i) cs db; Ret (d :: ds, db)
    end.

Section Committer.
(** The leaf callback: it gets the value and the hash of the node that holds
    it, and may write to the database. *)
Context (onleaf : bytes -> Hash -> Database -> outcome Database).

(** The value of a node; a branch that has another node in that slot panics. *)
Definition leafOf (n : node) : outcome (option bytes) :=
  match n with
  | shortNode _ (valueNode v) _ => Ret (Some v)
  | fullNode cs _ =>
      match cs !! 16%nat with
      | Some nilNode => Ret None
      | Some (valueNode v) => Ret (Some v)
      | _ => Panic
      end
  | _ => Ret None
  end.

(** store, with what commitLoop does with the node. *)
Definition store (n : node) (db : Database) : outcome (node * Database) :=
  '(h, _) ← cache n;
  match h with
  | None => Ret (n, db)
  | Some h =>
      size ← estimateSize n;
      db ← db_insert db (BytesToHash h) size n;
      leaf ← leafOf n;
      db ← match leaf with Some v => onleaf v (BytesToHash h) db | None => Ret db end;
      Ret (hashNode h, db)
  end.

Fixpoint commit (n : node) (db : Database) : outcome (node * Database) :=
  '(h, dirty) ← cache n;
  match h, dirty with
  | Some h, false => Ret (hashNode h, db)
  | _, _ =>
      match n with
      | shortNode k v fl =>
          '(child, db) ← match v with fullNode _ _ => commit v db | _ => Ret (v, db) end;
          key ← hexToCompact k;
          store (shortNode key child fl) db
      | fullNode cs fl =>
          (* commitChildren *)
          '(kids, db) ← commitEach (fun i c db =>
              if (i <? 16)%nat
              then match c with nilNode | hashNode _ => Ret (c, db) | _ => commit c db end
              else Ret (c, db)) 0 cs db;
          store (fullNode kids fl) db
      | hashNode _ => Ret (n, db)
      | nilNode | valueNode _ => Panic
      end
  end.

(** Trie.Commit: the root, hashed first, becomes its hash. *)
Definition Trie_Commit `{Crypto} (t : Trie) (db : Database) : outcome (Trie * Database * Hash) :=
  match tr_root t with
  | nilNode => Ret (t, db, emptyRoot)
  | _ =>
      '(t, rootHash) ← Trie_Hash t;
      '(_, dirty) ← cache (tr_root t);
      if negb dirty then Ret (t, db, rootHash)
      else
        '(h, db) ← commit (tr_root t) db;
        match h with
        | hashNode _ => Ret (t <| tr_root := h |>, db, rootHash)
        | _ => Panic
        end
  end.

End Committer.

(** trie.New over a database. *)
Definition newTrie (root : Hash) (db : Database) : outcome (Trie + MissingNodeError) :=
  if bool_decide (root <> 0) && bool_decide (root <> emptyRoot) then
    r ← resolveHash (db_node db) (be_bytes HashLength root) [];
    match (r : node + MissingNodeError) with
    | inl n => Ret (inl (mkTrie n 0))
    | inr e => Ret (inr e)
    end
  else Ret (inl (mkTrie nilNode 0)).
