(* ===== verification/TrieDecode.v ===== *)
(** * Decoding what the encoder of nodes wrote

    [rawOf] is the form in which the database keeps a tree, [stored] the node
    a reader gets back: its children are hashes, or embedded when they are
    small. *)

From S2P Require Import Prelude Rlp RlpRaw Transaction Trie TrieMap TrieRefine TrieHash TrieKeys TrieStore.

(** ** Sequences of encoded values *)

Definition kindOf (b : bytes) : Kind := match b with [x] => if x <=? 0x7F then Byte else String | _ => String end.

Lemma kindOf_ok b : bytes_ok b -> kind_ok (kindOf b) b /\ kindOf b <> List /\ wire (kindOf b) b = enc_bytes b.
Proof.
  intros Hb. destruct b as [|x [|y b]]; [by split_and!|..]; unfold kindOf, wire, enc_bytes; [|by split_and!].
  apply Forall_cons in Hb as [Hx _]. unfold is_byte in Hx. destruct (Z.leb_spec x 127); split_and!; try done.
  - exists x. split; [done|lia].
  - intros z [= <-]. lia.
Qed.

Lemma puthead_ok st lt n : bytes_ok (puthead st lt n).
Proof.
  unfold puthead. case_match; repeat constructor; try apply putint_ok; try (apply Z.mod_pos_bound; lia).
Qed.

Lemma wire_ok k c : bytes_ok c -> bytes_ok (wire k c).
Proof.
  assert (forall c, bytes_ok c -> bytes_ok (enc_bytes c)) as E.
  { clear. intros c Hc. unfold enc_bytes. destruct c as [|x [|y c]]; [apply Forall_app; split; [apply puthead_ok|done]| |].
    - case_match; [done|]. constructor; [unfold is_byte; lia|done].
    - apply Forall_app; split; [apply puthead_ok|done]. }
  intros Hc. destruct k; [by apply E|by apply E|]. apply Forall_app; split; [apply puthead_ok|done].
Qed.

Lemma wire_not_nil k c : wire k c <> [].
Proof.
  assert (forall st lt n, puthead st lt n <> []) as P by (intros; unfold puthead; by case_match).
  assert (forall st lt n c, puthead st lt n ++ c <> []) as P' by (intros st lt n c' E; apply app_eq_nil in E as [E _]; by apply P in E).
  destruct k; cbn; [| |apply P']; unfold enc_bytes; destruct c as [|x [|y c]]; try apply P'; by case_match.
Qed.

Definition item (e : bytes) : Prop := exists k c, kind_ok k c /\ bytes_ok c /\ e = wire k c.

Lemma item_ok e : item e -> bytes_ok e.
Proof. intros (k & c & _ & Hc & ->). by apply wire_ok. Qed.

Lemma items_ok es : Forall item es -> bytes_ok (concat es).
Proof. induction 1 as [|e es He _ IH]; [constructor|]. apply Forall_app; split; [by apply item_ok|done]. Qed.

Lemma item_next e rest : item e -> bytes_ok rest -> Z.of_nat (length (e ++ rest)) < two64 ->
  exists k ts cs, readKind (e ++ rest) = inl (k, ts, cs) /\ drop (Z.to_nat (ts + cs)) (e ++ rest) = rest.
Proof.
  intros (k & c & Hk & Hc & ->) Hr Hl. pose proof (Split_wire k c rest Hk Hl) as S. unfold Split in S.
  destruct (readKind (wire k c ++ rest)) as [[[k' ts] cs]|] eqn:E; [|done]. exists k', ts, cs.
  apply readKind_inv in E as (Ht & Hcs & _ & H1 & _); [|by apply Forall_app; split; [apply wire_ok|]|done].
  rewrite Z2Nat.inj_add, <- drop_drop by done. injection S as -> Ec Er. done.
Qed.

Lemma CountValues_items es : Forall item es -> Z.of_nat (length (concat es)) < two64 ->
  CountValues (concat es) = inl (Z.of_nat (length es)).
Proof.
  intros Hes Hl. unfold CountValues.
  enough (forall fuel i, (length (concat es) <= fuel)%nat -> CountValues_loop fuel (concat es) i = inl (i + Z.of_nat (length es))) as ->; [done|done|].
  induction Hes as [|e es He Hes IH]; intros fuel i Hf; [destruct fuel; cbn; f_equal; lia|].
  cbn [concat] in *. assert (e <> []) as Hn by (destruct He as (k & c & _ & _ & ->); apply wire_not_nil).
  assert (0 < length e)%nat by (destruct e; [done|cbn; lia]). rewrite length_app in Hl, Hf.
  destruct fuel as [|fuel]; [lia|]. destruct (item_next e (concat es) He) as (k & ts & cs & E & D); [by apply items_ok|rewrite length_app; lia|].
  cbn [CountValues_loop]. destruct (e ++ concat es) as [|x l] eqn:El; [by destruct e|]. rewrite E, D, IH by lia.
  f_equal. cbn [length]. lia.
Qed.

(** ** Encodings of values *)

Lemma encode_bytes b : encodeOrNothing (VBytes b) = enc_bytes b.
Proof. unfold encodeOrNothing, EncodeToBytes. cbn. by rewrite encodeString_spec. Qed.

Lemma enc_some v : value_ok v -> nonneg v -> enc v = Some (encodeOrNothing v).
Proof.
  intros Hv Hn. unfold encodeOrNothing. rewrite <- (EncodeToBytes_enc v Hv). unfold EncodeToBytes.
  by destruct (writeValue_some v emptyEncbuf Hn) as [w ->].
Qed.

Lemma nonneg_list_inv l : nonneg (VList l) -> Forall nonneg l.
Proof. induction l as [|v l IH]; intros Hl; constructor; [by destruct Hl|]. apply IH. by destruct Hl. Qed.

Lemma encode_list l : value_ok (VList l) -> nonneg (VList l) ->
  encodeOrNothing (VList l) = wire List (concat (encodeOrNothing <$> l)).
Proof.
  intros Hv Hn. enough (enc_list l = Some (concat (encodeOrNothing <$> l))) as E.
  { pose proof (enc_some _ Hv Hn) as E'. rewrite enc_VList, E in E'. cbn in E'. by simplify_eq. }
  apply value_ok_list in Hv. apply nonneg_list_inv in Hn. induction l as [|v l IH]; [done|].
  apply Forall_cons in Hv as [Hv Hvl], Hn as [Hn Hnl]. cbn. by rewrite (enc_some v Hv Hn), IH.
Qed.

(** Byte strings and lists encode to items. *)
Fixpoint simple (v : value) : Prop :=
  match v with
  | VBytes _ => True
  | VList l => (fix go (l : list value) : Prop := match l with [] => True | v :: l => simple v /\ go l end) l
  | _ => False
  end.

Lemma simple_list l : simple (VList l) <-> Forall simple l.
Proof. induction l as [|v l IH]; [by split|]. rewrite Forall_cons, <- IH. done. Qed.

Lemma encode_item v : simple v -> value_ok v -> nonneg v -> item (encodeOrNothing v).
Proof.
  induction v as [| | |b| | | |l IH] using value_rect'; try done; intros Hs Hv Hn.
  - rewrite encode_bytes. destruct (kindOf_ok b Hv) as (Hk & _ & <-). by exists (kindOf b), b.
  - rewrite encode_list by done. exists List, (concat (encodeOrNothing <$> l)). split_and!; [done| |done].
    apply items_ok. apply simple_list in Hs. apply value_ok_list in Hv. apply nonneg_list_inv in Hn.
    rewrite !Forall_forall in *. intros e (v & -> & Hi)%list_elem_of_fmap. by apply IH; auto.
Qed.

Section Trees.
Context `{Crypto}.

Lemma shrink_simple v : simple v -> simple (shrink v).
Proof. intros Hv. unfold shrink. by case_bool_decide. Qed.

Lemma collapse_simple t : simple (collapse t).
Proof.
  induction t as [|v|k t IH|ts IH] using tree_ind'; [done|done| |].
  - rewrite collapse_short. split; [done|]. split; [|done]. unfold childRef. destruct t; try done; by apply shrink_simple.
  - rewrite collapse_full. apply simple_list, Forall_fmap. eapply Forall_impl; [done|]. intros t Ht.
    unfold compose, childRef. destruct t; try done; by apply shrink_simple.
Qed.

Lemma childRef_simple t : simple (childRef t).
Proof. destruct t; try done; apply shrink_simple, collapse_simple. Qed.
Lemma childRef_nonneg t : nonneg (childRef t).
Proof. destruct t; try done; apply shrink_nonneg, collapse_nonneg. Qed.

(** ** The forms of a stored tree *)

Definition bigb (t : tree) : bool :=
  match t with TShort _ _ | TFull _ => bool_decide (32 <= length (encodeOrNothing (collapse t)))%nat | _ => false end.

Fixpoint rawOf (t : tree) : rawnode :=
  match t with
  | TNil => rawNil
  | TVal v => rawValue v
  | TShort k c => rawShortNode (orNil (hexToCompact k)) (if bigb c then rawHash (hashBytes c) else rawOf c)
  | TFull ts => rawFullNode (List.map (fun c => if bigb c then rawHash (hashBytes c) else rawOf c) ts)
  end.
Definition rawRef (c : tree) : rawnode := if bigb c then rawHash (hashBytes c) else rawOf c.

Fixpoint stored (h : option bytes) (t : tree) : node :=
  match t with
  | TNil => nilNode
  | TVal v => valueNode v
  | TShort k c => shortNode k (if bigb c then hashNode (hashBytes c) else stored None c) (mkFlag h false)
  | TFull ts => fullNode (List.map (fun c => if bigb c then hashNode (hashBytes c) else stored None c) ts) (mkFlag h false)
  end.
Definition storedRef (c : tree) : node := if bigb c then hashNode (hashBytes c) else stored None c.

Lemma bigb_big t : bigb t = true -> big t.
Proof. unfold bigb, big. destruct t; try done; apply bool_decide_eq_true. Qed.
Lemma bigb_small t : wf t -> bigb t = false -> ~ big t.
Proof. unfold big. intros []; unfold bigb; intros E%bool_decide_eq_false; done. Qed.
Lemma big_bigb t : wf t -> big t -> bigb t = true.
Proof. unfold big. intros []; unfold bigb; intros B; by apply bool_decide_eq_true. Qed.

(** What a branch has in its slots. *)
Definition slot (i : nat) (c : tree) : Prop := c = TNil \/ (i = 16%nat /\ isVal c) \/ ((i < 16)%nat /\ wf c).

Lemma wf_slots ts : wf (TFull ts) -> length ts = 17%nat /\ forall i c, ts !! i = Some c -> slot i c.
Proof.
  intros (L & _ & Hc)%wf_branch_iff. split; [done|]. intros i c Hi. unfold slot.
  destruct (Hc _ _ Hi) as [->|[[E Hv]|[Hn Hw]]]; [by left|right; left; split; [lia|done]|right; right].
  unfold nibble in Hn. split; [lia|done].
Qed.

Lemma stored_full h ts : stored h (TFull ts) = fullNode (storedRef <$> ts) (mkFlag h false).
Proof. done. Qed.
Lemma rawOf_full ts : rawOf (TFull ts) = rawFullNode (rawRef <$> ts).
Proof. done. Qed.

Lemma mapM_Ret {A B C} (p : A -> B) (f : B -> outcome C) (g : A -> C) (l : list A) :
  (forall i x, l !! i = Some x -> f (p x) = Ret (g x)) -> mapM f (p <$> l) = Ret (g <$> l).
Proof.
  induction l as [|x l IH]; intros E; [done|]. cbn. rewrite (E 0%nat x eq_refl). cbn.
  change (list_fmap A B p l) with (p <$> l). rewrite IH; [done|]. intros i y Hi. by apply (E (S i)).
Qed.

(** The raw form is encoded as the tree is. *)
Lemma rlpRaw_ref c : wf c -> rlpRaw (rawOf c) = collapse c -> rlpRaw (rawRef c) = childRef c.
Proof.
  intros Hw E. unfold rawRef. destruct (bigb c) eqn:B; cbn [rlpRaw].
  - pose proof (bigb_big _ B) as Hb. rewrite <- (shrink_big c Hb). by destruct Hw.
  - rewrite E. unfold childRef, shrink. apply bigb_small in B; [|done]. unfold big in B.
    destruct Hw; by rewrite bool_decide_eq_true_2 by lia.
Qed.

Lemma rlpRaw_rawOf t : wf t -> rlpRaw (rawOf t) = collapse t.
Proof.
  induction 1 as [k v Hk Hv|k ts Hn Hk Hw IH|ts i j a b L Hij Hi Hj Ha Hb Hl Hc IH].
  - done.
  - rewrite collapse_short, <- (rlpRaw_ref (TFull ts) Hw IH). done.
  - rewrite collapse_full, rawOf_full. cbn [rlpRaw]. change (List.map ?f ?l) with (f <$> l). rewrite <- list_fmap_compose. f_equal.
    apply list_fmap_ext. intros m c Hm. unfold compose. destruct (TNil_dec c) as [->|Hcn]; [done|].
    pose proof (lookup_lt_Some _ _ _ Hm). destruct (decide (m = 16%nat)) as [->|Hm16].
    + destruct (Hl _ Hm) as [->|(v & -> & _)]; done.
    + assert (wf c) as Hwc by (apply (Hc m); [lia|done..]). rewrite <- (rlpRaw_ref c Hwc) by (apply (IH m); [lia|done..]).
      unfold rawRef. destruct (bigb c); [done|]. by destruct Hwc.
Qed.

(** A node read from memory. *)
Lemma expand_ref c : expandNode None (rawOf c) = Ret (stored None c) -> wf c -> expandNode None (rawRef c) = Ret (storedRef c).
Proof. intros E Hw. unfold rawRef, storedRef. by destruct (bigb c). Qed.

Lemma expand_rawOf t : wf t -> forall h, expandNode h (rawOf t) = Ret (stored h t).
Proof.
  induction 1 as [k v Hk Hv|k ts Hn Hk Hw IH|ts i j a b L Hij Hi Hj Ha Hb Hl Hc IH]; intros h.
  - cbn. by rewrite (proj1 (compact_inverse k (or_introl Hk))).
  - change (rawOf (TShort k (TFull ts))) with (rawShortNode (orNil (hexToCompact k)) (rawRef (TFull ts))).
    cbn [expandNode]. rewrite (expand_ref _ (IH None) Hw). cbn [mbind outcome_bind].
    by rewrite (proj1 (compact_inverse k (or_intror Hk))).
  - rewrite rawOf_full, stored_full. cbn [expandNode].
    rewrite (mapM_Ret rawRef _ storedRef); [done|]. intros m c Hm. destruct (TNil_dec c) as [->|Hcn]; [done|].
    pose proof (lookup_lt_Some _ _ _ Hm). destruct (decide (m = 16%nat)) as [->|Hm16].
    + destruct (Hl _ Hm) as [->|(v & -> & _)]; done.
    + assert (wf c) as Hwc by (apply (Hc m); [lia|done..]).
      assert (expandNode None (rawRef c) = Ret (storedRef c)) as <- by (apply expand_ref; [apply (IH m); [lia|done..]|done]). unfold rawRef. destruct (bigb c); [done|]. by destruct Hwc.
Qed.

(** ** A node read from its encoding *)

Abbreviation E := encodeOrNothing.

Lemma SplitString_bytes b rest : bytes_ok b -> Z.of_nat (length (enc_bytes b ++ rest)) < two64 ->
  SplitString (enc_bytes b ++ rest) = inl (b, rest).
Proof.
  intros Hb Hl. destruct (kindOf_ok b Hb) as (Hk & Hn & Ew). rewrite <- Ew in *. unfold SplitString.
  rewrite (Split_wire _ _ _ Hk Hl). by rewrite decide_False.
Qed.

Lemma encode_collapse_list t l : wf t -> collapse t = VList l -> value_ok (collapse t) ->
  E (collapse t) = wire List (concat (E <$> l)) /\ Forall item (E <$> l) /\ Forall value_ok l.
Proof.
  intros Hw El Hv. pose proof (collapse_nonneg t) as Hn. pose proof (collapse_simple t) as Hs. rewrite El in *.
  split; [by apply encode_list|]. apply value_ok_list in Hv. apply nonneg_list_inv in Hn. apply simple_list in Hs.
  split; [|done]. apply Forall_fmap. rewrite !Forall_forall in *. intros v Hi. apply encode_item; auto.
Qed.

Lemma wire_longer c : (length c < length (wire List c))%nat.
Proof. cbn. rewrite length_app. enough (puthead 192 247 (Z.of_nat (length c)) <> []) as Hn by (destruct (puthead _ _ _); [done|cbn; lia]). unfold puthead. by case_match. Qed.

Lemma wf_collapse t : wf t -> exists l, collapse t = VList l.
Proof. intros []; by eexists. Qed.

Lemma decodeRef_ref dec c rest : c = TNil \/ wf c -> value_ok (childRef c) -> Z.of_nat (length (E (childRef c) ++ rest)) < two64 ->
  (wf c -> bigb c = false -> dec (E (collapse c) ++ rest) = inl (stored None c)) ->
  decodeRef dec (E (childRef c) ++ rest) = inl (storedRef c, rest).
Proof.
  intros [->|Hw] Hv Hl Hd; unfold decodeRef.
  { change (E (childRef TNil)) with (wire String []) in *. rewrite (Split_wire String [] rest) by (done || intros x; done). done. }
  destruct (bigb c) eqn:B.
  - assert (childRef c = VBytes (hashBytes c)) as Ec by (rewrite <- (shrink_big c (bigb_big _ B)); by destruct Hw).
    rewrite Ec, encode_bytes in *. assert (length (hashBytes c) = 32%nat) as L32 by apply length_be_bytes.
    assert (enc_bytes (hashBytes c) = wire String (hashBytes c)) as Ew by done. rewrite Ew in *.
    rewrite Split_wire by (done || (intros x Ex; rewrite Ex in L32; done)). unfold storedRef. rewrite B.
    rewrite decide_False by done. rewrite L32. done.
  - assert (childRef c = collapse c) as Ec.
    { unfold childRef, shrink. apply bigb_small in B; [|done]. unfold big in B. destruct Hw; by rewrite bool_decide_eq_true_2 by lia. }
    rewrite Ec in *. destruct (wf_collapse c Hw) as [l El]. destruct (encode_collapse_list c l Hw El Hv) as (Ew & _ & _).
    rewrite Ew in Hl |- *. rewrite (Split_wire List _ rest) by done. rewrite decide_True by done. rewrite <- Ew, (Hd Hw eq_refl).
    rewrite length_app, Nat.add_sub, bool_decide_eq_false_2; [|apply bigb_small in B; [|done]; unfold big in B; unfold hashLen, HashLength; lia].
    unfold storedRef. by rewrite B.
Qed.

(** The decoder reads back trees of up to [n] bytes. *)
Definition decodes (dec : bytes -> node + decodeError) (n : nat) : Prop := forall c rest, wf c -> value_ok (collapse c) ->
  Z.of_nat (length (E (collapse c) ++ rest)) < two64 -> (length (E (collapse c)) <= n)%nat ->
  dec (E (collapse c) ++ rest) = inl (stored None c).

Lemma childRef_small c : wf c -> bigb c = false -> childRef c = collapse c.
Proof.
  intros Hw B. unfold childRef, shrink. apply bigb_small in B; [|done]. unfold big in B. destruct Hw; by rewrite bool_decide_eq_true_2 by lia.
Qed.

Lemma decodeRef_child dec n c rest : decodes dec n -> c = TNil \/ wf c -> value_ok (childRef c) ->
  Z.of_nat (length (E (childRef c) ++ rest)) < two64 -> (length (E (childRef c)) <= n)%nat ->
  decodeRef dec (E (childRef c) ++ rest) = inl (storedRef c, rest).
Proof.
  intros Hd Hc Hv Hl Hn. apply decodeRef_ref; [done..|]. intros Hw B. rewrite (childRef_small c Hw B) in *. by apply Hd.
Qed.

Lemma decodeShort_spec dec n h k c : decodes dec n -> wf (TShort k c) -> value_ok (collapse (TShort k c)) ->
  Z.of_nat (length (concat (E <$> [VBytes (orNil (hexToCompact k)); childRef c]))) < two64 ->
  (length (concat (E <$> [VBytes (orNil (hexToCompact k)); childRef c])) <= n)%nat ->
  decodeShort dec h (concat (E <$> [VBytes (orNil (hexToCompact k)); childRef c])) = inl (stored h (TShort k c)).
Proof.
  intros Hd Hw Hv Hl Hn. rewrite collapse_short in Hv. apply value_ok_list in Hv. apply Forall_cons in Hv as [Hvk Hv].
  apply Forall_cons in Hv as [Hvc _]. cbn [fmap list_fmap concat] in *. rewrite encode_bytes, app_nil_r in *.
  unfold decodeShort. rewrite SplitString_bytes by done. rewrite length_app in Hl, Hn.
  inversion Hw as [? v Hk Hvn|? ts Hk1 Hk2 Hw'|]; subst.
  - rewrite (proj1 (compact_inverse k (or_introl Hk))). apply term_iff in Hk as (p & -> & Hp). rewrite hasTerm_snoc.
    cbn [childRef collapse]. cbn [childRef collapse] in Hl, Hvc. rewrite encode_bytes in *. rewrite <- (app_nil_r (enc_bytes v)).
    by rewrite SplitString_bytes by (done || rewrite app_nil_r; lia).
  - rewrite (proj1 (compact_inverse k (or_intror Hk2))), hasTerm_nibbles by done.
    rewrite <- (app_nil_r (E _)). rewrite (decodeRef_child dec n) by (done || auto || rewrite ?app_nil_r; lia). done.
Qed.

Lemma decodeRefs_spec dec n cs rest : decodes dec n -> Forall (fun c => c = TNil \/ wf c) cs -> Forall value_ok (childRef <$> cs) ->
  Z.of_nat (length (concat (E <$> (childRef <$> cs)) ++ rest)) < two64 -> (length (concat (E <$> (childRef <$> cs))) <= n)%nat ->
  decodeRefs dec (length cs) (concat (E <$> (childRef <$> cs)) ++ rest) = inl (storedRef <$> cs, rest).
Proof.
  intros Hd Hc. induction Hc as [|c cs Hc Hcs IH]; intros Hv Hl Hn; [done|].
  cbn [fmap list_fmap concat length decodeRefs] in *. apply Forall_cons in Hv as [Hvc Hv]. rewrite <- app_assoc in *.
  rewrite length_app in Hn. rewrite (decodeRef_child dec n c) by (done || lia).
  change (list_fmap ?A ?B ?f ?l) with (f <$> l) in *. rewrite length_app in Hl. by rewrite IH by (done || lia).
Qed.

Lemma decodeFull_spec dec n h ts : decodes dec n -> wf (TFull ts) -> value_ok (collapse (TFull ts)) ->
  Z.of_nat (length (concat (E <$> (childRef <$> ts)))) < two64 -> (length (concat (E <$> (childRef <$> ts))) <= n)%nat ->
  decodeFull dec h (concat (E <$> (childRef <$> ts))) = inl (stored h (TFull ts)).
Proof.
  intros Hd Hw Hv Hl Hn. destruct (wf_slots ts Hw) as [L Hs]. rewrite collapse_full in Hv. apply value_ok_list in Hv.
  destruct ts as [|x cs _] using rev_ind; [done|]. rewrite length_app in L. cbn in L.
  assert (length cs = 16%nat) as L16 by lia.
  rewrite !fmap_app, concat_app in Hl, Hn |- *. rewrite fmap_app in Hv. apply Forall_app in Hv as [Hvc Hvx].
  apply Forall_cons in Hvx as [Hvx _]. cbn [fmap list_fmap concat] in Hl, Hn |- *. rewrite app_nil_r in *.
  change (list_fmap ?A ?B ?f ?l) with (f <$> l) in *.
  unfold decodeFull. rewrite <- L16. rewrite (decodeRefs_spec dec n cs); [|done| |done|done|rewrite length_app in Hn; lia]; cycle 1.
  { apply Forall_lookup. intros i c Hi. pose proof (lookup_lt_Some _ _ _ Hi).
    destruct (Hs i c) as [->|[[E16 _]|[_ Hwc]]]; [by rewrite lookup_app_l|by left|lia|by right]. }
  assert (x = TNil \/ isVal x) as Hx.
  { destruct (Hs 16%nat x) as [->|[[_ Hx]|[Hlt _]]]; [rewrite lookup_app_r by lia; by rewrite L16|by left|by right|lia]. }
  rewrite length_app in Hl. rewrite stored_full, fmap_app. destruct Hx as [->|(v & -> & Hv)].
  - cbn [childRef collapse] in *. rewrite encode_bytes in *. rewrite <- (app_nil_r (enc_bytes [])), SplitString_bytes by (done || (rewrite app_nil_r; lia)). done.
  - cbn [childRef collapse] in *. rewrite encode_bytes in *. rewrite <- (app_nil_r (enc_bytes v)), SplitString_bytes by (done || (rewrite app_nil_r; lia)).
    by rewrite bool_decide_eq_false_2 by done.
Qed.

Lemma decodeNode_spec fuel t h rest : wf t -> value_ok (collapse t) ->
  Z.of_nat (length (E (collapse t) ++ rest)) < two64 -> (length (E (collapse t)) <= fuel)%nat ->
  decodeNode fuel h (E (collapse t) ++ rest) = inl (stored h t).
Proof.
  revert t h rest. induction fuel as [|fuel IH]; intros t h rest Hw Hv Hl Hf.
  all: destruct (wf_collapse t Hw) as [l El]; destruct (encode_collapse_list t l Hw El Hv) as (Ew & Hi & _).
  all: pose proof (wire_longer (concat (E <$> l))) as Hlong; rewrite <- Ew in Hlong.
  1: lia.
  assert (decodes (decodeNode fuel None) fuel) as Hd by (intros c r; apply IH).
  cbn [decodeNode]. destruct (E (collapse t) ++ rest) as [|x b] eqn:Eb.
  { apply app_eq_nil in Eb as [Eb _]. rewrite Eb in Hlong. cbn in Hlong. lia. }
  rewrite <- Eb, Ew in Hl |- *. unfold SplitList. rewrite (Split_wire List _ rest) by done. rewrite decide_True by done.
  rewrite length_app in Hl. rewrite Ew in Hf, Hlong.
  rewrite CountValues_items by (done || lia). rewrite length_fmap.
  destruct Hw as [k v Hk Hvn|k ts Hk1 Hk2 Hw'|ts i j a b' L Hij Ha Hb Han Hbn Hla Hch].
  - rewrite collapse_short in El. assert (l = [VBytes (orNil (hexToCompact k)); childRef (TVal v)]) as -> by congruence.
    apply (decodeShort_spec (decodeNode fuel None) fuel); [done|by constructor|done|lia|lia].
  - rewrite collapse_short in El. assert (l = [VBytes (orNil (hexToCompact k)); childRef (TFull ts)]) as -> by congruence.
    apply (decodeShort_spec (decodeNode fuel None) fuel); [done|by constructor|done|lia|lia].
  - rewrite collapse_full in El. assert (l = childRef <$> ts) as -> by congruence. rewrite length_fmap, L.
    apply (decodeFull_spec (decodeNode fuel None) fuel); [done|by eapply wf_branch|done|lia|lia].
Qed.

End Trees.
