(* ===== verification/TrieCommit.v ===== *)
(** * Committed tries can be reopened

    A database is consistent when what it has under the hash of a tree is that
    tree.  This holds as long as no two trees in use collide: the trees are
    drawn from a [universe] without collisions. *)

From S2P Require Import Prelude Rlp RlpRaw Transaction Trie TrieMap TrieRefine TrieHash TrieKeys TrieStore TrieDecode.

Lemma node_ind' (P : node -> Prop) : P nilNode -> (forall cs fl, Forall P cs -> P (fullNode cs fl)) ->
  (forall k n fl, P n -> P (shortNode k n fl)) -> (forall h, P (hashNode h)) -> (forall v, P (valueNode v)) -> forall n, P n.
Proof.
  intros Hn Hf Hs Hh Hv. fix IH 1. intros [|cs fl|k n fl|h|v]; [done| |by apply Hs|done|done]. apply Hf.
  induction cs as [|c cs IHcs]; constructor; [apply IH|done].
Qed.

Lemma sumChildren_cons f i c cs : sumChildren f i (c :: cs) =
  if (i <? 16)%nat then s ← f c; r ← sumChildren f (S i) cs; Ret (s + r) else Ret 0.
Proof. reflexivity. Qed.

(** A node that can be simplified has a size. *)
Lemma estimate_some n r : simplifyNode n = Ret r -> exists s, estimateSize n = Ret s.
Proof.
  revert r. induction n as [|cs fl IH|k n fl IH|h|v] using node_ind'; intros r E; [done| | |by eexists|by eexists].
  - cbn in E. destruct (mapM _ cs) as [rs|] eqn:Em; [|done]. clear E. cbn.
    enough (forall i, exists s, sumChildren (fun c => match c with nilNode => Ret 1 | _ => estimateSize c end) i cs = Ret s) as Hs
      by (destruct (Hs 0%nat) as [s ->]; by eexists).
    revert rs Em. induction IH as [|c cs Hc _ IHcs]; intros rs Em i; [by eexists|]. cbn in Em. rewrite sumChildren_cons.
    destruct (match c with nilNode => Ret rawNil | _ => simplifyNode c end) as [r1|] eqn:E1; [|done].
    destruct (mapM _ cs) as [rs'|] eqn:E2; [|done]. destruct (IHcs rs' eq_refl (S i)) as [s2 Hs2]. 
    destruct (i <? 16)%nat; [|by eexists].
    assert (exists s1, match c with nilNode => Ret 1 | _ => estimateSize c end = Ret s1) as [s1 ->].
    { destruct c; [by eexists|exact (Hc _ E1)..]. }
    cbn [mbind outcome_bind]. rewrite Hs2. by eexists.
  - cbn in E |- *. destruct (simplifyNode n) as [r'|]; [|done]. destruct (IH r' eq_refl) as [s ->]. by eexists.
Qed.

Section Commit.
Context `{Crypto}.

Abbreviation key t := (BytesToHash (hashBytes t)).

Lemma key_bytes t : be_bytes HashLength (key t) = hashBytes t.
Proof.
  unfold BytesToHash. rewrite length_hashBytes, Nat.sub_diag. change (drop 0 (hashBytes t)) with (hashBytes t).
  rewrite <- (length_hashBytes t). apply be_bytes_of_be, be_bytes_ok.
Qed.

(** Trees that can be told apart by their hash. *)
Record universe (U : tree -> Prop) : Prop := {
  u_wf t : U t -> wf t;
  u_short k ts : U (TShort k (TFull ts)) -> U (TFull ts);
  u_full ts i c : U (TFull ts) -> (i < 16)%nat -> ts !! i = Some c -> c <> TNil -> U c;
  u_ok t : U t -> value_ok (collapse t) /\ Z.of_nat (length (encodeOrNothing (collapse t))) < two64;
  u_inj t u : U t -> U u -> hashBytes t = hashBytes u -> t = u;
  u_root t : U t -> key t <> 0 /\ key t <> emptyRoot
}.

Context (U : tree -> Prop) (HU : universe U).

Lemma key_inj t u : U t -> U u -> key t = key u -> t = u.
Proof. intros Ht Hu E. apply (u_inj U HU); [done..|]. by rewrite <- (key_bytes t), E, key_bytes. Qed.

(** ** What the database has *)

Definition has (db : Database) (t : tree) : Prop := is_Some (db_dirties db !! key t) \/ is_Some (db_disk db !! key t).

Record db_ok (db : Database) : Prop := {
  ok_dirty t e : U t -> db_dirties db !! key t = Some e -> cn_node e = rawOf t;
  ok_disk t b : U t -> db_disk db !! key t = Some b -> b = encodeOrNothing (collapse t);
  ok_list : db_oldest db <> 0 -> is_Some (db_dirties db !! db_newest db)
}.

Definition grows (db db' : Database) : Prop :=
  db_disk db' = db_disk db /\ forall h, is_Some (db_dirties db !! h) -> is_Some (db_dirties db' !! h).

Lemma grows_refl db : grows db db.
Proof. by split. Qed.
Lemma grows_trans a b c : grows a b -> grows b c -> grows a c.
Proof. intros [E1 G1] [E2 G2]. split; [congruence|auto]. Qed.

Lemma has_grows db db' t : grows db db' -> has db t -> has db' t.
Proof. intros [E G] [Hd|Hd]; [left; auto|right; by rewrite E]. Qed.

(** All that a reader may follow from [t] is in the database. *)
Inductive kids (db : Database) : tree -> Prop :=
| kids_leaf k v : kids db (TShort k (TVal v))
| kids_ext k ts : (big (TFull ts) -> has db (TFull ts)) -> kids db (TFull ts) -> kids db (TShort k (TFull ts))
| kids_full ts : (forall i c, (i < 16)%nat -> ts !! i = Some c -> c <> TNil -> big c -> has db c) ->
    (forall i c, (i < 16)%nat -> ts !! i = Some c -> c <> TNil -> kids db c) -> kids db (TFull ts).

Lemma kids_grows db db' t : grows db db' -> kids db t -> kids db' t.
Proof.
  intros G. induction 1 as [k v|k ts Hh Hk IH|ts Hh Hk IH]; constructor; try done;
    intros; eapply has_grows; eauto.
Qed.

Definition Known (db : Database) (t : tree) : Prop := U t /\ has db t /\ kids db t.

Lemma Known_grows db db' t : grows db db' -> Known db t -> Known db' t.
Proof. intros G (Hu & Hh & Hk). split_and!; [done|by eapply has_grows|by eapply kids_grows]. Qed.

Lemma rep_mono (K K' : tree -> Prop) n t : (forall t, K t -> K' t) -> rep K n t -> rep K' n t.
Proof.
  intros HK. assert (forall fl t, flag_ok K fl t -> flag_ok K' fl t) as Hf.
  { intros fl u [F1 F2]. split; [done|]. intros D. specialize (F2 D). case_match; auto. }
  induction 1; constructor; auto.
Qed.

(** ** Reading *)

Lemma rep_storedRef db c : wf c -> U c -> kids db c -> (big c -> has db c) ->
  (forall h, flag_ok (Known db) (mkFlag h false) c -> (big c -> h <> None) -> rep (Known db) (stored h c) c /\ ready (stored h c) c) ->
  rep (Known db) (storedRef c) c /\ ready (storedRef c) c /\ ref_ok (storedRef c) c.
Proof.
  intros Hw Hu Hk Hh Hs. unfold storedRef. destruct (bigb c) eqn:B.
  - apply bigb_big in B. split_and!; [apply rep_hash; [done|split_and!; auto]|constructor|intros _; exact B].
  - apply bigb_small in B; [|done]. destruct (Hs None) as [R Ry]; [split; [done|by intros _]|intros Hb; by destruct B|]. split_and!; [done..|].
    intros E. by destruct Hw.
Qed.

Lemma rep_stored db t h : wf t -> U t -> kids db t -> flag_ok (Known db) (mkFlag h false) t -> (big t -> h <> None) ->
  rep (Known db) (stored h t) t /\ ready (stored h t) t.
Proof.
  intros Hw. revert h. induction Hw as [k v Hk Hv|k ts Hn Hk Hw IH|ts i j a b L Hij Hi Hj Ha Hb Hl Hc IH]; intros h Hu Hkids Fl Hb'.
  - split; constructor; try done; constructor.
  - assert (U (TFull ts)) as Hu' by by eapply u_short. inversion Hkids as [|? ? Hh Hk'|]; subst.
    destruct (rep_storedRef db (TFull ts)) as (R & Ry & Rk); auto. split; by constructor.
  - inversion Hkids as [| |? Hh Hk]; subst. rewrite stored_full.
    assert (forall m n c, (storedRef <$> ts) !! m = Some n -> ts !! m = Some c ->
      rep (Known db) n c /\ ready n c /\ ref_ok n c) as P.
    { intros m n c Hm Hc'. rewrite list_lookup_fmap, Hc' in Hm. injection Hm as <-.
      pose proof (lookup_lt_Some _ _ _ Hc'). destruct (TNil_dec c) as [->|Hcn]; [split_and!; [constructor..|done]|].
      destruct (decide (m = 16%nat)) as [->|Hm16].
      - destruct (Hl _ Hc') as [->|(v & -> & _)]; [done|]. split_and!; [constructor..|done].
      - assert (m < 16)%nat as Hlt by lia. assert (U c) as Huc by by eapply u_full. apply rep_storedRef; [by eauto|done|by eauto..|].
        intros h' Fl' Hb2. eapply IH; eauto. }
    split; constructor; try done; try (by rewrite length_fmap); intros; edestruct P as (? & ? & ?); eauto.
Qed.

Lemma db_node_known db t : db_ok db -> Known db t -> db_node db (key t) = Ret (Some (stored (Some (hashBytes t)) t)).
Proof.
  intros Ho (Hu & Hh & Hk). unfold db_node. pose proof (u_wf U HU t Hu) as Hw.
  destruct (db_dirties db !! key t) as [e|] eqn:Ed.
  - rewrite (ok_dirty db Ho t e Hu Ed), key_bytes, (expand_rawOf t Hw). done.
  - destruct Hh as [[e He]|[b Hb]]; [congruence|]. rewrite Hb. unfold mustDecodeNode.
    rewrite (ok_disk db Ho t b Hu Hb), key_bytes. destruct (u_ok U HU t Hu) as [Hv Hl].
    rewrite <- (app_nil_r (encodeOrNothing (collapse t))) at 2. rewrite decodeNode_spec; [done|done|done|by rewrite app_nil_r|done].
Qed.

Lemma hashed_stored h t : wf t -> isNode (stored (Some h) t) /\ hashed (stored (Some h) t) = true.
Proof. intros []; (split; [exact I|]); apply bool_decide_eq_true_2; by eexists. Qed.

Lemma db_serves db : db_ok db -> serves (Known db) (db_node db).
Proof.
  intros Ho t Hw K. right. exists (stored (Some (hashBytes t)) t). split; [exact (db_node_known db t Ho K)|].
  destruct (hashed_stored (hashBytes t) t Hw) as [Hn Hs]. destruct K as (Hu & Hh & Hk).
  destruct (rep_stored db t (Some (hashBytes t)) Hw Hu Hk) as [R Ry]; [|done|].
  - split; [|intros _; exact (conj Hu (conj Hh Hk))]. intros h Eh. cbn [fl_hash] in Eh. congruence.
  - exact (conj Hn (conj Hs (conj Ry R))).
Qed.

(** ** Writing *)

(** Maps of cached nodes with the same keys and the same nodes. *)
Definition same_nodes (d d' : gmap Hash cachedNode) : Prop := forall h, cn_node <$> d !! h = cn_node <$> d' !! h.

Lemma addParent_same d h : same_nodes d (addParent d h).
Proof.
  intros k. unfold addParent. destruct (d !! h) as [c|] eqn:E; [|done]. destruct (decide (h = k)) as [<-|Hn].
  - by rewrite lookup_insert_eq, E.
  - by rewrite lookup_insert_ne.
Qed.

Lemma addParents_same l d : same_nodes d (fold_left addParent l d).
Proof.
  revert d. induction l as [|h l IH]; intros d; [done|]. cbn. intros k. rewrite (addParent_same d h k). apply IH.
Qed.

Lemma same_some d d' h : same_nodes d d' -> is_Some (d !! h) -> is_Some (d' !! h).
Proof. intros S [e E]. specialize (S h). rewrite E in S. destruct (d' !! h); [by eexists|done]. Qed.

Lemma same_node d d' h e : same_nodes d d' -> d' !! h = Some e -> exists e0, d !! h = Some e0 /\ cn_node e0 = cn_node e.
Proof. intros S E. specialize (S h). rewrite E in S. destruct (d !! h); [|done]. injection S as S. by eexists. Qed.

(** The entries after a node was added under [k]. *)
Lemma inserted_entries d k r e : d !! k = None -> cn_node e = r ->
  forall d', same_nodes (<[k := e]> d) d' ->
  (forall h, is_Some (d !! h) -> is_Some (d' !! h)) /\ is_Some (d' !! k) /\
  (forall h x, d' !! h = Some x -> (h = k /\ cn_node x = r) \/ exists y, d !! h = Some y /\ cn_node y = cn_node x).
Proof.
  intros Hk Hr d' S. split_and!.
  - intros h Hh. apply (same_some _ _ _ S). destruct (decide (k = h)) as [<-|Hn]; [rewrite lookup_insert_eq; by eexists|by rewrite lookup_insert_ne].
  - apply (same_some _ _ _ S). rewrite lookup_insert_eq. by eexists.
  - intros h x Hx. destruct (same_node _ _ _ _ S Hx) as (y & Hy & E). destruct (decide (k = h)) as [<-|Hn].
    + rewrite lookup_insert_eq in Hy. injection Hy as <-. left. split; congruence.
    + rewrite lookup_insert_ne in Hy by done. right. by exists y.
Qed.

Lemma insert_ok db t n size : db_ok db -> U t -> simplifyNode n = Ret (rawOf t) ->
  exists db', db_insert db (key t) size n = Ret db' /\ db_ok db' /\ grows db db' /\ is_Some (db_dirties db' !! key t).
Proof.
  intros Ho Hu Hs. unfold db_insert. destruct (db_dirties db !! key t) as [e|] eqn:Ek.
  { exists db. split_and!; [done..|apply grows_refl|rewrite Ek; by eexists]. }
  rewrite Hs. cbn [mbind outcome_bind]. set (entry := mkCached _ _ _ _ _ _).
  set (d0 := fold_left addParent (forChilds entry) (db_dirties db)).
  assert (same_nodes (db_dirties db) d0) as S0 by apply addParents_same.
  assert (d0 !! key t = None) as Hk0.
  { specialize (S0 (key t)). rewrite Ek in S0. by destruct (d0 !! key t). }
  assert (forall db1, db_disk db1 = db_disk db -> db_newest db1 = key t -> same_nodes (<[key t := entry]> d0) (db_dirties db1) ->
    db_ok db1 /\ grows db db1 /\ is_Some (db_dirties db1 !! key t)) as Hfin.
  { intros db1 E1 E2 S1. destruct (inserted_entries d0 (key t) (rawOf t) entry Hk0 eq_refl _ S1) as (G & Hkey & Hall).
    split_and!; [constructor| |done].
    - intros u x Hux Hx. destruct (Hall _ _ Hx) as [[E ->]|(y & Hy & <-)].
      + by rewrite (key_inj u t Hux Hu E).
      + destruct (same_node _ _ _ _ S0 Hy) as (z & Hz & <-). by apply (ok_dirty db Ho).
    - intros u b Hub. rewrite E1. by apply (ok_disk db Ho).
    - intros _. by rewrite E2.
    - split; [done|]. intros h Hh. apply G. by apply (same_some _ _ _ S0). }
  cbn [db_oldest setf]. destruct (Z.eqb_spec (db_oldest db) 0) as [E0|E0].
  - eexists. split; [done|]. by apply Hfin.
  - cbn [db_newest setf].
    destruct (ok_list db Ho E0) as [x Hx].
    destruct (proj1 (inserted_entries d0 (key t) (rawOf t) entry Hk0 eq_refl _ (fun _ => eq_refl)) (db_newest db)) as [y Hy].
    { apply (same_some _ _ _ S0). by eexists. }
    rewrite Hy. eexists. split; [done|]. apply Hfin; [done..|]. intros h. cbn [db_dirties setf].
    destruct (decide (db_newest db = h)) as [<-|Hn]; [by rewrite lookup_insert_eq, Hy|by rewrite (lookup_insert_ne _ (db_newest db))].
Qed.

(** ** Opening *)

Lemma emptyRoot_bytes : BytesToHash (be_bytes HashLength emptyRoot) = emptyRoot.
Proof. vm_compute. reflexivity. Qed.

(** No known node is missing, so reads do not fail. *)
Lemma known_present db e : db_ok db -> ~ missing (Known db) (db_node db) e.
Proof. intros Ho (Hn & t & W & K & E). rewrite E, (db_node_known db t Ho K) in Hn. discriminate. Qed.

Lemma newTrie_known db t : db_ok db -> Known db t -> exists u, newTrie (key t) db = Ret (inl u) /\
  rep (Known db) (tr_root u) t /\ root_ok (tr_root u).
Proof.
  intros Ho K. destruct (u_root U HU t (proj1 K)) as [H0 He]. unfold newTrie.
  rewrite !bool_decide_eq_true_2 by done. cbn [andb]. unfold resolveHash. rewrite key_bytes.
  destruct (db_serves db Ho t (u_wf U HU t (proj1 K)) K) as [D|(n & D & N & Hh & _ & R)]; [rewrite (db_node_known db t Ho K) in D; discriminate|].
  rewrite D. cbn [mbind outcome_bind]. eexists. split; [reflexivity|]. split; [exact R|]. by apply hashed_root.
Qed.

Definition reads_all (db : Database) (t : Trie) (m : gmap bytes bytes) : Prop := forall fuel k, enough fuel k ->
  exists t', TryGet (db_node db) fuel t k = Ret (t', m !! k, None).

Lemma holds_reads db t m : db_ok db -> holds (Known db) t m -> reads_all db t m.
Proof.
  intros Ho Hh fuel k He. destruct (TryGet_spec (Known db) (db_node db) (db_serves db Ho) fuel t m k Hh He) as (t' & v & [e|] & E & _ & G).
  - by apply known_present in G.
  - exists t'. by rewrite E, G.
Qed.

(** ** Committing *)

(** A further property of databases that storing known nodes preserves. *)
Context (Inv : Database -> Prop).
Context (Hinv : forall db t n size db', db_ok db -> Inv db -> U t -> kids db t -> simplifyNode n = Ret (rawOf t) ->
  db_insert db (key t) size n = Ret db' -> Inv db').

Definition good (db : Database) : Prop := db_ok db /\ Inv db.

Context (onleaf : bytes -> Hash -> Database -> outcome Database).
Context (Hleaf : forall v h db, good db -> is_Some (db_dirties db !! h) ->
  exists db', onleaf v h db = Ret db' /\ good db' /\ grows db db').

(** The raw form of a child, nil or not. *)
Definition simplifyChild (c : node) : outcome rawnode := match c with nilNode => Ret rawNil | _ => simplifyNode c end.

Lemma mapM_lookup {A B} (f : A -> outcome B) l : forall rs i r, mapM f l = Ret rs -> rs !! i = Some r -> exists x, l !! i = Some x /\ f x = Ret r.
Proof.
  induction l as [|x l IH]; intros rs i r E Hr; cbn in E; [injection E as <-; by rewrite lookup_nil in Hr|].
  destruct (f x) as [y|] eqn:Ex; [|done]. destruct (mapM f l) as [ys|]; [|done]. injection E as <-.
  destruct i as [|i]; [injection Hr as <-; by exists x|]. by apply (IH ys).
Qed.

(** What committing a node that stands for [t] gives: its hash, with the node
    in the database, or the collapsed node that its parent embeds. *)
Definition committed (db : Database) (n : node) (t : tree) (r : node * Database) : Prop :=
  good r.2 /\ grows db r.2 /\ kids r.2 t /\
  if hashed n then r.1 = hashNode (hashBytes t) /\ has r.2 t else isNode r.1 /\ simplifyNode r.1 = Ret (rawOf t).

Lemma leafOf_ret n t : wf t -> isNode n -> simplifyNode n = Ret (rawOf t) -> exists o, leafOf n = Ret o.
Proof.
  intros Hw Nn E. destruct n as [|cs fl|k c fl|h|v]; try done; [|cbn; destruct c; by eexists].
  cbn [simplifyNode] in E. change (mapM _ cs) with (mapM simplifyChild cs) in E. destruct (mapM simplifyChild cs) as [rs|] eqn:Em; [|done].
  cbn [mbind outcome_bind] in E. destruct t as [|v|k t|ts]; try done. rewrite rawOf_full in E. assert (rs = rawRef <$> ts) as -> by congruence.
  destruct (wf_slots ts Hw) as [L Hs]. destruct (lookup_lt_is_Some_2 ts 16) as [c Hc]; [lia|].
  assert (exists d, cs !! 16%nat = Some d /\ simplifyChild d = Ret (rawRef c)) as (d & Hd & Ed).
  { apply (mapM_lookup _ _ _ _ _ Em). by rewrite list_lookup_fmap, Hc. }
  cbn. rewrite Hd. destruct (Hs _ _ Hc) as [->|[[_ (v & -> & _)]|[? _]]]; [| |lia].
  - destruct d as [|ds fl'|k d fl'|h|v]; try done; [by eexists|cbn in Ed; by destruct (mapM _ ds)|cbn in Ed; by destruct (simplifyNode d)].
  - destruct d as [|ds fl'|k d fl'|h|w]; try done; [cbn in Ed; by destruct (mapM _ ds)|cbn in Ed; by destruct (simplifyNode d)|by eexists].
Qed.

Lemma store_ok db db0 n t fl collapsed : good db -> grows db0 db -> U t -> kids db t ->
  (forall h, fl_hash fl = Some h -> h = hashBytes t) ->
  isNode collapsed -> cache collapsed = Ret (fl_hash fl, fl_dirty fl) -> hashed n = bool_decide (is_Some (fl_hash fl)) ->
  simplifyNode collapsed = Ret (rawOf t) ->
  exists r, store onleaf collapsed db = Ret r /\ committed db0 n t r.
Proof.
  intros Ho G Hu Hk Fl Nc Ec Eh Es. unfold store. rewrite Ec. cbn [mbind outcome_bind]. unfold committed. rewrite Eh.
  destruct (fl_hash fl) as [h|] eqn:Ef.
  - destruct (estimate_some _ _ Es) as [sz ->]. cbn [mbind outcome_bind]. rewrite (Fl h eq_refl) in *.
    destruct (insert_ok db t collapsed sz (proj1 Ho) Hu Es) as (db1 & Ei & Ho1' & G1 & Hi).
    assert (good db1) as Ho1 by (split; [done|by apply (Hinv db t collapsed sz db1); [apply Ho..| | | |]]).
    rewrite Ei. cbn [mbind outcome_bind].
    destruct (leafOf_ret collapsed t (u_wf U HU t Hu) Nc Es) as [leaf ->]. cbn [mbind outcome_bind].
    assert (exists db2, match leaf with Some v => onleaf v (key t) db1 | None => Ret db1 end = Ret db2 /\
      good db2 /\ grows db1 db2) as (db2 & -> & Ho2 & G2).
    { destruct leaf; [by apply Hleaf|]. exists db1. split_and!; [done..|apply grows_refl]. }
    cbn [mbind outcome_bind]. eexists. split; [reflexivity|]. cbn [fst snd]. rewrite bool_decide_eq_true_2 by by eexists.
    pose proof (grows_trans _ _ _ G1 G2) as G12. split; [exact Ho2|]. split; [by eapply grows_trans|].
    split; [by eapply kids_grows|]. split; [reflexivity|]. left. by apply G2.
  - eexists. split; [reflexivity|]. cbn [fst snd]. by rewrite bool_decide_eq_false_2 by (by intros [? ?]).
Qed.

Lemma simplifyChild_node d r : simplifyChild d = Ret r -> r <> rawNil -> simplifyNode d = Ret r.
Proof. destruct d; try done. by intros [= <-]. Qed.

Lemma rawRef_not_nil t : t <> TNil -> rawRef t <> rawNil.
Proof. unfold rawRef. destruct (bigb t); [done|]. by destruct t. Qed.

Lemma ready_small n t : ready n t -> isNode n -> hashed n = false -> ~ big t.
Proof.
  intros Ry Hn Hh Hb. destruct Ry as [| |k n fl t Hf _|cs fl ts Hf _|]; try done; cbn in Hh;
    apply bool_decide_eq_false in Hh; specialize (Hf Hb); destruct (fl_hash fl); [by apply Hh; eexists|done|by apply Hh; eexists|done].
Qed.

(** A committed child is what the parent refers to. *)
Lemma committed_child db n c r : wf c -> isNode n -> ready n c -> ref_ok n c -> committed db n c r ->
  simplifyChild r.1 = Ret (rawRef c) /\ (big c -> has r.2 c) /\ kids r.2 c /\ good r.2 /\ grows db r.2.
Proof.
  intros Hw Hn Ry Rk (Ho & G & Hk & Hc). destruct (hashed n) eqn:Hh.
  - destruct Hc as [-> Hhas]. split_and!; [|done..]. unfold rawRef. by rewrite (big_bigb c Hw (Rk Hh)).
  - destruct Hc as [Hi Es]. pose proof (ready_small n c Ry Hn Hh) as Hs. split_and!; [|done..].
    unfold rawRef. destruct (bigb c) eqn:B; [by apply bigb_big in B|]. rewrite <- Es. by destruct r.1.
Qed.

(** One child of a branch, in the loop over them. *)
Definition commitSlot (i : nat) (c : node) (db : Database) : outcome (node * Database) :=
  if (i <? 16)%nat then match c with nilNode | hashNode _ => Ret (c, db) | _ => commit onleaf c db end else Ret (c, db).

Definition slotted (db0 : Database) (i : nat) (c : node) (t : tree) : Prop :=
  forall db, good db -> grows db0 db -> exists r, commitSlot i c db = Ret r /\ good r.2 /\ grows db r.2 /\
  simplifyChild r.1 = Ret (rawRef t) /\ ((i < 16)%nat -> t <> TNil -> (big t -> has r.2 t) /\ kids r.2 t).

Lemma commitEach_cons f i c cs db : commitEach f i (c :: cs) db =
  ('(d, db) ← f i c db; '(ds, db) ← commitEach f (S i) cs db; Ret (d :: ds, db)).
Proof. reflexivity. Qed.

Lemma commitEach_ok db0 cs : forall ts i db, length cs = length ts -> good db -> grows db0 db ->
  (forall j c t, cs !! j = Some c -> ts !! j = Some t -> slotted db0 (i + j) c t) ->
  exists ds db', commitEach commitSlot i cs db = Ret (ds, db') /\ good db' /\ grows db db' /\
    mapM simplifyChild ds = Ret (rawRef <$> ts) /\
    forall j t, ts !! j = Some t -> (i + j < 16)%nat -> t <> TNil -> (big t -> has db' t) /\ kids db' t.
Proof.
  induction cs as [|c cs IH]; intros [|t ts] i db L Ho G Hs; try done.
  { exists [], db. split_and!; [done..|apply grows_refl|done|done]. }
  destruct (Hs 0%nat c t eq_refl eq_refl db Ho G) as ([d db1] & E1 & Ho1 & G1 & S1 & K1). rewrite Nat.add_0_r in *.
  destruct (IH ts (S i) db1) as (ds & db2 & E2 & Ho2 & G2 & S2 & K2); [by injection L|done|by eapply grows_trans| |].
  { intros j x u Hx Hu. replace (S i + j)%nat with (i + S j)%nat by lia. by apply Hs. }
  cbn [fst snd] in *. exists (d :: ds), db2. rewrite commitEach_cons, E1. cbn [mbind outcome_bind]. rewrite E2. cbn [mbind outcome_bind].
  split_and!; [done..|by eapply grows_trans| |].
  - cbn [mapM]. rewrite S1. cbn [mbind outcome_bind]. by rewrite S2.
  - intros [|j] u Hu Hj Hn.
    + injection Hu as ->. rewrite Nat.add_0_r in Hj. destruct (K1 Hj Hn) as [Hb Hk].
      split; [intros B; eapply has_grows; eauto|by eapply kids_grows].
    + apply (K2 j); [done|lia|done].
Qed.

Lemma rep_slot K c t : rep K c t -> wf t -> isNode c \/ c = hashNode (hashBytes t) /\ K t.
Proof. destruct 1 as [|v| | |]; intros Hw; try (by inversion Hw); auto; by left. Qed.

Definition commits (db0 : Database) (n : node) (t : tree) : Prop := forall db, good db -> grows db0 db ->
  ready n t -> wf t -> U t -> exists r, commit onleaf n db = Ret r /\ committed db n t r.

Lemma commits_hash db0 t : Known db0 t -> commits db0 (hashNode (hashBytes t)) t.
Proof.
  intros K db Ho G _ _ _. exists (hashNode (hashBytes t), db). split; [reflexivity|].
  destruct (Known_grows _ _ _ G K) as (Hu & Hh & Hk). split_and!; [done|apply grows_refl|done|]. by split.
Qed.

Lemma commits_child db0 n t : commits db0 n t -> forall db, good db -> grows db0 db -> rep (Known db0) n t -> ready n t -> ref_ok n t -> wf t -> U t ->
  exists r, commit onleaf n db = Ret r /\ simplifyChild r.1 = Ret (rawRef t) /\ (big t -> has r.2 t) /\ kids r.2 t /\ good r.2 /\ grows db r.2.
Proof.
  intros C db Ho G R Ry Rk Hw Hu. destruct (C db Ho G Ry Hw Hu) as (r & E & Hr). exists r. split; [done|].
  destruct (rep_slot _ _ _ R Hw) as [N|[-> K]]; [by eapply committed_child|].
  destruct Hr as (Ho' & G' & Hk & -> & Hh). split_and!; [|done..]. unfold rawRef. by rewrite (big_bigb t Hw (Rk eq_refl)).
Qed.

(** A clean node is in the database. *)
Lemma commits_clean db0 n t fl h : flag_ok (Known db0) fl t -> fl_hash fl = Some h -> fl_dirty fl = false ->
  cache n = Ret (fl_hash fl, fl_dirty fl) -> isNode n -> hashed n = true -> commits db0 n t.
Proof.
  intros [F1 F2] Eh Ed Ec Nn Hh db Ho G Ry Hw Hu. specialize (F2 Ed). rewrite Eh in F2. pose proof (F1 h Eh) as ->.
  exists (hashNode (hashBytes t), db). split; [destruct n; try done; cbn [commit]; rewrite Ec, Eh, Ed; reflexivity|].
  destruct (Known_grows _ _ _ G F2) as (_ & Hhas & Hk). unfold committed. rewrite Hh. split_and!; [done|apply grows_refl|done..].
Qed.

(** A node that is not clean with a hash is collapsed and stored. *)
Definition uncached (fl : nodeFlag) : Prop := fl_hash fl = None \/ fl_dirty fl = true.

Lemma flag_cases fl : uncached fl \/ exists h, fl_hash fl = Some h /\ fl_dirty fl = false.
Proof. unfold uncached. destruct (fl_hash fl), (fl_dirty fl); eauto. Qed.

Lemma commit_short k v fl db : uncached fl -> commit onleaf (shortNode k v fl) db =
  ('(child, db) ← match v with fullNode _ _ => commit onleaf v db | _ => Ret (v, db) end;
   key ← hexToCompact k; store onleaf (shortNode key child fl) db).
Proof. intros [E|E]; cbn [commit cache mbind outcome_bind]; rewrite E; [reflexivity|]. by destruct (fl_hash fl). Qed.

Lemma commit_full cs fl db : uncached fl -> commit onleaf (fullNode cs fl) db =
  ('(kids, db) ← commitEach commitSlot 0 cs db; store onleaf (fullNode kids fl) db).
Proof. intros [E|E]; cbn [commit cache mbind outcome_bind]; rewrite E; [reflexivity|]. by destruct (fl_hash fl). Qed.

Lemma commits_short db0 k n fl t : flag_ok (Known db0) fl (TShort k t) -> ref_ok n t -> rep (Known db0) n t -> commits db0 n t ->
  commits db0 (shortNode k n fl) (TShort k t).
Proof.
  intros Fl Rk R C. destruct (flag_cases fl) as [Hu|(h & Eh & Ed)]; cycle 1.
  { eapply commits_clean; try done. cbn. rewrite Eh. by apply bool_decide_eq_true_2. }
  intros db Ho G Ry Hw HUt. rewrite (commit_short _ _ _ _ Hu). inversion Ry as [| |? ? ? ? _ Ry'| |]; subst.
  assert (exists r, match n with fullNode _ _ => commit onleaf n db | _ => Ret (n, db) end = Ret r /\
    simplifyChild r.1 = Ret (rawRef t) /\ kids r.2 (TShort k t) /\ good r.2 /\ grows db r.2) as ([d db1] & -> & Sd & Kd & Ho1 & G1).
  { inversion Hw as [? w Ht Hv|? ts Hk1 Hk2 Hts|]; subst.
    - inversion R as [|v| | |? W]; subst; [|by inversion W]. exists (valueNode w, db). split_and!; [done..|constructor|done|apply grows_refl].
    - destruct (commits_child db0 n (TFull ts) C db Ho G R Ry' Rk Hts) as (r & E & S & Hb & Hk & Ho' & G'); [by eapply u_short|].
      exists r. split_and!; [|done|by constructor|done..]. rewrite <- E. inversion R; subst; done. }
  cbn [mbind outcome_bind fst snd] in *. rewrite hexToCompact_ret. cbn [mbind outcome_bind].
  apply (store_ok _ _ _ _ fl); try done; [apply Fl|]. cbn [simplifyNode]. rewrite (simplifyChild_node d (rawRef t)); [done|done|].
  apply rawRef_not_nil. by inversion Hw.
Qed.

Lemma slotted_child db0 i c t : slot i t -> rep (Known db0) c t -> ready c t -> ref_ok c t -> ((i < 16)%nat -> t <> TNil -> U t) ->
  commits db0 c t -> slotted db0 i c t.
Proof.
  intros Hs R Ry Rk Hu C db Ho G. destruct Hs as [->|[[-> (v & -> & _)]|[Hi Hw]]].
  - pose proof (proj2 (rep_nil_iff _ _ _ R) eq_refl) as ->. exists (nilNode, db). unfold commitSlot.
    split_and!; [by destruct (i <? 16)%nat|done|apply grows_refl|done|done].
  - inversion R as [|? E| | |? W]; subst; [|by inversion W]. exists (valueNode v, db). split_and!; [done..|apply grows_refl|done|lia].
  - assert (t <> TNil) as Hn by (intros ->; inversion Hw).
    destruct (commits_child db0 c t C db Ho G R Ry Rk Hw) as (r & E & S & Hb & Hk & Ho' & G'); [by apply Hu|].
    exists r. split_and!; [|done..]. rewrite <- E. unfold commitSlot. rewrite (proj2 (Nat.ltb_lt _ _) Hi).
    destruct (rep_slot _ _ _ R Hw) as [N|[-> _]]; [by destruct c|done].
Qed.

Lemma commits_full db0 cs fl ts : flag_ok (Known db0) fl (TFull ts) -> length cs = length ts ->
  (forall i c t, cs !! i = Some c -> ts !! i = Some t -> ref_ok c t) ->
  (forall i c t, cs !! i = Some c -> ts !! i = Some t -> rep (Known db0) c t) ->
  (forall i c t, cs !! i = Some c -> ts !! i = Some t -> commits db0 c t) -> commits db0 (fullNode cs fl) (TFull ts).
Proof.
  intros Fl L Rk R C. destruct (flag_cases fl) as [Hu|(h & Eh & Ed)]; cycle 1.
  { eapply commits_clean; try done. cbn. rewrite Eh. by apply bool_decide_eq_true_2. }
  intros db Ho G Ry Hw HUt. rewrite (commit_full _ _ _ Hu). inversion Ry as [| | |? ? ? _ Ry'|]; subst.
  destruct (wf_slots ts Hw) as [L17 Hs].
  destruct (commitEach_ok db0 cs ts 0 db L Ho G) as (ds & db1 & -> & Ho1 & G1 & S1 & K1).
  { intros j c t Hc Ht. apply slotted_child; [by apply Hs|by eauto..| |by eauto]. intros Hj Hn. by eapply u_full. }
  cbn [mbind outcome_bind]. apply (store_ok _ _ _ _ fl); try done; [|apply Fl|].
  - constructor; intros i c Hi Hc Hn; by apply (K1 i).
  - cbn [simplifyNode]. change (mapM _ ds) with (mapM simplifyChild ds). by rewrite S1.
Qed.

Lemma commit_spec db0 n t : rep (Known db0) n t -> commits db0 n t.
Proof.
  induction 1 as [|v|k n fl t Fl Ry Rk R IH|cs fl ts Fl L Ry Rk R IH|t W K].
  - intros db _ _ _ Hw. inversion Hw.
  - intros db _ _ _ Hw. inversion Hw.
  - by apply commits_short.
  - by apply commits_full.
  - by apply commits_hash.
Qed.

Lemma root_cache K n t : rep K n t -> hashed n = true -> exists o d, cache n = Ret (o, d) /\ (d = false -> K t).
Proof.
  intros R Hh. destruct R as [| |k n fl t [_ F]|cs fl ts [_ F]|]; try done; do 2 eexists; (split; [reflexivity|]); [| |done];
    intros E; specialize (F E); cbn in Hh; apply bool_decide_eq_true in Hh as [h Hh]; by rewrite Hh in F.
Qed.

Lemma Trie_Commit_spec db t tr : good db -> rep (Known db) (tr_root t) tr -> root_ok (tr_root t) -> wf tr -> U tr ->
  exists t' db', Trie_Commit onleaf t db = Ret (t', db', key tr) /\ good db' /\ grows db db' /\ Known db' tr /\
    rep (Known db') (tr_root t') tr /\ root_ok (tr_root t').
Proof.
  intros Ho R Ro Hw Hu. destruct (Trie_Hash_spec _ t tr R Ro (or_intror Hw)) as (t1 & E1 & R1 & Ro1 & Ry1 & Hh1).
  assert (tr <> TNil) as Hn by (intros ->; inversion Hw). specialize (Hh1 Hn). rewrite (rootOf_wf tr Hw) in E1.
  assert (Trie_Commit onleaf t db = ('(t, rootHash) ← Trie_Hash t;
      '(_, dirty) ← cache (tr_root t);
      if negb dirty then Ret (t, db, rootHash)
      else
        '(h, db) ← commit onleaf (tr_root t) db;
        match h with
        | hashNode _ => Ret (t <| tr_root := h |>, db, rootHash)
        | _ => Panic
        end)) as ->.
  { unfold Trie_Commit. destruct (tr_root t) eqn:Er; try reflexivity. by apply rep_nil_iff in R as [R _]; rewrite R in Hn. }
  rewrite E1. cbn [mbind outcome_bind].
  destruct (commit_spec db _ _ R1 db Ho (grows_refl db) Ry1 Hw Hu) as ([hd db'] & Ec & Ho' & G & Hk & Hc).
  rewrite Hh1 in Hc. destruct Hc as [Eh Hh]. cbn [fst snd] in *. subst hd.
  destruct (root_cache _ _ _ R1 Hh1) as (o & d & -> & Hd). cbn [mbind outcome_bind]. destruct d; cbn [negb].
  - rewrite Ec. cbn [mbind outcome_bind]. do 2 eexists. split; [reflexivity|]. cbn [tr_root setf].
    split_and!; [done..|by constructor|done].
  - exists t1, db. split; [reflexivity|]. split_and!; [done|apply grows_refl|by apply Hd|done..].
Qed.

Lemma commit_reopens db t m : good db -> holds (Known db) t m -> (forall tr, wf tr -> contents tr m -> U tr) ->
  exists t' db' root u, Trie_Commit onleaf t db = Ret (t', db', root) /\ newTrie root db' = Ret (inl u) /\
    good db' /\ grows db db' /\ holds (Known db') t' m /\ holds (Known db') u m /\ reads_all db' t' m /\ reads_all db' u m.
Proof.
  intros Ho (tr & R & Ro & Hw & C) Hu. destruct Hw as [->|Hw].
  - exists t, db, emptyRoot, (mkTrie nilNode 0). apply rep_nil_iff in R as I. pose proof (proj2 I eq_refl) as E.
    assert (holds (Known db) (mkTrie nilNode 0) m) as Hn by (exists TNil; split_and!; [constructor|done|by left|done]).
    assert (holds (Known db) t m) as Ht by (exists TNil; split_and!; [done..|by left|done]).
    split_and!; [unfold Trie_Commit; by rewrite E| |done|apply grows_refl|done|done|apply holds_reads; [apply Ho|done]|apply holds_reads; [apply Ho|done]].
    unfold newTrie. by rewrite (bool_decide_eq_false_2 (emptyRoot <> emptyRoot)), andb_false_r by tauto.
  - destruct (Trie_Commit_spec db t tr Ho R Ro Hw (Hu tr Hw C)) as (t' & db' & E & Ho' & G & K & R' & Ro').
    destruct (newTrie_known db' tr (proj1 Ho') K) as (u & Eu & Ru & Rou).
    assert (holds (Known db') t' m) by (exists tr; split_and!; [done..|by right|done]).
    assert (holds (Known db') u m) by (exists tr; split_and!; [done..|by right|done]).
    exists t', db', (key tr), u. split_and!; [exact E|exact Eu|done..|apply holds_reads; [apply Ho'|done]|apply holds_reads; [apply Ho'|done]].
Qed.

End Commit.

(** ** Reopening *)

Section Reopen.
Context `{Crypto} (U : tree -> Prop) (HU : universe U).
Context (onleaf : bytes -> Hash -> Database -> outcome Database).
Context (Hleaf : forall v h db, db_ok U db -> is_Some (db_dirties db !! h) ->
  exists db', onleaf v h db = Ret db' /\ db_ok U db' /\ grows db db').

(** C25: Commit then reopen: committing a trie never panics; it leaves the trie
    and the database holding the same map, and a trie opened at the returned
    root over the database holds that map: every key reads back its value and
    no node is missing. *)
Theorem commit_reopen db t m : db_ok U db -> holds (Known U db) t m -> (forall tr, wf tr -> contents tr m -> U tr) ->
  exists t' db' root u, Trie_Commit onleaf t db = Ret (t', db', root) /\ newTrie root db' = Ret (inl u) /\
    db_ok U db' /\ grows db db' /\ holds (Known U db') t' m /\ holds (Known U db') u m /\ reads_all db' t' m /\ reads_all db' u m.
Proof.
  intros Ho Hh Hu.
  destruct (commit_reopens U HU (fun _ => True) ltac:(done) onleaf) with (db := db) (t := t) (m := m)
    as (t' & db' & root & u & E & En & [Ho' _] & Hrest); [|by split|done..|by exists t', db', root, u].
  intros v h d [Hd _] Hi. destruct (Hleaf v h d Hd Hi) as (d' & ? & ? & ?). by exists d'.
Qed.

End Reopen.

(** ** A universe: the subtrees of a tree *)

Fixpoint subs (t : tree) : list tree :=
  match t with
  | TNil | TVal _ => []
  | TShort _ c => t :: subs c
  | TFull ts => t :: concat (List.map subs ts)
  end.

Fixpoint treeOf (n : node) : tree :=
  match n with
  | nilNode | hashNode _ => TNil
  | valueNode v => TVal v
  | shortNode k c _ => TShort k (treeOf c)
  | fullNode cs _ => TFull (List.map treeOf cs)
  end.

Lemma rep_treeOf `{Crypto} n t : rep (fun _ => False) n t -> t = treeOf n.
Proof.
  induction 1 as [|v|k n fl t Fl Ry Rk R IH|cs fl ts Fl L Ry Rk R IH|t W K]; cbn; [done..|by rewrite IH| |done].
  f_equal. apply list_eq. intros i. change (List.map treeOf cs) with (treeOf <$> cs). rewrite list_lookup_fmap.
  destruct (cs !! i) as [c|] eqn:Ec, (ts !! i) as [t|] eqn:Et; cbn; [by rewrite (IH i c t)|..|done].
  - apply lookup_lt_Some in Ec. apply lookup_ge_None in Et. lia.
  - apply lookup_lt_Some in Et. apply lookup_ge_None in Ec. lia.
Qed.

Lemma subs_self t : wf t -> t ∈ subs t.
Proof. destruct 1; cbn; left. Qed.

Lemma elem_concat {A} (x : A) l : x ∈ concat l <-> exists y, x ∈ y /\ y ∈ l.
Proof. rewrite list_elem_of_In, in_concat. split; intros (y & ? & ?); exists y; rewrite ?list_elem_of_In in *; done. Qed.

Lemma subs_closed t u : wf t -> u ∈ subs t -> wf u /\ forall v, v ∈ subs u -> v ∈ subs t.
Proof.
  induction 1 as [k v Hk Hv|k ts Hn Hk Hw IH|ts i j a b L Hij Hi Hj Ha Hb Hl Hc IH]; cbn [subs]; intros [->|Hu]%elem_of_cons.
  - split; [by constructor|done].
  - cbn in Hu. by apply elem_of_nil in Hu.
  - split; [by constructor|done].
  - destruct (IH Hu) as [Hw' Hv]. split; [done|]. intros v Hvu. right. by apply Hv.
  - split; [by eapply wf_branch|done].
  - apply elem_concat in Hu as (l & Hu & Hl'). change (List.map subs ts) with (subs <$> ts) in Hl'.
    apply list_elem_of_fmap in Hl' as (c & -> & Hin). apply list_elem_of_lookup in Hin as [m Hm].
    pose proof (lookup_lt_Some _ _ _ Hm). destruct (decide (m = 16%nat)) as [->|Hne].
    { destruct (Hl _ Hm) as [->|(v & -> & _)]; by apply elem_of_nil in Hu. }
    destruct (IH m c) as [Hw' Hv]; [lia|done|by intros ->; apply elem_of_nil in Hu|done|]. split; [done|]. intros v Hvu. right.
    apply elem_concat. exists (subs c). split; [by apply Hv|]. apply list_elem_of_fmap. exists c. split; [done|].
    by eapply list_elem_of_lookup_2.
Qed.

(** The subtrees form a universe if their hashes differ. *)
Lemma subs_universe `{Crypto} t : wf t ->
  Forall (fun u => value_ok (collapse u) /\ Z.of_nat (length (encodeOrNothing (collapse u))) < two64 /\
    BytesToHash (hashBytes u) <> 0 /\ BytesToHash (hashBytes u) <> emptyRoot) (subs t) ->
  NoDup (hashBytes <$> subs t) -> universe (fun u => u ∈ subs t).
Proof.
  intros Hw Hf Hd. rewrite Forall_forall in Hf. assert (forall u v, u ∈ subs t -> v ∈ subs u -> v ∈ subs t) as Ht.
  { intros u v Hu. by apply (subs_closed t u Hw Hu). }
  constructor.
  - intros u Hu. by apply (subs_closed t u Hw Hu).
  - intros k ts Hu. apply (Ht _ _ Hu). cbn. right. left.
  - intros ts i c Hu Hi Hc Hn. apply (Ht _ _ Hu). cbn. right. apply elem_concat. exists (subs c).
    destruct (subs_closed t _ Hw Hu) as [Hwf _]. apply wf_slots in Hwf as [_ Hs].
    split; [apply subs_self; destruct (Hs i c Hc) as [?|[[? _]|[_ ?]]]; [done|lia|done]|].
    apply list_elem_of_fmap. exists c. split; [done|]. by eapply list_elem_of_lookup_2.
  - intros u Hu. destruct (Hf u Hu) as (? & ? & _). done.
  - intros u v [i Hi]%list_elem_of_lookup [j Hj]%list_elem_of_lookup E.
    assert (i = j) as ->; [|congruence]. apply (NoDup_lookup _ _ _ (hashBytes u) Hd); rewrite list_lookup_fmap; [by rewrite Hi|by rewrite Hj, E].
  - intros u Hu. destruct (Hf u Hu) as (_ & _ & ? & ?). done.
Qed.

(** The condition on the subtrees, decided. *)
Fixpoint bytesOnly (v : value) : bool :=
  match v with VBytes b => bool_decide (bytes_ok b) | VList l => forallb bytesOnly l | _ => false end.

Lemma bytesOnly_ok v : bytesOnly v = true -> value_ok v.
Proof.
  revert v. fix IH 1. intros [i|b|i|b|b|k|b|l]; cbn [bytesOnly]; try done; [apply bool_decide_eq_true|].
  intros E. apply value_ok_list. induction l as [|v l IHl]; [constructor|]. cbn [forallb] in E.
  apply andb_true_iff in E as [E1 E2]. constructor; [by apply IH|by apply IHl].
Qed.

Definition subOk `{Crypto} (u : tree) : bool :=
  let h := BytesToHash (hashBytes u) in
  bytesOnly (collapse u) && (Z.of_nat (length (encodeOrNothing (collapse u))) <? two64) && negb (h =? 0) && negb (h =? emptyRoot).

Lemma subOk_ok `{Crypto} l : forallb subOk l = true ->
  Forall (fun u => value_ok (collapse u) /\ Z.of_nat (length (encodeOrNothing (collapse u))) < two64 /\
    BytesToHash (hashBytes u) <> 0 /\ BytesToHash (hashBytes u) <> emptyRoot) l.
Proof.
  intros E. apply Forall_forall. intros u Hu. rewrite forallb_forall in E. apply list_elem_of_In in Hu. specialize (E u Hu).
  unfold subOk in E. rewrite !andb_true_iff, !negb_true_iff in E. destruct E as [[[E1 E2] E3] E4].
  split; [by apply bytesOnly_ok|]. split; [by apply Z.ltb_lt|]. split; by apply Z.eqb_neq.
Qed.

Definition leafValue (x : Z) : bytes := replicate 40 x.
Definition twoLeaves : tree :=
  TFull ([TNil; TShort [2; 16] (TVal (leafValue 5)); TShort [2; 16] (TVal (leafValue 6))] ++ replicate 14 TNil).

Lemma twoLeaves_universe : wf twoLeaves -> @universe toyCrypto (fun u => u ∈ subs twoLeaves).
Proof.
  intros Hw. apply (@subs_universe toyCrypto _ Hw).
  - apply subOk_ok. vm_compute. reflexivity.
  - apply (bool_decide_eq_true_1 _). vm_compute. reflexivity.
Qed.

Lemma empty_db_ok `{Crypto} U : universe U -> db_ok U (NewDatabase ∅).
Proof.
  intros HU. split.
  - intros t e Hu He. destruct (u_root U HU t Hu) as [Hn _]. cbn [NewDatabase db_dirties] in He.
    rewrite lookup_singleton_ne in He by (by symmetry). discriminate.
  - intros t b _ Hb. cbn [NewDatabase db_disk] in Hb. rewrite lookup_empty in Hb. discriminate.
  - cbn [NewDatabase db_oldest]. done.
Qed.

Lemma commit_reopen_witness :
  (let C := toyCrypto in let onleaf := fun _ _ db => Ret db in
   exists t rs t' db' root u, trieRun noNodes 12 (mkTrie nilNode 0) [OpUpdate [0x12] (leafValue 5); OpUpdate [0x22] (leafValue 6)] = Ret (t, rs) /\
     Trie_Commit onleaf t (NewDatabase ∅) = Ret (t', db', root) /\ newTrie root db' = Ret (inl u) /\
     exists u', TryGet (db_node db') 12 u [0x22] = Ret (u', Some (leafValue 6), None))%Z.
Proof.
  intros C onleaf.
  destruct (@trieRun_agrees C (fun _ => False) noNodes ltac:(by intros ? ? []) 12 (mkTrie nilNode 0) ∅ [OpUpdate [0x12] (leafValue 5); OpUpdate [0x22] (leafValue 6)])
    as (t & rs & m & Et & At & Ht); [apply holds_empty|repeat constructor; cbn; unfold is_byte; try lia|].
  assert (rs = [inl None; inl None]) as -> by (vm_compute in Et; congruence).
  assert (m !! [0x22] = Some (leafValue 6)) as Hm by (destruct At as (_ & _ & <-); vm_compute; reflexivity).
  destruct Ht as (tr & R & Ro & Hw & Hc). assert (tr = twoLeaves) as ->.
  { rewrite (rep_treeOf _ _ R). vm_compute in Et. injection Et as <-. vm_compute. reflexivity. }
  assert (wf twoLeaves) as Hwf by (destruct Hw as [Hw|Hw]; [discriminate|exact Hw]).
  pose proof (twoLeaves_universe Hwf) as HU. pose proof (@empty_db_ok C _ HU) as Ho.
  destruct (@commit_reopen C _ HU onleaf) with (db := NewDatabase ∅) (t := t) (m := m) as (t' & db' & root & u & E1 & E2 & _ & _ & _ & _ & _ & E3).
  - intros v h db Hdb _. exists db. split_and!; [reflexivity|exact Hdb|apply grows_refl].
  - exact Ho.
  - exists twoLeaves. split_and!; [|exact Ro|exact Hw|exact Hc]. eapply rep_mono; [|exact R]. by intros ? [].
  - intros tr' Hw' Hc'. rewrite (contents_unique tr' twoLeaves m (or_intror Hw') Hw Hc' Hc). by apply subs_self.
  - exists t, [inl None; inl None], t', db', root, u. split; [exact Et|]. split; [exact E1|]. split; [exact E2|].
    destruct (E3 12%nat [0x22]) as [u' E]; [split; [repeat constructor; unfold is_byte; lia|cbn; lia]|].
    exists u'. rewrite <- Hm. exact E.
Defined.
