(* ===== verification/TrieGC.v ===== *)
(** * Garbage collection of the trie database (trie/database.go)

    Nodes in memory count the references to them, from other nodes in memory
    and from the roots in use.  [Dereference] drops a root and every node that
    is left without references, [Cap] moves the oldest nodes to disk and
    [Commit] moves a whole trie.  Writes to disk succeed; preimages, metrics
    and the clean cache are left out.  When a batch of writes is full is a
    parameter.  The traversals follow references and take fuel; running out
    counts as a panic. *)

From S2P Require Import Prelude Rlp RlpRaw Transaction Trie TrieMap TrieRefine TrieHash TrieKeys TrieStore TrieDecode TrieCommit.

Definition cachedNodeSize : Z := 96.
Definition cachedNodeChildrenSize : Z := 48.
(** A counted reference: a hash and a uint16. *)
Definition refSize : Z := Z.of_nat HashLength + 2.

(** ** Operations *)

Definition reference (child parent : Hash) (db : Database) : outcome Database :=
  match db_dirties db !! child with
  | None => Ret db
  | Some _ =>
      match db_dirties db !! parent with
      | None => Panic
      | Some p =>
          let cs := default ∅ (cn_children p) in
          let size := match cn_children p with Some _ => 0 | None => cachedNodeChildrenSize end in
          if bool_decide (is_Some (cs !! child)) && negb (parent =? 0) then Ret db
          else
            let n := u16 (default 0 (cs !! child) + 1) in
            let d := <[parent := p <| cn_children := Some (<[child := n]> cs) |>]> (db_dirties db) in
            Ret (db <| db_dirties := addParent d child |>
                    <| db_childrenSize := db_childrenSize db + size + (if n =? 1 then refSize else 0) |>)
      end
  end.

(** The reference itself is dropped. *)
Definition dropRef (child parent : Hash) (db : Database) : outcome Database :=
  match db_dirties db !! parent with
  | None => Panic
  | Some p =>
      match cn_children p with
      | Some m =>
          let n := default 0 (m !! child) in
          if 0 <? n then
            if n - 1 =? 0 then
              Ret (db <| db_dirties := <[parent := p <| cn_children := Some (base.delete child m) |>]> (db_dirties db) |>
                      <| db_childrenSize := db_childrenSize db - refSize |>)
            else Ret (db <| db_dirties := <[parent := p <| cn_children := Some (<[child := n - 1]> m) |>]> (db_dirties db) |>)
          else Ret db
      | None => Ret db
      end
  end.

Definition setFlush (f : cachedNode -> cachedNode) (h : Hash) (d : gmap Hash cachedNode) : outcome (gmap Hash cachedNode) :=
  match d !! h with Some e => Ret (<[h := f e]> d) | None => Panic end.

(** A node is taken out of the flush list. *)
Definition unlink (hash : Hash) (n : cachedNode) (db : Database) : outcome Database :=
  if hash =? db_oldest db then
    d ← setFlush (fun e => e <| cn_flushPrev := 0 |>) (cn_flushNext n) (db_dirties db);
    Ret (db <| db_oldest := cn_flushNext n |> <| db_dirties := d |>)
  else if hash =? db_newest db then
    d ← setFlush (fun e => e <| cn_flushNext := 0 |>) (cn_flushPrev n) (db_dirties db);
    Ret (db <| db_newest := cn_flushPrev n |> <| db_dirties := d |>)
  else
    d ← setFlush (fun e => e <| cn_flushNext := cn_flushNext n |>) (cn_flushPrev n) (db_dirties db);
    d ← setFlush (fun e => e <| cn_flushPrev := cn_flushPrev n |>) (cn_flushNext n) d;
    Ret (db <| db_dirties := d |>).

Fixpoint dereference (fuel : nat) (child parent : Hash) (db : Database) : outcome Database :=
  match fuel with
  | O => Panic
  | S fuel =>
      db ← dropRef child parent db;
      match db_dirties db !! child with
      | None => Ret db
      | Some n =>
          let n := if 0 <? cn_parents n then n <| cn_parents := cn_parents n - 1 |> else n in
          let db := db <| db_dirties := <[child := n]> (db_dirties db) |> in
          if cn_parents n =? 0 then
            db ← unlink child n db;
            db ← foldM (fun db h => dereference fuel h child db) db (forChilds n);
            Ret (db <| db_dirties := base.delete child (db_dirties db) |>
                    <| db_dirtiesSize := db_dirtiesSize db - (Z.of_nat HashLength + cn_size n) |>
                    <| db_childrenSize := db_childrenSize db - (match cn_children n with Some _ => cachedNodeChildrenSize | None => 0 end) |>)
          else Ret db
      end
  end.

Definition Dereference (fuel : nat) (root : Hash) (db : Database) : outcome Database :=
  if root =? 0 then Ret db else dereference fuel root 0 db.

(** cachedNode.rlp *)
Definition cn_rlp (n : cachedNode) : outcome bytes :=
  match EncodeToBytes (rlpRaw (cn_node n)) with Some b => Ret b | None => Panic end.

Abbreviation writes := (list (Hash * bytes)).

Definition writeAll (w : writes) (disk : gmap Hash bytes) : gmap Hash bytes :=
  fold_left (fun d '(h, b) => <[h := b]> d) w disk.

Definition childrenBytes (n : cachedNode) : Z :=
  match cn_children n with Some m => cachedNodeChildrenSize + Z.of_nat (base.size m) * refSize | None => 0 end.

(** The nodes to flush, from [oldest] on, until [size] is within the limit. *)
Fixpoint capLoop (fuel : nat) (db : Database) (size limit : Z) (oldest : Hash) : outcome (writes * Hash) :=
  if (limit <? size) && negb (oldest =? 0) then
    match fuel with
    | O => Panic
    | S fuel =>
        match db_dirties db !! oldest with
        | None => Panic
        | Some n =>
            b ← cn_rlp n;
            '(w, next) ← capLoop fuel db (size - (Z.of_nat HashLength + cn_size n + cachedNodeSize) - childrenBytes n) limit (cn_flushNext n);
            Ret ((oldest, b) :: w, next)
        end
    end
  else Ret ([], oldest).

Fixpoint uncacheUntil (fuel : nat) (oldest : Hash) (db : Database) : outcome Database :=
  if db_oldest db =? oldest then Ret db
  else match fuel with
       | O => Panic
       | S fuel =>
           match db_dirties db !! db_oldest db with
           | None => Panic
           | Some n =>
               uncacheUntil fuel oldest
                 (db <| db_dirties := base.delete (db_oldest db) (db_dirties db) |> <| db_oldest := cn_flushNext n |>
                     <| db_dirtiesSize := db_dirtiesSize db - (Z.of_nat HashLength + cn_size n) |>
                     <| db_childrenSize := db_childrenSize db - childrenBytes n |>)
           end
       end.

Definition Cap (limit : Z) (db : Database) : outcome Database :=
  match db_dirties db !! 0 with
  | None => Panic
  | Some meta =>
      let nodes := base.size (db_dirties db) in
      let size := db_dirtiesSize db + (Z.of_nat nodes - 1) * cachedNodeSize
                  + (db_childrenSize db - Z.of_nat (base.size (default ∅ (cn_children meta))) * refSize) in
      '(w, oldest) ← capLoop nodes db size limit (db_oldest db);
      let db := db <| db_disk := writeAll w (db_disk db) |> in
      db ← uncacheUntil nodes oldest db;
      if db_oldest db =? 0 then Ret db
      else
        d ← setFlush (fun e => e <| cn_flushPrev := 0 |>) (db_oldest db) (db_dirties db);
        Ret (db <| db_dirties := d |>)
  end.

(** cleaner.Put: a node that was written is dropped from memory. *)
Definition cleanerPut (db : Database) (w : Hash * bytes) : outcome Database :=
  let hash := w.1 in
  match db_dirties db !! hash with
  | None => Ret db
  | Some n =>
      db ← unlink hash n db;
      Ret (db <| db_dirties := base.delete hash (db_dirties db) |>
              <| db_dirtiesSize := db_dirtiesSize db - (Z.of_nat HashLength + cn_size n) - childrenBytes n |>)
  end.

(** The batch is written and replayed into the cleaner. *)
Definition flushBatch (db : Database) (batch : writes) : outcome Database :=
  foldM cleanerPut (db <| db_disk := writeAll batch (db_disk db) |>) batch.

Section DatabaseCommit.
(** Whether the batch has reached the ideal size. *)
Context (full : writes -> bool).

Fixpoint db_commit (fuel : nat) (s : Database * writes) (hash : Hash) : outcome (Database * writes) :=
  match fuel with
  | O => Panic
  | S fuel =>
      match db_dirties s.1 !! hash with
      | None => Ret s
      | Some n =>
          '(db, batch) ← foldM (db_commit fuel) s (forChilds n);
          b ← cn_rlp n;
          let batch := batch ++ [(hash, b)] in
          if full batch then db ← flushBatch db batch; Ret (db, []) else Ret (db, batch)
      end
  end.

Definition Commit (fuel : nat) (hash : Hash) (db : Database) : outcome Database :=
  '(db, batch) ← db_commit fuel (db, []) hash;
  flushBatch db batch.

End DatabaseCommit.

(** ** The flush list *)

(** [L] lists the cached nodes from the oldest to the newest. *)
Definition links (d : gmap Hash cachedNode) (L : list Hash) : Prop :=
  forall i h, L !! i = Some h -> exists n, d !! h = Some n /\ cn_flushNext n = default 0 (L !! S i) /\
    forall j, i = S j -> L !! j = Some (cn_flushPrev n).

Record glist (db : Database) (L : list Hash) : Prop := {
  gl_nodup : NoDup L;
  gl_nz : 0 ∉ L;
  gl_links : links (db_dirties db) L;
  gl_oldest : db_oldest db = default 0 (L !! 0%nat);
  gl_newest i h : L !! i = Some h -> L !! S i = None -> h = db_newest db;
  gl_meta : is_Some (db_dirties db !! 0)
}.

(** What the counting looks at. *)
Definition core (n : cachedNode) : rawnode * option (gmap Hash Z) * Z := (cn_node n, cn_children n, cn_parents n).
Definition flush (n : cachedNode) : Hash * Hash := (cn_flushPrev n, cn_flushNext n).

Lemma fmap_same {A B} (f : A -> B) (x y : option A) a : f <$> x = f <$> y -> x = Some a -> exists b, y = Some b /\ f b = f a.
Proof. intros E ->. destruct y; [|done]. injection E as E. by eexists. Qed.

Lemma links_frame d d' L : (forall h, h ∈ L -> flush <$> d !! h = flush <$> d' !! h) -> links d L -> links d' L.
Proof.
  intros S Hl i h Hi. destruct (Hl i h Hi) as (n & Hn & Hx & Hp).
  destruct (fmap_same _ _ _ _ (S h (list_elem_of_lookup_2 _ _ _ Hi)) Hn) as (n' & Hn' & [= Ep Ex]).
  exists n'. split; [done|]. by rewrite Ep, Ex.
Qed.

Lemma glist_frame db db' L : (forall h, h ∈ L -> flush <$> db_dirties db !! h = flush <$> db_dirties db' !! h) ->
  is_Some (db_dirties db' !! 0) -> db_oldest db' = db_oldest db -> db_newest db' = db_newest db -> glist db L -> glist db' L.
Proof.
  intros S Hm Eo En [N Z K O W M]. split; [done..|by eapply links_frame|by rewrite Eo|rewrite En; exact W|done].
Qed.

(** Neighbours of a removed node point past it. *)
Lemma links_delete d d' L i h n : links d L -> L !! i = Some h -> d !! h = Some n ->
  (forall j x nx, L !! j = Some x -> j <> i -> d !! x = Some nx -> exists nx', d' !! x = Some nx' /\
    cn_flushNext nx' = (if decide (S j = i) then cn_flushNext n else cn_flushNext nx) /\
    (j <> 0%nat -> cn_flushPrev nx' = if decide (j = S i) then (if decide (i = 0%nat) then cn_flushPrev nx' else cn_flushPrev n) else cn_flushPrev nx)) ->
  links d' (base.delete i L).
Proof.
  intros Hl Hi Hn Hd j x Hj. pose proof (Hl i h Hi) as (n0 & Hn0 & Hx & Hp). assert (n0 = n) as -> by congruence.
  destruct (decide (j < i)%nat) as [Hlt|Hge].
  - rewrite list_lookup_delete_lt in Hj by done. destruct (Hl j x Hj) as (nx & Hnx & Ex & Ep).
    destruct (Hd j x nx Hj) as (nx' & Hnx' & Ex' & Ep'); [lia|done|]. exists nx'. split; [done|]. split.
    + rewrite Ex'. destruct (decide (S j = i)) as [<-|E]; [rewrite Hx, list_lookup_delete_ge by lia; done|].
      rewrite Ex. rewrite list_lookup_delete_lt by lia. done.
    + intros k ->. rewrite list_lookup_delete_lt by lia. rewrite Ep' by lia. rewrite decide_False by lia. by apply Ep.
  - rewrite list_lookup_delete_ge in Hj by lia. destruct (Hl (S j) x Hj) as (nx & Hnx & Ex & Ep).
    destruct (Hd (S j) x nx Hj) as (nx' & Hnx' & Ex' & Ep'); [lia|done|]. exists nx'. split; [done|]. split.
    + rewrite Ex'. rewrite decide_False by lia. rewrite Ex. rewrite list_lookup_delete_ge by lia. done.
    + intros k ->. rewrite Ep' by lia. destruct (decide (S k = i)) as [<-|Hne].
      * rewrite decide_True, decide_False by lia. rewrite list_lookup_delete_lt by lia. by apply Hp.
      * rewrite decide_False by lia. rewrite list_lookup_delete_ge by lia. by apply Ep.
Qed.

Definition same_core (d d' : gmap Hash cachedNode) : Prop := forall k, core <$> d !! k = core <$> d' !! k.

Lemma setFlush_core f h d e : (forall n, core (f n) = core n) -> d !! h = Some e ->
  setFlush f h d = Ret (<[h := f e]> d) /\ same_core d (<[h := f e]> d).
Proof.
  intros Hf Hh. unfold setFlush. rewrite Hh. split; [done|]. intros k. destruct (decide (h = k)) as [<-|Hne].
  - rewrite lookup_insert_eq, Hh. cbn. by rewrite Hf.
  - by rewrite lookup_insert_ne.
Qed.

Lemma same_core_meta d d' h : same_core d d' -> is_Some (d !! h) -> is_Some (d' !! h).
Proof. intros S [n Hn]. destruct (fmap_same _ _ _ _ (S h) Hn) as (n' & -> & _). by eexists. Qed.

(** The cases of [unlink]. *)
Lemma unlink_first db L h n : glist db L -> L !! 0%nat = Some h -> db_dirties db !! h = Some n ->
  exists db', unlink h n db = Ret db' /\ glist db' (base.delete 0%nat L) /\ same_core (db_dirties db) (db_dirties db') /\ db_disk db' = db_disk db.
Proof.
  intros [N Nz K O W M] Hi Hn. unfold unlink. rewrite O, Hi. cbn [from_option id]. rewrite Z.eqb_refl.
  destruct (K 0%nat h Hi) as (n0 & Hn0 & Ex & _). assert (n0 = n) as -> by congruence.
  assert (exists e, db_dirties db !! cn_flushNext n = Some e) as [e He].
  { rewrite Ex. destruct (L !! 1%nat) as [q|] eqn:E1; cbn [from_option id]; [|done]. destruct (K _ _ E1) as (e & He & _). by exists e. }
  destruct (setFlush_core (fun e => e <| cn_flushPrev := 0 |>) (cn_flushNext n) (db_dirties db) e) as [-> S]; [done..|].
  cbn [mbind outcome_bind]. eexists. split; [done|]. split; [|by split]. split; cbn [db_dirties db_oldest db_newest setf].
  - eapply sublist_NoDup; [done|apply sublist_delete].
  - by intros ?%list_elem_of_delete_inv.
  - apply (links_delete _ _ L 0 h n K Hi Hn). intros j x nx Hj Hne Hx. destruct (decide (x = cn_flushNext n)) as [->|Hq].
    + rewrite lookup_insert_eq. eexists. split; [done|]. cbn [cn_flushNext cn_flushPrev setf]. rewrite decide_False by lia. split; [congruence|].
      intros _. rewrite Ex in Hx, Hj. destruct (L !! 1%nat) as [q|] eqn:E1; cbn [from_option id] in Hj.
      * pose proof (NoDup_lookup _ _ _ _ N Hj E1) as ->. by rewrite !decide_True by done.
      * exfalso. apply Nz. by eapply list_elem_of_lookup_2.
    + rewrite lookup_insert_ne by done. exists nx. split; [done|]. rewrite decide_False by lia. split; [done|]. intros Hj0.
      rewrite decide_False; [done|]. intros ->. rewrite Ex, Hj in Hq. done.
  - rewrite Ex, list_lookup_delete_ge by lia. done.
  - intros i x. rewrite !list_lookup_delete_ge by lia. apply W.
  - by eapply same_core_meta.
Qed.

Lemma unlink_last db L i h n : glist db L -> L !! S i = Some h -> L !! S (S i) = None -> db_dirties db !! h = Some n ->
  exists db', unlink h n db = Ret db' /\ glist db' (base.delete (S i) L) /\ same_core (db_dirties db) (db_dirties db') /\ db_disk db' = db_disk db.
Proof.
  intros [N Nz K O W M] Hi Hl Hn. unfold unlink. pose proof (W _ _ Hi Hl) as Ew.
  destruct (K (S i) h Hi) as (n0 & Hn0 & Ex & Ep). assert (n0 = n) as -> by congruence. specialize (Ep i eq_refl).
  rewrite Hl in Ex. cbn [from_option id] in Ex.
  assert (h <> db_oldest db) as Ho.
  { rewrite O. destruct (L !! 0%nat) as [x|] eqn:E0; cbn [from_option id]; intros ->.
    - pose proof (NoDup_lookup _ _ _ _ N Hi E0). lia.
    - apply Nz. by eapply list_elem_of_lookup_2. }
  rewrite (proj2 (Z.eqb_neq _ _) Ho), (proj2 (Z.eqb_eq _ _) Ew).
  destruct (K _ _ Ep) as (e & He & _).
  destruct (setFlush_core (fun e => e <| cn_flushNext := 0 |>) (cn_flushPrev n) (db_dirties db) e) as [-> S]; [done..|].
  cbn [mbind outcome_bind]. eexists. split; [done|]. split; [|by split]. split; cbn [db_dirties db_oldest db_newest setf].
  - eapply sublist_NoDup; [done|apply sublist_delete].
  - by intros ?%list_elem_of_delete_inv.
  - apply (links_delete _ _ L (Datatypes.S i) h n K Hi Hn). intros j x nx Hj Hne Hx. destruct (decide (x = cn_flushPrev n)) as [->|Hq].
    + pose proof (NoDup_lookup _ _ _ _ N Hj Ep) as ->. rewrite lookup_insert_eq. eexists. split; [done|].
      cbn [cn_flushNext cn_flushPrev setf]. rewrite decide_True by done. split; [done|].
      intros _. rewrite decide_False by lia. congruence.
    + rewrite lookup_insert_ne by done. exists nx. split; [done|]. rewrite decide_False by (intros [= ->]; congruence). split; [done|].
      intros _. rewrite decide_False; [done|]. intros ->. congruence.
  - rewrite list_lookup_delete_lt by lia. exact O.
  - intros j x Hj Hj'. destruct (decide (j < Datatypes.S i)%nat) as [Hlt|Hge].
    + rewrite list_lookup_delete_lt in Hj by done. destruct (decide (j = i)) as [->|Hji]; [congruence|].
      rewrite list_lookup_delete_lt in Hj' by lia. apply lookup_ge_None in Hj'. apply lookup_lt_Some in Ep. lia.
    + rewrite list_lookup_delete_ge in Hj by lia. apply lookup_lt_Some in Hj. apply lookup_ge_None in Hl. lia.
  - by eapply same_core_meta.
Qed.

Lemma unlink_middle db L i h q n : glist db L -> L !! S i = Some h -> L !! S (S i) = Some q -> db_dirties db !! h = Some n ->
  exists db', unlink h n db = Ret db' /\ glist db' (base.delete (S i) L) /\ same_core (db_dirties db) (db_dirties db') /\ db_disk db' = db_disk db.
Proof.
  intros [N Nz K O W M] Hi Hq Hn. unfold unlink.
  destruct (K (S i) h Hi) as (n0 & Hn0 & Ex & Ep). assert (n0 = n) as -> by congruence. specialize (Ep i eq_refl).
  rewrite Hq in Ex. cbn [from_option id] in Ex. set (p := cn_flushPrev n) in *.
  assert (forall j x, L !! j = Some x -> j <> S i -> x <> h) as Hdiff by (intros j x Hj Hne ->; by pose proof (NoDup_lookup _ _ _ _ N Hi Hj)).
  assert (h <> db_oldest db) as Ho.
  { rewrite O. destruct (L !! 0%nat) as [x|] eqn:E0; cbn [from_option id]; intros ->.
    - by apply (Hdiff 0%nat x).
    - apply Nz. by eapply list_elem_of_lookup_2. }
  assert (h <> db_newest db) as Hw.
  { destruct (lookup_lt_is_Some_2 L (length L - 1)) as [x Hx]; [apply lookup_lt_Some in Hi; lia|].
    rewrite <- (W _ _ Hx) by (apply lookup_ge_None; apply lookup_lt_Some in Hi; lia). intros ->. apply (Hdiff _ _ Hx); [|done].
    apply lookup_lt_Some in Hq. lia. }
  rewrite (proj2 (Z.eqb_neq _ _) Ho), (proj2 (Z.eqb_neq _ _) Hw).
  destruct (K _ _ Ep) as (e & He & _), (K _ _ Hq) as (g & Hg & _).
  assert (p <> q) as Hpq by (intros E; rewrite E in Ep; pose proof (NoDup_lookup _ _ _ _ N Ep Hq); lia).
  destruct (setFlush_core (fun e => e <| cn_flushNext := cn_flushNext n |>) p (db_dirties db) e) as [-> S1]; [done..|].
  cbn [mbind outcome_bind]. rewrite Ex.
  destruct (setFlush_core (fun e => e <| cn_flushPrev := p |>) q (<[p := e <| cn_flushNext := q |>]> (db_dirties db)) g) as [-> S2]; [done|by rewrite lookup_insert_ne|].
  assert (same_core (db_dirties db) (<[q := g <| cn_flushPrev := p |>]> (<[p := e <| cn_flushNext := q |>]> (db_dirties db)))) as S12.
  { intros k. rewrite <- S2. rewrite Ex in S1. apply S1. }
  cbn [mbind outcome_bind]. eexists. split; [done|]. split; [|by split]. split; cbn [db_dirties db_oldest db_newest setf].
  - eapply sublist_NoDup; [done|apply sublist_delete].
  - by intros ?%list_elem_of_delete_inv.
  - apply (links_delete _ _ L (S i) h n K Hi Hn). intros j x nx Hj Hne Hx. rewrite Ex. destruct (decide (x = q)) as [->|Hxq].
    { pose proof (NoDup_lookup _ _ _ _ N Hj Hq) as ->. rewrite lookup_insert_eq. eexists. split; [done|].
      cbn [cn_flushNext cn_flushPrev setf]. rewrite decide_False by lia. split; [congruence|]. intros _. by rewrite decide_True, decide_False by lia. }
    rewrite (lookup_insert_ne _ q) by done. destruct (decide (x = p)) as [->|Hxp].
    + pose proof (NoDup_lookup _ _ _ _ N Hj Ep) as ->. rewrite lookup_insert_eq. eexists. split; [done|].
      cbn [cn_flushNext cn_flushPrev setf]. rewrite decide_True by done. split; [done|]. intros _. rewrite decide_False by lia. congruence.
    + rewrite lookup_insert_ne by done. exists nx. split; [done|]. rewrite decide_False by (intros [= ->]; congruence). split; [done|].
      intros _. rewrite decide_False; [done|]. intros ->. congruence.
  - rewrite list_lookup_delete_lt by lia. exact O.
  - intros j x. destruct (decide (j < S i)%nat) as [Hlt|Hge].
    + rewrite list_lookup_delete_lt by done. destruct (decide (j = i)) as [->|Hji].
      * rewrite list_lookup_delete_ge by lia. congruence.
      * rewrite list_lookup_delete_lt by lia. apply W.
    + rewrite !list_lookup_delete_ge by lia. apply W.
  - by eapply same_core_meta.
Qed.

Lemma unlink_ok db L i h n : glist db L -> L !! i = Some h -> db_dirties db !! h = Some n ->
  exists db', unlink h n db = Ret db' /\ glist db' (base.delete i L) /\ same_core (db_dirties db) (db_dirties db') /\ db_disk db' = db_disk db.
Proof.
  intros Hg Hi Hn. destruct i as [|i]; [by apply unlink_first|]. destruct (L !! S (S i)) as [q|] eqn:E; [by eapply unlink_middle|by apply unlink_last].
Qed.

(** ** Counting references *)

Abbreviation cnt l h := (count_occ Z.eq_dec l h).

Definition childsOf (d : gmap Hash cachedNode) (p : Hash) : list Hash :=
  match d !! p with Some n => forChilds n | None => [] end.

(** How often the nodes of [L] refer to [h]. *)
Definition refs (d : gmap Hash cachedNode) (L : list Hash) (h : Hash) : nat :=
  sum_list_with (fun p => cnt (childsOf d p) h) L.

Lemma forChilds_core n n' : core n = core n' -> forChilds n = forChilds n'.
Proof. unfold core, forChilds. by intros [= -> -> _]. Qed.

Lemma childsOf_core d d' p : core <$> d !! p = core <$> d' !! p -> childsOf d p = childsOf d' p.
Proof.
  unfold childsOf. intros E. destruct (d !! p), (d' !! p); try done. injection E as E1 E2 E3. apply forChilds_core. unfold core. congruence.
Qed.

Lemma refs_ext d d' L h : (forall p, p ∈ L -> childsOf d p = childsOf d' p) -> refs d L h = refs d' L h.
Proof.
  unfold refs. induction L as [|p L IH]; intros E; [done|]. cbn. rewrite (E p) by left. rewrite IH; [done|]. intros q Hq. apply E. by right.
Qed.

Lemma refs_cons d p L h : refs d (p :: L) h = (cnt (childsOf d p) h + refs d L h)%nat.
Proof. reflexivity. Qed.

Lemma refs_app d L1 L2 h : refs d (L1 ++ L2) h = (refs d L1 h + refs d L2 h)%nat.
Proof. apply sum_list_with_app. Qed.

Lemma refs_delete d L i p h : L !! i = Some p -> refs d L h = (refs d (base.delete i L) h + cnt (childsOf d p) h)%nat.
Proof.
  intros Hi. rewrite <- (take_drop_middle L i p Hi) at 1. rewrite delete_take_drop, !refs_app, refs_cons. lia.
Qed.

Lemma refs_pos d L h p : p ∈ L -> h ∈ childsOf d p -> (0 < refs d L h)%nat.
Proof.
  intros [i Hi]%list_elem_of_lookup Hh. rewrite (refs_delete d L i p h Hi). apply list_elem_of_In, (count_occ_In Z.eq_dec) in Hh. lia.
Qed.

Lemma refs_none d L h : (forall p, p ∈ L -> h ∉ childsOf d p) -> refs d L h = 0%nat.
Proof.
  unfold refs. induction L as [|p L IH]; intros E; [done|]. cbn. rewrite IH by (intros q Hq; apply E; by right).
  rewrite (proj1 (count_occ_not_In Z.eq_dec _ _)); [done|]. rewrite <- list_elem_of_In. apply E. left.
Qed.

Section Counting.
(** The node behind a hash, and a rank that decreases along references. *)
Context (Con : Hash -> rawnode -> Prop) (rank : Hash -> nat).

Record graph : Prop := {
  gr_fun h r r' : Con h r -> Con h r' -> r = r';
  gr_nz h r : Con h r -> h <> 0;
  gr_kid h r c : Con h r -> c ∈ gatherChildren r -> c <> 0 /\ (rank c < rank h)%nat;
  gr_enc h r : Con h r -> is_Some (EncodeToBytes (rlpRaw r))
}.
Context (HG : graph).

(** [L] are the nodes in use, [Z] those being removed, whose references [W]
    are still to be dropped; [R] counts the references to roots. *)
Record gcore (disk : gmap Hash bytes) (d : gmap Hash cachedNode) (L Z W : list Hash) (R : Hash -> nat) : Prop := {
  gc_con h n : h ∈ L -> d !! h = Some n -> Con h (cn_node n);
  gc_ext h n c : h ∈ L -> d !! h = Some n -> c ∈ forChilds n -> c <> 0 /\ (rank c < rank h)%nat;
  gc_order i h n c : L !! i = Some h -> d !! h = Some n -> c ∈ forChilds n -> is_Some (disk !! c) \/ exists j, (j < i)%nat /\ L !! j = Some c;
  gc_disk h b : disk !! h = Some b -> exists r, Con h r /\ EncodeToBytes (rlpRaw r) = Some b /\ forall c, c ∈ gatherChildren r -> is_Some (disk !! c);
  gc_rc h n : h ∈ L -> d !! h = Some n -> disk !! h = None -> cn_parents n = u32 (Z.of_nat (refs d L h + R h + cnt W h));
  gc_roots h : (0 < R h)%nat -> is_Some (disk !! h) \/ h ∈ L;
  gc_dom h : is_Some (d !! h) -> h = 0 \/ h ∈ L \/ h ∈ Z;
  gc_zomb z : z ∈ Z -> z ∉ L
}.

Lemma gcore_frame disk d d' L Z W R : (forall h, h ∈ L -> core <$> d !! h = core <$> d' !! h) -> (forall h, is_Some (d' !! h) -> is_Some (d !! h)) ->
  gcore disk d L Z W R -> gcore disk d' L Z W R.
Proof.
  intros S Hd [C X O D Rc Rt Dm Zm].
  assert (forall h n, h ∈ L -> d' !! h = Some n -> exists n', d !! h = Some n' /\ core n' = core n) as HS.
  { intros h n Hh Hn. eapply fmap_same; [symmetry; by apply S|done]. }
  assert (forall h, refs d' L h = refs d L h) as Hrefs.
  { intros h. apply refs_ext. intros p Hp. symmetry. by apply childsOf_core, S. }
  split; try done; [..|by intros h Hh%Hd; apply Dm].
  - intros h n Hh Hn. destruct (HS h n Hh Hn) as (n' & Hn' & E). injection E as <- _ _. by apply C.
  - intros h n c Hh Hn. destruct (HS h n Hh Hn) as (n' & Hn' & E). rewrite <- (forChilds_core _ _ E). by apply X.
  - intros i h n c Hi Hn. destruct (HS h n) as (n' & Hn' & E); [by eapply list_elem_of_lookup_2|done|]. rewrite <- (forChilds_core _ _ E). by eapply O.
  - intros h n Hh Hn. destruct (HS h n Hh Hn) as (n' & Hn' & E). injection E as _ _ <-. rewrite Hrefs. by apply Rc.
Qed.

Lemma same_core_frame disk d d' L Z W R : same_core d d' -> gcore disk d L Z W R -> gcore disk d' L Z W R.
Proof. intros S. apply gcore_frame; [intros h _; apply S|]. intros h Hh. eapply same_core_meta; [|done]. intros k. symmetry. apply S. Qed.

(** References to nodes that are not in use, or on disk, do not count. *)
Lemma gcore_drop disk d L Z W W' R : (forall h, h ∈ L -> disk !! h = None -> cnt W h = cnt W' h) ->
  gcore disk d L Z W R -> gcore disk d L Z W' R.
Proof. intros E [C X O D Rc Rt Dm Zm]. split; try done. intros h n Hh Hn Hd. rewrite <- E by done. by apply Rc. Qed.

Lemma gcore_remove disk d L Z W R i h n : gcore disk d L Z W R -> NoDup L -> L !! i = Some h -> d !! h = Some n ->
  is_Some (disk !! h) \/ (refs d L h = 0 /\ R h = 0)%nat -> gcore disk d (base.delete i L) (h :: Z) (forChilds n ++ W) R.
Proof.
  intros [C X O D Rc Rt Dm Zm] N Hi Hn Hfree.
  assert (forall x, x ∈ base.delete i L -> x ∈ L) as Hsub by (intros x; apply list_elem_of_delete_inv).
  assert (forall j x, L !! j = Some x -> j <> i -> base.delete i L !! (if decide (j < i)%nat then j else (j - 1)%nat) = Some x) as Hkeep.
  { intros j x Hj Hne. case_decide; [by rewrite list_lookup_delete_lt|]. rewrite list_lookup_delete_ge by lia. by replace (S (j - 1)) with j by lia. }
  assert (h ∉ base.delete i L) as Hnot.
  { intros [j Hj]%list_elem_of_lookup. destruct (decide (j < i)%nat).
    - rewrite list_lookup_delete_lt in Hj by done. pose proof (NoDup_lookup _ _ _ _ N Hi Hj). lia.
    - rewrite list_lookup_delete_ge in Hj by lia. pose proof (NoDup_lookup _ _ _ _ N Hi Hj). lia. }
  split; try done; eauto.
  - intros j x nx c Hj Hx Hc. assert (exists k, L !! k = Some x /\ k <> i /\ j = if decide (k < i)%nat then k else (k - 1)%nat) as (k & Hk & Hki & ->).
    { destruct (decide (j < i)%nat).
      - rewrite list_lookup_delete_lt in Hj by done. exists j. rewrite decide_True by done. split_and!; [done|lia|done].
      - rewrite list_lookup_delete_ge in Hj by lia. exists (S j). rewrite decide_False by lia. split_and!; [done|lia|lia]. }
    destruct (O k x nx c Hk Hx Hc) as [Hd|(m & Hm & Hc')]; [by left|]. destruct (decide (m = i)) as [->|Hmi].
    + assert (c = h) as -> by congruence. destruct Hfree as [?|[Hr _]]; [by left|].
      pose proof (refs_pos d L h x) as Hp. unfold childsOf in Hp. rewrite Hx, Hr in Hp. apply list_elem_of_lookup_2 in Hk. specialize (Hp Hk Hc). lia.
    + right. eexists. split; [|by apply (Hkeep m)]. repeat case_decide; lia.
  - intros x nx Hx Hnx Hd. rewrite (Rc x nx) by auto. rewrite (refs_delete d L i h x Hi), count_occ_app. unfold childsOf. rewrite Hn. f_equal. lia.
  - intros x Hx. destruct (Rt x Hx) as [?|[j Hj]%list_elem_of_lookup]; [by left|]. destruct (decide (j = i)) as [->|Hne].
    + assert (x = h) as -> by congruence. destruct Hfree as [?|[_ ?]]; [by left|lia].
    + right. eapply list_elem_of_lookup_2. by apply Hkeep.
  - intros x Hx. destruct (Dm x Hx) as [?|[[j Hj]%list_elem_of_lookup|?]]; [by left| |right; right; by right].
    destruct (decide (j = i)) as [->|Hne]; [assert (x = h) as -> by congruence; right; right; left|]. right. left. eapply list_elem_of_lookup_2. by apply Hkeep.
  - intros z [->|Hz]%elem_of_cons; [done|]. intros Hzl. by apply (Zm z Hz), Hsub.
Qed.

(** A node that was taken out of the list is dropped. *)
Lemma gcore_forget disk d L Z W R h : gcore disk d L (h :: Z) W R -> gcore disk (base.delete h d) L Z W R.
Proof.
  intros G. assert (h ∉ L) as Hh by (apply (gc_zomb _ _ _ _ _ _ G); left).
  assert (gcore disk (base.delete h d) L (h :: Z) W R) as [C X O D Rc Rt Dm Zm].
  { apply (gcore_frame _ d); [|intros x [e [_ ?]%lookup_delete_Some]; by eexists|done].
    intros x Hx. rewrite lookup_delete_ne; [done|]. by intros ->. }
  split; try done.
  - intros x Hx. destruct (Dm x Hx) as [?|[?|[->|?]%elem_of_cons]]; [auto..| |auto]. rewrite lookup_delete_eq in Hx. by destruct Hx.
  - intros z Hz. apply Zm. by right.
Qed.

Definition ginv (db : Database) (L Z W : list Hash) (R : Hash -> nat) : Prop :=
  glist db L /\ gcore (db_disk db) (db_dirties db) L Z W R.

(** The entry of a node that is not in use may change. *)
Lemma ginv_frame db db' L Z W R h e : h ∉ L -> is_Some (db_dirties db !! h) -> db_dirties db' = <[h := e]> (db_dirties db) ->
  db_disk db' = db_disk db -> db_oldest db' = db_oldest db -> db_newest db' = db_newest db -> ginv db L Z W R -> ginv db' L Z W R.
Proof.
  intros Hh Hs Ed Ek Eo En [G C]. assert (forall x, x ∈ L -> db_dirties db !! x = db_dirties db' !! x) as Hx.
  { intros x Hx. rewrite Ed, lookup_insert_ne; [done|]. by intros ->. }
  split.
  - eapply glist_frame; [|..|exact G]; [intros x ?; by rewrite Hx| |done..]. rewrite Ed. apply lookup_insert_is_Some'. right. apply G.
  - rewrite Ek. eapply gcore_frame; [|..|exact C]; [intros x ?; by rewrite Hx|]. intros x. rewrite Ed. intros [->|?]%lookup_insert_is_Some'; done.
Qed.

Lemma dropRef_ok child parent db L Z W R : ginv db L Z W R -> parent ∉ L -> is_Some (db_dirties db !! parent) ->
  exists db', dropRef child parent db = Ret db' /\ ginv db' L Z W R /\ db_disk db' = db_disk db /\
    (forall h, is_Some (db_dirties db !! h) -> is_Some (db_dirties db' !! h)) /\
    (forall h, h ∈ L -> db_dirties db' !! h = db_dirties db !! h).
Proof.
  intros G Hp [p Ep]. unfold dropRef. rewrite Ep.
  assert (forall e cs, let db' := db <| db_dirties := <[parent := e]> (db_dirties db) |> <| db_childrenSize := cs |> in
    ginv db' L Z W R /\ db_disk db' = db_disk db /\ (forall h, is_Some (db_dirties db !! h) -> is_Some (db_dirties db' !! h)) /\
    (forall h, h ∈ L -> db_dirties db' !! h = db_dirties db !! h)) as Hf.
  { intros e cs. cbv zeta. split_and!; [eapply (ginv_frame db); [..|exact G]; try done; by rewrite Ep|done| |].
    - intros h Hh. apply lookup_insert_is_Some'. by right.
    - intros h Hh. apply lookup_insert_ne. by intros ->. }
  destruct (cn_children p) as [m|]; [|by exists db]. destruct (0 <? _); [|by exists db].
  destruct (_ =? 0); eexists; (split; [done|]); [apply Hf|].
  apply (Hf (p <| cn_children := Some (<[child := default 0 (m !! child) - 1]> m) |>) (db_childrenSize db)).
Qed.

(** No counter wraps around. *)
Definition bounded (d : gmap Hash cachedNode) (L W : list Hash) (R : Hash -> nat) : Prop :=
  forall h, Z.of_nat (refs d L h + R h + cnt W h) < 2 ^ 32.

(** Dropping one reference: the counter of the child follows. *)
Lemma gcore_decrement disk d L Z W R child n : gcore disk d L Z (child :: W) R -> bounded d L (child :: W) R -> child ∈ L ->
  d !! child = Some n ->
  let n' := if 0 <? cn_parents n then n <| cn_parents := cn_parents n - 1 |> else n in
  gcore disk (<[child := n']> d) L Z W R /\ (cn_parents n' = 0 -> disk !! child = None -> (refs (<[child := n']> d) L child = 0 /\ R child = 0)%nat).
Proof.
  intros [C X O D Rc Rt Dm Zm] Hb Hc Hn n'.
  assert (cn_node n' = cn_node n /\ forChilds n' = forChilds n) as [En Ef] by (unfold n'; by destruct (0 <? _)).
  assert (disk !! child = None -> cn_parents n' = Z.of_nat (refs d L child + R child + cnt W child)) as Hp.
  { intros Hd. pose proof (Rc child n Hc Hn Hd) as E. specialize (Hb child). rewrite count_occ_cons_eq in E, Hb by done.
    unfold u32 in E. rewrite Z.mod_small in E by lia. unfold n'. rewrite (proj2 (Z.ltb_lt _ _)) by lia. cbn [cn_parents setf]. lia. }
  assert (forall h, refs (<[child := n']> d) L h = refs d L h) as Hr.
  { intros h. apply refs_ext. intros p _. unfold childsOf. destruct (decide (child = p)) as [<-|Hne]; [by rewrite lookup_insert_eq, Hn, Ef|by rewrite lookup_insert_ne]. }
  assert (forall h x, <[child := n']> d !! h = Some x -> exists y, d !! h = Some y /\ cn_node x = cn_node y /\ forChilds x = forChilds y) as Hl.
  { intros h x. destruct (decide (child = h)) as [<-|Hne]; [rewrite lookup_insert_eq; intros [= <-]; by exists n|].
    rewrite lookup_insert_ne by done. intros Hx. by exists x. }
  split; [split; try done|].
  - intros h x Hh (y & Hy & -> & _)%Hl. by apply C.
  - intros h x c Hh (y & Hy & _ & ->)%Hl. by apply X.
  - intros i h x c Hi (y & Hy & _ & ->)%Hl. by eapply O.
  - intros h x Hh Hx Hd. rewrite Hr. destruct (decide (child = h)) as [<-|Hne].
    + rewrite lookup_insert_eq in Hx. injection Hx as <-. rewrite Hp by done. specialize (Hb child). rewrite count_occ_cons_eq in Hb by done.
      unfold u32. rewrite Z.mod_small by lia. done.
    + rewrite lookup_insert_ne in Hx by done. rewrite (Rc h x) by done. rewrite count_occ_cons_neq by done. done.
  - intros h [->|Hh]%lookup_insert_is_Some'; [auto|by apply Dm].
  - intros E Hd. specialize (Hp Hd). rewrite Hr. lia.
Qed.

(** What dereferencing does: nodes are removed, and nothing else. *)
Definition collected (db : Database) (L Z W : list Hash) (R : Hash -> nat) (r : outcome Database) : Prop :=
  exists db' L', r = Ret db' /\ ginv db' L' Z W R /\ bounded (db_dirties db') L' W R /\ db_disk db' = db_disk db /\
    (forall x, x ∈ L' -> x ∈ L) /\ (forall h, h ∉ L -> is_Some (db_dirties db !! h) -> is_Some (db_dirties db' !! h)).

Definition derefs (fuel : nat) : Prop := forall child parent db L Z W R,
  ginv db L Z (child :: W) R -> bounded (db_dirties db) L (child :: W) R -> (rank child < fuel)%nat -> parent ∉ L ->
  is_Some (db_dirties db !! parent) -> child <> 0 -> (forall z, z ∈ Z -> (rank child < rank z)%nat) ->
  collected db L Z W R (dereference fuel child parent db).

Lemma deref_children fuel l child : derefs fuel -> forall db L Z W R, ginv db L (child :: Z) (l ++ W) R ->
  bounded (db_dirties db) L (l ++ W) R -> is_Some (db_dirties db !! child) -> (rank child <= fuel)%nat ->
  (forall c, c ∈ l -> c <> 0 /\ (rank c < rank child)%nat) -> (forall z, z ∈ Z -> (rank child < rank z)%nat) ->
  collected db L (child :: Z) W R (foldM (fun db h => dereference fuel h child db) db l).
Proof.
  intros IH. induction l as [|c l IHl]; intros db L Z W R G Hb Hs Hf Hl Hz.
  - exists db, L. by split_and!.
  - destruct (Hl c) as [Hc0 Hcr]; [left|]. assert (child ∉ L) as Hp by (apply (gc_zomb _ _ _ _ _ _ (proj2 G)); left).
    destruct (IH c child db L (child :: Z) (l ++ W) R G Hb) as (db1 & L1 & E & G1 & Hb1 & Hd1 & Hs1 & Hk1); try done; [lia| |].
    { intros z [->|Hzz]%elem_of_cons; [lia|]. specialize (Hz z Hzz). lia. }
    cbn [foldM]. rewrite E. assert (child ∉ L1) as Hp1 by (intros ?; by apply Hp, Hs1).
    destruct (IHl db1 L1 Z W R G1 Hb1) as (db2 & L2 & E2 & G2 & Hb2 & Hd2 & Hs2 & Hk2); [by apply Hk1|done|intros; apply Hl; by right|done|].
    exists db2, L2. split_and!; [done..|congruence|auto|]. intros h Hh Hsm. apply Hk2; [|by apply Hk1]. intros ?. by apply Hh, Hs1.
Qed.

(** A node that is removed, and then its children. *)
Lemma deref_removed fuel db L Z W R child i n : derefs fuel -> ginv db L Z W R -> bounded (db_dirties db) L W R ->
  L !! i = Some child -> db_dirties db !! child = Some n -> (rank child <= fuel)%nat -> (forall z, z ∈ Z -> (rank child < rank z)%nat) ->
  is_Some (db_disk db !! child) \/ (refs (db_dirties db) L child = 0 /\ R child = 0)%nat ->
  collected db L Z W R (db ← unlink child n db;
    db ← foldM (fun db h => dereference fuel h child db) db (forChilds n);
    Ret (db <| db_dirties := base.delete child (db_dirties db) |>
            <| db_dirtiesSize := db_dirtiesSize db - (Z.of_nat HashLength + cn_size n) |>
            <| db_childrenSize := db_childrenSize db - (match cn_children n with Some _ => cachedNodeChildrenSize | None => 0 end) |>)).
Proof.
  intros IH [Gl Gc] Hb Hi Hn Hf Hz Hfree. destruct (unlink_ok db L i child n Gl Hi Hn) as (db1 & -> & Gl1 & S1 & Hd1). cbn [mbind outcome_bind].
  pose proof (gcore_remove _ _ _ _ _ _ i child n Gc (gl_nodup _ _ Gl) Hi Hn Hfree) as Gc1.
  destruct (deref_children fuel (forChilds n) child IH db1 (base.delete i L) Z W R) as (db2 & L2 & -> & [Gl2 Gc2] & Hb2 & Hd2 & Hs2 & Hk2).
  - split; [done|]. rewrite Hd1. by eapply same_core_frame.
  - intros h. specialize (Hb h). rewrite (refs_delete _ L i child h Hi) in Hb. rewrite count_occ_app.
    rewrite (refs_ext _ (db_dirties db)) by (intros p _; symmetry; apply childsOf_core, S1). unfold childsOf in Hb. rewrite Hn in Hb. lia.
  - eapply same_core_meta; [exact S1|by eexists].
  - done.
  - intros c Hc. by apply (gc_ext _ _ _ _ _ _ Gc child n); [eapply list_elem_of_lookup_2|..].
  - done.
  - cbn [mbind outcome_bind]. assert (child ∉ L2) as Hc2 by (apply (gc_zomb _ _ _ _ _ _ Gc2); left).
    eexists _, L2. split; [done|]. split_and!; cbn [db_dirties db_disk setf].
    + split; cbn [db_dirties db_disk setf]; [|by apply gcore_forget].
      eapply glist_frame; [|..|exact Gl2]; try done; cbn [db_dirties setf].
      * intros h Hh. rewrite lookup_delete_ne; [done|]. by intros ->.
      * rewrite lookup_delete_ne; [apply Gl2|]. intros ->. by apply (gl_nz _ _ Gl), (list_elem_of_lookup_2 _ i).
    + intros h. rewrite (refs_ext _ (db_dirties db2)); [apply Hb2|]. intros p Hp. unfold childsOf. rewrite lookup_delete_ne; [done|]. by intros ->.
    + congruence.
    + intros x Hx. by apply Hs2, list_elem_of_delete_inv in Hx.
    + intros h Hh Hs. assert (h <> child) as Hne by (intros ->; by apply Hh, (list_elem_of_lookup_2 _ i)).
      rewrite lookup_delete_ne by done. apply Hk2; [by intros ?%list_elem_of_delete_inv|]. by eapply same_core_meta.
Qed.

Lemma dereference_ok fuel : derefs fuel.
Proof.
  induction fuel as [|fuel IH]; intros child parent db L Z W R G Hb Hf Hp Hps Hc0 Hz; [lia|]. cbn [dereference].
  destruct (dropRef_ok child parent db L Z _ R G Hp Hps) as (db1 & -> & G1 & Hd1 & Hk1 & Hsame). cbn [mbind outcome_bind].
  assert (bounded (db_dirties db1) L (child :: W) R) as Hb1.
  { intros h. rewrite (refs_ext _ (db_dirties db)); [apply Hb|]. intros p Hpl. unfold childsOf. by rewrite Hsame. }
  destruct (db_dirties db1 !! child) as [n|] eqn:En.
  - assert (child ∈ L) as Hcl.
    { destruct (gc_dom _ _ _ _ _ _ (proj2 G1) child) as [?|[?|Hzc]]; [by eexists|done..|]. specialize (Hz child Hzc). lia. }
    destruct (gcore_decrement _ _ _ _ _ _ child n (proj2 G1) Hb1 Hcl En) as [Gc2 Hfree]. cbv zeta in Gc2, Hfree |- *.
    set (n' := if 0 <? cn_parents n then _ else n) in *. set (db2 := db1 <| db_dirties := <[child := n']> (db_dirties db1) |>).
    assert (flush n' = flush n) as Efl by (unfold n'; by destruct (0 <? _)).
    assert (ginv db2 L Z W R) as G2.
    { split; [|exact Gc2]. eapply glist_frame; [|..|exact (proj1 G1)]; try done.
      - intros h _. cbn [db2 db_dirties setf]. destruct (decide (child = h)) as [<-|Hne]; [rewrite lookup_insert_eq, En; cbn; by rewrite Efl|by rewrite lookup_insert_ne].
      - cbn [db2 db_dirties setf]. apply lookup_insert_is_Some'. right. apply G1. }
    assert (bounded (db_dirties db2) L W R) as Hb2.
    { intros h. specialize (Hb1 h). rewrite (refs_ext _ (db_dirties db1)).
      - cbn [count_occ] in Hb1. destruct (Z.eq_dec child h); lia.
      - intros p _. unfold childsOf. cbn [db2 db_dirties setf]. destruct (decide (child = p)) as [<-|Hne]; [|by rewrite lookup_insert_ne].
        rewrite lookup_insert_eq, En. unfold n'. by destruct (0 <? _). }
    assert (forall h, h ∉ L -> is_Some (db_dirties db !! h) -> is_Some (db_dirties db2 !! h)) as Hk2.
    { intros h _ Hh. cbn [db2 db_dirties setf]. apply lookup_insert_is_Some'. right. by apply Hk1. }
    destruct (Z.eqb_spec (cn_parents n') 0) as [E0|E0]; [|exists db2, L; by split_and!].
    apply list_elem_of_lookup in Hcl as [i Hi].
    destruct (deref_removed fuel db2 L Z W R child i n' IH G2 Hb2 Hi) as (db3 & L3 & E3 & G3 & Hb3 & Hd3 & Hs3 & Hk3); try done.
    + apply lookup_insert_eq.
    + lia.
    + destruct (db_disk db2 !! child) eqn:Ed; [left; by eexists|right; by apply Hfree].
    + exists db3, L3. split_and!; [exact E3|done..|rewrite Hd3; exact Hd1|done|]. intros h Hh Hs. by apply Hk3, Hk2.
  - assert (child ∉ L) as Hcl.
    { intros [i Hi]%list_elem_of_lookup. destruct (gl_links _ _ (proj1 G1) i child Hi) as (n & Hn & _). congruence. }
    exists db1, L. split_and!; try done.
    + split; [apply G1|]. apply (gcore_drop _ _ _ _ (child :: W)); [|apply G1]. intros h Hh _. apply count_occ_cons_neq. by intros ->.
    + intros h. specialize (Hb1 h). cbn [count_occ] in Hb1. destruct (Z.eq_dec child h); lia.
    + auto.
Qed.

Definition addR (R : Hash -> nat) (root h : Hash) : nat := if decide (h = root) then S (R h) else R h.
Definition subR (R : Hash -> nat) (root h : Hash) : nat := if decide (h = root) then pred (R h) else R h.

(** The database between operations. *)
Definition stable (db : Database) (R : Hash -> nat) : Prop := exists L, ginv db L [] [] R.

Definition roomy (db : Database) (R : Hash -> nat) : Prop := forall L, ginv db L [] [] R -> bounded (db_dirties db) L [] R.

Lemma Dereference_ok fuel root db R : stable db R -> roomy db R -> (0 < R root)%nat -> (rank root < fuel)%nat -> root <> 0 ->
  exists db', Dereference fuel root db = Ret db' /\ stable db' (subR R root) /\ db_disk db' = db_disk db.
Proof.
  intros [L G] Hb HR Hf H0. specialize (Hb L G). unfold Dereference. rewrite (proj2 (Z.eqb_neq _ _) H0).
  assert (forall h, R h + cnt [] h = subR R root h + cnt [root] h)%nat as Hsum.
  { intros h. unfold subR. cbn. destruct (decide (h = root)) as [->|Hne]; [destruct (Z.eq_dec root root); [lia|done]|destruct (Z.eq_dec root h); [congruence|lia]]. }
  destruct (dereference_ok fuel root 0 db L [] [] (subR R root)) as (db' & L' & -> & G' & _ & Hd & _); try done.
  - destruct G as [Gl [C X O D Rc Rt Dm Zm]]. split; [done|]. split; try done.
    + intros h n Hh Hn Hd. rewrite (Rc h n Hh Hn Hd). do 2 f_equal. specialize (Hsum h). lia.
    + intros h Hh. apply Rt. unfold subR in Hh. case_decide; lia.
  - intros h. specialize (Hb h). specialize (Hsum h). lia.
  - apply (gl_nz _ _ (proj1 G)).
  - apply (gl_meta _ _ (proj1 G)).
  - intros z Hz. by apply elem_of_nil in Hz.
  - exists db'. split; [done|]. split; [by exists L'|done].
Qed.

(** ** References and insertions *)

Lemma u32_add a b : u32 (u32 a + b) = u32 (a + b).
Proof. unfold u32. by rewrite Zplus_mod_idemp_l. Qed.

(** An entry whose counter was raised [k] times. *)
Definition raised (k : nat) (e e' : cachedNode) : Prop :=
  cn_node e' = cn_node e /\ cn_children e' = cn_children e /\ flush e' = flush e /\
  forall x, cn_parents e = u32 x -> cn_parents e' = u32 (x + Z.of_nat k).

Lemma raised_0 e : raised 0 e e.
Proof. split_and!; try done. intros x ->. by rewrite Z.add_0_r. Qed.

Lemma raised_childs k e e' : raised k e e' -> forChilds e' = forChilds e.
Proof. intros (E1 & E2 & _). unfold forChilds. by rewrite E1, E2. Qed.

Lemma addParents_lookup l : forall d k e, d !! k = Some e -> exists e', fold_left addParent l d !! k = Some e' /\ raised (cnt l k) e e'.
Proof.
  induction l as [|h l IH]; intros d k e He; [exists e; split; [done|apply raised_0]|]. cbn [fold_left count_occ].
  unfold addParent at 2. destruct (d !! h) as [c|] eqn:Eh.
  - destruct (Z.eq_dec h k) as [->|Hne].
    + assert (c = e) as -> by congruence. edestruct (IH (<[k := e <| cn_parents := u32 (cn_parents e + 1) |>]> d) k) as (e' & -> & En & Ec & Ef & Ep); [apply lookup_insert_eq|].
      exists e'. split; [done|]. split_and!; [done..|]. intros x Hx. rewrite (Ep (x + 1)); [f_equal; lia|]. cbn [cn_parents setf]. by rewrite Hx, u32_add.
    + apply IH. by rewrite lookup_insert_ne.
  - destruct (Z.eq_dec h k) as [->|Hne]; [congruence|]. by apply IH.
Qed.

Lemma addParents_none l d k : d !! k = None -> fold_left addParent l d !! k = None.
Proof. intros Hk. pose proof (addParents_same l d k) as S. rewrite Hk in S. by destruct (fold_left addParent l d !! k). Qed.

(** A new node at the end of the list. *)
Lemma gcore_insert disk d d' L R h e : gcore disk d L [] [] R -> (forall x, x ∈ L -> is_Some (d !! x)) -> d !! h = None ->
  Con h (cn_node e) -> cn_children e = None -> cn_parents e = 0 -> (forall k x, d !! k = Some x -> exists x', d' !! k = Some x' /\ raised (cnt (forChilds e) k) x x') ->
  (forall k, k <> h -> d !! k = None -> d' !! k = None) -> core <$> d' !! h = Some (core e) ->
  (forall c, c ∈ forChilds e -> is_Some (disk !! c) \/ c ∈ L) -> gcore disk d' (L ++ [h]) [] [] R.
Proof.
  intros [C X O D Rc Rt Dm Zm] Hdom Hh He Hec Hep Hold Hnone Hnew Hkids.
  assert (forChilds e = gatherChildren (cn_node e)) as Ef by (unfold forChilds; by rewrite Hec).
  assert (h ∉ L) as HhL by (intros [? ?]%Hdom; congruence).
  destruct (d' !! h) as [e'|] eqn:Ee'; [|done]. injection Hnew as En Ec Ep.
  assert (forChilds e' = forChilds e) as Ef' by (unfold forChilds; by rewrite En, Ec).
  assert (forall k x', k ∈ L -> d' !! k = Some x' -> exists x, d !! k = Some x /\ raised (cnt (forChilds e) k) x x' /\ forChilds x' = forChilds x) as Hinv.
  { intros k x' Hk Hx'. destruct (Hdom k Hk) as [x Hx]. destruct (Hold k x Hx) as (y & Hy & Hr). assert (y = x') as -> by congruence.
    exists x. split; [done|]. split; [done|]. by eapply raised_childs. }
  assert (forall k, refs d' (L ++ [h]) k = refs d L k + cnt (forChilds e) k)%nat as Hrefs.
  { intros k. rewrite refs_app. f_equal; [|rewrite refs_cons; unfold childsOf; rewrite Ee', Ef'; apply Nat.add_0_r].
    apply refs_ext. intros p Hp. unfold childsOf. destruct (Hdom p Hp) as [x Hx]. destruct (Hold p x Hx) as (x' & Hx' & _).
    destruct (Hinv p x' Hp Hx') as (y & Hy & _ & E). assert (y = x) as -> by congruence. by rewrite Hx, Hx', E. }
  assert (forall k, k ∈ L ++ [h] -> k ∈ L \/ k = h) as Hcase by (intros k [?| ->%list_elem_of_singleton]%elem_of_app; auto).
  split; try done.
  - intros k x' [Hk| ->]%Hcase Hx'; [|by assert (x' = e') as -> by congruence; rewrite En].
    destruct (Hinv k x' Hk Hx') as (x & Hx & (-> & _) & _). by apply C.
  - intros k x' c [Hk| ->]%Hcase Hx' Hc.
    + destruct (Hinv k x' Hk Hx') as (x & Hx & _ & E). rewrite E in Hc. by apply (X k x).
    + assert (x' = e') as -> by congruence. rewrite Ef', Ef in Hc. by eapply gr_kid.
  - intros i k x' c Hi Hx' Hc. destruct (decide (i < length L)%nat) as [Hlt|Hge].
    + rewrite lookup_app_l in Hi by done. destruct (Hinv k x') as (x & Hx & _ & E); [by eapply list_elem_of_lookup_2|done|].
      rewrite E in Hc. destruct (O i k x c Hi Hx Hc) as [?|(j & Hj & Hjc)]; [by left|]. right. exists j. split; [done|].
      rewrite lookup_app_l by lia. done.
    + rewrite lookup_app_r in Hi by lia. apply list_lookup_singleton_Some in Hi as [Hi <-]. assert (x' = e') as -> by congruence.
      rewrite Ef' in Hc. destruct (Hkids c Hc) as [?|[j Hj]%list_elem_of_lookup]; [by left|]. right. exists j.
      apply lookup_lt_Some in Hj as Hl. split; [lia|]. by rewrite lookup_app_l.
  - intros k x' [Hk| ->]%Hcase Hx' Hd; rewrite Hrefs.
    + destruct (Hinv k x' Hk Hx') as (x & Hx & (_ & _ & _ & Hp) & _). rewrite (Hp _ (Rc k x Hk Hx Hd)). f_equal. cbn [count_occ]. lia.
    + assert (x' = e') as -> by congruence. rewrite Ep, Hep. rewrite refs_none, (proj1 (count_occ_not_In Z.eq_dec _ _)).
      * replace (R h) with 0%nat; [done|]. destruct (R h) eqn:ER; [done|]. destruct (Rt h) as [[? ?]|?]; [lia|congruence|done].
      * rewrite <- list_elem_of_In, Ef. intros Hc. apply (gr_kid HG h _ h He) in Hc as [_ Hc]. lia.
      * intros p Hp Hc. unfold childsOf in Hc. destruct (Hdom p Hp) as [x Hx]. rewrite Hx in Hc. apply list_elem_of_lookup in Hp as [i Hi].
        destruct (O i p x h Hi Hx Hc) as [[? ?]|(j & _ & Hj)]; [congruence|]. by apply HhL, (list_elem_of_lookup_2 _ j).
  - intros k Hk. destruct (Rt k Hk) as [?|?]; [by left|]. right. apply elem_of_app. by left.
  - intros k Hk. destruct (decide (k = h)) as [->|Hne]; [right; left; apply elem_of_app; right; left|].
    destruct (d !! k) eqn:Ek; [|rewrite Hnone in Hk by done; by destruct Hk]. destruct (Dm k) as [?|[?|?]]; [by eexists|auto| |by right; right].
    right. left. apply elem_of_app. by left.
  - intros z Hz. by apply elem_of_nil in Hz.
Qed.

(** The list with a new node; [d'] has the links of the old nodes, but for the
    last one, which points to the new node. *)
Lemma links_snoc d d' L h e newest : links d L -> (forall i x, L !! i = Some x -> L !! S i = None -> x = newest) ->
  d' !! h = Some e -> cn_flushNext e = 0 -> cn_flushPrev e = newest -> NoDup (L ++ [h]) ->
  (forall k x, k ∈ L -> d !! k = Some x -> exists x', d' !! k = Some x' /\ cn_flushPrev x' = cn_flushPrev x /\
    cn_flushNext x' = if decide (k = newest) then h else cn_flushNext x) ->
  links d' (L ++ [h]).
Proof.
  intros K W He Ex Ep N Hold i x Hi. destruct (decide (i < length L)%nat) as [Hlt|Hge].
  - rewrite lookup_app_l in Hi by done. destruct (K i x Hi) as (n & Hn & En & Epn).
    destruct (Hold x n) as (n' & Hn' & E1 & E2); [by eapply list_elem_of_lookup_2|done|]. exists n'. split; [done|]. split.
    + rewrite E2. destruct (L !! S i) as [q|] eqn:Eq.
      * rewrite lookup_app_l by (by eapply lookup_lt_Some). rewrite Eq. rewrite decide_False; [by rewrite En, ?Eq|].
        intros ->. destruct (lookup_lt_is_Some_2 L (length L - 1)) as [y Hy]; [lia|].
        apply NoDup_app in N as (N & _). rewrite (W _ _ Hy) in Hy by (apply lookup_ge_None; lia). pose proof (NoDup_lookup _ _ _ _ N Hi Hy).
        apply lookup_lt_Some in Eq. lia.
      * rewrite decide_True by by eapply W. rewrite lookup_app_r by (by apply lookup_ge_None). apply lookup_ge_None in Eq.
        by replace (S i - length L)%nat with 0%nat by lia.
    + intros j ->. rewrite lookup_app_l by lia. rewrite E1. by apply Epn.
  - rewrite lookup_app_r in Hi by lia. apply list_lookup_singleton_Some in Hi as [Hi <-]. exists e. split; [done|]. split.
    + rewrite Ex. by rewrite lookup_app_r, (lookup_ge_None_2 [h]) by (cbn; lia).
    + intros j ->. rewrite lookup_app_l by lia. destruct (lookup_lt_is_Some_2 L j) as [y Hy]; [lia|]. rewrite Hy, Ep. f_equal.
      apply (W j); [done|]. apply lookup_ge_None. lia.
Qed.

Lemma db_insert_ok db R h r n size : stable db R -> Con h r -> simplifyNode n = Ret r ->
  (forall c, c ∈ gatherChildren r -> is_Some (db_disk db !! c) \/ is_Some (db_dirties db !! c)) ->
  exists db', db_insert db h size n = Ret db' /\ stable db' R.
Proof.
  intros [L [Gl Gc]] Hc Hs Hkids. unfold db_insert. destruct (db_dirties db !! h) as [e|] eqn:Eh; [exists db; split; [done|by exists L]|].
  rewrite Hs. cbn [mbind outcome_bind]. set (entry := mkCached _ _ _ _ _ _). set (d0 := fold_left addParent (forChilds entry) (db_dirties db)).
  pose proof (gr_nz HG h r Hc) as H0. destruct Gl as [N Nz K O W M].
  assert (forall x, x ∈ L -> is_Some (db_dirties db !! x)) as Hdom.
  { intros x [i Hi]%list_elem_of_lookup. destruct (K i x Hi) as (e & He & _). by eexists. }
  assert (h ∉ L) as HhL by (intros [? ?]%Hdom; congruence).
  assert (NoDup (L ++ [h])) as N'.
  { apply NoDup_app. split_and!; [done| |apply NoDup_singleton]. intros x Hx ->%list_elem_of_singleton. done. }
  assert (forall db1, db_disk db1 = db_disk db -> db_oldest db1 = default 0 ((L ++ [h]) !! 0%nat) -> db_newest db1 = h ->
    links (db_dirties db1) (L ++ [h]) -> is_Some (db_dirties db1 !! 0) ->
    (forall k, core <$> db_dirties db1 !! k = core <$> <[h := entry]> d0 !! k) -> stable db1 R) as Hfin.
  { intros db1 E1 E2 E3 E4 E5 E6. exists (L ++ [h]). split.
    - split; [done| |done..| |done]. { intros [?|E%list_elem_of_singleton]%elem_of_app; [done|by apply H0]. }
      intros i x Hi Hi'. destruct (decide (i < length L)%nat) as [Hlt|Hge].
      + apply lookup_ge_None in Hi'. rewrite length_app in Hi'. cbn in Hi'. lia.
      + rewrite lookup_app_r in Hi by lia. apply list_lookup_singleton_Some in Hi as [_ <-]. done.
    - rewrite E1. eapply same_core_frame; [intros k; symmetry; apply E6|].
      apply (gcore_insert _ (db_dirties db) _ _ _ _ entry); try done.
      + intros k x Hk. rewrite lookup_insert_ne by congruence. by apply addParents_lookup.
      + intros k Hk Hn. rewrite lookup_insert_ne by done. by apply addParents_none.
      + by rewrite lookup_insert_eq.
      + intros c Hcc. assert (forChilds entry = gatherChildren r) as Ef by done. rewrite Ef in Hcc. destruct (Hkids c Hcc) as [?|Hd]; [by left|].
        destruct (gc_dom _ _ _ _ _ _ Gc c Hd) as [->|[?|?%elem_of_nil]]; [|auto|done]. by apply (gr_kid HG h r 0 Hc) in Hcc as [? _]. }
  assert (forall k x, k ∈ L -> db_dirties db !! k = Some x -> exists x', d0 !! k = Some x' /\ flush x' = flush x) as Hold.
  { intros k x _ Hx. destruct (addParents_lookup (forChilds entry) _ _ _ Hx) as (x' & Hx' & _ & _ & Ef & _). by exists x'. }
  assert (is_Some (d0 !! 0)) as Hm0. { destruct M as [m Em]. destruct (addParents_lookup (forChilds entry) _ _ _ Em) as (m' & Em' & _). by eexists. }
  cbn [db_oldest setf]. destruct (L !! 0%nat) as [o|] eqn:EL; cbn [from_option id] in O.
  - assert (o <> 0) as Ho by (intros ->; by apply Nz, (list_elem_of_lookup_2 _ 0)). rewrite O, (proj2 (Z.eqb_neq _ _) Ho). cbn [db_newest setf].
    destruct (lookup_lt_is_Some_2 L (length L - 1)) as [y Hy]; [apply lookup_lt_Some in EL; lia|].
    assert (y = db_newest db) as -> by (apply (W _ _ Hy), lookup_ge_None; apply lookup_lt_Some in EL; lia).
    assert (db_newest db ∈ L) as Hnl by by eapply list_elem_of_lookup_2. destruct (Hdom _ Hnl) as [z Hz].
    destruct (Hold _ _ Hnl Hz) as (z' & Hz' & [= Ez1 Ez2]). assert (h <> db_newest db) as Hhn by congruence.
    rewrite lookup_insert_ne, Hz' by done. eexists. split; [done|]. apply Hfin; cbn [db_disk db_oldest db_newest db_dirties setf]; try done.
    + rewrite lookup_app_l by (by eapply lookup_lt_Some). by rewrite EL.
    + apply (links_snoc (db_dirties db) _ L h entry (db_newest db)); try done; [by rewrite lookup_insert_ne, lookup_insert_eq|].
      intros k x Hk Hx. destruct (decide (k = db_newest db)) as [->|Hne].
      * rewrite lookup_insert_eq. eexists. split; [done|]. cbn [cn_flushPrev cn_flushNext setf]. split; [congruence|done].
      * rewrite !lookup_insert_ne by congruence. destruct (Hold k x Hk Hx) as (x' & -> & [= E1 E2]). by exists x'.
    + rewrite !lookup_insert_ne; [done|congruence|]. intros E. by rewrite E in Hnl.
    + intros k. destruct (decide (db_newest db = k)) as [<-|Hne]; [rewrite lookup_insert_eq, lookup_insert_ne, Hz' by done; done|].
      by rewrite (lookup_insert_ne _ (db_newest db)).
  - rewrite O, Z.eqb_refl. eexists. split; [done|]. assert (L = []) as -> by (by destruct L).
    apply Hfin; cbn [db_disk db_oldest db_newest db_dirties setf app]; try done.
    + intros i x Hi. apply list_lookup_singleton_Some in Hi as [-> <-]. exists entry. rewrite lookup_insert_eq. by split_and!.
    + by rewrite lookup_insert_ne.
Qed.

(** A reference to a root. *)
Lemma gcore_addR disk d d' L R root : gcore disk d L [] [] R -> is_Some (disk !! root) \/ root ∈ L ->
  (forall h n', h ∈ L -> d' !! h = Some n' -> exists n, d !! h = Some n /\ raised (cnt [root] h) n n') ->
  (forall h, h ∈ L -> is_Some (d' !! h)) -> (forall h, is_Some (d' !! h) -> is_Some (d !! h)) ->
  gcore disk d' L [] [] (addR R root).
Proof.
  intros [C X O D Rc Rt Dm Zm] Hr Hd Hs Hdom.
  assert (forall h, refs d' L h = refs d L h) as Hrefs.
  { intros h. apply refs_ext. intros p Hp. unfold childsOf. destruct (Hs p Hp) as [n' Hn']. destruct (Hd p n' Hp Hn') as (n & Hn & Hra).
    rewrite Hn, Hn'. by eapply raised_childs. }
  assert (forall h, R h + cnt [root] h = addR R root h)%nat as Hsum.
  { intros h. unfold addR. cbn. destruct (decide (h = root)) as [->|Hne]; [destruct (Z.eq_dec root root); [lia|done]|destruct (Z.eq_dec root h); [congruence|lia]]. }
  split; try done.
  - intros h n' Hh Hn'. destruct (Hd h n' Hh Hn') as (n & Hn & -> & _). by apply C.
  - intros h n' c Hh Hn'. destruct (Hd h n' Hh Hn') as (n & Hn & Hra). rewrite (raised_childs _ _ _ Hra). by apply X.
  - intros i h n' c Hi Hn'. destruct (Hd h n') as (n & Hn & Hra); [by eapply list_elem_of_lookup_2|done|]. rewrite (raised_childs _ _ _ Hra). by eapply O.
  - intros h n' Hh Hn' Hk. destruct (Hd h n' Hh Hn') as (n & Hn & (_ & _ & _ & Hp)). rewrite (Hp _ (Rc h n Hh Hn Hk)), Hrefs.
    specialize (Hsum h). f_equal. lia.
  - intros h Hh. unfold addR in Hh. case_decide; [by subst|]. by apply Rt.
  - intros h Hh. by apply Dm, Hdom.
Qed.

Lemma reference_root_ok db R root : stable db R -> root <> 0 -> is_Some (db_disk db !! root) \/ is_Some (db_dirties db !! root) ->
  exists db', reference root 0 db = Ret db' /\ stable db' (addR R root) /\ db_disk db' = db_disk db /\
    (forall h, is_Some (db_dirties db !! h) -> is_Some (db_dirties db' !! h)).
Proof.
  intros [L [Gl Gc]] H0 Hr. assert (forall h, h ∈ L -> is_Some (db_dirties db !! h)) as Hdom.
  { intros x [i Hi]%list_elem_of_lookup. destruct (gl_links _ _ Gl i x Hi) as (e & He & _). by eexists. }
  unfold reference. destruct (db_dirties db !! root) as [n|] eqn:En.
  - destruct (gl_meta _ _ Gl) as [p Ep]. rewrite Ep. cbn [negb Z.eqb]. rewrite andb_false_r.
    assert (root ∈ L) as HrL.
    { destruct (gc_dom _ _ _ _ _ _ Gc root) as [?|[?|?%elem_of_nil]]; [by eexists|done..]. }
    set (d := <[0 := _]> (db_dirties db)). assert (d !! root = Some n) as Hdr by (unfold d; by rewrite lookup_insert_ne).
    change (addParent d root) with (fold_left addParent [root] d).
    assert (forall h, h ∈ L -> d !! h = db_dirties db !! h) as Hd.
    { intros h Hh. apply lookup_insert_ne. intros <-. by apply (gl_nz _ _ Gl). }
    assert (forall h, h ∈ L -> exists x x', db_dirties db !! h = Some x /\ fold_left addParent [root] d !! h = Some x' /\ raised (cnt [root] h) x x') as Hx.
    { intros h Hh. destruct (Hdom h Hh) as [x Hx]. pose proof Hx as Hx'. rewrite <- Hd in Hx' by done.
      destruct (addParents_lookup [root] d h x Hx') as (x' & Hx1 & Hra). by exists x, x'. }
    assert (forall h, is_Some (db_dirties db !! h) <-> is_Some (fold_left addParent [root] d !! h)) as Hsame.
    { intros h. assert (is_Some (db_dirties db !! h) <-> is_Some (d !! h)) as ->.
      { unfold d. rewrite lookup_insert_is_Some'. split; [by right|]. intros [<-|?]; [by rewrite Ep|done]. }
      split; [apply same_some, addParents_same|]. intros [x Hx']. destruct (same_node _ _ _ _ (addParents_same [root] d) Hx') as (y & -> & _). by eexists. }
    eexists. split; [done|]. cbn [db_disk db_dirties setf]. split_and!; [|done|by intros h; apply Hsame]. exists L. split; cbn [db_disk db_dirties setf].
    + eapply glist_frame; [|..|exact Gl]; try done; cbn [db_dirties setf].
      * intros h Hh. destruct (Hx h Hh) as (x & x' & -> & -> & (_ & _ & Ef & _)). cbn. by rewrite Ef.
      * apply Hsame. by rewrite Ep.
    + apply (gcore_addR _ (db_dirties db)); auto; [|by intros h Hh; apply Hsame, Hdom|by intros h; apply Hsame].
      intros h n' Hh Hn'. destruct (Hx h Hh) as (x & x' & Ex & Ex' & Hra). exists x. split; [done|]. congruence.
  - destruct Hr as [Hr|[? ?]]; [|done]. exists db. split_and!; [done| |done..]. exists L. split; [done|].
    apply (gcore_addR _ (db_dirties db)); auto. intros h n' Hh Hn'. exists n'. split; [done|]. cbn. destruct (Z.eq_dec root h) as [<-|]; [congruence|apply raised_0].
Qed.

End Counting.
