(* ===== verification/TrieFlush.v ===== *)
(** * Flushing the trie database (trie/database.go: Cap, Commit)

    Both move nodes from memory to disk, children first, so that what is on
    disk can be followed without the memory. *)

From S2P Require Import Prelude Rlp RlpRaw Transaction Trie TrieMap TrieRefine TrieHash TrieKeys TrieStore TrieDecode TrieCommit TrieGC.

Section Flushing.
Context (Con : Hash -> rawnode -> Prop) (rank : Hash -> nat) (HG : graph Con rank).

Abbreviation gcore := (gcore Con rank).
Abbreviation ginv := (ginv Con rank).
Abbreviation stable := (stable Con rank).

(** ** Writing *)

Lemma writeAll_lookup w : forall disk h b, writeAll w disk !! h = Some b -> (h, b) ∈ w \/ disk !! h = Some b.
Proof.
  induction w as [|[k x] w IH]; intros disk h b E; [by right|]. cbn in E. destruct (IH _ _ _ E) as [?|E']; [left; by right|].
  apply lookup_insert_Some in E' as [[-> ->]|[_ ?]]; [left; left|by right].
Qed.

Lemma writeAll_some w : forall disk h, is_Some (writeAll w disk !! h) <-> h ∈ w.*1 \/ is_Some (disk !! h).
Proof.
  induction w as [|[k x] w IH]; intros disk h; cbn; [split; [by right|intros [?%elem_of_nil|?]; done]|]. rewrite IH, lookup_insert_is_Some', elem_of_cons.
  cbn. intuition auto.
Qed.

(** What is written can be followed: the children come first. *)
Definition batch_ok (disk : gmap Hash bytes) (w : writes) : Prop :=
  forall i h b, w !! i = Some (h, b) -> exists r, Con h r /\ EncodeToBytes (rlpRaw r) = Some b /\
    forall c, c ∈ gatherChildren r -> is_Some (disk !! c) \/ c ∈ (take i w).*1.

Lemma gcore_write disk d L R w : batch_ok disk w -> gcore disk d L [] [] R -> gcore (writeAll w disk) d L [] [] R.
Proof.
  intros Hw [C X O D Rc Rt Dm Zm].
  assert (forall h, is_Some (disk !! h) -> is_Some (writeAll w disk !! h)) as Hgrow by (intros h Hh; apply writeAll_some; by right).
  split; try done.
  - intros i h n c Hi Hn Hc. destruct (O i h n c Hi Hn Hc) as [?|?]; [left; by apply Hgrow|by right].
  - intros h b [[i Hi]%list_elem_of_lookup|Hb]%writeAll_lookup.
    + destruct (Hw i h b Hi) as (r & Hr & Eb & Hc). exists r. split_and!; [done..|]. intros c Hcc.
      destruct (Hc c Hcc) as [?|Ht]; [by apply Hgrow|]. apply writeAll_some. left. apply list_elem_of_fmap in Ht as (y & -> & Hy).
      apply list_elem_of_fmap. exists y. split; [done|]. apply elem_of_take in Hy as (j & Hj & _). by eapply list_elem_of_lookup_2.
    + destruct (D h b Hb) as (r & Hr & Eb & Hc). exists r. split_and!; [done..|]. intros c Hcc. by apply Hgrow, Hc.
  - intros h n Hh Hn Hd. apply Rc; [done..|]. destruct (disk !! h) eqn:E; [|done]. destruct (Hgrow h) as [x Hx]; [by eexists|]. congruence.
  - intros h Hh. destruct (Rt h Hh) as [?|?]; [left; by apply Hgrow|by right].
Qed.

(** ** Cap *)

(** A node that is on disk with its children leaves the memory. *)
Lemma gcore_uncache disk d L R i h n : gcore disk d L [] [] R -> NoDup L -> L !! i = Some h -> d !! h = Some n ->
  is_Some (disk !! h) -> (forall c, c ∈ forChilds n -> is_Some (disk !! c)) -> gcore disk (base.delete h d) (base.delete i L) [] [] R.
Proof.
  intros G N Hi Hn Hd Hc. apply gcore_forget. eapply gcore_drop; [|eapply gcore_remove; [done..|by left]].
  intros x _ Hx. rewrite app_nil_r. cbn [count_occ]. apply count_occ_not_In. rewrite <- list_elem_of_In. intros [y Hy]%Hc. congruence.
Qed.

Definition deleteAll (L : list Hash) (d : gmap Hash cachedNode) : gmap Hash cachedNode := fold_left (fun d h => base.delete h d) L d.

(** The oldest nodes leave the memory. *)
Lemma gcore_flush disk R L2 L1 : forall d, gcore disk d (L1 ++ L2) [] [] R -> NoDup (L1 ++ L2) -> (forall h, h ∈ L1 ++ L2 -> is_Some (d !! h)) ->
  (forall h, h ∈ L1 -> is_Some (disk !! h)) -> gcore disk (deleteAll L1 d) L2 [] [] R.
Proof.
  induction L1 as [|h L1 IH]; intros d G N Hs Hd; [done|]. cbn [app] in *. destruct (Hs h) as [n Hn]; [left|].
  apply (IH (base.delete h d)).
  - apply (gcore_uncache disk d (h :: L1 ++ L2) R 0 h n); try done; [apply Hd; left|].
    intros c Hc. destruct (gc_order _ _ _ _ _ _ _ _ G 0 h n c eq_refl Hn Hc) as [?|(j & ? & _)]; [done|lia].
  - by apply NoDup_cons in N as [_ N].
  - intros x Hx. rewrite lookup_delete_ne; [apply Hs; by right|]. intros ->. by apply NoDup_cons in N as [N _].
  - intros x Hx. apply Hd. by right.
Qed.

Lemma cn_rlp_ok disk d L R h n : gcore disk d L [] [] R -> h ∈ L -> d !! h = Some n -> exists b, cn_rlp n = Ret b /\ EncodeToBytes (rlpRaw (cn_node n)) = Some b.
Proof.
  intros G Hh Hn. destruct (gr_enc Con rank HG h (cn_node n)) as [b Hb]; [by apply (gc_con _ _ _ _ _ _ _ _ G)|]. exists b. unfold cn_rlp. by rewrite Hb.
Qed.

(** The nodes Cap writes are a front part of the list. *)
Lemma capLoop_ok db L R limit : ginv db L [] [] R -> forall fuel L0 Ls size, L = L0 ++ Ls -> (length Ls <= fuel)%nat ->
  exists w L1 L2, capLoop fuel db size limit (default 0 (Ls !! 0%nat)) = Ret (w, default 0 (L2 !! 0%nat)) /\ Ls = L1 ++ L2 /\ w.*1 = L1 /\
    forall h b, (h, b) ∈ w -> exists n, db_dirties db !! h = Some n /\ EncodeToBytes (rlpRaw (cn_node n)) = Some b.
Proof.
  intros [Gl Gc]. induction fuel as [|fuel IH]; intros L0 Ls size E Hf.
  - assert (Ls = []) as -> by (destruct Ls; [done|cbn in Hf; lia]). exists [], [], []. cbn. rewrite andb_false_r. split_and!; try done.
    intros h b H%elem_of_nil. done.
  - destruct Ls as [|h Ls]; [exists [], [], []; cbn; rewrite andb_false_r; split_and!; try done; intros h b H%elem_of_nil; done|].
    assert (L !! length L0 = Some h) as Hi by (rewrite E, lookup_app_r, Nat.sub_diag by lia; done).
    assert (h ∈ L) as HhL by by eapply list_elem_of_lookup_2.
    assert (h <> 0) as H0 by (intros ->; by apply (gl_nz _ _ Gl)). cbn [lookup list_lookup from_option id capLoop].
    destruct (limit <? size); cbn [andb]; cycle 1.
    { exists [], [], (h :: Ls). split_and!; try done. intros x b H%elem_of_nil. done. }
    rewrite (proj2 (Z.eqb_neq _ _) H0). cbn [negb]. destruct (gl_links _ _ Gl _ _ Hi) as (n & Hn & Ex & _). rewrite Hn.
    destruct (cn_rlp_ok _ _ _ _ h n Gc HhL Hn) as (b & -> & Eb). cbn [mbind outcome_bind].
    replace (cn_flushNext n) with (default 0 (Ls !! 0%nat)) by (rewrite Ex, E, lookup_app_r by lia; replace (S (length L0) - length L0)%nat with 1%nat by lia; done).
    edestruct (IH (L0 ++ [h]) Ls) as (w & L1 & L2 & -> & -> & <- & Hw); [by rewrite <- app_assoc|cbn in Hf; lia|].
    cbn [mbind outcome_bind]. exists ((h, b) :: w), (h :: w.*1), L2. split_and!; try done.
    intros x y [[= -> ->]|Hxy]%elem_of_cons; [by exists n|by apply Hw].
Qed.

Lemma links_tail d h L : links d (h :: L) -> links d L.
Proof.
  intros K i x Hi. destruct (K (S i) x Hi) as (n & Hn & Ex & Ep). exists n. split; [done|]. split; [exact Ex|].
  intros j ->. exact (Ep (S j) eq_refl).
Qed.

Lemma uncacheUntil_ok L2 : forall L1 fuel db, NoDup (L1 ++ L2) -> 0 ∉ L1 ++ L2 -> links (db_dirties db) (L1 ++ L2) ->
  db_oldest db = default 0 ((L1 ++ L2) !! 0%nat) -> (length L1 <= fuel)%nat ->
  exists db', uncacheUntil fuel (default 0 (L2 !! 0%nat)) db = Ret db' /\ db_dirties db' = deleteAll L1 (db_dirties db) /\
    db_oldest db' = default 0 (L2 !! 0%nat) /\ db_newest db' = db_newest db /\ db_disk db' = db_disk db /\ links (db_dirties db') L2.
Proof.
  induction L1 as [|h L1 IH]; intros fuel db N Hz K O Hf.
  - exists db. cbn [app] in *. destruct fuel; cbn [uncacheUntil]; rewrite O, Z.eqb_refl; by split_and!.
  - destruct fuel as [|fuel]; [cbn in Hf; lia|]. cbn [app uncacheUntil] in *. change (db_oldest db = h) in O. rewrite O.
    assert (h <> default 0 (L2 !! 0%nat)) as Hne.
    { destruct (L2 !! 0%nat) as [q|] eqn:E; cbn [from_option id]; intros ->.
      - apply NoDup_cons in N as [N _]. apply N, elem_of_app. right. by eapply list_elem_of_lookup_2.
      - apply Hz. left. }
    rewrite (proj2 (Z.eqb_neq _ _) Hne). destruct (K 0%nat h eq_refl) as (n & Hn & Ex & _). rewrite Hn.
    apply NoDup_cons in N as [Nh N].
    edestruct (IH fuel (db <| db_dirties := base.delete h (db_dirties db) |> <| db_oldest := cn_flushNext n |>
                     <| db_dirtiesSize := db_dirtiesSize db - (Z.of_nat HashLength + cn_size n) |>
                     <| db_childrenSize := db_childrenSize db - childrenBytes n |>)) as (db' & E & H1 & H2 & H3 & H4 & H5); [done| | | |cbn in Hf; lia|].
    + intros H. apply Hz. by right.
    + cbn [db_dirties setf]. apply links_tail in K. eapply links_frame; [|exact K]. intros x Hx. rewrite lookup_delete_ne; [done|]. by intros ->.
    + cbn [db_oldest setf]. exact Ex.
    + exists db'. by split_and!.
Qed.

Lemma deleteAll_lookup L : forall d h, h ∉ L -> deleteAll L d !! h = d !! h.
Proof.
  induction L as [|x L IH]; intros d h Hh; [done|]. cbn. apply not_elem_of_cons in Hh as [Hx Hh].
  change (deleteAll L (base.delete x d) !! h = d !! h). by rewrite IH, lookup_delete_ne.
Qed.

Lemma length_list_dom (L : list Hash) (d : gmap Hash cachedNode) : NoDup L -> (forall h, h ∈ L -> is_Some (d !! h)) -> (length L <= base.size d)%nat.
Proof.
  intros N Hs. rewrite <- (size_list_to_set (C := gset Hash) L N), <- size_dom. apply subseteq_size. intros h Hh%elem_of_list_to_set.
  by apply elem_of_dom, Hs.
Qed.

Lemma ginv_dom db L Z W R h : ginv db L Z W R -> h ∈ L -> is_Some (db_dirties db !! h).
Proof. intros [Gl _] [i Hi]%list_elem_of_lookup. destruct (gl_links _ _ Gl i h Hi) as (n & Hn & _). by eexists. Qed.

Definition present (db : Database) (h : Hash) : Prop := is_Some (db_disk db !! h) \/ is_Some (db_dirties db !! h).

(** The nodes in front of the list can be written in order. *)
Lemma batch_front db L1 L2 R w : ginv db (L1 ++ L2) [] [] R -> w.*1 = L1 ->
  (forall h b, (h, b) ∈ w -> exists n, db_dirties db !! h = Some n /\ EncodeToBytes (rlpRaw (cn_node n)) = Some b) -> batch_ok (db_disk db) w.
Proof.
  intros [Gl Gc] E Hw i h b Hi. destruct (Hw h b) as (n & Hn & Eb); [by eapply list_elem_of_lookup_2|].
  assert ((L1 ++ L2) !! i = Some h) as HL.
  { rewrite lookup_app_l by (rewrite <- E, length_fmap; by eapply lookup_lt_Some). by rewrite <- E, list_lookup_fmap, Hi. }
  exists (cn_node n). split; [apply (gc_con _ _ _ _ _ _ _ _ Gc); [by eapply list_elem_of_lookup_2|done]|]. split; [done|]. intros c Hc.
  destruct (gc_order _ _ _ _ _ _ _ _ Gc i h n c HL Hn) as [?|(j & Hj & Hjc)]; [unfold forChilds; apply elem_of_app; by right|by left|].
  right. rewrite fmap_take, E. apply elem_of_take. exists j. split; [|done]. rewrite lookup_app_l in Hjc; [done|].
  rewrite <- E, length_fmap. apply lookup_lt_Some in Hi. lia.
Qed.

Lemma dbCap_ok limit db R : stable db R ->
  exists db', Cap limit db = Ret db' /\ stable db' R /\ forall h, h <> 0 -> present db h -> present db' h.
Proof.
  intros [L G]. pose proof G as [Gl Gc]. unfold Cap. destruct (gl_meta _ _ Gl) as [m Em]. rewrite Em. cbv zeta.
  assert (length L <= base.size (db_dirties db))%nat as Hlen by (apply length_list_dom; [apply Gl|intros h; by eapply ginv_dom]).
  rewrite (gl_oldest _ _ Gl).
  match goal with |- context [capLoop _ _ ?sz _ _] => destruct (capLoop_ok db L R limit G (base.size (db_dirties db)) [] L sz eq_refl Hlen) as (w & L1 & L2 & -> & -> & E1 & Hw) end.
  cbn [mbind outcome_bind]. pose proof (batch_front _ _ _ _ _ G E1 Hw) as Hb.
  pose proof (gcore_write _ _ _ _ _ Hb Gc) as Gc1. set (db1 := db <| db_disk := writeAll w (db_disk db) |>).
  destruct (uncacheUntil_ok L2 L1 (base.size (db_dirties db)) db1) as (db2 & -> & Ed & Eo & En & Ek & K2);
    [apply Gl|apply (gl_nz _ _ Gl)|apply (gl_links _ _ Gl)|apply (gl_oldest _ _ Gl)|rewrite length_app in Hlen; lia|].
  cbn [mbind outcome_bind]. cbn [db1 db_dirties db_newest db_disk setf] in Ed, En, Ek.
  assert (gcore (db_disk db2) (db_dirties db2) L2 [] [] R) as Gc2.
  { rewrite Ek, Ed. apply (gcore_flush _ _ L2 L1); [done|apply Gl|intros h; by eapply ginv_dom|]. intros h Hh. apply writeAll_some. left. by rewrite E1. }
  assert (glist db2 L2) as Gl2.
  { pose proof (gl_nodup _ _ Gl) as N. apply NoDup_app in N as (_ & N12 & N2). split; try done.
    - intros Hz. apply (gl_nz _ _ Gl), elem_of_app. by right.
    - intros i h Hi Hi'. rewrite En. apply (gl_newest _ _ Gl (length L1 + i)%nat).
      + by rewrite lookup_app_r, Nat.add_comm, Nat.add_sub by lia.
      + rewrite lookup_app_r by lia. by replace (S (length L1 + i) - length L1)%nat with (S i) by lia.
    - rewrite Ed, deleteAll_lookup; [by rewrite Em|]. intros Hz. apply (gl_nz _ _ Gl), elem_of_app. by left. }
  assert (forall h, h <> 0 -> present db h -> present db2 h) as Hp.
  { intros h H0 [Hh|Hh]; unfold present; rewrite Ek, Ed; [left; apply writeAll_some; by right|].
    destruct (decide (h ∈ L1)) as [Hin|Hout]; [left; apply writeAll_some; left; by rewrite E1|right; by rewrite deleteAll_lookup]. }
  rewrite Eo. destruct (L2 !! 0%nat) as [o|] eqn:E2; cbn [from_option id].
  - assert (o ∈ L2) as Ho by by eapply list_elem_of_lookup_2. assert (o <> 0) as Ho0 by (intros ->; by apply (gl_nz _ _ Gl2)).
    rewrite (proj2 (Z.eqb_neq _ _) Ho0). destruct (K2 0%nat o E2) as (e & He & _).
    destruct (setFlush_core (fun e => e <| cn_flushPrev := 0 |>) o (db_dirties db2) e) as [-> S]; [done..|]. cbn [mbind outcome_bind].
    eexists. split; [done|]. split.
    + exists L2. split; cbn [db_disk db_dirties setf]; [|by eapply same_core_frame].
      destruct Gl2 as [N2 Nz2 _ O2 W2 M2]. split; try done; cbn [db_dirties setf]; [|by eapply same_core_meta].
      intros i h Hi. destruct (K2 i h Hi) as (x & Hx & Ex & Ep). destruct (decide (o = h)) as [<-|Hne].
      * rewrite lookup_insert_eq. eexists. split; [done|]. cbn [cn_flushNext cn_flushPrev setf]. split; [congruence|].
        intros j ->. pose proof (NoDup_lookup _ _ _ _ N2 Hi E2). lia.
      * rewrite lookup_insert_ne by done. by exists x.
    + intros h H0 Hh. destruct (Hp h H0 Hh) as [?|?]; [by left|right]. cbn [db_dirties setf]. by eapply same_core_meta.
  - exists db2. split; [done|]. split; [by exists L2|done].
Qed.

(** ** Commit *)

(** Nodes leave the memory only for the disk, and do not change. *)
Record shrinks (db db' : Database) : Prop := {
  sh_core x n' : db_dirties db' !! x = Some n' -> exists n, db_dirties db !! x = Some n /\ core n = core n';
  sh_disk x : is_Some (db_disk db !! x) -> is_Some (db_disk db' !! x);
  sh_present x : is_Some (db_dirties db !! x) -> present db' x
}.

#[local] Instance shrinks_preorder : PreOrder shrinks.
Proof.
  split; [intros db; split; [intros x n ?; by exists n|done|intros x ?; by right]|]. intros a b c [A1 A2 A3] [B1 B2 B3]. split; auto.
  - intros x n (n1 & Hn1 & E1)%B1. destruct (A1 x n1 Hn1) as (n0 & Hn0 & E0). exists n0. split; [done|congruence].
  - intros x [Hd|Hd]%A3; [left; auto|by apply B3].
Qed.

Lemma shrinks_forall db db' x : shrinks db db' -> present db x -> present db' x.
Proof. intros S [Hd|Hd]; [left; by apply S|by apply S]. Qed.

Lemma cleaner_ok R w : forall db, stable db R -> (forall h, h ∈ w.*1 -> h <> 0 /\ is_Some (db_disk db !! h) /\
    forall n c, db_dirties db !! h = Some n -> c ∈ forChilds n -> is_Some (db_disk db !! c)) ->
  exists db', foldM cleanerPut db w = Ret db' /\ stable db' R /\ db_disk db' = db_disk db /\ shrinks db db'.
Proof.
  induction w as [|[h b] w IH]; intros db [L [Gl Gc]] Hw.
  { exists db. split_and!; [done|by exists L|done|reflexivity]. }
  destruct (Hw h) as (H0 & Hd & Hc); [left|].
  assert (exists db1, cleanerPut db (h, b) = Ret db1 /\ stable db1 R /\ db_disk db1 = db_disk db /\ shrinks db db1) as (db1 & E1 & S1 & Ed1 & Sh1).
  { unfold cleanerPut. cbn [fst]. destruct (db_dirties db !! h) as [n|] eqn:En; [|exists db; split_and!; [done|by exists L|done|reflexivity]].
    destruct (gc_dom _ _ _ _ _ _ _ _ Gc h) as [?|[[i Hi]%list_elem_of_lookup|?%elem_of_nil]]; [by eexists|done| |done].
    destruct (unlink_ok db L i h n Gl Hi En) as (db1 & -> & Gl1 & S1 & Ed1). cbn [mbind outcome_bind]. eexists. split; [done|].
    assert (h ∉ base.delete i L) as Hnot.
    { intros Hin. eapply (gc_zomb _ _ _ _ _ _ _ _ (gcore_remove _ _ _ _ _ _ _ _ i h n Gc (gl_nodup _ _ Gl) Hi En (or_introl Hd)) h); [left|done]. }
    cbn [db_disk db_dirties setf]. split; [|split; [done|]].
    - exists (base.delete i L). split; cbn [db_disk db_dirties setf].
      + eapply glist_frame; [|..|exact Gl1]; try done; cbn [db_dirties setf].
        * intros x Hx. rewrite lookup_delete_ne; [done|]. by intros ->.
        * rewrite lookup_delete_ne by done. apply Gl1.
      + rewrite Ed1. destruct (db_dirties db1 !! h) as [n1|] eqn:En1; cycle 1.
        { specialize (S1 h). by rewrite En, En1 in S1. }
        apply (gcore_uncache _ _ _ _ i h n1); [by eapply same_core_frame|apply Gl|done..|].
        intros c. specialize (S1 h). rewrite En, En1 in S1. injection S1 as A1 A2 A3. intros Hcc. apply (Hc n); [done|].
        rewrite (forChilds_core n n1); [done|]. unfold core. congruence.
    - split; cbn [db_dirties db_disk setf].
      + intros x n' [_ Hx]%lookup_delete_Some. destruct (fmap_same _ _ _ _ (eq_sym (S1 x)) Hx) as (y & Hy & E). by exists y.
      + by rewrite Ed1.
      + intros x Hx. unfold present. cbn [db_dirties db_disk setf]. destruct (decide (x = h)) as [->|Hne]; [left; by rewrite Ed1|right].
        rewrite lookup_delete_ne by done. by eapply same_core_meta. }
  cbn [foldM]. rewrite E1. destruct (IH db1 S1) as (db2 & E2 & S2 & Ed2 & Sh2).
  - intros x Hx. destruct (Hw x) as (X0 & Xd & Xc); [by right|]. rewrite Ed1. split_and!; [done..|]. intros n c Hn Hcc.
    destruct (sh_core _ _ Sh1 x n Hn) as (n0 & Hn0 & E). apply (Xc n0); [done|]. by rewrite (forChilds_core _ _ E).
  - exists db2. split_and!; [done|done|congruence|]. by etransitivity.
Qed.

Definition finished (s : Database * writes) (h : Hash) : Prop := is_Some (db_disk s.1 !! h) \/ h ∈ s.2.*1.

(** A batch in progress. *)
Record flushing (s : Database * writes) (R : Hash -> nat) : Prop := {
  fl_stable : stable s.1 R;
  fl_batch : batch_ok (db_disk s.1) s.2;
  fl_kids h n c : h ∈ s.2.*1 -> db_dirties s.1 !! h = Some n -> c ∈ forChilds n -> finished s c
}.

Lemma flushBatch_ok db w R : flushing (db, w) R ->
  exists db', flushBatch db w = Ret db' /\ stable db' R /\ (forall x, is_Some (db_disk db' !! x) <-> finished (db, w) x) /\ shrinks db db'.
Proof.
  intros [[L [Gl Gc]] Hb Hk]. cbn [fst snd] in *. unfold flushBatch.
  assert (forall x, is_Some (writeAll w (db_disk db) !! x) <-> finished (db, w) x) as Hfin.
  { intros x. rewrite writeAll_some. unfold finished. cbn. tauto. }
  destruct (cleaner_ok R w (db <| db_disk := writeAll w (db_disk db) |>)) as (db' & -> & S' & Ed & Sh).
  - exists L. split; [by eapply glist_frame; [..|exact Gl]; try done; apply Gl|]. by apply gcore_write.
  - cbn [db_disk db_dirties setf]. intros h Hh. split_and!.
    + apply list_elem_of_fmap in Hh as ([h' b] & -> & [i Hi]%list_elem_of_lookup). destruct (Hb i h' b Hi) as (r & Hr & _). by eapply gr_nz.
    + apply writeAll_some. by left.
    + intros n c Hn Hc. apply Hfin. by apply (Hk h n).
  - exists db'. split; [done|]. split; [done|]. split; [intros x; rewrite Ed; apply Hfin|].
    destruct Sh as [C1 C2 C3]. split; cbn [db_disk db_dirties setf] in *; [done| |done]. intros x Hx. apply C2. apply writeAll_some. by right.
Qed.

Definition moved (s s' : Database * writes) : Prop := shrinks s.1 s'.1 /\ forall x, finished s x -> finished s' x.

Definition commitsTo (R : Hash -> nat) (s : Database * writes) (hs : list Hash) (r : outcome (Database * writes)) : Prop :=
  exists s', r = Ret s' /\ flushing s' R /\ moved s s' /\ forall h, h ∈ hs -> finished s' h.

Section Traversal.
Context (full : writes -> bool) (R : Hash -> nat).

Definition visits (fuel : nat) : Prop := forall s h, flushing s R -> present s.1 h -> h <> 0 -> (rank h < fuel)%nat ->
  commitsTo R s [h] (db_commit full fuel s h).

Lemma visit_children fuel l : visits fuel -> forall s, flushing s R -> (forall c, c ∈ l -> present s.1 c /\ c <> 0 /\ (rank c < fuel)%nat) ->
  commitsTo R s l (foldM (db_commit full fuel) s l).
Proof.
  intros IH. induction l as [|c l IHl]; intros s F Hl.
  { exists s. split_and!; [done..| |by intros h H%elem_of_nil]. split; [reflexivity|done]. }
  destruct (Hl c) as (Hp & H0 & Hr); [left|]. destruct (IH s c F Hp H0 Hr) as (s1 & E1 & F1 & [Sh1 M1] & D1). cbn [foldM]. rewrite E1.
  destruct (IHl s1 F1) as (s2 & E2 & F2 & [Sh2 M2] & D2).
  { intros x Hx. destruct (Hl x) as (Xp & X0 & Xr); [by right|]. split_and!; [by eapply shrinks_forall|done..]. }
  exists s2. split_and!; [done..| |].
  - split; [by etransitivity|auto].
  - intros x [->|Hx]%elem_of_cons; [apply M2, D1; left|by apply D2].
Qed.

(** The node itself, after its children. *)
Lemma visit_node s s1 h n : flushing s R -> db_dirties s.1 !! h = Some n -> h <> 0 -> flushing s1 R -> moved s s1 ->
  (forall c, c ∈ forChilds n -> finished s1 c) ->
  commitsTo R s [h] ('(db, batch) ← Ret s1; b ← cn_rlp n; let batch := batch ++ [(h, b)] in
    if full batch then db ← flushBatch db batch; Ret (db, []) else Ret (db, batch)).
Proof.
  intros [[L [Gl Gc]] _ _] Hn H0 F1 [Sh1 M1] Hc. destruct s1 as [db1 w1]. cbn [fst snd] in *.
  destruct (gc_dom _ _ _ _ _ _ _ _ Gc h) as [?|[HhL|?%elem_of_nil]]; [by eexists|done| |done].
  destruct (cn_rlp_ok _ _ _ _ h n Gc HhL Hn) as (b & Eb & Ee). cbn [mbind outcome_bind]. rewrite Eb. cbn [mbind outcome_bind]. cbv zeta.
  set (w2 := w1 ++ [(h, b)]). assert (forall x, finished (db1, w1) x -> finished (db1, w2) x) as Hmono.
  { intros x [?|Hx]; [by left|right]. cbn [snd] in *. unfold w2. rewrite fmap_app. apply elem_of_app. by left. }
  assert (finished (db1, w2) h) as Hfh by (right; cbn [snd]; unfold w2; rewrite fmap_app; apply elem_of_app; right; left).
  assert (flushing (db1, w2) R) as F2.
  { destruct F1 as [Fs Fb Fk]. cbn [fst snd] in *. split; cbn [fst snd]; [done|..].
    - intros i x y Hi. destruct (decide (i < length w1)%nat) as [Hlt|Hge].
      + unfold w2 in Hi |- *. rewrite lookup_app_l in Hi by done. rewrite take_app_le by lia. by apply Fb.
      + unfold w2 in Hi. rewrite lookup_app_r in Hi by lia. apply list_lookup_singleton_Some in Hi as [Hi [= <- <-]].
        exists (cn_node n). split; [by apply (gc_con _ _ _ _ _ _ _ _ Gc)|]. split; [done|]. intros c Hcc.
        destruct (Hc c) as [?|Hw]; [apply elem_of_app; by right|by left|right]. unfold w2. rewrite take_app_ge by lia.
        rewrite fmap_app. apply elem_of_app. by left.
    - intros x nx c Hx Hnx Hcc. apply Hmono. unfold w2 in Hx. rewrite fmap_app in Hx. apply elem_of_app in Hx as [Hx|Hx]; [by apply (Fk x nx)|].
      apply list_elem_of_singleton in Hx as ->. cbn in Hnx. destruct (sh_core _ _ Sh1 h nx Hnx) as (n0 & Hn0 & E).
      apply Hc. assert (n0 = n) as -> by congruence. by rewrite (forChilds_core _ _ E). }
  destruct (full w2).
  - destruct (flushBatch_ok db1 w2 R F2) as (db3 & -> & S3 & D3 & Sh3). cbn [mbind outcome_bind]. exists (db3, []). split_and!; [done|..].
    + split; cbn [fst snd]; [done| |by intros x nx c Hx%elem_of_nil]. intros i x y Hi. by rewrite lookup_nil in Hi.
    + split; cbn [fst]; [by etransitivity|]. intros x Hx. left. cbn [fst]. by apply D3, Hmono, M1.
    + intros x ->%list_elem_of_singleton. left. cbn [fst]. by apply D3.
  - exists (db1, w2). split_and!; [done..| |by intros x ->%list_elem_of_singleton]. split; cbn [fst]; [done|]. intros x Hx. by apply Hmono, M1.
Qed.

Lemma db_commit_ok fuel : visits fuel.
Proof.
  induction fuel as [|fuel IH]; intros s h F Hp H0 Hf; [lia|]. cbn [db_commit]. destruct (db_dirties s.1 !! h) as [n|] eqn:En.
  - destruct (visit_children fuel (forChilds n) IH s F) as (s1 & E1 & F1 & M1 & D1).
    { destruct (fl_stable _ _ F) as [L [Gl Gc]]. destruct (gc_dom _ _ _ _ _ _ _ _ Gc h) as [?|[HhL|?%elem_of_nil]]; [by eexists|done| |done].
      intros c Hc. destruct (gc_ext _ _ _ _ _ _ _ _ Gc h n c HhL En Hc) as [C0 Cr]. split_and!; [|done|lia].
      apply list_elem_of_lookup in HhL as [i Hi]. destruct (gc_order _ _ _ _ _ _ _ _ Gc i h n c Hi En Hc) as [?|(j & _ & Hj)]; [by left|right].
      destruct (gl_links _ _ Gl j c Hj) as (x & Hx & _). by eexists. }
    rewrite E1. by apply (visit_node s s1).
  - destruct Hp as [Hp|[? ?]]; [|congruence]. exists s. split_and!; [done..| |intros x ->%list_elem_of_singleton; by left].
    split; [reflexivity|done].
Qed.

Lemma Commit_ok fuel h db : stable db R -> present db h -> h <> 0 -> (rank h < fuel)%nat ->
  exists db', Commit full fuel h db = Ret db' /\ stable db' R /\ shrinks db db' /\ is_Some (db_disk db' !! h).
Proof.
  intros S Hp H0 Hf. unfold Commit. destruct (db_commit_ok fuel (db, []) h) as ([db1 w1] & -> & F1 & [Sh1 M1] & D1); try done.
  { split; cbn [fst snd]; [done| |by intros x nx c Hx%elem_of_nil]. intros i x y Hi. by rewrite lookup_nil in Hi. }
  cbn [mbind outcome_bind]. destruct (flushBatch_ok db1 w1 R F1) as (db2 & -> & S2 & D2 & Sh2). exists db2.
  split_and!; [done|done|by etransitivity|]. apply D2, D1. left.
Qed.

End Traversal.

End Flushing.
