(* ===== verification/TrieSafety.v ===== *)
(** * Tries in use survive garbage collection

    A run of the trie database: tries are committed, roots are referenced and
    dereferenced, nodes are flushed to disk, and the process may restart with
    what is on disk.  [gc_safe]: no operation panics, and a trie whose root is
    referenced or on disk can always be opened and read in full. *)

From S2P Require Import Prelude Rlp RlpRaw Transaction Trie TrieMap TrieRefine TrieHash TrieKeys TrieStore TrieDecode TrieCommit TrieGC TrieFlush.

Section Safety.
Context `{Crypto} (U : tree -> Prop) (HU : universe U).

Abbreviation key t := (BytesToHash (hashBytes t)).

(** ** References between trees *)

Lemma gather_full rs c : c ∈ gatherChildren (rawFullNode rs) <-> exists i r, (i < 16)%nat /\ rs !! i = Some r /\ c ∈ gatherChildren r.
Proof.
  cbn [gatherChildren]. rewrite elem_concat. change (List.map gatherChildren rs) with (gatherChildren <$> rs). split.
  - intros (y & Hc & (i & Hi & Hlt)%elem_of_take). rewrite list_lookup_fmap in Hi. destruct (rs !! i) as [r|] eqn:E; [|done].
    injection Hi as <-. by exists i, r.
  - intros (i & r & Hlt & Hr & Hc). exists (gatherChildren r). split; [done|]. apply elem_of_take. exists i. split; [|done].
    by rewrite list_lookup_fmap, Hr.
Qed.

(** What a node refers to are trees of the universe, which a reader may
    follow. *)
Definition refersTo (c : Hash) (t : tree) : Prop :=
  exists u, U u /\ c = key u /\ forall db, kids db t -> has db u.

Lemma gather_ref c t : wf t -> U t -> c ∈ gatherChildren (rawRef t) -> (c ∈ gatherChildren (rawOf t) -> refersTo c t) ->
  exists u, U u /\ c = key u /\ forall db, (big t -> has db t) -> kids db t -> has db u.
Proof.
  intros Hw Hu Hc Hr. unfold rawRef in Hc. destruct (bigb t) eqn:B.
  - change (c ∈ [key t]) in Hc. apply list_elem_of_singleton in Hc as ->. exists t. split; [exact Hu|]. split; [reflexivity|].
    intros db Hh _. apply Hh. by apply bigb_big.
  - destruct (Hr Hc) as (u & Hu' & E & Hd). exists u. split; [exact Hu'|]. split; [exact E|]. intros db _. apply Hd.
Qed.

Lemma gather_tree t c : wf t -> U t -> c ∈ gatherChildren (rawOf t) -> refersTo c t.
Proof.
  intros Hw. induction Hw as [k v Hk Hv|k ts Hn Hk Hw IH|ts i j a b L Hij Hi Hj Ha Hb Hl Hc IH]; intros Hu Hcc.
  - cbn in Hcc. by apply elem_of_nil in Hcc.
  - change (gatherChildren (rawOf (TShort k (TFull ts)))) with (gatherChildren (rawRef (TFull ts))) in Hcc.
    assert (U (TFull ts)) as Hu' by by eapply u_short.
    destruct (gather_ref c (TFull ts) Hw Hu' Hcc) as (u & Hu1 & E & Hd); [auto|]. exists u. split; [exact Hu1|]. split; [exact E|].
    intros db Hk'. inversion Hk'; subst. by apply Hd.
  - rewrite rawOf_full in Hcc. apply gather_full in Hcc as (m & r & Hm & Hr & Hcr). rewrite list_lookup_fmap in Hr.
    destruct (ts !! m) as [x|] eqn:Ex; [|done]. injection Hr as <-. destruct (TNil_dec x) as [->|Hxn].
    { cbn in Hcr. by apply elem_of_nil in Hcr. }
    assert (U x) as Hux by by eapply u_full.
    destruct (gather_ref c x) as (u & Hu1 & E & Hd); [by eapply Hc|done..| |]; [intros; by eapply IH|].
    exists u. split; [exact Hu1|]. split; [exact E|]. intros db Hk'. inversion Hk'; subst. apply Hd; eauto.
Qed.

(** A set of present hashes that is closed under references has all that a
    reader needs. *)
Lemma kids_closed db (P : Hash -> Prop) t : (forall u, U u -> P (key u) -> has db u) ->
  (forall u c, U u -> P (key u) -> c ∈ gatherChildren (rawOf u) -> P c) ->
  wf t -> U t -> (forall c, c ∈ gatherChildren (rawOf t) -> P c) -> kids db t.
Proof.
  intros Hh Hcl Hw. induction Hw as [k v Hk Hv|k ts Hn Hk Hw IH|ts i j a b L Hij Hi Hj Ha Hb Hl Hc IH]; intros Hu HP; [constructor|..].
  - assert (U (TFull ts)) as Hu' by by eapply u_short.
    change (gatherChildren (rawOf (TShort k (TFull ts)))) with (gatherChildren (rawRef (TFull ts))) in HP. unfold rawRef in HP.
    destruct (bigb (TFull ts)) eqn:B.
    + assert (P (key (TFull ts))) as Pk by (apply HP; apply list_elem_of_singleton; reflexivity). constructor; [intros _; by apply Hh|]. apply IH; [done|]. intros c Hcc. by eapply Hcl.
    + constructor; [intros Hb; by apply bigb_small in B|]. by apply IH.
  - assert (forall m x, (m < 16)%nat -> ts !! m = Some x -> x <> TNil -> (big x -> has db x) /\ kids db x) as Hx.
    { intros m x Hm Ex Hxn. assert (U x) as Hux by by eapply u_full.
      assert (forall c, c ∈ gatherChildren (rawRef x) -> P c) as HPx.
      { intros c Hcc. apply HP. rewrite rawOf_full. apply gather_full. exists m, (rawRef x). by rewrite list_lookup_fmap, Ex. }
      unfold rawRef in HPx. destruct (bigb x) eqn:B.
      - assert (P (key x)) as Pk by (apply HPx; apply list_elem_of_singleton; reflexivity). split; [intros _; by apply Hh|]. eapply IH; eauto.
      - split; [intros Hbx; by apply bigb_small in B; [|eapply Hc]|]. eapply IH; eauto. }
    constructor; intros; by eapply Hx.
Qed.

(** ** The references of a universe *)

(** Hashes cannot run in a circle. *)
Context (rank : Hash -> nat) (Hrank : forall t c, U t -> c ∈ gatherChildren (rawOf t) -> (rank c < rank (key t))%nat).

Definition Con (h : Hash) (r : rawnode) : Prop := exists t, U t /\ h = key t /\ r = rawOf t.

Lemma Con_graph : graph Con rank.
Proof.
  split.
  - intros h r r' (t & Ht & -> & ->) (u & Hu & E & ->). by rewrite (key_inj U HU t u Ht Hu E).
  - intros h r (t & Ht & -> & _). apply (u_root U HU t Ht).
  - intros h r c (t & Ht & -> & ->) Hc. split; [|by apply Hrank].
    destruct (gather_tree t c (u_wf U HU t Ht) Ht Hc) as (u & Hu & -> & _). apply (u_root U HU u Hu).
  - intros h r (t & Ht & _ & ->). rewrite (rlpRaw_rawOf t (u_wf U HU t Ht)), encode_collapse. by eexists.
Qed.

Abbreviation stable := (stable Con rank).

Lemma stable_db_ok db R : stable db R -> db_ok U db.
Proof.
  intros [L [Gl Gc]]. split.
  - intros t e Ht He. destruct (gc_dom _ _ _ _ _ _ _ _ Gc (key t)) as [E|[HL|E%elem_of_nil]]; [rewrite He; by eexists| |  |destruct E].
    + destruct (u_root U HU t Ht) as [? _]. contradiction.
    + destruct (gc_con _ _ _ _ _ _ _ _ Gc (key t) e HL He) as (u & Hu & E & ->). by rewrite (key_inj U HU t u Ht Hu E).
  - intros t b Ht Hb. destruct (gc_disk _ _ _ _ _ _ _ _ Gc (key t) b Hb) as (r & (u & Hu & E & ->) & Eb & _).
    pose proof (key_inj U HU t u Ht Hu E) as <-. rewrite (rlpRaw_rawOf t (u_wf U HU t Ht)), encode_collapse in Eb. congruence.
  - intros Ho. rewrite (gl_oldest _ _ Gl) in Ho. destruct (L !! 0%nat) as [o|] eqn:E0; [|contradiction].
    destruct (lookup_lt_is_Some_2 L (length L - 1)) as [x Hx]; [apply lookup_lt_Some in E0; lia|].
    rewrite <- (gl_newest _ _ Gl _ _ Hx) by (apply lookup_ge_None; apply lookup_lt_Some in E0; lia).
    destruct (gl_links _ _ Gl _ _ Hx) as (n & -> & _). by eexists.
Qed.

(** A tree whose root is in use can be read. *)
Lemma stable_known db R t : stable db R -> U t -> is_Some (db_disk db !! key t) \/ (0 < R (key t))%nat -> Known U db t.
Proof.
  intros [L [Gl Gc]] Ht Hr. set (P h := is_Some (db_disk db !! h) \/ h ∈ L).
  assert (forall h, P h -> is_Some (db_dirties db !! h) \/ is_Some (db_disk db !! h)) as HP.
  { intros h [?|[i Hi]%list_elem_of_lookup]; [by right|left]. destruct (gl_links _ _ Gl _ _ Hi) as (n & -> & _). by eexists. }
  assert (forall u c, U u -> P (key u) -> c ∈ gatherChildren (rawOf u) -> P c) as Hcl.
  { intros u c Hu [[b Hb]|Hin] Hc.
    - destruct (gc_disk _ _ _ _ _ _ _ _ Gc (key u) b Hb) as (r & (v & Hv & E & ->) & _ & Hk).
      pose proof (key_inj U HU u v Hu Hv E) as <-. left. by apply Hk.
    - apply list_elem_of_lookup in Hin as [i Hi]. destruct (gl_links _ _ Gl _ _ Hi) as (n & Hn & _).
      destruct (gc_con _ _ _ _ _ _ _ _ Gc (key u) n (list_elem_of_lookup_2 _ _ _ Hi) Hn) as (v & Hv & E & En).
      pose proof (key_inj U HU u v Hu Hv E) as <-.
      destruct (gc_order _ _ _ _ _ _ _ _ Gc i (key u) n c Hi Hn) as [?|(j & _ & Hj)]; [|by left|right; by eapply list_elem_of_lookup_2].
      unfold forChilds. rewrite En. apply elem_of_app. by right. }
  assert (P (key t)) as Pt by (destruct Hr as [?|Hr]; [by left|by apply (gc_roots _ _ _ _ _ _ _ _ Gc)]).
  split; [exact Ht|]. split; [exact (HP _ Pt)|]. apply (kids_closed db P); [intros u _; apply HP|exact Hcl|exact (u_wf U HU t Ht)|exact Ht|].
  intros c. by apply Hcl.
Qed.

(** ** Runs of the database *)

Inductive gcOp :=
| GCommit (t : Trie)                  (* Trie.Commit *)
| GReference (root : Hash)            (* Database.Reference, from the meta root *)
| GDereference (root : Hash)
| GCap (limit : Z)
| GFlush (root : Hash)                (* Database.Commit *)
| GRestart.

Section Run.
Context (full : writes -> bool) (fuel : nat) (Hfuel : forall t, U t -> (rank (key t) < fuel)%nat).

Definition gcExec (op : gcOp) (db : Database) : outcome Database :=
  match op with
  | GCommit t => '(_, db, _) ← Trie_Commit (fun _ _ db => Ret db) t db; Ret db
  | GReference root => reference root 0 db
  | GDereference root => Dereference fuel root db
  | GCap limit => Cap limit db
  | GFlush root => Commit full fuel root db
  | GRestart => Ret (NewDatabase (db_disk db))
  end.

Definition gcRoots (op : gcOp) (R : Hash -> nat) : Hash -> nat :=
  match op with
  | GReference root => addR R root
  | GDereference root => subR R root
  | GRestart => fun _ => 0%nat
  | _ => R
  end.

(** All references between nodes in memory. *)
Definition references (db : Database) : nat :=
  sum_list_with (fun x => length (forChilds x.2)) (map_to_list (base.delete 0 (db_dirties db))).

(** A trie is committed that was opened over the database, a root is
    referenced or flushed that the database has, and dereferenced as often as
    it was referenced. *)
Definition gcPre (op : gcOp) (db : Database) (R : Hash -> nat) : Prop :=
  match op with
  | GCommit t => exists m, holds (Known U db) t m /\ forall tr, wf tr -> contents tr m -> U tr
  | GReference root | GFlush root => exists tr, U tr /\ root = key tr /\ Known U db tr
  | GDereference root => (0 < R root)%nat /\ forall h, Z.of_nat (references db + R h) < 2 ^ 32
  | GCap _ | GRestart => True
  end.

Inductive gcReach : Database -> (Hash -> nat) -> Prop :=
| gc_start : gcReach (NewDatabase ∅) (fun _ => 0%nat)
| gc_next db R op db' : gcReach db R -> gcPre op db R -> gcExec op db = Ret db' -> gcReach db' (gcRoots op R).

Lemma references_refs db L R h : ginv Con rank db L [] [] R -> (refs (db_dirties db) L h <= references db)%nat.
Proof.
  intros G. set (d := db_dirties db). assert (refs d L h <= sum_list_with (fun p => length (childsOf d p)) L)%nat as Hle.
  { unfold refs. clear G. induction L as [|p L IH]; [done|]. cbn [sum_list_with]. pose proof (count_occ_bound Z.eq_dec h (childsOf d p)). lia. }
  etransitivity; [exact Hle|]. set (l := map_to_list (base.delete 0 d)).
  assert (references db = sum_list_with (fun p => length (childsOf d p)) l.*1) as ->.
  { unfold references. fold d l. assert (forall x, x ∈ l -> d !! x.1 = Some x.2) as Hl.
    { intros [k n] Hx%elem_of_map_to_list. cbn. by apply lookup_delete_Some in Hx as [_ ?]. }
    clearbody l. clear - Hl. induction l as [|x l IH]; [done|]. cbn [sum_list_with fmap list_fmap]. rewrite IH by (intros y Hy; apply Hl; by right).
    unfold childsOf. by rewrite (Hl x) by left. }
  assert (L ⊆+ l.*1) as [k ->]%submseteq_Permutation; [|rewrite sum_list_with_app; lia].
  apply NoDup_submseteq; [apply G|]. intros p Hp. destruct (ginv_dom _ _ _ _ _ _ _ _ G Hp) as [n Hn].
  apply list_elem_of_fmap. exists (p, n). split; [done|]. apply elem_of_map_to_list. apply lookup_delete_Some. split; [|done].
  intros <-. by apply (gl_nz _ _ (proj1 G)).
Qed.

Lemma stable_start disk : (forall h b, disk !! h = Some b -> exists r, Con h r /\ EncodeToBytes (rlpRaw r) = Some b /\
    forall c, c ∈ gatherChildren r -> is_Some (disk !! c)) -> stable (NewDatabase disk) (fun _ => 0%nat).
Proof.
  intros Hd. exists []. split.
  - split; cbn [NewDatabase db_dirties db_oldest db_newest]; [constructor|apply not_elem_of_nil|..]; done.
  - split; cbn [NewDatabase db_dirties db_disk]; try done; try (intros * H0; by apply elem_of_nil in H0).
    + intros h H0. lia.
    + intros h [n Hn]. apply lookup_singleton_Some in Hn as [<- _]. by left.
Qed.

(** Every operation returns and keeps the invariant. *)
Lemma gcStep_ok op db R : stable db R -> gcPre op db R -> exists db', gcExec op db = Ret db' /\ stable db' (gcRoots op R).
Proof.
  intros S Hp. pose proof (stable_db_ok db R S) as Ho. destruct op as [t|root|root|limit|root|]; cbn [gcExec gcPre gcRoots] in *.
  - destruct Hp as (m & Hh & Hu).
    destruct (commit_reopens U HU (fun db => stable db R)) with (db := db) (t := t) (m := m) (onleaf := fun (_ : bytes) (_ : Hash) (db : Database) => Ret db)
      as (t' & db' & root & u & -> & _ & [_ S'] & _); try done.
    + intros db0 t0 n size db1 _ S0 Ht Hk Es E. destruct (db_insert_ok Con rank Con_graph db0 R (key t0) (rawOf t0) n size S0) as (db2 & E2 & S2); try done.
      * by exists t0.
      * intros c Hc. destruct (gather_tree t0 c (u_wf U HU t0 Ht) Ht Hc) as (v & _ & -> & Hd). destruct (Hd db0 Hk); [by right|by left].
      * assert (db2 = db1) as <- by congruence. exact S2.
    + intros v h db0 Hg _. exists db0. split; [reflexivity|]. split; [exact Hg|apply grows_refl].
    + by exists db'.
  - destruct Hp as (tr & Ht & -> & (_ & Hh & _)). destruct (reference_root_ok Con rank db R (key tr) S) as (db' & -> & S' & _).
    + apply (u_root U HU tr Ht).
    + destruct Hh; [by right|by left].
    + by exists db'.
  - destruct Hp as [HR Hb]. assert (exists tr, U tr /\ root = key tr) as (tr & Ht & ->).
    { destruct S as [L [Gl Gc]]. destruct (gc_roots _ _ _ _ _ _ _ _ Gc root HR) as [[b Hd]|HL].
      - destruct (gc_disk _ _ _ _ _ _ _ _ Gc root b Hd) as (r & (tr & Ht & E & _) & _). by exists tr.
      - apply list_elem_of_lookup in HL as [i Hi]. destruct (gl_links _ _ Gl _ _ Hi) as (n & Hn & _).
        destruct (gc_con _ _ _ _ _ _ _ _ Gc root n (list_elem_of_lookup_2 _ _ _ Hi) Hn) as (tr & Ht & E & _). by exists tr. }
    destruct (Dereference_ok Con rank fuel (key tr) db R S) as (db' & -> & S' & _); [|done|by apply Hfuel|apply (u_root U HU tr Ht)|by exists db'].
    intros L G h. cbn [count_occ]. pose proof (references_refs db L R h G). specialize (Hb h). lia.
  - destruct (dbCap_ok Con rank Con_graph limit db R S) as (db' & -> & S' & _). by exists db'.
  - destruct Hp as (tr & Ht & -> & (_ & Hh & _)). destruct (Commit_ok Con rank Con_graph full R fuel (key tr) db S) as (db' & -> & S' & _).
    + destruct Hh; [by right|by left].
    + apply (u_root U HU tr Ht).
    + by apply Hfuel.
    + by exists db'.
  - eexists. split; [reflexivity|]. destruct S as [L [_ Gc]]. apply stable_start, (gc_disk _ _ _ _ _ _ _ _ Gc).
Qed.

Lemma gcReach_stable db R : gcReach db R -> stable db R.
Proof.
  induction 1 as [|db R op db' _ IH Hp E].
  - apply stable_start. intros h b Hb. by rewrite lookup_empty in Hb.
  - destruct (gcStep_ok op db R IH Hp) as (db2 & E2 & S2). assert (db2 = db') as <- by congruence. exact S2.
Qed.

(** C26: Garbage collection is safe. In every run of the trie database that
    dereferences roots at most as often as it references them, no operation
    panics, and every trie whose root is referenced more often than
    dereferenced, or was flushed to disk, can be opened and reads back all its
    values: collecting other tries, flushing in any order and restarting the
    process never take away a node it needs. *)
Theorem gc_safe db R : gcReach db R ->
  (forall op, gcPre op db R -> exists db', gcExec op db = Ret db') /\
  forall tr m, U tr -> contents tr m -> is_Some (db_disk db !! key tr) \/ (0 < R (key tr))%nat ->
    exists u, newTrie (key tr) db = Ret (inl u) /\ reads_all db u m.
Proof.
  intros Hr%gcReach_stable. split.
  - intros op Hp. destruct (gcStep_ok op db R Hr Hp) as (db' & E & _). by exists db'.
  - intros tr m Ht Hm Hroot. pose proof (stable_db_ok db R Hr) as Ho. pose proof (stable_known db R tr Hr Ht Hroot) as K.
    destruct (newTrie_known U HU db tr Ho K) as (u & E & Ru & Rou). exists u. split; [exact E|]. apply (holds_reads U HU db); [exact Ho|].
    exists tr. split; [exact Ru|]. split; [exact Rou|]. split; [right; exact (u_wf U HU tr Ht)|exact Hm].
Qed.

End Run.

End Safety.

(** ** A run *)

Definition noFull (w : writes) : bool := false.

(** The trie of [twoLeaves] in memory. *)
Definition gcTrie : Trie :=
  match trieRun noNodes 12 (mkTrie nilNode 0) [OpUpdate [0x12] (leafValue 5); OpUpdate [0x22] (leafValue 6)] with
  | Ret (t, _) => t
  | Panic => mkTrie nilNode 0
  end.

Definition gcRoot : Hash := BytesToHash (@hashBytes toyCrypto twoLeaves).
Definition gcRank (h : Hash) : nat := if h =? gcRoot then 1 else 0.

Definition orEmpty (r : outcome Database) : Database := match r with Ret db => db | Panic => NewDatabase ∅ end.
Definition gcDb1 : Database := orEmpty (@gcExec toyCrypto noFull 2 (GCommit gcTrie) (NewDatabase ∅)).
Definition gcDb2 : Database := orEmpty (@gcExec toyCrypto noFull 2 (GReference gcRoot) gcDb1).
Definition gcDb3 : Database := orEmpty (@gcExec toyCrypto noFull 2 (GCap 0) gcDb2).

Lemma twoLeaves_wf : wf twoLeaves.
Proof.
  apply (wf_branch _ 1 2 (TShort [2; 16] (TVal (leafValue 5))) (TShort [2; 16] (TVal (leafValue 6)))); try done.
  - intros c [= <-]. by left.
  - intros i c Hi Hc Hn. destruct i as [|[|[|i]]]; [by injection Hc as <-|injection Hc as <-|injection Hc as <-|].
    1-2: constructor; [right; split; [unfold nibble; lia|by left]|done].
    change (replicate 14 TNil !! i = Some c) in Hc. by apply lookup_replicate_1 in Hc as [-> _].
Qed.

Lemma gcRank_ok t c : t ∈ subs twoLeaves -> c ∈ gatherChildren (@rawOf toyCrypto t) -> (gcRank c < gcRank (BytesToHash (@hashBytes toyCrypto t)))%nat.
Proof.
  intros Ht Hc. assert (forallb (fun t => forallb (fun c => (gcRank c <? gcRank (BytesToHash (@hashBytes toyCrypto t)))%nat)
    (gatherChildren (@rawOf toyCrypto t))) (subs twoLeaves) = true) as E by (vm_compute; reflexivity).
  rewrite forallb_forall in E. apply list_elem_of_In in Ht. specialize (E t Ht). rewrite forallb_forall in E. apply list_elem_of_In in Hc.
  by apply Nat.ltb_lt, E.
Qed.

Lemma gcFuel_ok t : (gcRank (BytesToHash (@hashBytes toyCrypto t)) < 2)%nat.
Proof. unfold gcRank. destruct (_ =? _); lia. Qed.

Lemma gcDb1_known : @Known toyCrypto (fun u => u ∈ subs twoLeaves) gcDb1 twoLeaves.
Proof.
  assert (forall t, t ∈ subs twoLeaves -> @has toyCrypto gcDb1 t) as Hh.
  { intros t Ht. left. assert (forallb (fun t => bool_decide (is_Some (db_dirties gcDb1 !! BytesToHash (@hashBytes toyCrypto t)))) (subs twoLeaves) = true) as E
      by (vm_compute; reflexivity).
    rewrite forallb_forall in E. apply list_elem_of_In in Ht. apply (bool_decide_eq_true_1 _). exact (E t Ht). }
  pose proof (subs_self _ twoLeaves_wf) as Hs. split; [exact Hs|]. split; [by apply Hh|].
  apply (@kids_closed toyCrypto _ (twoLeaves_universe twoLeaves_wf) gcDb1 (fun h => exists t, t ∈ subs twoLeaves /\ h = BytesToHash (@hashBytes toyCrypto t)));
    [intros u Hu _; by apply Hh| |exact twoLeaves_wf|exact Hs|].
  - intros u c Hu _ Hc. destruct (@gather_tree toyCrypto _ (twoLeaves_universe twoLeaves_wf) u c) as (v & Hv & E & _); try done; [|by exists v].
    by apply (subs_closed _ _ twoLeaves_wf).
  - intros c Hc. destruct (@gather_tree toyCrypto _ (twoLeaves_universe twoLeaves_wf) twoLeaves c twoLeaves_wf Hs Hc) as (v & Hv & E & _). by exists v.
Qed.

Definition isRet {A} (r : outcome A) : bool := match r with Ret _ => true | Panic => false end.

Lemma orEmpty_ret r : isRet r = true -> r = Ret (orEmpty r).
Proof. by destruct r. Qed.

(** After commit, reference and a flush of everything the trie reads back from
    disk. *)
Lemma gc_safe_witness :
  db_dirties gcDb3 !! gcRoot = None /\
  exists u u', newTrie gcRoot gcDb3 = Ret (inl u) /\ TryGet (db_node gcDb3) 12 u [0x22] = Ret (u', Some (leafValue 6), None).
Proof.
  split; [vm_compute; reflexivity|].
  destruct (@trieRun_agrees toyCrypto (fun _ => False) noNodes ltac:(by intros ? ? []) 12 (mkTrie nilNode 0) ∅ [OpUpdate [0x12] (leafValue 5); OpUpdate [0x22] (leafValue 6)])
    as (t & rs & m & Et & At & Ht); [apply holds_empty|repeat constructor; cbn; unfold is_byte; try lia|].
  assert (rs = [inl None; inl None]) as -> by (vm_compute in Et; congruence).
  assert (m !! [0x22] = Some (leafValue 6)) as Hm by (destruct At as (_ & _ & <-); vm_compute; reflexivity).
  destruct Ht as (tr & R & Ro & Hw & Hc). assert (tr = twoLeaves) as ->.
  { rewrite (rep_treeOf _ _ R). vm_compute in Et. injection Et as <-. vm_compute. reflexivity. }
  assert (gcTrie = t) as Egc by (unfold gcTrie; rewrite Et; reflexivity).
  pose proof (twoLeaves_universe twoLeaves_wf) as HU. set (U := fun u => u ∈ subs twoLeaves) in *.
  assert (@gcReach toyCrypto U noFull 2 gcDb3 (addR (fun _ => 0%nat) gcRoot)) as Hreach.
  { apply (gc_next U noFull 2 gcDb2 _ (GCap 0)); [|exact I|apply orEmpty_ret; vm_compute; reflexivity].
    apply (gc_next U noFull 2 gcDb1 (fun _ => 0%nat) (GReference gcRoot)); [|exists twoLeaves; split; [exact (subs_self _ twoLeaves_wf)|]; split; [reflexivity|exact gcDb1_known]|apply orEmpty_ret; vm_compute; reflexivity].
    apply (gc_next U noFull 2 (NewDatabase ∅) (fun _ => 0%nat) (GCommit gcTrie)); [apply gc_start| |apply orEmpty_ret; vm_compute; reflexivity].
    exists m. rewrite Egc. split.
    - exists twoLeaves. split_and!; [|exact Ro|exact Hw|exact Hc]. eapply rep_mono; [|exact R]. by intros ? [].
    - intros tr' Hw' Hc'. rewrite (contents_unique tr' twoLeaves m (or_intror Hw') Hw Hc' Hc). exact (subs_self _ twoLeaves_wf). }
  destruct (@gc_safe toyCrypto U HU gcRank gcRank_ok noFull 2 (fun t _ => gcFuel_ok t) gcDb3 _ Hreach) as [_ Hall].
  destruct (Hall twoLeaves m) as (u & Eu & Hr); [exact (subs_self _ twoLeaves_wf)|exact Hc|right; vm_compute; lia|].
  destruct (Hr 12%nat [0x22]) as [u' E]; [split; [repeat constructor; unfold is_byte; lia|cbn; lia]|].
  exists u, u'. split; [exact Eu|]. rewrite <- Hm. exact E.
Defined.
