(* ===== verification/StackTrie.v ===== *)
(** * The stack trie (trie/stacktrie.go)

    A trie for keys that come in ascending order: a subtree that can get no
    more keys is replaced by its encoding or its hash.  A node is
    the record the code mutates; the functions return it.  There is no
    database behind the trie, as in [DeriveSha], and the pool of nodes and the
    pool of hashers are left out.

    [TryUpdate_ok] and [Hash_ok]: for ascending keys it holds the same map as
    the ordinary trie and has the same root. *)

From S2P Require Import Prelude Rlp RlpRaw Transaction Trie TrieMap TrieRefine TrieHash TrieKeys TrieStore TrieDecode.

Inductive nodeType := emptyNode | branchNode | extNode | leafNode | hashedNode.

Inductive stackTrie := mkStack {
  st_nodeType : nodeType;
  st_val : bytes;
  st_key : bytes;
  st_keyOffset : nat;
  st_children : list (option stackTrie)
}.

Definition noChildren : list (option stackTrie) := replicate 16 None.

Definition NewStackTrie : stackTrie := mkStack emptyNode [] [] 0 noChildren.

(** A slice from [ko] on; a larger offset panics. *)
Definition sliceFrom (b : bytes) (ko : nat) : outcome bytes :=
  if (ko <=? length b)%nat then Ret (drop ko b) else Panic.

Definition newLeaf (ko : nat) (key val : bytes) : outcome stackTrie :=
  k ← sliceFrom key ko; Ret (mkStack leafNode val k ko noChildren).

Definition newExt (ko : nat) (key : bytes) (child : stackTrie) : outcome stackTrie :=
  k ← sliceFrom key ko; Ret (mkStack extNode [] k ko (<[0%nat := Some child]> noChildren)).

(** How far the chunk [k] agrees with the key; a key that ends inside it
    panics. *)
Fixpoint getDiffIndex (k key : bytes) : outcome nat :=
  match k, key with
  | [], _ => Ret 0%nat
  | _ :: _, [] => Panic
  | x :: k, y :: key => if x =? y then n ← getDiffIndex k key; Ret (S n) else Ret 0%nat
  end.

Section StackTrie.
Context `{Crypto}.

(** A hashed child in the encoding of its parent. *)
Definition childValue (val : bytes) : value := if (length val <? 32)%nat then VRaw val else VBytes val.

(** The end of hash: the node keeps its encoding, or the hash of it. *)
Definition settle (v : value) (ko : nat) (children : list (option stackTrie)) : outcome stackTrie :=
  match EncodeToBytes v with
  | None => Panic
  | Some b => Ret (mkStack hashedNode (if (length b <? 32)%nat then b else be_bytes HashLength (keccak256 b)) [] ko children)
  end.

Fixpoint st_hash (st : stackTrie) : outcome stackTrie :=
  match st with
  | mkStack ty val key ko children =>
      match ty with
      | hashedNode => Ret st
      | branchNode =>
          nodes ← mapM (fun c => match c with
                                 | None => Ret (VBytes [])
                                 | Some c => c ← st_hash c; Ret (childValue (st_val c))
                                 end) children;
          settle (VList (nodes ++ [VBytes []])) ko noChildren
      | extNode =>
          match children with
          | Some c :: rest =>
              c ← st_hash c;
              k ← hexToCompact key;
              settle (VList [VBytes k; childValue (st_val c)]) ko (None :: rest)
          | _ => Panic
          end
      | leafNode =>
          '(k, sz) ← hexToCompactInPlace (key ++ [16]);
          settle (VList [VBytes (take sz k); VBytes val]) ko children
      | emptyNode => Ret (mkStack hashedNode (be_bytes HashLength emptyRoot) [] ko children)
      end
  end.

(** The nearest elder sibling is hashed; those before it already are. *)
Fixpoint hashElder (i : nat) (children : list (option stackTrie)) : outcome (list (option stackTrie)) :=
  match i with
  | O => Ret children
  | S i =>
      match children !! i with
      | Some (Some c) => c ← st_hash c; Ret (<[i := Some c]> children)
      | Some None => hashElder i children
      | None => Panic
      end
  end.

(** Two subtrees at the first nibble where the key and the chunk differ: [n]
    has the old keys, [o] the new one. *)
Definition split (st : stackTrie) (diffidx : nat) (n o : stackTrie) (key : bytes) (children : list (option stackTrie))
  : outcome stackTrie :=
  let ko := st_keyOffset st in
  match st_key st !! diffidx, key !! (diffidx + ko)%nat with
  | Some origIdx, Some newIdx =>
      let set cs := <[Z.to_nat newIdx := Some o]> (<[Z.to_nat origIdx := Some n]> cs) in
      if (diffidx =? 0)%nat then Ret (mkStack branchNode (st_val st) [] ko (set children))
      else
        let p := mkStack branchNode [] [] (ko + diffidx) (set noChildren) in
        Ret (mkStack extNode (st_val st) (take diffidx (st_key st)) ko (<[0%nat := Some p]> children))
  | _, _ => Panic
  end.

(** The fuel bounds the depth, which the length of the key bounds. *)
Fixpoint st_insert (fuel : nat) (st : stackTrie) (key value : bytes) : outcome stackTrie :=
  match fuel with
  | O => Panic
  | S fuel =>
      let ko := st_keyOffset st in
      match st_nodeType st with
      | branchNode =>
          match key !! ko with
          | None => Panic
          | Some x =>
              let idx := Z.to_nat x in
              children ← hashElder idx (st_children st);
              match children !! idx with
              | None => Panic
              | Some o =>
                  let c := default (mkStack emptyNode [] [] (ko + 1) noChildren) o in
                  c ← st_insert fuel c key value;
                  Ret (mkStack branchNode (st_val st) (st_key st) ko (<[idx := Some c]> children))
              end
          end
      | extNode =>
          diffidx ← getDiffIndex (st_key st) (drop ko key);
          match st_children st with
          | Some c :: rest =>
              if (diffidx =? length (st_key st))%nat then
                c ← st_insert fuel c key value;
                Ret (mkStack extNode (st_val st) (st_key st) ko (Some c :: rest))
              else
                n ← (if (diffidx <? length (st_key st) - 1)%nat then newExt (diffidx + 1) (st_key st) c else Ret c);
                n ← st_hash n;
                o ← newLeaf (ko + diffidx + 1) key value;
                split st diffidx n o key (None :: rest)
          | _ => Panic
          end
      | leafNode =>
          diffidx ← getDiffIndex (st_key st) (drop ko key);
          if (length (st_key st) <=? diffidx)%nat then Panic       (* existing key *)
          else
            n ← newLeaf (diffidx + 1) (st_key st) (st_val st);
            n ← st_hash n;
            o ← newLeaf (ko + diffidx + 1) key value;
            st ← split st diffidx n o key (<[0%nat := None]> (st_children st));
            Ret (mkStack (st_nodeType st) [] (st_key st) (st_keyOffset st) (st_children st))
      | emptyNode => k ← sliceFrom key ko; Ret (mkStack leafNode value k ko (st_children st))
      | hashedNode => Panic
      end
  end.

Definition st_TryUpdate (st : stackTrie) (key value : bytes) : outcome stackTrie :=
  let k := keybytesToHex key in
  match value with
  | [] => Panic                                        (* deletion not supported *)
  | _ => let k := take (length k - 1) k in st_insert (S (length k)) st k value
  end.

Definition st_Hash (st : stackTrie) : outcome (stackTrie * Hash) :=
  st ← st_hash st;
  Ret (st, BytesToHash (if (length (st_val st) =? 32)%nat then st_val st else be_bytes HashLength (keccak256 (st_val st)))).

(** ** Hashing *)

(** What a hashed node keeps of a tree. *)
Definition sealed (t : tree) : bytes :=
  let b := encodeOrNothing (collapse t) in if (length b <? 32)%nat then b else hashBytes t.

Definition sealedAs (st : stackTrie) (t : tree) : Prop :=
  st_nodeType st = hashedNode /\ st_val st = sealed t /\ wf t /\ value_ok (collapse t).

Lemma encode_raw b : encodeOrNothing (VRaw b) = b.
Proof. unfold encodeOrNothing, EncodeToBytes. cbn. done. Qed.

Lemma childValue_sealed t : wf t -> encodeOrNothing (childValue (sealed t)) = encodeOrNothing (childRef t).
Proof.
  intros Hw. assert (childRef t = shrink (collapse t)) as -> by (by destruct Hw). unfold sealed, shrink, childValue. cbv zeta.
  destruct (Nat.ltb_spec (length (encodeOrNothing (collapse t))) 32) as [Hl|Hl].
  - rewrite (proj2 (Nat.ltb_lt _ _) Hl), bool_decide_eq_true_2 by done. apply encode_raw.
  - rewrite (proj2 (Nat.ltb_ge _ _)) by (rewrite length_hashBytes; unfold HashLength; lia).
    rewrite bool_decide_eq_false_2 by lia. reflexivity.
Qed.

Lemma childValue_ok t : value_ok (childValue (sealed t)).
Proof.
  unfold childValue, sealed. cbv zeta. destruct (length (encodeOrNothing (collapse t)) <? 32)%nat eqn:El; [by rewrite El|].
  destruct (_ <? _)%nat; [done|]. apply be_bytes_ok.
Qed.
Lemma childValue_nonneg b : nonneg (childValue b).
Proof. unfold childValue. by destruct (_ <? _)%nat. Qed.

(** Lists whose items have the same encodings. *)
Lemma encode_ext l l' : value_ok (VList l) -> nonneg (VList l) -> value_ok (VList l') -> nonneg (VList l') ->
  encodeOrNothing <$> l = encodeOrNothing <$> l' -> EncodeToBytes (VList l) = Some (encodeOrNothing (VList l')).
Proof.
  intros Hv Hn Hv' Hn' E. rewrite (encode_list l' Hv' Hn'), <- E, <- (encode_list l Hv Hn).
  rewrite (EncodeToBytes_enc _ Hv). by apply enc_some.
Qed.

Lemma settle_sealed l t ko cs : value_ok (VList l) -> nonneg (VList l) -> value_ok (collapse t) ->
  (exists l', collapse t = VList l' /\ encodeOrNothing <$> l = encodeOrNothing <$> l') ->
  exists st', settle (VList l) ko cs = Ret st' /\ st_nodeType st' = hashedNode /\ st_val st' = sealed t.
Proof.
  intros Hv Hn Hv' (l' & El & E). unfold settle. pose proof (collapse_nonneg t) as Hn'. rewrite El in Hn', Hv'.
  rewrite (encode_ext l l' Hv Hn Hv' Hn' E). eexists. split; [reflexivity|]. split; [reflexivity|].
  unfold sealed, hashBytes, digest. rewrite El. reflexivity.
Qed.

(** ** Open nodes

    [orep ko st t]: the node at depth [ko] stands for the tree, and the
    subtrees on its right edge are not hashed; those left of it are. *)
Inductive orep : nat -> stackTrie -> tree -> Prop :=
| o_leaf ko k v : Forall nibble k -> v <> [] -> bytes_ok v ->
    orep ko (mkStack leafNode v k ko noChildren) (TShort (k ++ [16]) (TVal v))
| o_ext ko val k c ts : k <> [] -> Forall nibble k -> orep (ko + length k) c (TFull ts) ->
    orep ko (mkStack extNode val k ko (Some c :: replicate 15 None)) (TShort k (TFull ts))
| o_branch ko val key cs ts last c t : length cs = 16%nat -> length ts = 17%nat -> ts !! 16%nat = Some TNil ->
    (last < 16)%nat -> cs !! last = Some (Some c) -> ts !! last = Some t -> wf t -> orep (ko + 1) c t ->
    (forall j d u, (j < last)%nat -> cs !! j = Some d -> ts !! j = Some u ->
       match d with None => u = TNil | Some d => sealedAs d u end) ->
    (forall j d u, (last < j < 16)%nat -> cs !! j = Some d -> ts !! j = Some u -> d = None /\ u = TNil) ->
    orep ko (mkStack branchNode val key ko cs) (TFull ts).

Lemma value_ok_shrink v : value_ok v -> value_ok (shrink v).
Proof. unfold shrink. case_bool_decide; [done|]. intros _. apply be_bytes_ok. Qed.

Lemma value_ok_ref t : value_ok (collapse t) -> value_ok (childRef t).
Proof. unfold childRef. destruct t; try done; apply value_ok_shrink. Qed.

Lemma value_ok_short k t : path k -> value_ok (collapse t) -> value_ok (collapse (TShort k t)).
Proof.
  intros Hk Ht. rewrite collapse_short. apply value_ok_list. repeat constructor; [by apply compact_inverse|by apply value_ok_ref].
Qed.

Lemma orep_value_ok ko st t : orep ko st t -> value_ok (collapse t).
Proof.
  induction 1 as [ko k v Hk Hv Hb|ko val k c ts Hn Hk _ IH|ko val key cs ts last c t Lc Lt H16 Hlt Hc Ht Hw _ IH Hl Hr].
  - apply value_ok_short; [|done]. left. apply term_app; [done|]. by apply term_16.
  - apply value_ok_short; [by right|done].
  - assert (value_ok (collapse TNil)) as Hnil by constructor.
    rewrite collapse_full. apply value_ok_list, Forall_fmap, Forall_lookup. intros j u Hj. apply value_ok_ref.
    pose proof (lookup_lt_Some _ _ _ Hj). destruct (decide (j = 16%nat)) as [->|H16']; [by simplify_eq|].
    destruct (lookup_lt_is_Some_2 cs j) as [d Hd]; [lia|]. destruct (lt_eq_lt_dec j last) as [[Hlt'| ->]|Hgt].
    + specialize (Hl j d u Hlt' Hd Hj). destruct d; [apply Hl|by subst].
    + by simplify_eq.
    + destruct (Hr j d u) as [_ ->]; [lia|done..].
Qed.

(** The nodes the code hashes, from their hashed children. *)
Lemma hash_leaf ko k v cs : Forall nibble k -> bytes_ok v ->
  exists st', st_hash (mkStack leafNode v k ko cs) = Ret st' /\ st_nodeType st' = hashedNode /\
    st_val st' = sealed (TShort (k ++ [16]) (TVal v)).
Proof.
  intros Hk Hv. cbn [st_hash]. destruct (compact_buffer (k ++ [16])) as (buf & n & -> & E & _); [by destruct k|].
  cbn [mbind outcome_bind]. assert (path (k ++ [16])) as Hp by (left; apply term_app; [done|]; by apply term_16).
  pose proof (proj2 (compact_inverse _ Hp)) as Hb. rewrite E in Hb. cbn [orNil] in Hb.
  apply settle_sealed; [by repeat split|done|by apply value_ok_short|].
  eexists. split; [apply collapse_short|]. by rewrite E.
Qed.

Lemma hash_ext val k off c c' ts rest : k <> [] -> Forall nibble k -> st_hash c = Ret c' -> st_val c' = sealed (TFull ts) ->
  wf (TFull ts) -> value_ok (collapse (TFull ts)) ->
  exists st', st_hash (mkStack extNode val k off (Some c :: rest)) = Ret st' /\ st_nodeType st' = hashedNode /\
    st_val st' = sealed (TShort k (TFull ts)).
Proof.
  intros Hn Hk E Ev Hw Hv. cbn [st_hash]. rewrite E. cbn [mbind outcome_bind]. rewrite hexToCompact_ret. cbn [mbind outcome_bind].
  assert (path k) as Hp by by right. pose proof (proj2 (compact_inverse _ Hp)) as Hb.
  apply settle_sealed; [|repeat split; apply childValue_nonneg|by apply value_ok_short|].
  - repeat split; [done|]. rewrite Ev. apply childValue_ok.
  - eexists. split; [apply collapse_short|]. rewrite !fmap_cons, Ev, childValue_sealed by done. done.
Qed.

(** One child of a branch in its encoding. *)
Definition childNode (c : option stackTrie) : outcome value :=
  match c with None => Ret (VBytes []) | Some c => c ← st_hash c; Ret (childValue (st_val c)) end.

Definition hashesAs (c : option stackTrie) (t : tree) : Prop :=
  match c with None => t = TNil | Some c => wf t /\ exists c', st_hash c = Ret c' /\ st_val c' = sealed t end.

Lemma hash_children cs ts : Forall2 hashesAs cs ts -> exists nodes, mapM childNode cs = Ret nodes /\
  encodeOrNothing <$> nodes = encodeOrNothing <$> (childRef <$> ts) /\ Forall value_ok nodes /\ Forall nonneg nodes.
Proof.
  induction 1 as [|c t cs ts Hc _ (nodes & Em & En & Hv & Hn)]; [by exists []|].
  assert (exists v, childNode c = Ret v /\ encodeOrNothing v = encodeOrNothing (childRef t) /\ value_ok v /\ nonneg v)
    as (v & Ev & Ee & Hv1 & Hn1).
  { destruct c as [c|]; cbn [hashesAs childNode] in *.
    - destruct Hc as (Hw & c' & -> & Es). eexists. split; [reflexivity|]. rewrite Es.
      split_and!; [by apply childValue_sealed|apply childValue_ok|apply childValue_nonneg].
    - subst. eexists. split; [reflexivity|]. split_and!; [done|constructor|done]. }
  exists (v :: nodes). cbn [mapM]. rewrite Ev. cbn [mbind outcome_bind]. rewrite Em. cbn [mbind outcome_bind].
  split; [reflexivity|]. rewrite !fmap_cons, Ee, En. split_and!; [done|by constructor..].
Qed.

Lemma hash_branch val key ko cs ts : Forall2 hashesAs cs ts -> value_ok (collapse (TFull (ts ++ [TNil]))) ->
  exists st', st_hash (mkStack branchNode val key ko cs) = Ret st' /\ st_nodeType st' = hashedNode /\
    st_val st' = sealed (TFull (ts ++ [TNil])).
Proof.
  intros Hf Hv. cbn [st_hash]. change (mapM _ cs) with (mapM childNode cs).
  destruct (hash_children cs ts Hf) as (nodes & -> & En & Hvn & Hnn). cbn [mbind outcome_bind].
  apply settle_sealed; [|apply nonneg_list|done|].
  - apply value_ok_list, Forall_app. split; [done|]. repeat constructor.
  - apply Forall_app. split; [done|]. by repeat constructor.
  - eexists. split; [apply collapse_full|]. rewrite !fmap_app, En. done.
Qed.

Lemma hash_ok ko st t : orep ko st t -> wf t -> exists st', st_hash st = Ret st' /\ st_nodeType st' = hashedNode /\ st_val st' = sealed t.
Proof.
  induction 1 as [ko k v Hk Hv Hb|ko val k c ts Hn Hk R IH|ko val key cs ts last c t Lc Lt H16 Hlt Hc Ht Hwt R IH Hl Hr]; intros Hw.
  - by apply hash_leaf.
  - inversion Hw as [|? ? _ _ Hwf|]; subst. destruct (IH Hwf) as (c' & Ec & _ & Ev).
    by eapply hash_ext; [..|by eapply orep_value_ok].
  - assert (ts = take 16 ts ++ [TNil]) as Ets by (by rewrite <- (take_S_r _ _ _ H16), firstn_all2 by lia).
    assert (value_ok (collapse (TFull ts))) as Hv by (by eapply orep_value_ok, (o_branch ko val key cs ts last c t)).
    rewrite Ets in Hv |- *. apply hash_branch; [|done]. apply Forall2_same_length_lookup_2; [rewrite length_take; lia|].
    intros j d u Hd Hu. apply lookup_take_Some in Hu as [Hu Hj]. destruct (lt_eq_lt_dec j last) as [[Hlt'| ->]|Hgt].
    + specialize (Hl j d u Hlt' Hd Hu). destruct d as [d|]; [|done]. destruct Hl as (Et & Ev & Hwu & _). split; [done|].
      exists d. split; [|done]. destruct d; cbn in *. by subst.
    + simplify_eq. destruct (IH Hwt) as (c' & Ec & _ & Ev). split; [done|]. by exists c'.
    + destruct (Hr j d u) as [-> ->]; [lia|done..].
Qed.

(** ** Insertion *)

(** [a] is before [b], and neither is a prefix of the other. *)
Definition klt (a b : bytes) : Prop := exists p x y ra rb, a = p ++ x :: ra /\ b = p ++ y :: rb /\ x < y.

(** All keys of the tree are before [key]. *)
Definition above (t : tree) (key : bytes) : Prop := forall m, member t m -> klt m key.

Lemma getDiffIndex_part p x y ra rb : x <> y -> getDiffIndex (p ++ x :: ra) (p ++ y :: rb) = Ret (length p).
Proof.
  intros Hxy. induction p as [|z p IH]; cbn; [by rewrite (proj2 (Z.eqb_neq _ _) Hxy)|]. by rewrite Z.eqb_refl, IH.
Qed.

Lemma getDiffIndex_all k q : getDiffIndex k (k ++ q) = Ret (length k).
Proof. induction k as [|z k IH]; cbn; [done|]. by rewrite Z.eqb_refl, IH. Qed.

Lemma branch_two ko val key x y n o Tn To : nibble x -> nibble y -> x < y -> sealedAs n Tn -> orep (ko + 1) o To -> wf To ->
  orep ko (mkStack branchNode val key ko (<[Z.to_nat y := Some o]> (<[Z.to_nat x := Some n]> noChildren)))
    (TFull (<[Z.to_nat y := To]> (<[Z.to_nat x := Tn]> (replicate 17 TNil)))).
Proof.
  unfold nibble, noChildren. intros Hx Hy Hxy Hn Ro Hw.
  apply (o_branch _ _ _ _ _ (Z.to_nat y) o To); rewrite ?length_insert, ?length_replicate; try done; try lia.
  - rewrite !list_lookup_insert_ne by lia. done.
  - apply list_lookup_insert_eq. rewrite length_insert, length_replicate. lia.
  - apply list_lookup_insert_eq. rewrite length_insert, length_replicate. lia.
  - intros j d u Hj. rewrite !(list_lookup_insert_ne _ (Z.to_nat y)) by lia. rewrite !list_lookup_insert, !length_replicate.
    case_decide as D1; case_decide as D2; try lia; [intros; by simplify_eq|].
    intros [-> _]%lookup_replicate_1 [-> _]%lookup_replicate_1. done.
  - intros j d u Hj. rewrite !list_lookup_insert_ne by lia. intros [-> _]%lookup_replicate_1 [-> _]%lookup_replicate_1. done.
Qed.

Definition leafTree (k v : bytes) : tree := TShort (k ++ [16]) (TVal v).

Lemma wf_leafTree k v : Forall nibble k -> v <> [] -> wf (leafTree k v).
Proof. intros Hk Hv. apply wf_leaf; [|done]. apply term_app; [done|]. by apply term_16. Qed.

(** A node split where the key parts from its chunk. *)
Lemma split_ok ty val k ko cs p x ra n Tn key y rb v : k = p ++ x :: ra -> drop ko key = p ++ y :: rb -> x < y ->
  nibble x -> nibble y -> Forall nibble p -> Forall nibble rb -> v <> [] -> bytes_ok v -> sealedAs n Tn ->
  exists st', split (mkStack ty val k ko cs) (length p) n (mkStack leafNode v rb (ko + length p + 1) noChildren) key noChildren = Ret st' /\
    forall val', orep ko (mkStack (st_nodeType st') val' (st_key st') (st_keyOffset st') (st_children st'))
      (rest p (TFull (<[Z.to_nat y := leafTree rb v]> (<[Z.to_nat x := Tn]> (replicate 17 TNil))))).
Proof.
  intros -> Ek Hxy Hx Hy Hp Hrb Hv Hb Hn. unfold split. cbn [st_keyOffset st_key st_val].
  assert (key !! (length p + ko)%nat = Some y) as ->.
  { rewrite Nat.add_comm, <- lookup_drop, Ek. by apply list_lookup_middle. }
  rewrite list_lookup_middle by done.
  pose proof (o_leaf (ko + length p + 1) rb v Hrb Hv Hb) as Ro. pose proof (wf_leafTree rb v Hrb Hv) as Hw.
  destruct p as [|z p]; cbn [length Nat.eqb].
  - eexists. split; [reflexivity|]. intros val'. cbn [st_nodeType st_key st_keyOffset st_children rest].
    cbn [length] in Ro. rewrite Nat.add_0_r in Ro |- *. by apply branch_two.
  - eexists. split; [reflexivity|]. intros val'. cbn [st_nodeType st_key st_keyOffset st_children rest].
    replace (take (S (length p)) ((z :: p) ++ x :: ra)) with (z :: p) by (symmetry; apply (take_app_length (z :: p))).
    change (<[0%nat := ?c]> noChildren) with (c :: replicate 15 None). constructor; [done..|]. by apply branch_two.
Qed.

(** The node after the insertion of what [key] has left at depth [ko]. *)
Definition insertedAt (ko : nat) (t : tree) (key v : bytes) (r : outcome stackTrie) : Prop :=
  exists st' t', r = Ret st' /\ orep ko st' t' /\ wf t' /\ updates t t' (drop ko key ++ [16]) (Some v) /\ (isFull t -> isFull t').

Lemma rest_leaf k v : rest (k ++ [16]) (TVal v) = leafTree k v.
Proof. unfold rest, leafTree. destruct (k ++ [16]) eqn:E; [|done]. by destruct k. Qed.

(** Below the terminator, a key parts from the chunk of a leaf in the chunk. *)
Lemma chunk_part k p x ra : k ++ [16] = p ++ x :: ra -> x <> 16 -> exists rk, ra = rk ++ [16] /\ k = p ++ x :: rk.
Proof.
  intros E Hx. destruct ra as [|z ra _] using rev_ind.
  - apply app_inj_tail in E as [_ E]. congruence.
  - exists ra. rewrite app_comm_cons, app_assoc in E. apply app_inj_tail in E as [-> <-]. done.
Qed.

Lemma leafTree_app p x k v : leafTree (p ++ x :: k) v = TShort (p ++ x :: (k ++ [16])) (TVal v).
Proof. unfold leafTree. by rewrite <- app_assoc. Qed.

Lemma term_leaf y k : nibble y -> Forall nibble k -> term (y :: k ++ [16]).
Proof. intros Hy Hk. right. split; [done|]. apply term_app; [done|]. by apply term_16. Qed.

Lemma newLeaf_at ko p y rb key v : drop ko key = p ++ y :: rb ->
  newLeaf (ko + length p + 1) key v = Ret (mkStack leafNode v rb (ko + length p + 1) noChildren).
Proof.
  intros E. unfold newLeaf, sliceFrom. assert (length (drop ko key) = length p + S (length rb))%nat as L by (rewrite E, length_app; done).
  rewrite length_drop in L. rewrite (proj2 (Nat.leb_le _ _)) by lia. cbn [mbind outcome_bind].
  replace (ko + length p + 1)%nat with (ko + S (length p))%nat by lia. by rewrite <- drop_drop, E, drop_middle.
Qed.

Lemma insert_leaf fuel ko k v0 key v : Forall nibble k -> v0 <> [] -> bytes_ok v0 -> Forall nibble (drop ko key) ->
  v <> [] -> bytes_ok v -> above (leafTree k v0) (drop ko key) ->
  insertedAt ko (leafTree k v0) key v (st_insert (S fuel) (mkStack leafNode v0 k ko noChildren) key v).
Proof.
  intros Hk Hv0 Hb0 Hkey Hv Hb Ha. pose proof (wf_leafTree k v0 Hk Hv0) as Hw.
  destruct (Ha (k ++ [16])) as (p & x & y & ra & rb & E1 & E2 & Hxy).
  { split; [by inversion Hw|]. unfold leafTree. rewrite <- (app_nil_r (k ++ [16])) at 2. rewrite tget_short_app. by eexists. }
  rewrite E2 in Hkey. apply Forall_app in Hkey as [Hp [Hy Hrb]%Forall_cons]. assert (x <> 16) as Hx16 by (unfold nibble in Hy; lia).
  destruct (chunk_part k p x ra E1 Hx16) as (rk & -> & Ek). rewrite Ek in Hk. apply Forall_app in Hk as [_ [Hx Hrk]%Forall_cons].
  cbn [st_insert st_nodeType st_keyOffset st_key st_val st_children]. rewrite Ek, E2, getDiffIndex_part by lia. cbn [mbind outcome_bind].
  rewrite (proj2 (Nat.leb_gt _ _)) by (rewrite length_app; cbn; lia).
  pose proof (newLeaf_at 0 p x rk (p ++ x :: rk) v0 eq_refl) as En. cbn [Nat.add] in En. rewrite En. cbn [mbind outcome_bind].
  destruct (hash_leaf (length p + 1) rk v0 noChildren Hrk Hb0) as (n & -> & Hn1 & Hn2). cbn [mbind outcome_bind].
  rewrite (newLeaf_at ko p y rb key v E2). cbn [mbind outcome_bind].
  change (<[0%nat := None]> noChildren) with noChildren.
  destruct (split_ok leafNode v0 (p ++ x :: rk) ko noChildren p x rk n (leafTree rk v0) key y rb v eq_refl E2 Hxy) as (st' & -> & Ho); try done.
  { split_and!; [done..|by apply wf_leafTree|]. by eapply orep_value_ok, (o_leaf 0 rk v0). }
  cbn [mbind outcome_bind]. eexists _, _. split; [reflexivity|]. split; [apply Ho|].
  rewrite E2, <- app_assoc, leafTree_app. cbn [app]. rewrite Ek, leafTree_app in Hw. rewrite <- !rest_leaf.
  split_and!; [|apply updates_branch; [lia|by apply term_leaf|done]|done].
  apply wf_rest; [done|]. apply wf_two; [lia| |by eapply rest_ok].
  rewrite rest_leaf. right. split; [done|by apply wf_leafTree].
Qed.

(** The rest of an extension below the nibble where the key parts from it. *)
Lemma ext_rest p x k c ts ko : orep ko c (TFull ts) -> Forall nibble k -> wf (TFull ts) ->
  exists n n', (if (length p <? length (p ++ x :: k) - 1)%nat then newExt (length p + 1) (p ++ x :: k) c else Ret c) = Ret n /\
    st_hash n = Ret n' /\ sealedAs n' (rest k (TFull ts)).
Proof.
  intros R Hk Hw. pose proof (orep_value_ok _ _ _ R) as Hv. destruct (hash_ok _ _ _ R Hw) as (c' & Ec & Et & Ev).
  destruct k as [|z k].
  - rewrite (proj2 (Nat.ltb_ge _ _)) by (rewrite length_app; cbn; lia). exists c, c'. split_and!; [done..|]. by split_and!.
  - rewrite (proj2 (Nat.ltb_lt _ _)) by (rewrite length_app; cbn; lia). unfold newExt, sliceFrom.
    rewrite (proj2 (Nat.leb_le _ _)) by (rewrite length_app; cbn; lia). cbn [mbind outcome_bind].
    replace (length p + 1)%nat with (S (length p)) by lia. rewrite drop_middle.
    destruct (hash_ext [] (z :: k) (S (length p)) c c' ts (replicate 15 None)) as (n' & En & Et' & Ev'); try done.
    eexists _, n'. split; [reflexivity|]. split; [exact En|]. cbn [rest]. split_and!; [done|done|by constructor|].
    apply value_ok_short; [by right|done].
Qed.

Lemma insert_ext_split fuel ko val p x k c ts key y rb v : Forall nibble (p ++ x :: k) -> orep (ko + length (p ++ x :: k)) c (TFull ts) ->
  wf (TFull ts) -> drop ko key = p ++ y :: rb -> x < y -> Forall nibble (drop ko key) -> v <> [] -> bytes_ok v ->
  insertedAt ko (TShort (p ++ x :: k) (TFull ts)) key v
    (st_insert (S fuel) (mkStack extNode val (p ++ x :: k) ko (Some c :: replicate 15 None)) key v).
Proof.
  intros Hk R Hw E2 Hxy Hkey Hv Hb. assert (wf (TShort (p ++ x :: k) (TFull ts))) as Hws by (constructor; [by destruct p|done..]).
  rewrite E2 in Hkey. apply Forall_app in Hkey as [Hp [Hy Hrb]%Forall_cons]. apply Forall_app in Hk as [_ [Hx Hk]%Forall_cons].
  cbn [st_insert st_nodeType st_keyOffset st_key st_val st_children]. rewrite E2, getDiffIndex_part by lia. cbn [mbind outcome_bind].
  rewrite (proj2 (Nat.eqb_neq _ _)) by (rewrite length_app; cbn; lia).
  destruct (ext_rest p x k c ts _ R Hk Hw) as (n & n' & -> & En & Hn). cbn [mbind outcome_bind]. rewrite En. cbn [mbind outcome_bind].
  rewrite (newLeaf_at ko p y rb key v E2). cbn [mbind outcome_bind]. change (None :: replicate 15 None) with noChildren.
  destruct (split_ok extNode val (p ++ x :: k) ko (Some c :: replicate 15 None) p x k n' (rest k (TFull ts)) key y rb v eq_refl E2 Hxy)
    as (st' & -> & Ho); try done.
  exists st', (rest p (TFull (<[Z.to_nat y := leafTree rb v]> (<[Z.to_nat x := rest k (TFull ts)]> (replicate 17 TNil))))).
  specialize (Ho (st_val st')). rewrite E2, <- app_assoc. cbn [app]. rewrite <- rest_leaf in Ho |- *. split_and!.
  - done.
  - by destruct st'.
  - apply wf_rest; [done|]. apply wf_two; [lia| |by eapply rest_ok]. rewrite rest_leaf. right. split; [done|by apply wf_leafTree].
  - apply updates_branch; [lia|by apply term_leaf|done].
  - done.
Qed.

Lemma insert_ext_below fuel ko val k c ts key q v : k <> [] -> Forall nibble k -> drop ko key = k ++ q ->
  insertedAt (ko + length k) (TFull ts) key v (st_insert fuel c key v) ->
  insertedAt ko (TShort k (TFull ts)) key v (st_insert (S fuel) (mkStack extNode val k ko (Some c :: replicate 15 None)) key v).
Proof.
  intros Hn Hk Ek (c' & t' & Ec & R & Hw & Hup & Hf). cbn [st_insert st_nodeType st_keyOffset st_key st_val st_children].
  rewrite Ek, getDiffIndex_all. cbn [mbind outcome_bind]. rewrite Nat.eqb_refl, Ec. cbn [mbind outcome_bind].
  specialize (Hf I). destruct t' as [| | |ts']; try done. eexists _, (TShort k (TFull ts')). split; [reflexivity|].
  rewrite <- drop_drop, Ek, drop_app_length in Hup. rewrite Ek, <- app_assoc. split_and!; [by constructor|by constructor|by apply updates_short|done].
Qed.

Lemma hashElder_last cs last c c' idx : cs !! last = Some (Some c) -> st_hash c = Ret c' -> (last < idx)%nat ->
  (forall j, (last < j < idx)%nat -> cs !! j = Some None) -> hashElder idx cs = Ret (<[last := Some c']> cs).
Proof.
  intros Hc Eh. induction idx as [|i IH]; [lia|]. intros Hl Hn. cbn [hashElder]. destruct (decide (i = last)) as [->|Hne].
  - by rewrite Hc, Eh.
  - rewrite Hn by lia. apply IH; [lia|]. intros j Hj. apply Hn. lia.
Qed.

Lemma hashElder_same cs idx : (idx <= length cs)%nat ->
  (forall j c, (j < idx)%nat -> cs !! j = Some (Some c) -> st_nodeType c = hashedNode) -> hashElder idx cs = Ret cs.
Proof.
  induction idx as [|i IH]; [done|]. intros Hl Hh. cbn [hashElder]. destruct (lookup_lt_is_Some_2 cs i) as [[c|] Hc]; [lia|..]; rewrite Hc.
  - specialize (Hh i c ltac:(lia) Hc). destruct c; cbn in Hh |- *. subst. cbn. by rewrite list_insert_id.
  - apply IH; [lia|]. intros j c Hj. apply Hh. lia.
Qed.

(** The key goes to the last child that is there. *)
Lemma insert_branch_same fuel ko val bkey cs ts last c t key rb v : orep ko (mkStack branchNode val bkey ko cs) (TFull ts) -> wf (TFull ts) ->
  cs !! last = Some (Some c) -> ts !! last = Some t -> orep (ko + 1) c t -> (last < 16)%nat ->
  (forall j d u, (j < last)%nat -> cs !! j = Some d -> ts !! j = Some u -> match d with None => u = TNil | Some d => sealedAs d u end) ->
  (forall j d u, (last < j < 16)%nat -> cs !! j = Some d -> ts !! j = Some u -> d = None /\ u = TNil) ->
  key !! ko = Some (Z.of_nat last) -> drop ko key = Z.of_nat last :: rb ->
  insertedAt (ko + 1) t key v (st_insert fuel c key v) ->
  insertedAt ko (TFull ts) key v (st_insert (S fuel) (mkStack branchNode val bkey ko cs) key v).
Proof.
  intros R Hw Hc Ht Rc Hl16 Hl Hr Hk Ek (c2 & t2 & Ec & R2 & Hw2 & Hup & _).
  assert (length cs = 16%nat /\ length ts = 17%nat /\ ts !! 16%nat = Some TNil) as (Lc & Lt & H16) by by inversion R.
  cbn [st_insert st_nodeType st_keyOffset st_key st_val st_children]. rewrite Hk, Nat2Z.id, hashElder_same; [|lia|].
  2:{ intros j d Hj Hd. destruct (lookup_lt_is_Some_2 ts j) as [u Hu]; [lia|]. by apply (Hl j _ u Hj Hd Hu). }
  cbn [mbind outcome_bind]. rewrite Hc. cbn [from_option id]. rewrite Ec. cbn [mbind outcome_bind].
  eexists _, (TFull (<[last := t2]> ts)). split; [reflexivity|]. split_and!; [| | |done].
  - apply (o_branch _ _ _ _ _ last c2 t2); rewrite ?length_insert; try done.
    + by rewrite list_lookup_insert_ne by lia.
    + apply list_lookup_insert_eq. lia.
    + apply list_lookup_insert_eq. lia.
    + intros j d u Hj. rewrite !list_lookup_insert_ne by lia. by apply Hl.
    + intros j d u Hj. rewrite !list_lookup_insert_ne by lia. by apply Hr.
  - rewrite <- (Nat2Z.id last) at 1. apply wf_set; [done|]. right. split; [unfold nibble; lia|done].
  - rewrite <- drop_drop, Ek in Hup. change (drop 1 (Z.of_nat last :: rb)) with rb in Hup. rewrite Ek, <- (Nat2Z.id last) at 1.
    apply updates_full with t; [by rewrite Nat2Z.id|lia|done].
Qed.

(** The key goes to a new child, and the last one is hashed. *)
Lemma insert_branch_new fuel ko val bkey cs ts last c t key y rb v : orep ko (mkStack branchNode val bkey ko cs) (TFull ts) -> wf (TFull ts) ->
  cs !! last = Some (Some c) -> ts !! last = Some t -> wf t -> orep (ko + 1) c t ->
  (forall j d u, (j < last)%nat -> cs !! j = Some d -> ts !! j = Some u -> match d with None => u = TNil | Some d => sealedAs d u end) ->
  (forall j d u, (last < j < 16)%nat -> cs !! j = Some d -> ts !! j = Some u -> d = None /\ u = TNil) ->
  key !! ko = Some y -> drop ko key = y :: rb -> Z.of_nat last < y -> nibble y -> Forall nibble rb -> v <> [] -> bytes_ok v ->
  insertedAt ko (TFull ts) key v (st_insert (S (S fuel)) (mkStack branchNode val bkey ko cs) key v).
Proof.
  intros R Hw Hc Ht Hwt Rc Hl Hr Hk Ek Hly Hy Hrb Hv Hb. unfold nibble in Hy.
  assert (length cs = 16%nat /\ length ts = 17%nat /\ ts !! 16%nat = Some TNil) as (Lc & Lt & H16) by by inversion R.
  assert (forall j, (last < j < 16)%nat -> cs !! j = Some None /\ ts !! j = Some TNil) as Hnone.
  { intros j Hj. destruct (lookup_lt_is_Some_2 cs j) as [d Hd]; [lia|]. destruct (lookup_lt_is_Some_2 ts j) as [u Hu]; [lia|].
    destruct (Hr j d u Hj Hd Hu) as [-> ->]. done. }
  destruct (hash_ok _ _ _ Rc Hwt) as (c' & Ec & Et & Ev). set (idx := Z.to_nat y).
  remember (S fuel) as f eqn:Ef. cbn [st_insert st_nodeType st_keyOffset st_key st_val st_children]. rewrite Hk. fold idx.
  rewrite (hashElder_last cs last c c' idx Hc Ec); [|lia|intros j Hj; apply Hnone; lia]. cbn [mbind outcome_bind].
  rewrite list_lookup_insert_ne by lia. rewrite (proj1 (Hnone idx ltac:(lia))). subst f.
  cbn [from_option id st_insert st_nodeType st_keyOffset st_key st_val st_children].
  assert (drop (ko + 1) key = rb) as Erb by (by rewrite <- drop_drop, Ek).
  unfold sliceFrom. rewrite (proj2 (Nat.leb_le _ _)) by (apply lookup_lt_Some in Hk; lia). cbn [mbind outcome_bind]. rewrite Erb.
  eexists _, (TFull (<[idx := leafTree rb v]> ts)). split; [reflexivity|]. pose proof (wf_leafTree rb v Hrb Hv) as Hwl. split_and!; [| | |done].
  - apply (o_branch _ _ _ _ _ idx (mkStack leafNode v rb (ko + 1) noChildren) (leafTree rb v)); rewrite ?length_insert; try done; try lia.
    + by rewrite list_lookup_insert_ne by lia.
    + apply list_lookup_insert_eq. rewrite length_insert. lia.
    + apply list_lookup_insert_eq. lia.
    + by constructor.
    + intros j d u Hj. rewrite !(list_lookup_insert_ne _ idx) by lia. destruct (lt_eq_lt_dec j last) as [[Hlt| ->]|Hgt].
      * rewrite list_lookup_insert_ne by lia. by apply Hl.
      * rewrite list_lookup_insert_eq by lia. intros [= <-] Hu. simplify_eq. split_and!; [done..|]. by eapply orep_value_ok.
      * rewrite list_lookup_insert_ne by lia. destruct (Hnone j ltac:(lia)) as [-> ->]. by intros [= <-] [= <-].
    + intros j d u Hj. rewrite !list_lookup_insert_ne by lia. destruct (Hnone j ltac:(lia)) as [-> ->]. by intros [= <-] [= <-].
  - apply wf_set; [done|]. right. done.
  - rewrite Ek. cbn [app]. apply updates_full with TNil; [apply Hnone; lia|lia|]. rewrite <- rest_leaf. apply updates_leaf.
Qed.

Lemma klt_app k a b : klt (k ++ a) (k ++ b) -> klt a b.
Proof.
  induction k as [|z k IH]; [done|]. intros (p & x & y & ra & rb & E1 & E2 & Hxy). apply IH. destruct p as [|z' p].
  - injection E1 as <- _. injection E2 as <- _. lia.
  - injection E1 as _ E1. injection E2 as _ E2. by exists p, x, y, ra, rb.
Qed.

Lemma insert_ext fuel ko val k c ts key v : k <> [] -> Forall nibble k -> orep (ko + length k) c (TFull ts) -> wf (TFull ts) ->
  Forall nibble (drop ko key) -> above (TShort k (TFull ts)) (drop ko key) -> v <> [] -> bytes_ok v ->
  (forall q, drop ko key = k ++ q -> above (TFull ts) q -> insertedAt (ko + length k) (TFull ts) key v (st_insert fuel c key v)) ->
  insertedAt ko (TShort k (TFull ts)) key v (st_insert (S fuel) (mkStack extNode val k ko (Some c :: replicate 15 None)) key v).
Proof.
  intros Hn Hk R Hw Hkey Ha Hv Hb IH.
  assert (forall m, member (TFull ts) m -> member (TShort k (TFull ts)) (k ++ m)) as Hmem.
  { intros m [Hm Hg]. split; [by apply term_app|by rewrite tget_short_app]. }
  destruct (wf_member _ Hw) as [m Hm]. destruct (Ha _ (Hmem m Hm)) as (p & x & y & ra & rb & E1 & E2 & Hxy).
  apply app_eq_app in E1 as (l & [[-> El]|[-> El]]).
  - destruct l as [|x' rk].
    + rewrite app_nil_r in *. apply (insert_ext_below _ _ _ _ _ _ _ (y :: rb)); [done..|]. apply (IH (y :: rb)); [done|].
      intros m' Hm'. apply (klt_app p). rewrite <- E2. by apply Ha, Hmem.
    + injection El as <- _. by apply (insert_ext_split _ _ _ _ _ _ _ _ _ y rb).
  - rewrite <- app_assoc in E2. apply (insert_ext_below _ _ _ _ _ _ _ (l ++ y :: rb)); [done..|]. apply (IH (l ++ y :: rb)); [done|].
    intros m' Hm'. apply (klt_app k). rewrite <- E2. by apply Ha, Hmem.
Qed.

Lemma st_insert_ok fuel : forall ko st t key v, orep ko st t -> wf t -> Forall nibble (drop ko key) -> above t (drop ko key) ->
  v <> [] -> bytes_ok v -> (length (drop ko key) < fuel)%nat -> insertedAt ko t key v (st_insert fuel st key v).
Proof.
  induction fuel as [|fuel IH]; intros ko st t key v R Hw Hkey Ha Hv Hb Hf; [lia|].
  pose proof R as R0. destruct R as [ko k v0 Hk Hv0 Hb0|ko val k c ts Hn Hk R|ko val bkey cs ts last c t Lc Lt H16 Hlt Hc Ht Hwt R Hl Hr].
  - by apply insert_leaf.
  - inversion Hw as [|? ? _ _ Hwf|]; subst. apply insert_ext; try done. intros q Eq Hq.
    assert (drop (ko + length k) key = q) as Ed by (by rewrite <- drop_drop, Eq, drop_app_length).
    apply IH; try done; rewrite Ed; [|done|].
    + rewrite Eq in Hkey. by apply Forall_app in Hkey as [_ ?].
    + rewrite Eq, length_app in Hf. destruct k; [done|]. cbn in Hf. lia.
  - destruct (wf_member _ Hwt) as [m Hm]. assert (forall m, member t m -> member (TFull ts) (Z.of_nat last :: m)) as Hmem.
    { intros m' [Hm1 Hm2]. split; [right; split; [unfold nibble; lia|done]|].
      rewrite (tget_full_cons ts (Z.of_nat last) m' t); [done|by rewrite Nat2Z.id|lia]. }
    destruct (Ha _ (Hmem m Hm)) as (p & x & y & ra & rb & E1 & E2 & Hxy).
    assert (exists y0 rb0, drop ko key = y0 :: rb0) as (y0 & rb0 & E0) by (rewrite E2; destruct p; by do 2 eexists).
    assert (key !! ko = Some y0) as Hk0 by (rewrite <- (Nat.add_0_r ko), <- lookup_drop, E0; done).
    rewrite E0 in Hkey. apply Forall_cons in Hkey as [Hy0 Hrb0].
    destruct p as [|z p].
    + injection E1 as <- _. rewrite E0 in E2. injection E2 as -> ->. destruct fuel as [|fuel]; [rewrite E0 in Hf; cbn in Hf; lia|].
      by apply (insert_branch_new fuel ko val bkey cs ts last c t key y rb).
    + injection E1 as <- _. rewrite E0 in E2. injection E2 as -> Erb.
      apply (insert_branch_same fuel ko val bkey cs ts last c t key rb0); try done.
      assert (drop (ko + 1) key = rb0) as Ed by (by rewrite <- drop_drop, E0).
      apply IH; try done; rewrite Ed; [done| |rewrite E0 in Hf; cbn in Hf; lia].
      intros m' Hm'. apply (klt_app [Z.of_nat last]). cbn [app]. rewrite <- E0. by apply Ha, Hmem.
Qed.

(** ** Tries from the root *)

(** The stack trie holds the map. *)
Definition stackHolds (st : stackTrie) (m : gmap bytes bytes) : Prop :=
  exists t, contents t m /\ ((st = NewStackTrie /\ t = TNil) \/ (orep 0 st t /\ wf t)).

Lemma keybytes_take key : take (length (keybytesToHex key) - 1) (keybytesToHex key) ++ [16] = keybytesToHex key.
Proof. unfold keybytesToHex. by rewrite length_app, Nat.add_sub, take_app_length. Qed.

Lemma keybytes_nibbles key : bytes_ok key -> Forall nibble (take (length (keybytesToHex key) - 1) (keybytesToHex key)).
Proof. intros Hk. unfold keybytesToHex. rewrite length_app, Nat.add_sub, take_app_length. by apply nibbles_ok. Qed.

(** A key above all others is added. *)
Lemma TryUpdate_ok st m key v : stackHolds st m -> bytes_ok key -> v <> [] -> bytes_ok v ->
  (forall k, bytes_ok k -> is_Some (m !! k) -> klt (keybytesToHex k) (take (length (keybytesToHex key) - 1) (keybytesToHex key))) ->
  exists st', st_TryUpdate st key v = Ret st' /\ stackHolds st' (<[key := v]> m).
Proof.
  intros (t & C & Hst) Hk Hv Hb Ha. unfold st_TryUpdate. set (k := take _ _) in *.
  pose proof (keybytes_take key) as Ek. fold k in Ek. pose proof (keybytes_nibbles key Hk) as Hn. fold k in Hn.
  assert (forall st', match v with [] => Panic | _ => st' end = st') as -> by (by destruct v).
  assert (forall t', wf t' -> updates t t' (k ++ [16]) (Some v) -> contents t' (<[key := v]> m)) as Hc.
  { intros t' _ Hup. rewrite Ek in Hup. by apply (contents_updates t t' m key (Some v)). }
  destruct Hst as [[-> ->]|[R Hw]].
  - eexists. split; [reflexivity|]. exists (leafTree k v). pose proof (wf_leafTree k v Hn Hv) as Hw.
    split; [|right; split; [by constructor|done]]. apply Hc; [done|]. rewrite <- rest_leaf. apply updates_leaf.
  - destruct (st_insert_ok (S (length k)) 0 st t k v R Hw) as (st' & t' & -> & R' & Hw' & Hup & _); try done; [|change (drop 0 k) with k; lia|].
    + intros m' [Hm1 [w Hm2]]. destruct (proj1 (C m' w Hm1) Hm2) as (key' & Hk' & -> & Hl). apply Ha; [done|by eexists].
    + eexists. split; [reflexivity|]. exists t'. split; [by apply Hc|]. by right.
Qed.

(** The root of a stack trie is the one of the ordinary trie. *)
Lemma Hash_ok st m : stackHolds st m -> exists st' t, contents t m /\ wf0 t /\ st_Hash st = Ret (st', rootOf t).
Proof.
  intros (t & C & [[-> ->]|[R Hw]]).
  - eexists _, TNil. split; [done|]. split; [by left|]. reflexivity.
  - destruct (hash_ok 0 st t R Hw) as (st' & E & _ & Ev). exists st', t. split; [done|]. split; [by right|].
    unfold st_Hash. rewrite E. cbn [mbind outcome_bind]. do 2 f_equal. rewrite (rootOf_wf t Hw), Ev. f_equal.
    unfold sealed. cbv zeta. destruct (Nat.ltb_spec (length (encodeOrNothing (collapse t))) 32) as [Hl|Hl].
    + rewrite (proj2 (Nat.eqb_neq _ _)) by lia. reflexivity.
    + rewrite length_hashBytes. reflexivity.
Qed.

End StackTrie.
