(* ===== verification/Block.v ===== *)
(** * Headers and blocks (core/types/block.go)

    The caches of a block and its reception marks are left out. *)

From S2P Require Import Prelude Rlp Params Transaction.

Record Header := mkHeader {
  h_ParentHash : Hash;
  h_UncleHash : Hash;
  h_Coinbase : Address;
  h_Root : Hash;
  h_TxHash : Hash;
  h_ReceiptHash : Hash;
  h_Bloom : bytes;
  h_Difficulty : Z;
  h_Number : Z;
  h_GasLimit : Z;
  h_GasUsed : Z;
  h_Time : Z;
  h_Extra : bytes;
  h_MixDigest : Hash;
  h_Nonce : bytes
}.
#[export] Instance eta_Header : Eta Header := fun r =>
  mkHeader (h_ParentHash r) (h_UncleHash r) (h_Coinbase r) (h_Root r) (h_TxHash r) (h_ReceiptHash r)
    (h_Bloom r) (h_Difficulty r) (h_Number r) (h_GasLimit r) (h_GasUsed r) (h_Time r) (h_Extra r)
    (h_MixDigest r) (h_Nonce r).

Record Block := mkBlock {
  b_header : Header;
  b_uncles : list Header;
  b_transactions : list Transaction
}.

Definition rlpHeader (h : Header) : value :=
  VList [rlpHash32 (h_ParentHash h); rlpHash32 (h_UncleHash h); rlpAddress (h_Coinbase h);
         rlpHash32 (h_Root h); rlpHash32 (h_TxHash h); rlpHash32 (h_ReceiptHash h);
         VByteArray (h_Bloom h); VBig (Some (h_Difficulty h)); VBig (Some (h_Number h));
         VUint (h_GasLimit h); VUint (h_GasUsed h); VUint (h_Time h); VBytes (h_Extra h);
         rlpHash32 (h_MixDigest h); VByteArray (h_Nonce h)].

Section WithCrypto.
Context `{Crypto}.

Definition HeaderHash (h : Header) : Hash := rlpHash (rlpHeader h).
Definition BlockHash (b : Block) : Hash := HeaderHash (b_header b).
(** CalcUncleHash of no uncles. *)
Definition EmptyUncleHash : Hash := rlpHash (VList []).
Definition CalcUncleHash (uncles : list Header) : Hash :=
  match uncles with [] => EmptyUncleHash | _ => rlpHash (VList (rlpHeader <$> uncles)) end.
Definition NumberU64 (b : Block) : Z := u64 (h_Number (b_header b)).

End WithCrypto.
