(* ===== verification/AccessList.v ===== *)
(** * The per-transaction access list (core/state/access_list.go)

    [addresses] maps an address to the index of its slot set in [slots], or to
    -1 when no slot of it is listed.  The journal undoes additions with
    [DeleteSlot] and [DeleteAddress], in reverse order; a lookup of a slot set
    out of range is a Go panic. *)

From S2P Require Import Prelude Transaction.

Record accessList := mkAccessList {
  addresses : gmap Address Z;
  slots : list (gset Hash)
}.
#[export] Instance eta_accessList : Eta accessList :=
  fun r => mkAccessList (addresses r) (slots r).

Definition newAccessList : accessList := mkAccessList ∅ [].

Definition ContainsAddress (al : accessList) (a : Address) : bool :=
  bool_decide (is_Some (addresses al !! a)).

(** Contains returns the presence of the address and of the slot. *)
Definition Contains (al : accessList) (a : Address) (slot : Hash) : outcome (bool * bool) :=
  match addresses al !! a with
  | None => Ret (false, false)
  | Some idx =>
      if idx =? -1 then Ret (true, false)
      else if idx <? 0 then Panic
      else match slots al !! Z.to_nat idx with
           | None => Panic
           | Some m => Ret (true, bool_decide (slot ∈ m))
           end
  end.

Definition AddAddress (al : accessList) (a : Address) : accessList * bool :=
  match addresses al !! a with
  | Some _ => (al, false)
  | None => (al <| addresses := <[a := -1]> (addresses al) |>, true)
  end.

(** AddSlot returns whether the address and whether the slot were added. *)
Definition AddSlot (al : accessList) (a : Address) (slot : Hash)
  : outcome (accessList * bool * bool) :=
  let fresh (addrPresent : bool) :=
    Ret (mkAccessList (<[a := Z.of_nat (length (slots al))]> (addresses al))
                      (slots al ++ [{[ slot ]}]), negb addrPresent, true) in
  match addresses al !! a with
  | None => fresh false
  | Some idx =>
      if idx =? -1 then fresh true
      else if idx <? 0 then Panic
      else match slots al !! Z.to_nat idx with
           | None => Panic
           | Some m =>
               if decide (slot ∈ m) then Ret (al, false, false)
               else Ret (al <| slots := <[Z.to_nat idx := {[ slot ]} ∪ m]> (slots al) |>, false, true)
           end
  end.

Definition DeleteSlot (al : accessList) (a : Address) (slot : Hash) : outcome accessList :=
  match addresses al !! a with
  | None => Panic
  | Some idx =>
      if idx <? 0 then Panic
      else match slots al !! Z.to_nat idx with
           | None => Panic
           | Some m =>
               let m := m ∖ {[ slot ]} in
               if decide (m = ∅)
               then Ret (mkAccessList (<[a := -1]> (addresses al)) (take (Z.to_nat idx) (slots al)))
               else Ret (al <| slots := <[Z.to_nat idx := m]> (slots al) |>)
           end
  end.

Definition DeleteAddress (al : accessList) (a : Address) : accessList :=
  al <| addresses := delete a (addresses al) |>.

(** ** Invariant

    Indices are -1 or in range, no two addresses share a slot set and no slot
    set is empty. *)
Record al_ok (al : accessList) : Prop := {
  al_idx : forall a i, addresses al !! a = Some i -> -1 <= i < Z.of_nat (length (slots al));
  al_inj : forall a b i, addresses al !! a = Some i -> addresses al !! b = Some i ->
             i <> -1 -> a = b;
  al_ne : Forall (fun m => m <> ∅) (slots al)
}.

Lemma newAccessList_ok : al_ok newAccessList.
Proof. split; simpl; intros; rewrite ?lookup_empty in *; by try constructor. Qed.

Lemma AddAddress_ok al a : al_ok al -> al_ok (AddAddress al a).1.
Proof.
  intros [H1 H2 H3]. unfold AddAddress. destruct (addresses al !! a) eqn:E; [done|].
  split; simpl; [| |done].
  - intros b i. rewrite lookup_insert. case_decide; [|by apply H1]. intros [= <-]. lia.
  - intros b c i. rewrite !lookup_insert. repeat case_decide; naive_solver.
Qed.

(** The undo of an addition restores the list exactly. *)
Lemma DeleteAddress_AddAddress al al' a :
  AddAddress al a = (al', true) -> DeleteAddress al' a = al.
Proof.
  unfold AddAddress, DeleteAddress. destruct al as [ad sl]. simpl.
  destruct (ad !! a) eqn:E; intros [= <-]. unfold setf. simpl.
  f_equal. by rewrite delete_insert_id.
Qed.

Lemma AddSlot_spec al a slot :
  al_ok al -> exists al' b1 b2, AddSlot al a slot = Ret (al', b1, b2) /\ al_ok al' /\
    (b2 = false -> al' = al /\ b1 = false) /\
    (b2 = true -> exists al1, DeleteSlot al' a slot = Ret al1 /\
                  (if b1 then DeleteAddress al1 a else al1) = al).
Proof.
  intros [H1 H2 H3]. unfold AddSlot.
  assert (al_ok (mkAccessList (<[a := Z.of_nat (length (slots al))]> (addresses al))
      (slots al ++ [{[ slot ]}]))) as Hfresh.
  { split; simpl.
    - intros b i. rewrite lookup_insert, length_app. simpl.
      case_decide; [intros [= <-]; lia|]. intros Hb%H1. lia.
    - intros b c i. rewrite !lookup_insert. repeat case_decide; try naive_solver.
      + intros [= <-] Hc%H1. lia.
      + intros Hc%H1 [= <-]. lia.
    - apply Forall_app. split; [done|]. constructor; [set_solver|constructor]. }
  assert (DeleteSlot (mkAccessList (<[a := Z.of_nat (length (slots al))]> (addresses al))
        (slots al ++ [{[ slot ]}])) a slot = Ret (mkAccessList (<[a := -1]> (addresses al)) (slots al))) as Hdel.
  { unfold DeleteSlot. simpl. rewrite lookup_insert_eq.
    destruct (Z.ltb_spec (Z.of_nat (length (slots al))) 0); [lia|].
    rewrite Nat2Z.id, list_lookup_middle by done.
    rewrite difference_diag_L, decide_True by done.
    by rewrite insert_insert_eq, take_app_length. }
  destruct al as [ad sl]; simpl in *.
  destruct (ad !! a) as [idx|] eqn:E.
  - destruct (Z.eqb_spec idx (-1)) as [->|Hidx].
    + eexists _, _, _. split; [done|]. split; [exact Hfresh|]. split; [done|].
      intros _. eexists. split; [exact Hdel|]. simpl. f_equal. by apply insert_id.
    + pose proof (H1 _ _ E). destruct (Z.ltb_spec idx 0); [lia|].
      destruct (lookup_lt_is_Some_2 sl (Z.to_nat idx)) as [m Hm]; [lia|]. rewrite Hm.
      case_decide as Hin.
      { eexists _, _, _. split; [done|]. split; [done|]. done. }
      eexists _, _, _. split; [done|]. split; [|split; [done|]].
      * split; simpl; [by intros; rewrite length_insert; eauto|done|].
        apply Forall_insert; [done|]. set_solver.
      * intros _. unfold DeleteSlot. simpl. rewrite E.
        destruct (Z.ltb_spec idx 0); [lia|].
        rewrite list_lookup_insert_eq by (apply lookup_lt_Some in Hm; done).
        assert (({[slot]} ∪ m) ∖ {[slot]} = m) as -> by set_solver.
        rewrite decide_False by (by apply (Forall_lookup_1 _ _ _ _ H3 Hm)).
        eexists. split; [done|]. unfold setf. simpl. f_equal.
        by rewrite list_insert_insert_eq, list_insert_id.
  - eexists _, _, _. split; [done|]. split; [exact Hfresh|]. split; [done|].
    intros _. eexists. split; [exact Hdel|]. simpl. unfold DeleteAddress, setf. simpl.
    f_equal. by rewrite delete_insert_id.
Qed.
