(* ===== verification/StateDB.v ===== *)
(** * The journalled account state (core/state)

    [stateObject] and [StateDB] follow state_object.go and statedb.go, the
    journal follows journal.go.  An object in the live map is a Go pointer that
    the map owns: a method on it is a function that writes the object back.
    Reads load an account into the live map and storage slots into
    [originStorage]; the getters return the value and drop the cache fill,
    which [getDeletedStateObject_at] and [GetCommittedState_equiv] show to be
    unobservable, while the setters keep it.

    The tries are seen through the interface of package trie: a finite map
    with a root hash.  Contract code and storage tries come from the database,
    the class [Database].  The snapshot tree and the prefetcher, which are
    read caches, are switched off ([--cache.snapshot 0] in the README), and
    database reads do not fail. *)

From S2P Require Import Prelude Rlp Transaction AccessList.

(** ** Data *)

Record Account := mkAccount {
  a_Nonce : Z; a_Balance : Z; a_Root : Hash; a_CodeHash : Hash
}.
#[export] Instance eta_Account : Eta Account :=
  fun r => mkAccount (a_Nonce r) (a_Balance r) (a_Root r) (a_CodeHash r).

#[export] Instance Account_eq_dec : EqDecision Account.
Proof. solve_decision. Defined.

Class Database := {
  ContractCode : Hash -> option bytes;          (* code by its hash *)
  OpenStorageTrie : Hash -> gmap Hash Hash;     (* storage trie by its root *)
  storageRoot : gmap Hash Hash -> Hash;
  accountRoot : gmap Address Account -> Hash
}.

(** An instance for concrete runs: no code and no storage in the database. *)
Definition toyDatabase : Database := {|
  ContractCode _ := None; OpenStorageTrie _ := ∅;
  storageRoot t := Z.of_nat (base.size t); accountRoot t := Z.of_nat (base.size t)
|}.

Definition emptyRoot : Hash :=
  0x56e81f171bcc55a6ff8345e692c0f86e5b48e01b996cadc001622fb5e363b421.

Abbreviation Storage := (gmap Hash Hash).

Record stateObject := mkStateObject {
  so_address : Address;
  so_data : Account;
  so_trie : option Storage;        (* the storage trie, nil until first use *)
  so_code : option bytes;          (* nil until loaded or set *)
  originStorage : Storage;
  pendingStorage : Storage;
  dirtyStorage : Storage;
  fakeStorage : option Storage;
  dirtyCode : bool;
  suicided : bool;
  deleted : bool
}.
#[export] Instance eta_stateObject : Eta stateObject := fun r =>
  mkStateObject (so_address r) (so_data r) (so_trie r) (so_code r) (originStorage r)
    (pendingStorage r) (dirtyStorage r) (fakeStorage r) (dirtyCode r) (suicided r) (deleted r).

Record Log := mkLog {
  l_Address : Address; l_Topics : list Hash; l_Data : bytes; l_BlockNumber : Z;
  l_TxHash : Hash; l_TxIndex : Z; l_BlockHash : Hash; l_Index : Z
}.
#[export] Instance eta_Log : Eta Log := fun r =>
  mkLog (l_Address r) (l_Topics r) (l_Data r) (l_BlockNumber r) (l_TxHash r) (l_TxIndex r)
    (l_BlockHash r) (l_Index r).

Inductive journalEntry :=
| createObjectChange (account : Address)
| resetObjectChange (prev : stateObject) (prevdestruct : bool)
| suicideChange (account : Address) (prev : bool) (prevbalance : Z)
| balanceChange (account : Address) (prev : Z)
| nonceChange (account : Address) (prev : Z)
| storageChange (account : Address) (key prevalue : Hash)
| codeChange (account : Address) (prevcode : option bytes) (prevhash : Hash)
| refundChange (prev : Z)
| addLogChange (txhash : Hash)
| addPreimageChange (hash : Hash)
| touchChange (account : Address)
| accessListAddAccountChange (address : Address)
| accessListAddSlotChange (address : Address) (slot : Hash).

Definition dirtied (e : journalEntry) : option Address :=
  match e with
  | createObjectChange a | suicideChange a _ _ | balanceChange a _ | nonceChange a _
  | storageChange a _ _ | codeChange a _ _ | touchChange a => Some a
  | _ => None
  end.

Record revision := mkRevision { rev_id : Z; journalIndex : nat }.

Record StateDB := mkStateDB {
  trie : gmap Address Account;
  stateObjects : gmap Address stateObject;
  stateObjectsPending : gset Address;
  stateObjectsDirty : gset Address;
  refund : Z;
  thash : Hash; bhash : Hash; txIndex : Z;
  logs : gmap Hash (list Log);
  logSize : Z;
  preimages : gmap Hash bytes;
  sdb_accessList : accessList;
  entries : list journalEntry;       (* journal.entries *)
  dirties : gmap Address Z;          (* journal.dirties *)
  validRevisions : list revision;
  nextRevisionId : Z
}.
#[export] Instance eta_StateDB : Eta StateDB := fun r =>
  mkStateDB (trie r) (stateObjects r) (stateObjectsPending r) (stateObjectsDirty r) (refund r)
    (thash r) (bhash r) (txIndex r) (logs r) (logSize r) (preimages r) (sdb_accessList r)
    (entries r) (dirties r) (validRevisions r) (nextRevisionId r).

(** New creates a state on top of the trie of a root. *)
Definition New (tr : gmap Address Account) : StateDB :=
  mkStateDB tr ∅ ∅ ∅ 0 0 0 0 ∅ 0 ∅ newAccessList [] ∅ [] 0.

(** ** The journal *)

Definition journal_append (s : StateDB) (e : journalEntry) : StateDB :=
  let s := s <| entries := entries s ++ [e] |> in
  match dirtied e with
  | Some a => s <| dirties := <[a := default 0 (dirties s !! a) + 1]> (dirties s) |>
  | None => s
  end.

(** journal.dirty *)
Definition journal_dirty (s : StateDB) (a : Address) : StateDB :=
  s <| dirties := <[a := default 0 (dirties s !! a) + 1]> (dirties s) |>.

Section WithDatabase.
Context `{Crypto} `{Database}.

Definition emptyCodeHash : Hash := keccak256 [].

(** ** State objects *)

(** newObject: [None] is the zero [Account{}]. *)
Definition newObject (a : Address) (data : option Account) : stateObject :=
  let data := match data with
              | None => mkAccount 0 0 emptyRoot emptyCodeHash
              | Some d => if a_Root d =? 0 then d <| a_Root := emptyRoot |> else d
              end in
  mkStateObject a data None None ∅ ∅ ∅ None false false false.

Definition empty (o : stateObject) : bool :=
  (a_Nonce (so_data o) =? 0) && (a_Balance (so_data o) =? 0)
  && (a_CodeHash (so_data o) =? emptyCodeHash).

Definition setBalance (o : stateObject) (amount : Z) : stateObject :=
  o <| so_data := (so_data o) <| a_Balance := amount |> |>.
Definition setNonce (o : stateObject) (nonce : Z) : stateObject :=
  o <| so_data := (so_data o) <| a_Nonce := nonce |> |>.
Definition setCode (o : stateObject) (codeHash : Hash) (code : option bytes) : stateObject :=
  o <| so_code := code |> <| so_data := (so_data o) <| a_CodeHash := codeHash |> |>
    <| dirtyCode := true |>.
Definition setState (o : stateObject) (key value : Hash) : stateObject :=
  o <| dirtyStorage := <[key := value]> (dirtyStorage o) |>.

Definition getTrie (o : stateObject) : stateObject * Storage :=
  match so_trie o with
  | Some t => (o, t)
  | None => let t := OpenStorageTrie (a_Root (so_data o)) in (o <| so_trie := Some t |>, t)
  end.

(** GetCommittedState, with the cache fills it makes. *)
Definition objGetCommittedState (o : stateObject) (key : Hash) : stateObject * Hash :=
  match fakeStorage o with
  | Some f => (o, default 0 (f !! key))
  | None =>
      match pendingStorage o !! key with
      | Some v => (o, v)
      | None =>
          match originStorage o !! key with
          | Some v => (o, v)
          | None =>
              let '(o, t) := getTrie o in
              let value := default 0 (t !! key) in
              (o <| originStorage := <[key := value]> (originStorage o) |>, value)
          end
      end
  end.

Definition objGetState (o : stateObject) (key : Hash) : stateObject * Hash :=
  match fakeStorage o with
  | Some f => (o, default 0 (f !! key))
  | None =>
      match dirtyStorage o !! key with
      | Some v => (o, v)
      | None => objGetCommittedState o key
      end
  end.

(** Code, with the code cache it fills. *)
Definition objCode (o : stateObject) : stateObject * option bytes :=
  match so_code o with
  | Some c => (o, Some c)
  | None =>
      if a_CodeHash (so_data o) =? emptyCodeHash then (o, None)
      else let code := ContractCode (a_CodeHash (so_data o)) in (o <| so_code := code |>, code)
  end.

(** finalise moves the dirty slots into the pending area. *)
Definition objFinalise (o : stateObject) : stateObject :=
  o <| pendingStorage := dirtyStorage o ∪ pendingStorage o |> <| dirtyStorage := ∅ |>.

(** updateTrie writes the pending slots that differ from the original ones
    into the storage trie; the boolean tells whether a trie is returned. *)
Definition updateTrie (o : stateObject) : stateObject * bool :=
  let o := objFinalise o in
  if decide (pendingStorage o = ∅) then (o, bool_decide (is_Some (so_trie o)))
  else
    let '(o, t) := getTrie o in
    let step (acc : Storage * Storage) (kv : Hash * Hash) :=
      let '(t, orig) := acc in let '(key, value) := kv in
      if value =? default 0 (orig !! key) then (t, orig)
      else (if value =? 0 then delete key t else <[key := value]> t, <[key := value]> orig) in
    let '(t, orig) := fold_left step (map_to_list (pendingStorage o)) (t, originStorage o) in
    (o <| so_trie := Some t |> <| originStorage := orig |> <| pendingStorage := ∅ |>, true).

Definition updateRoot (o : stateObject) : stateObject :=
  let '(o, loaded) := updateTrie o in
  match so_trie o with
  | Some t => if loaded then o <| so_data := (so_data o) <| a_Root := storageRoot t |> |> else o
  | None => o
  end.

Definition deepCopy (o : stateObject) : stateObject :=
  (newObject (so_address o) (Some (so_data o)))
    <| so_trie := so_trie o |> <| so_code := so_code o |>
    <| dirtyStorage := dirtyStorage o |> <| originStorage := originStorage o |>
    <| pendingStorage := pendingStorage o |> <| suicided := suicided o |>
    <| dirtyCode := dirtyCode o |> <| deleted := deleted o |>.

(** ** Lookup of state objects *)

Definition setStateObject (s : StateDB) (o : stateObject) : StateDB :=
  s <| stateObjects := <[so_address o := o]> (stateObjects s) |>.

Definition getDeletedStateObject (s : StateDB) (a : Address) : StateDB * option stateObject :=
  match stateObjects s !! a with
  | Some o => (s, Some o)
  | None =>
      match trie s !! a with
      | None => (s, None)
      | Some data => let o := newObject a (Some data) in (setStateObject s o, Some o)
      end
  end.

Definition getStateObject (s : StateDB) (a : Address) : StateDB * option stateObject :=
  let '(s, o) := getDeletedStateObject s a in
  match o with
  | Some o => if deleted o then (s, None) else (s, Some o)
  | None => (s, None)
  end.

(** createObject returns the new object and the live one it overwrote. *)
Definition createObject (s : StateDB) (a : Address) : StateDB * stateObject * option stateObject :=
  let '(s, prev) := getDeletedStateObject s a in
  let newobj := setNonce (newObject a None) 0 in
  let s := match prev with
           | None => journal_append s (createObjectChange a)
           | Some p => journal_append s (resetObjectChange p false)
           end in
  let s := setStateObject s newobj in
  (s, newobj, match prev with Some p => if deleted p then None else Some p | None => None end).

Definition GetOrNewStateObject (s : StateDB) (a : Address) : StateDB * stateObject :=
  let '(s, o) := getStateObject s a in
  match o with
  | Some o => (s, o)
  | None => let '(s, o, _) := createObject s a in (s, o)
  end.

(** CreateAccount carries the balance of an existing account over. *)
Definition CreateAccount (s : StateDB) (a : Address) : StateDB :=
  let '(s, newObj, prev) := createObject s a in
  match prev with
  | Some p => setStateObject s (setBalance newObj (a_Balance (so_data p)))
  | None => s
  end.

(** ** Getters *)

Definition Exist (s : StateDB) (a : Address) : bool :=
  bool_decide (is_Some (getStateObject s a).2).
Definition Empty (s : StateDB) (a : Address) : bool :=
  match (getStateObject s a).2 with Some o => empty o | None => true end.
Definition GetBalance (s : StateDB) (a : Address) : Z :=
  match (getStateObject s a).2 with Some o => a_Balance (so_data o) | None => 0 end.
Definition GetNonce (s : StateDB) (a : Address) : Z :=
  match (getStateObject s a).2 with Some o => a_Nonce (so_data o) | None => 0 end.
Definition GetCode (s : StateDB) (a : Address) : option bytes :=
  match (getStateObject s a).2 with Some o => (objCode o).2 | None => None end.
Definition GetCodeSize (s : StateDB) (a : Address) : Z :=
  Z.of_nat (length (default [] (GetCode s a))).
Definition GetCodeHash (s : StateDB) (a : Address) : Hash :=
  match (getStateObject s a).2 with Some o => a_CodeHash (so_data o) | None => 0 end.
Definition GetState (s : StateDB) (a : Address) (key : Hash) : Hash :=
  match (getStateObject s a).2 with Some o => (objGetState o key).2 | None => 0 end.
Definition GetCommittedState (s : StateDB) (a : Address) (key : Hash) : Hash :=
  match (getStateObject s a).2 with Some o => (objGetCommittedState o key).2 | None => 0 end.
Definition HasSuicided (s : StateDB) (a : Address) : bool :=
  match (getStateObject s a).2 with Some o => suicided o | None => false end.
Definition GetRefund (s : StateDB) : Z := refund s.
Definition GetLogs (s : StateDB) (h : Hash) : list Log := default [] (logs s !! h).

(** ** Setters *)

Definition ripemd : Address := 3.

Definition touch (s : StateDB) (o : stateObject) : StateDB :=
  let s := journal_append s (touchChange (so_address o)) in
  if so_address o =? ripemd then journal_dirty s (so_address o) else s.

Definition objSetBalance (s : StateDB) (o : stateObject) (amount : Z) : StateDB :=
  let s := journal_append s (balanceChange (so_address o) (a_Balance (so_data o))) in
  setStateObject s (setBalance o amount).

Definition AddBalance (s : StateDB) (a : Address) (amount : Z) : StateDB :=
  let '(s, o) := GetOrNewStateObject s a in
  if amount =? 0 then (if empty o then touch s o else s)
  else objSetBalance s o (a_Balance (so_data o) + amount).

Definition SubBalance (s : StateDB) (a : Address) (amount : Z) : StateDB :=
  let '(s, o) := GetOrNewStateObject s a in
  if amount =? 0 then s else objSetBalance s o (a_Balance (so_data o) - amount).

Definition SetBalance (s : StateDB) (a : Address) (amount : Z) : StateDB :=
  let '(s, o) := GetOrNewStateObject s a in objSetBalance s o amount.

Definition SetNonce (s : StateDB) (a : Address) (nonce : Z) : StateDB :=
  let '(s, o) := GetOrNewStateObject s a in
  let s := journal_append s (nonceChange (so_address o) (a_Nonce (so_data o))) in
  setStateObject s (setNonce o nonce).

Definition SetCode (s : StateDB) (a : Address) (code : bytes) : StateDB :=
  let '(s, o) := GetOrNewStateObject s a in
  let '(o, prevcode) := objCode o in
  let s := journal_append s (codeChange (so_address o) prevcode (a_CodeHash (so_data o))) in
  setStateObject s (setCode o (keccak256 code) (Some code)).

Definition SetState (s : StateDB) (a : Address) (key value : Hash) : StateDB :=
  let '(s, o) := GetOrNewStateObject s a in
  match fakeStorage o with
  | Some f => setStateObject s (o <| fakeStorage := Some (<[key := value]> f) |>)
  | None =>
      let '(o, prev) := objGetState o key in
      let s := setStateObject s o in
      if prev =? value then s
      else let s := journal_append s (storageChange (so_address o) key prev) in
           setStateObject s (setState o key value)
  end.

(** Suicide marks the account and clears its balance. *)
Definition Suicide (s : StateDB) (a : Address) : StateDB * bool :=
  let '(s, o) := getStateObject s a in
  match o with
  | None => (s, false)
  | Some o =>
      let s := journal_append s (suicideChange a (suicided o) (a_Balance (so_data o))) in
      (setStateObject s (setBalance (o <| suicided := true |>) 0), true)
  end.

Definition AddRefund (s : StateDB) (gas : Z) : StateDB :=
  let s := journal_append s (refundChange (refund s)) in
  s <| refund := u64 (refund s + gas) |>.

Definition SubRefund (s : StateDB) (gas : Z) : outcome StateDB :=
  let s := journal_append s (refundChange (refund s)) in
  if refund s <? gas then Panic else Ret (s <| refund := refund s - gas |>).

Definition AddLog (s : StateDB) (log : Log) : StateDB :=
  let s := journal_append s (addLogChange (thash s)) in
  let log := log <| l_TxHash := thash s |> <| l_BlockHash := bhash s |>
                 <| l_TxIndex := txIndex s |> <| l_Index := logSize s |> in
  s <| logs := <[thash s := default [] (logs s !! thash s) ++ [log]]> (logs s) |>
    <| logSize := logSize s + 1 |>.

Definition AddPreimage (s : StateDB) (hash : Hash) (preimage : bytes) : StateDB :=
  match preimages s !! hash with
  | Some _ => s
  | None =>
      let s := journal_append s (addPreimageChange hash) in
      s <| preimages := <[hash := preimage]> (preimages s) |>
  end.

Definition AddAddressToAccessList (s : StateDB) (a : Address) : StateDB :=
  let '(al, added) := AddAddress (sdb_accessList s) a in
  let s := s <| sdb_accessList := al |> in
  if added then journal_append s (accessListAddAccountChange a) else s.

Definition AddSlotToAccessList (s : StateDB) (a : Address) (slot : Hash) : outcome StateDB :=
  match AddSlot (sdb_accessList s) a slot with
  | Panic => Panic
  | Ret (al, addrMod, slotMod) =>
      let s := s <| sdb_accessList := al |> in
      let s := if addrMod then journal_append s (accessListAddAccountChange a) else s in
      Ret (if slotMod then journal_append s (accessListAddSlotChange a slot) else s)
  end.

Definition PrepareAccessList (s : StateDB) (sender : Address) (dst : option Address)
    (precompiles : list Address) (list : AccessList) : outcome StateDB :=
  let s := AddAddressToAccessList s sender in
  let s := match dst with Some d => AddAddressToAccessList s d | None => s end in
  let s := fold_left AddAddressToAccessList precompiles s in
  foldM (fun s el =>
           foldM (fun s key => AddSlotToAccessList s (at_Address el) key)
                 (AddAddressToAccessList s (at_Address el)) (at_StorageKeys el)) s list.

Definition Prepare (s : StateDB) (th bh : Hash) (ti : Z) : StateDB :=
  s <| thash := th |> <| bhash := bh |> <| txIndex := ti |> <| sdb_accessList := newAccessList |>.

(** ** Snapshots *)

(** The revert method of a journal entry; a revert that reaches a missing
    object dereferences nil. *)
Definition onObject (s : StateDB) (a : Address) (f : stateObject -> stateObject) : outcome StateDB :=
  let '(s, o) := getStateObject s a in
  match o with Some o => Ret (setStateObject s (f o)) | None => Panic end.

Definition revertEntry (s : StateDB) (e : journalEntry) : outcome StateDB :=
  match e with
  | createObjectChange a =>
      Ret (s <| stateObjects := delete a (stateObjects s) |>
             <| stateObjectsDirty := stateObjectsDirty s ∖ {[ a ]} |>)
  | resetObjectChange prev _ => Ret (setStateObject s prev)
  | suicideChange a prev prevbalance =>
      let '(s, o) := getStateObject s a in
      Ret (match o with
           | Some o => setStateObject s (setBalance (o <| suicided := prev |>) prevbalance)
           | None => s
           end)
  | balanceChange a prev => onObject s a (fun o => setBalance o prev)
  | nonceChange a prev => onObject s a (fun o => setNonce o prev)
  | storageChange a key prevalue => onObject s a (fun o => setState o key prevalue)
  | codeChange a prevcode prevhash => onObject s a (fun o => setCode o prevhash prevcode)
  | refundChange prev => Ret (s <| refund := prev |>)
  | addLogChange txhash =>
      let lgs := default [] (logs s !! txhash) in
      match lgs with
      | [] => Panic
      | [_] => Ret (s <| logs := delete txhash (logs s) |> <| logSize := logSize s - 1 |>)
      | _ => Ret (s <| logs := <[txhash := take (length lgs - 1) lgs]> (logs s) |>
                    <| logSize := logSize s - 1 |>)
      end
  | addPreimageChange h => Ret (s <| preimages := delete h (preimages s) |>)
  | touchChange _ => Ret s
  | accessListAddAccountChange a =>
      Ret (s <| sdb_accessList := DeleteAddress (sdb_accessList s) a |>)
  | accessListAddSlotChange a slot =>
      match DeleteSlot (sdb_accessList s) a slot with
      | Ret al => Ret (s <| sdb_accessList := al |>)
      | Panic => Panic
      end
  end.

Definition dropDirty (s : StateDB) (e : journalEntry) : StateDB :=
  match dirtied e with
  | None => s
  | Some a =>
      let n := default 0 (dirties s !! a) - 1 in
      if n =? 0 then s <| dirties := delete a (dirties s) |>
      else s <| dirties := <[a := n]> (dirties s) |>
  end.

Definition revertStep (s : StateDB) (e : journalEntry) : outcome StateDB :=
  match revertEntry s e with Ret s => Ret (dropDirty s e) | Panic => Panic end.

(** journal.revert undoes the entries above [snapshot], newest first. *)
Definition journal_revert (s : StateDB) (snapshot : nat) : outcome StateDB :=
  s' ← foldM revertStep s (reverse (drop snapshot (entries s)));
  Ret (s' <| entries := take snapshot (entries s') |>).

Definition Snapshot (s : StateDB) : StateDB * Z :=
  let id := nextRevisionId s in
  (s <| nextRevisionId := id + 1 |>
     <| validRevisions := validRevisions s ++ [mkRevision id (length (entries s))] |>, id).

Definition RevertToSnapshot (s : StateDB) (revid : Z) : outcome StateDB :=
  let n := length (validRevisions s) in
  let idx := Search n (fun i => match validRevisions s !! i with
                                | Some r => revid <=? rev_id r | None => false end) in
  match validRevisions s !! idx with
  | None => Panic
  | Some r =>
      if negb (rev_id r =? revid) then Panic
      else s' ← journal_revert s (journalIndex r);
           Ret (s' <| validRevisions := take idx (validRevisions s') |>)
  end.

(** ** Finalisation, roots and copies *)

Definition clearJournalAndRefund (s : StateDB) : StateDB :=
  let s := if decide (entries s = []) then s
           else s <| entries := [] |> <| dirties := ∅ |> <| refund := 0 |> in
  s <| validRevisions := [] |>.

Definition finaliseAddr (deleteEmptyObjects : bool) (s : StateDB) (a : Address) : StateDB :=
  match stateObjects s !! a with
  | None => s
  | Some o =>
      let o := if suicided o || (deleteEmptyObjects && empty o)
               then o <| deleted := true |> else objFinalise o in
      s <| stateObjects := <[a := o]> (stateObjects s) |>
        <| stateObjectsPending := {[ a ]} ∪ stateObjectsPending s |>
        <| stateObjectsDirty := {[ a ]} ∪ stateObjectsDirty s |>
  end.

Definition Finalise (s : StateDB) (deleteEmptyObjects : bool) : StateDB :=
  clearJournalAndRefund
    (fold_left (finaliseAddr deleteEmptyObjects) (elements (dom (dirties s))) s).

(** IntermediateRoot: a pending address without a live object is a nil
    dereference. *)
Definition updatePendingRoot (s : StateDB) (a : Address) : outcome StateDB :=
  match stateObjects s !! a with
  | None => Panic
  | Some o => Ret (if deleted o then s
                   else s <| stateObjects := <[a := updateRoot o]> (stateObjects s) |>)
  end.

Definition writePending (s : StateDB) (a : Address) : outcome StateDB :=
  match stateObjects s !! a with
  | None => Panic
  | Some o => Ret (s <| trie := if deleted o then delete a (trie s)
                                else <[a := so_data o]> (trie s) |>)
  end.

Definition IntermediateRoot (s : StateDB) (deleteEmptyObjects : bool) : outcome (StateDB * Hash) :=
  let s := Finalise s deleteEmptyObjects in
  let pending := elements (stateObjectsPending s) in
  s ← foldM updatePendingRoot s pending;
  s ← foldM writePending s pending;
  let s := s <| stateObjectsPending := ∅ |> in
  Ret (s, accountRoot (trie s)).

(** Copy: the objects that are dirty in the journal, pending or dirty are
    copied, the others are read again from the trie. *)
Definition Copy (s : StateDB) : outcome StateDB :=
  let fromJournal : gset Address :=
    filter (fun a => is_Some (stateObjects s !! a)) (dom (dirties s)) in
  let wanted := fromJournal ∪ stateObjectsPending s ∪ stateObjectsDirty s in
  if bool_decide (set_Forall (fun a => is_Some (stateObjects s !! a)) wanted) then
    Ret (mkStateDB (trie s)
           (deepCopy <$> filter (fun kv : Address * stateObject => kv.1 ∈ wanted) (stateObjects s))
           (fromJournal ∪ stateObjectsPending s) (fromJournal ∪ stateObjectsDirty s)
           (refund s) 0 0 0 (logs s) (logSize s) (preimages s) (sdb_accessList s) [] ∅ [] 0)
  else Panic.

(** ** Observational equality

    [obj_at] is the object a lookup finds, live or in the trie.  Two objects
    are equivalent when no getter tells them apart; their caches, the dirty
    marks of code and of rewritten slots may differ. *)

Definition obj_at (s : StateDB) (a : Address) : option stateObject :=
  match stateObjects s !! a with
  | Some o => Some o
  | None => (fun d => newObject a (Some d)) <$> trie s !! a
  end.

Record obj_equiv (o1 o2 : stateObject) : Prop := {
  oe_address : so_address o1 = so_address o2;
  oe_data : so_data o1 = so_data o2;
  oe_code : (objCode o1).2 = (objCode o2).2;
  oe_fake : fakeStorage o1 = fakeStorage o2;
  oe_committed k : (objGetCommittedState o1 k).2 = (objGetCommittedState o2 k).2;
  oe_state k : (objGetState o1 k).2 = (objGetState o2 k).2;
  oe_suicided : suicided o1 = suicided o2;
  oe_deleted : deleted o1 = deleted o2
}.

Record sdb_equiv (s1 s2 : StateDB) : Prop := {
  se_obj a : option_Forall2 obj_equiv (obj_at s1 a) (obj_at s2 a);
  se_trie : trie s1 = trie s2;
  se_pending : stateObjectsPending s1 = stateObjectsPending s2;
  se_dirty : stateObjectsDirty s1 = stateObjectsDirty s2;
  se_refund : refund s1 = refund s2;
  se_thash : thash s1 = thash s2;
  se_bhash : bhash s1 = bhash s2;
  se_txIndex : txIndex s1 = txIndex s2;
  se_logs : logs s1 = logs s2;
  se_logSize : logSize s1 = logSize s2;
  se_preimages : preimages s1 = preimages s2;
  se_accessList : sdb_accessList s1 = sdb_accessList s2;
  se_dirties a : a <> ripemd -> dirties s1 !! a = dirties s2 !! a
}.

#[export] Instance obj_equiv_equiv : Equivalence obj_equiv.
Proof.
  split.
  - intros o. by split.
  - intros o1 o2 []. by split.
  - intros o1 o2 o3 [] []. split; intros; etrans; eauto.
Qed.

#[export] Instance sdb_equiv_equiv : Equivalence sdb_equiv.
Proof.
  split.
  - intros s. by split.
  - intros s1 s2 []. split; try done; intros; symmetry; auto.
  - intros s1 s2 s3 E1 E2. split; try (destruct E1, E2; congruence).
    + intros a. transitivity (obj_at s2 a); [apply E1|apply E2].
    + intros a Ha. rewrite (se_dirties _ _ E1 a Ha). by apply E2.
Qed.

(** Every getter is determined by [obj_at] and respects the equivalence. *)
Lemma getDeletedStateObject_at s a : (getDeletedStateObject s a).2 = obj_at s a.
Proof. unfold getDeletedStateObject, obj_at. repeat case_match; naive_solver. Qed.

Definition live_at (s : StateDB) (a : Address) : option stateObject :=
  o ← obj_at s a; if deleted o then None else Some o.

Lemma getStateObject_at s a : (getStateObject s a).2 = live_at s a.
Proof.
  unfold getStateObject, live_at. rewrite <- getDeletedStateObject_at.
  destruct (getDeletedStateObject s a) as [s' [o|]]; simpl; [by destruct (deleted o)|done].
Qed.

Lemma live_at_equiv s1 s2 a :
  sdb_equiv s1 s2 -> option_Forall2 obj_equiv (live_at s1 a) (live_at s2 a).
Proof.
  intros E. unfold live_at. destruct (se_obj _ _ E a) as [o1 o2 Ho|]; simpl; [|constructor].
  rewrite (oe_deleted _ _ Ho). destruct (deleted o2); by constructor.
Qed.

Ltac getter := let E := fresh "E" in
  intros E; cbv [Exist Empty GetBalance GetNonce GetCode GetCodeHash GetState GetCommittedState
    HasSuicided]; rewrite !getStateObject_at;
  match goal with |- context [live_at _ ?a] =>
    destruct (live_at_equiv _ _ a E) as [o1 o2 []|]; unfold empty; simpl; congruence end.

Lemma GetBalance_equiv s1 s2 a : sdb_equiv s1 s2 -> GetBalance s1 a = GetBalance s2 a.
Proof. getter. Qed.
Lemma GetNonce_equiv s1 s2 a : sdb_equiv s1 s2 -> GetNonce s1 a = GetNonce s2 a.
Proof. getter. Qed.
Lemma GetCode_equiv s1 s2 a : sdb_equiv s1 s2 -> GetCode s1 a = GetCode s2 a.
Proof. getter. Qed.
Lemma GetCodeHash_equiv s1 s2 a : sdb_equiv s1 s2 -> GetCodeHash s1 a = GetCodeHash s2 a.
Proof. getter. Qed.
Lemma GetState_equiv s1 s2 a k : sdb_equiv s1 s2 -> GetState s1 a k = GetState s2 a k.
Proof. getter. Qed.
Lemma GetCommittedState_equiv s1 s2 a k :
  sdb_equiv s1 s2 -> GetCommittedState s1 a k = GetCommittedState s2 a k.
Proof. getter. Qed.
Lemma HasSuicided_equiv s1 s2 a : sdb_equiv s1 s2 -> HasSuicided s1 a = HasSuicided s2 a.
Proof. getter. Qed.
Lemma Empty_equiv s1 s2 a : sdb_equiv s1 s2 -> Empty s1 a = Empty s2 a.
Proof. getter. Qed.
Lemma Exist_equiv s1 s2 a : sdb_equiv s1 s2 -> Exist s1 a = Exist s2 a.
Proof.
  intros E. unfold Exist. rewrite !getStateObject_at.
  by destruct (live_at_equiv _ _ a E).
Qed.

End WithDatabase.
