(* ===== verification/Journal.v ===== *)
(** * Snapshots of the account state (core/state/journal.go, statedb.go)

    Every state-changing operation of [StateDB] appends journal entries whose
    reverts lead back to an equivalent state ([Undo]); from this,
    [RevertToSnapshot] restores the state a snapshot was taken in, whatever
    operations, nested snapshots and nested reverts ran in between. *)

From S2P Require Import Prelude Rlp Transaction AccessList StateDB.

Section Journal.
Context `{Crypto} `{Database}.

(** ** Well-formed states *)

(** Entries under a set of pending addresses: an account that was created in
    this transaction was not finalised by an earlier one. *)
Definition entry_ok (pending : gset Address) (e : journalEntry) : Prop :=
  match e with
  | createObjectChange a => a ∉ pending
  | resetObjectChange prev _ => fakeStorage prev = None
  | _ => True
  end.

(** What every operation and every revert keeps. *)
Record core_ok (s : StateDB) : Prop := {
  co_obj a o : stateObjects s !! a = Some o -> so_address o = a /\ fakeStorage o = None;
  co_dirty : stateObjectsDirty s ⊆ dom (stateObjects s);
  co_pending : stateObjectsPending s ⊆ dom (stateObjects s);
  co_entries : Forall (entry_ok (stateObjectsPending s)) (entries s)
}.

(** What the operations rely on and equivalence transports. *)
Record aux_ok (s : StateDB) : Prop := {
  ao_al : al_ok (sdb_accessList s);
  ao_dirties a n : a <> ripemd -> dirties s !! a = Some n -> 0 < n;
  ao_logs h l : logs s !! h = Some l -> l <> []
}.

Lemma aux_ok_equiv s1 s2 : sdb_equiv s1 s2 -> aux_ok s2 -> aux_ok s1.
Proof.
  intros E [H1 H2 H3]. split.
  - by rewrite (se_accessList _ _ E).
  - intros a n Ha. rewrite (se_dirties _ _ E a Ha). by apply H2.
  - intros h l. rewrite (se_logs _ _ E). apply H3.
Qed.

Lemma New_ok tr : core_ok (New tr) /\ aux_ok (New tr).
Proof.
  split; split; simpl; try (intros; rewrite lookup_empty in *; done).
  - set_solver.
  - set_solver.
  - constructor.
  - apply newAccessList_ok.
Qed.

(** ** Lookups *)

Lemma obj_at_set s o b :
  obj_at (setStateObject s o) b = if decide (b = so_address o) then Some o else obj_at s b.
Proof.
  unfold obj_at. simpl. rewrite lookup_insert. repeat case_decide; simplify_eq; done.
Qed.

Lemma core_at s a o : core_ok s -> obj_at s a = Some o -> so_address o = a /\ fakeStorage o = None.
Proof.
  intros C. unfold obj_at. destruct (stateObjects s !! a) eqn:E.
  - intros [= <-]. by apply C.
  - destruct (trie s !! a); simpl; [|done]. by intros [= <-].
Qed.

Lemma core_setStateObject s o :
  core_ok s -> fakeStorage o = None -> core_ok (setStateObject s o).
Proof.
  intros [H1 H2 H3 H4] Hf. split; simpl; [| | |done].
  - intros a o'. rewrite lookup_insert. case_decide; [by intros [= <-]|apply H1].
  - rewrite dom_insert. set_solver.
  - rewrite dom_insert. set_solver.
Qed.

(** A lookup only fills the cache. *)
Definition cacheFill (s s' : StateDB) : Prop :=
  s' = s <| stateObjects := stateObjects s' |> /\ (forall b, obj_at s' b = obj_at s b) /\
  dom (stateObjects s) ⊆ dom (stateObjects s').

Lemma cacheFill_refl s : cacheFill s s.
Proof. by destruct s. Qed.

Lemma getDeleted_fill s a : cacheFill s (getDeletedStateObject s a).1.
Proof.
  unfold getDeletedStateObject. destruct (stateObjects s !! a) eqn:E; [apply cacheFill_refl|].
  destruct (trie s !! a) eqn:Et; [|apply cacheFill_refl]. simpl. split_and!; [by destruct s| |].
  - intros b. rewrite obj_at_set. simpl. case_decide; [|done]. subst.
    unfold obj_at. by rewrite E, Et.
  - simpl. rewrite dom_insert. set_solver.
Qed.

Lemma getState_fill s a : cacheFill s (getStateObject s a).1.
Proof.
  pose proof (getDeleted_fill s a) as Hf. unfold getStateObject.
  destruct (getDeletedStateObject s a) as [s' [o|]]; simpl in *; [by destruct (deleted o)|done].
Qed.

Lemma fill_equiv s s' : cacheFill s s' -> sdb_equiv s' s.
Proof.
  intros (-> & Ho & _). split; try done. intros a. rewrite Ho. reflexivity.
Qed.

Lemma fill_core s s' : cacheFill s s' -> core_ok s -> core_ok s'.
Proof.
  intros (E & Ho & Hd) C. destruct (C) as [H1 H2 H3 H4]. split.
  - intros a o Ha. apply (core_at s a o C). rewrite <- Ho. unfold obj_at. by rewrite Ha.
  - rewrite E. simpl. set_solver.
  - rewrite E. simpl. set_solver.
  - rewrite E. simpl. done.
Qed.

Lemma getStateObject_equiv s1 s2 a :
  sdb_equiv s1 s2 ->
  sdb_equiv (getStateObject s1 a).1 (getStateObject s2 a).1 /\
  option_Forall2 obj_equiv (getStateObject s1 a).2 (getStateObject s2 a).2.
Proof.
  intros E. split.
  - rewrite (fill_equiv _ _ (getState_fill s1 a)), (fill_equiv _ _ (getState_fill s2 a)). done.
  - rewrite !getStateObject_at. by apply live_at_equiv.
Qed.

Lemma equiv_setStateObject s1 s2 o1 o2 :
  sdb_equiv s1 s2 -> obj_equiv o1 o2 -> sdb_equiv (setStateObject s1 o1) (setStateObject s2 o2).
Proof.
  intros E Eo. split; simpl; try apply E. intros a. rewrite !obj_at_set, (oe_address _ _ Eo).
  case_decide; [by constructor|apply E].
Qed.

(** ** Object updates respect equivalence *)

(** The getters only look at some of the fields. *)
Definition sameStorage (o1 o2 : stateObject) : Prop :=
  fakeStorage o1 = fakeStorage o2 /\ pendingStorage o1 = pendingStorage o2 /\
  originStorage o1 = originStorage o2 /\ so_trie o1 = so_trie o2 /\
  a_Root (so_data o1) = a_Root (so_data o2).

Lemma committed_same o1 o2 k : sameStorage o1 o2 ->
  (objGetCommittedState o1 k).2 = (objGetCommittedState o2 k).2.
Proof.
  intros (E1 & E2 & E3 & E4 & E5). unfold objGetCommittedState, getTrie.
  rewrite E1, E2, E3, E4, E5. repeat case_match; simplify_eq/=; congruence.
Qed.

Lemma state_of o k :
  (objGetState o k).2 = match fakeStorage o, dirtyStorage o !! k with
    | Some f, _ => default 0 (f !! k) | None, Some v => v
    | None, None => (objGetCommittedState o k).2 end.
Proof. unfold objGetState. by repeat case_match. Qed.

Lemma state_same o1 o2 k : sameStorage o1 o2 -> dirtyStorage o1 = dirtyStorage o2 ->
  (objGetState o1 k).2 = (objGetState o2 k).2.
Proof.
  intros S1 E. rewrite !state_of, E, (committed_same o1 o2) by done. by rewrite (proj1 S1).
Qed.

Lemma code_of o :
  (objCode o).2 = match so_code o with
    | Some c => Some c
    | None => if a_CodeHash (so_data o) =? emptyCodeHash then None
              else ContractCode (a_CodeHash (so_data o)) end.
Proof. unfold objCode. by repeat case_match. Qed.

Lemma setState_state o k v k' : fakeStorage o = None ->
  (objGetState (setState o k v) k').2 = if decide (k = k') then v else (objGetState o k').2.
Proof.
  intros Hf. rewrite !state_of. simpl. rewrite Hf, lookup_insert.
  rewrite (committed_same (setState o k v) o) by done. case_decide; done.
Qed.

(** [touched o o']: only the nonce, the balance or the suicide mark changed. *)
Definition touched (o o' : stateObject) : Prop :=
  sameStorage o' o /\ dirtyStorage o' = dirtyStorage o /\ so_code o' = so_code o /\
  a_CodeHash (so_data o') = a_CodeHash (so_data o) /\
  so_address o' = so_address o /\ deleted o' = deleted o.

Lemma touched_equiv o1 o2 o1' o2' :
  touched o1 o1' -> touched o2 o2' -> so_data o1' = so_data o2' -> suicided o1' = suicided o2' ->
  obj_equiv o1 o2 -> obj_equiv o1' o2'.
Proof.
  intros (S1 & D1 & C1 & H1 & A1 & X1) (S2 & D2 & C2 & H2 & A2 & X2) Hd Hs [E1 E2 E3 E4 E5 E6 E7 E8].
  split; try congruence.
  - rewrite !code_of in *. by rewrite C1, C2, H1, H2.
  - destruct S1, S2. congruence.
  - intros k. by rewrite (committed_same o1' o1), (committed_same o2' o2).
  - intros k. by rewrite (state_same o1' o1), (state_same o2' o2).
Qed.

Lemma setBalance_equiv o1 o2 x : obj_equiv o1 o2 -> obj_equiv (setBalance o1 x) (setBalance o2 x).
Proof.
  intros E. apply (touched_equiv o1 o2); try done; [|apply E]. simpl. by rewrite (oe_data _ _ E).
Qed.

Lemma setNonce_equiv o1 o2 x : obj_equiv o1 o2 -> obj_equiv (setNonce o1 x) (setNonce o2 x).
Proof.
  intros E. apply (touched_equiv o1 o2); try done; [|apply E]. simpl. by rewrite (oe_data _ _ E).
Qed.

Lemma suicide_equiv o1 o2 b x : obj_equiv o1 o2 ->
  obj_equiv (setBalance (o1 <| suicided := b |>) x) (setBalance (o2 <| suicided := b |>) x).
Proof.
  intros E. apply (touched_equiv o1 o2); try done. simpl. by rewrite (oe_data _ _ E).
Qed.

Lemma setState_equiv o1 o2 k v :
  fakeStorage o1 = None -> obj_equiv o1 o2 -> obj_equiv (setState o1 k v) (setState o2 k v).
Proof.
  intros Hf E. pose proof E as [E1 E2 E3 E4 E5 E6 E7 E8]. split; try done.
  - by rewrite !code_of in *.
  - intros k'. rewrite (committed_same (setState o1 k v) o1), (committed_same (setState o2 k v) o2) by done.
    apply E5.
  - intros k'. rewrite !setState_state by congruence. by rewrite E6.
Qed.

Lemma setCode_equiv o1 o2 h c : obj_equiv o1 o2 -> obj_equiv (setCode o1 h c) (setCode o2 h c).
Proof.
  intros E. pose proof E as [E1 E2 E3 E4 E5 E6 E7 E8]. split; try done.
  - simpl. by rewrite E2.
  - by rewrite !code_of.
  - intros k. by rewrite (committed_same (setCode o1 h c) o1), (committed_same (setCode o2 h c) o2).
  - intros k. by rewrite (state_same (setCode o1 h c) o1), (state_same (setCode o2 h c) o2).
Qed.

(** ** Reverting respects equivalence *)

Lemma onObject_spec s a f : onObject s a f =
  match live_at s a with
  | Some o => Ret (setStateObject (getStateObject s a).1 (f o)) | None => Panic end.
Proof.
  unfold onObject. rewrite <- getStateObject_at. by destruct (getStateObject s a) as [s' [o|]].
Qed.

Lemma onObject_lift s1 s2 a f t2 :
  sdb_equiv s1 s2 -> core_ok s1 ->
  (forall o1 o2, fakeStorage o1 = None -> obj_equiv o1 o2 -> obj_equiv (f o1) (f o2)) ->
  onObject s2 a f = Ret t2 -> exists t1, onObject s1 a f = Ret t1 /\ sdb_equiv t1 t2.
Proof.
  intros E C Hf. rewrite !onObject_spec.
  destruct (getStateObject_equiv s1 s2 a E) as [E' _].
  pose proof (live_at_equiv s1 s2 a E) as Ho.
  destruct (live_at s1 a) as [o1|] eqn:E1; inversion Ho as [? o2 Hoo|]; subst; [|done].
  intros [= <-]. eexists. split; [done|]. apply equiv_setStateObject; [done|]. apply Hf; [|done].
  unfold live_at in E1. destruct (obj_at s1 a) as [o|] eqn:Ea; simpl in E1; [|done].
  destruct (deleted o); simplify_eq. by eapply core_at.
Qed.

Lemma dropDirty_equiv s1 s2 e : sdb_equiv s1 s2 -> sdb_equiv (dropDirty s1 e) (dropDirty s2 e).
Proof.
  intros E. unfold dropDirty. destruct (dirtied e) as [a|]; [|done].
  assert (a <> ripemd -> dirties s1 !! a = dirties s2 !! a) as Ha by apply E.
  destruct (decide (a = ripemd)) as [->|Hn]; [|rewrite Ha by done];
  repeat case_match; (split; simpl; try apply E; intros b Hb);
  repeat (rewrite lookup_delete || rewrite lookup_insert); repeat case_decide; try done;
  by apply E.
Qed.

Lemma revertStep_lift s1 s2 e t2 :
  sdb_equiv s1 s2 -> core_ok s1 -> revertStep s2 e = Ret t2 ->
  exists t1, revertStep s1 e = Ret t1 /\ sdb_equiv t1 t2.
Proof.
  intros E C. unfold revertStep.
  cut (forall u2, revertEntry s2 e = Ret u2 ->
         exists u1, revertEntry s1 e = Ret u1 /\ sdb_equiv u1 u2).
  { intros Hcut. destruct (revertEntry s2 e) as [u2|]; [|done]. intros [= <-].
    destruct (Hcut u2 eq_refl) as (u1 & -> & Eu). eexists. split; [done|]. by apply dropDirty_equiv. }
  intros u2. destruct e; simpl;
    try (intros [= <-]; eexists; split; [done|]; split; simpl; try apply E; f_equal; apply E).
  - intros [= <-]. eexists. split; [done|]. split; simpl; try apply E; [|by rewrite (se_dirty _ _ E)].
    intros b. unfold obj_at. simpl. rewrite !lookup_delete, (se_trie _ _ E).
    case_decide; [reflexivity|]. pose proof (se_obj _ _ E b) as Hb. unfold obj_at in Hb.
    by rewrite (se_trie _ _ E) in Hb.
  - intros [= <-]. eexists. split; [done|]. by apply equiv_setStateObject.
  - destruct (getStateObject_equiv s1 s2 account E) as [E' Ho].
    destruct (getStateObject s1 account) as [s1' o1], (getStateObject s2 account) as [s2' o2].
    simpl in *. intros [= <-]. eexists. split; [done|].
    inversion Ho; subst; [|done]. apply equiv_setStateObject; [done|]. by apply suicide_equiv.
  - apply onObject_lift; auto using setBalance_equiv.
  - apply onObject_lift; auto using setNonce_equiv.
  - apply onObject_lift; auto using setState_equiv.
  - apply onObject_lift; auto using setCode_equiv.
  - rewrite (se_logs _ _ E).
    repeat case_match; intros; simplify_eq; (eexists; split; [done|]; split; simpl; try apply E);
      by rewrite ?(se_logs _ _ E), ?(se_logSize _ _ E).
  - rewrite (se_accessList _ _ E). destruct (DeleteSlot _ _ _); [|done].
    intros [= <-]. eexists. split; [done|]. split; simpl; by try apply E.
Qed.

Lemma getStateObject_pending s a :
  stateObjectsPending (getStateObject s a).1 = stateObjectsPending s.
Proof. by destruct (getState_fill s a) as [-> _]. Qed.

Lemma live_core s a o : core_ok s -> live_at s a = Some o -> fakeStorage o = None.
Proof.
  intros C. unfold live_at. destruct (obj_at s a) as [o'|] eqn:Eo; simpl; [|done].
  destruct (deleted o'); [done|]. intros [= <-]. by apply (core_at s a o' C).
Qed.

Lemma onObject_core s a f u : core_ok s -> (forall o, fakeStorage (f o) = fakeStorage o) ->
  onObject s a f = Ret u -> core_ok u /\ stateObjectsPending u = stateObjectsPending s.
Proof.
  intros C Hf. rewrite onObject_spec. destruct (live_at s a) as [o|] eqn:Eo; [|done].
  intros [= <-]. split; [|apply getStateObject_pending].
  apply core_setStateObject; [by apply (fill_core s), C; apply getState_fill|].
  rewrite Hf. by apply (live_core s a).
Qed.

Lemma revertEntry_core s e u : core_ok s -> entry_ok (stateObjectsPending s) e ->
  revertEntry s e = Ret u -> core_ok u /\ stateObjectsPending u = stateObjectsPending s.
Proof.
  intros C He. pose proof C as [H1 H2 H3 H4].
  destruct e; simpl; try (apply onObject_core; done);
    try (repeat case_match; intros; simplify_eq; by split).
  - intros [= <-]. split; [|done]. simpl in He. split; simpl; [| | |done].
    + intros b o. rewrite lookup_delete. case_decide; [done|apply H1].
    + rewrite dom_delete. set_solver.
    + rewrite dom_delete. set_solver.
  - intros [= <-]. split; [|done]. by apply core_setStateObject.
  - pose proof (getStateObject_at s account) as Ha. pose proof (getStateObject_pending s account) as Hp.
    pose proof (fill_core _ _ (getState_fill s account) C) as Cf.
    destruct (getStateObject s account) as [s' [o|]]; simpl in *; intros [= <-]; [|done].
    split; [|done]. apply core_setStateObject; [done|]. exact (live_core s account o C (eq_sym Ha)).
Qed.

Lemma revertStep_core s e t : core_ok s -> entry_ok (stateObjectsPending s) e ->
  revertStep s e = Ret t -> core_ok t /\ stateObjectsPending t = stateObjectsPending s.
Proof.
  intros C He. unfold revertStep. destruct (revertEntry s e) as [u|] eqn:Eu; [|done].
  intros [= <-]. destruct (revertEntry_core s e u C He Eu) as [[] ?].
  unfold dropDirty. repeat case_match; by split.
Qed.

Lemma foldM_revert_lift es s1 s2 t2 :
  sdb_equiv s1 s2 -> core_ok s1 -> Forall (entry_ok (stateObjectsPending s1)) es -> foldM revertStep s2 es = Ret t2 ->
  exists t1, foldM revertStep s1 es = Ret t1 /\ sdb_equiv t1 t2.
Proof.
  intros E C Hes. revert s1 s2 E C Hes. induction es as [|e es IH]; intros s1 s2 E C Hes; simpl.
  { intros [= <-]. eauto. }
  apply Forall_cons_1 in Hes as [He Hes].
  destruct (revertStep s2 e) as [u2|] eqn:E2; [|done]. intros Ht.
  destruct (revertStep_lift s1 s2 e u2 E C E2) as (u1 & E1 & Eu). rewrite E1.
  destruct (revertStep_core s1 e u1 C He E1) as [C1 P1].
  apply (IH u1 u2); [done..|by rewrite P1|done].
Qed.

Lemma foldM_revert_core es s t :
  core_ok s -> Forall (entry_ok (stateObjectsPending s)) es -> foldM revertStep s es = Ret t ->
  core_ok t /\ stateObjectsPending t = stateObjectsPending s.
Proof.
  intros C Hes.
  apply (foldM_inv (fun t => core_ok t /\ stateObjectsPending t = stateObjectsPending s)); [|done].
  rewrite Forall_forall in Hes. intros e s1 s2 He [C1 P1]. rewrite <- P1 in *.
  apply revertStep_core; auto.
Qed.

(** ** Operations can be undone

    [Undo s s']: the journal of [s'] extends the one of [s], every suffix of
    the new entries can be reverted, and reverting all of them leads back to
    [s] up to equivalence. *)
Definition Undo (s s' : StateDB) : Prop :=
  core_ok s' /\ exists es, entries s' = entries s ++ es /\
    forall k, exists t, foldM revertStep s' (reverse (drop k es)) = Ret t /\ aux_ok t /\
      (k = 0%nat -> sdb_equiv t s).

Lemma Undo_ok s s' : Undo s s' -> core_ok s' /\ aux_ok s'.
Proof.
  intros (C & es & _ & Hk). split; [done|]. destruct (Hk (length es)) as (t & Ht & A & _).
  rewrite drop_all in Ht. by simplify_eq/=.
Qed.

Lemma Undo_trans s1 s2 s3 : Undo s1 s2 -> Undo s2 s3 -> Undo s1 s3.
Proof.
  intros (C2 & es & E2 & H2) (C3 & es' & E3 & H3). split; [done|].
  exists (es ++ es'). split; [by rewrite E3, E2, app_assoc|]. intros k.
  destruct (decide (k <= length es)%nat) as [Hk|Hk].
  - rewrite drop_app_le, reverse_app, foldM_app by done.
    destruct (H3 0%nat) as (t & Ht & At & Et). rewrite drop_0 in Ht. rewrite Ht. simpl.
    destruct (H2 k) as (u & Hu & Au & Eu).
    assert (Forall (entry_ok (stateObjectsPending s3)) (es ++ es')) as Hes.
    { destruct C3 as [_ _ _ Hes]. rewrite E3, E2, <- app_assoc in Hes.
      by apply Forall_app in Hes as [_ Hes]. }
    apply Forall_app in Hes as [Hes Hes'].
    destruct (foldM_revert_core (reverse es') s3 t) as [Ct Pt]; [done|by apply Forall_reverse|done|].
    destruct (foldM_revert_lift (reverse (drop k es)) t s2 u) as (v & Hv & Ev); auto.
    { rewrite Pt. apply Forall_reverse. by apply Forall_drop. }
    exists v. split_and!; [done|by eapply aux_ok_equiv|]. intros ->. rewrite Ev. by apply Eu.
  - rewrite drop_app_ge by lia. destruct (H3 (k - length es)%nat) as (t & Ht & At & _).
    exists t. split_and!; [done|done|lia].
Qed.

Lemma Undo_equiv s s' :
  core_ok s' -> aux_ok s -> entries s' = entries s -> sdb_equiv s' s -> Undo s s'.
Proof.
  intros C A E1 E. split; [done|]. exists []. rewrite app_nil_r. split; [done|]. intros k.
  exists s'. rewrite drop_nil. split_and!; [done|by eapply aux_ok_equiv|done].
Qed.

Lemma Undo_refl s : core_ok s -> aux_ok s -> Undo s s.
Proof. intros. by apply Undo_equiv. Qed.

Lemma Undo_fill s s' : cacheFill s s' -> core_ok s -> aux_ok s -> Undo s s'.
Proof.
  intros F C A. apply Undo_equiv; eauto using fill_core, fill_equiv. destruct F as [-> _]. done.
Qed.

Lemma dirty_cancel s t e :
  aux_ok s -> sdb_equiv t (journal_append s e) -> sdb_equiv (dropDirty t e) s.
Proof.
  intros A E. unfold journal_append in E. unfold dropDirty.
  destruct (dirtied e) as [a|]; [|by destruct E; split].
  pose proof (se_dirties _ _ E) as Hd. simpl in Hd.
  assert (forall b, b <> ripemd -> (if decide (b = a) then
      default 0 (dirties s !! a) = default 0 (dirties t !! a) - 1 else dirties t !! b = dirties s !! b)) as Hb.
  { intros b Hb. case_decide; subst; rewrite Hd by done; [rewrite lookup_insert_eq; simpl; lia|].
    by rewrite lookup_insert_ne by done. }
  case_match; (split; try (destruct E; done)); intros b Hn; simpl; specialize (Hb b Hn);
    (destruct (decide (b = a)) as [->|]; [|by rewrite ?lookup_delete_ne, ?lookup_insert_ne by done]).
  - rewrite lookup_delete_eq. destruct (dirties s !! a) as [n|] eqn:En; [|done].
    pose proof (ao_dirties _ A a n Hn En). simpl in *. lia.
  - rewrite lookup_insert_eq, <- Hb. destruct (dirties s !! a) as [n|] eqn:En; simpl in *; [done|]. lia.
Qed.

Lemma Undo_entry s s' e t :
  core_ok s' -> aux_ok s -> aux_ok s' -> entries s' = entries s ++ [e] ->
  revertEntry s' e = Ret t -> sdb_equiv t (journal_append s e) -> Undo s s'.
Proof.
  intros C A A' Ee Hr Et. split; [done|]. exists [e]. split; [done|].
  pose proof (dirty_cancel s t e A Et) as Hd. intros [|k]; simpl.
  - exists (dropDirty t e). unfold revertStep. rewrite Hr.
    split_and!; [done|by eapply aux_ok_equiv|done].
  - exists s'. rewrite drop_nil. by split_and!.
Qed.

Lemma append_ok s e : core_ok s -> aux_ok s -> entry_ok (stateObjectsPending s) e ->
  core_ok (journal_append s e) /\ aux_ok (journal_append s e).
Proof.
  intros [H1 H2 H3 H4] [A1 A2 A3] He. unfold journal_append.
  assert (Forall (entry_ok (stateObjectsPending s)) (entries s ++ [e])) by (apply Forall_app; auto).
  destruct (dirtied e) as [a|]; [|by split; split]. split; split; simpl; try done.
  intros b n Hb. rewrite lookup_insert. case_decide; [|by apply A2]. subst. intros [= <-].
  destruct (dirties s !! b) as [m|] eqn:Em; simpl; [|lia]. pose proof (A2 _ _ Hb Em). lia.
Qed.

(** ** Each operation *)

(** The revisions are touched by [Snapshot] and [RevertToSnapshot] only. *)
Definition same_revs (s s' : StateDB) : Prop :=
  validRevisions s' = validRevisions s /\ nextRevisionId s' = nextRevisionId s.

Definition step_ok (s s' : StateDB) : Prop := Undo s s' /\ same_revs s s'.

Lemma step_trans s1 s2 s3 : step_ok s1 s2 -> step_ok s2 s3 -> step_ok s1 s3.
Proof.
  intros [U1 [V1 N1]] [U2 [V2 N2]]. split; [by eapply Undo_trans|]. split; congruence.
Qed.

Lemma append_revs s e : same_revs s (journal_append s e).
Proof. unfold journal_append. by case_match. Qed.

Lemma setStateObject_get s o : deleted o = false ->
  getStateObject (setStateObject s o) (so_address o) = (setStateObject s o, Some o).
Proof.
  intros Hd. unfold getStateObject, getDeletedStateObject. simpl.
  rewrite lookup_insert_eq. by rewrite Hd.
Qed.

(** Overwriting an object and writing an equivalent of the old one back. *)
Lemma overwrite_equiv s a o o1 o2 :
  obj_at s a = Some o -> so_address o1 = a -> so_address o2 = a -> obj_equiv o2 o ->
  sdb_equiv (setStateObject (setStateObject s o1) o2) s.
Proof.
  intros Ho <- Ha E. split; try done. intros b. rewrite !obj_at_set, Ha.
  case_decide; [|done]. subst. rewrite Ho. by constructor.
Qed.

Lemma setter_step s a o o1 o2 e :
  core_ok s -> aux_ok s -> obj_at s a = Some o -> so_address o1 = a -> fakeStorage o1 = None ->
  entry_ok (stateObjectsPending s) e -> so_address o2 = a -> obj_equiv o2 o ->
  (let s' := setStateObject (journal_append s e) o1 in revertEntry s' e = Ret (setStateObject s' o2)) ->
  step_ok s (setStateObject (journal_append s e) o1).
Proof.
  intros C A Ho H1 Hf He H2 E Hr. destruct (append_ok s e C A He) as [C' A'].
  split; [|by apply append_revs]. eapply (Undo_entry _ _ e); [| | | |exact Hr|]; try done.
  - by apply core_setStateObject.
  - by destruct A'.
  - unfold journal_append. by case_match.
  - eapply overwrite_equiv; try done. revert Ho. unfold journal_append. by case_match.
Qed.

Definition found (s : StateDB) (a : Address) (o : stateObject) : Prop :=
  obj_at s a = Some o /\ deleted o = false /\ so_address o = a /\ fakeStorage o = None.

Lemma getStateObject_step s a : core_ok s -> aux_ok s ->
  let '(s', o) := getStateObject s a in
  step_ok s s' /\ match o with Some o => found s' a o | None => live_at s a = None end.
Proof.
  intros C A. pose proof (getState_fill s a) as F. pose proof (getStateObject_at s a) as L.
  destruct (getStateObject s a) as [s' o]. simpl in *. split.
  - split; [by apply Undo_fill|]. by destruct F as [-> _].
  - destruct o as [o|]; [|done]. destruct F as (_ & F & _).
    unfold live_at in L. destruct (obj_at s a) as [o'|] eqn:E; [|done]. simpl in L.
    destruct (deleted o') eqn:D; simplify_eq. destruct (core_at s a o' C E).
    split_and!; try done. by rewrite F.
Qed.

(** createObject, and what CreateAccount stores over the fresh object. *)
Lemma create_step s a o' : core_ok s -> aux_ok s -> so_address o' = a -> fakeStorage o' = None ->
  step_ok s (setStateObject (createObject s a).1.1 o').
Proof.
  intros C A Ha Hf. unfold createObject.
  pose proof (getDeleted_fill s a) as F. pose proof (getDeletedStateObject_at s a) as L.
  destruct (getDeletedStateObject s a) as [s1 prev] eqn:G. simpl in *.
  assert (step_ok s s1) as Hs.
  { split; [by apply Undo_fill|]. by destruct F as [-> _]. }
  apply (step_trans _ s1); [done|]. destruct (Undo_ok _ _ (proj1 Hs)) as [C1 A1].
  assert (forall X, setStateObject (setStateObject X (setNonce (newObject a None) 0)) o' = setStateObject X o') as Hov.
  { intros X. unfold setStateObject, setf. simpl. by rewrite Ha, insert_insert_eq. }
  rewrite Hov. destruct prev as [p|].
  - assert (obj_at s1 a = Some p) as Hp by (destruct F as (_ & -> & _); done).
    destruct (core_at _ _ _ C1 Hp). by eapply setter_step.
  - assert (obj_at s1 a = None) as Hn by (destruct F as (_ & -> & _); done).
    assert (stateObjects s1 !! a = None /\ trie s1 !! a = None) as [Ho Ht].
    { revert Hn. unfold obj_at. destruct (stateObjects s1 !! a); [done|]. by destruct (trie s1 !! a). }
    apply not_elem_of_dom in Ho as Hdom.
    destruct (append_ok s1 (createObjectChange a) C1 A1) as [C2 A2].
    { pose proof (co_pending _ C1). simpl. set_solver. }
    split; [|by apply append_revs].
    eapply (Undo_entry _ _ (createObjectChange a)); [| | | |simpl; reflexivity|]; try done.
    + by apply core_setStateObject.
    + by destruct A2.
    + split; simpl; try done.
      * intros b. unfold obj_at. simpl. rewrite Ha, delete_insert_eq, lookup_delete.
        case_decide; [|done]. subst. by rewrite Ho, Ht.
      * pose proof (co_dirty _ C1) as Hd. set_solver.
Qed.

Lemma GetOrNew_step s a : core_ok s -> aux_ok s ->
  let '(s', o) := GetOrNewStateObject s a in step_ok s s' /\ found s' a o.
Proof.
  intros C A. unfold GetOrNewStateObject.
  pose proof (getStateObject_step s a C A) as Hg.
  destruct (getStateObject s a) as [s1 [o|]]; [done|]. destruct Hg as [Hs _].
  destruct (Undo_ok _ _ (proj1 Hs)) as [C1 A1].
  pose proof (create_step s1 a (setNonce (newObject a None) 0) C1 A1 eq_refl eq_refl) as Hc.
  unfold createObject in *. destruct (getDeletedStateObject s1 a) as [s2 prev]. simpl in *.
  split; [|split_and!; try done; rewrite obj_at_set; simpl; by case_decide].
  eapply step_trans; [done|]. revert Hc. unfold setStateObject, setf. simpl.
  by rewrite insert_insert_eq.
Qed.

Lemma CreateAccount_step s a : core_ok s -> aux_ok s -> step_ok s (CreateAccount s a).
Proof.
  intros C A. unfold CreateAccount.
  pose proof (create_step s a (setNonce (newObject a None) 0) C A eq_refl eq_refl) as H1.
  pose proof (fun z => create_step s a (setBalance (setNonce (newObject a None) 0) z) C A eq_refl eq_refl) as H2.
  assert ((createObject s a).1.2 = setNonce (newObject a None) 0) as H3.
  { unfold createObject. by destruct (getDeletedStateObject s a). }
  destruct (createObject s a) as [[s1 o] [p|]] eqn:E; simpl in *; subst; [done|].
  replace s1 with (setStateObject s1 (setNonce (newObject a None) 0)); [done|].
  unfold createObject in E. destruct (getDeletedStateObject s a). simplify_eq.
  unfold setStateObject, setf. simpl. by rewrite insert_insert_eq.
Qed.

(** Splits an operation that starts with [GetOrNewStateObject]. *)
Ltac get_or_new s a C A :=
  let Hg := fresh "Hg" in let Hs := fresh "Hs" in
  pose proof (GetOrNew_step s a C A) as Hg;
  destruct (GetOrNewStateObject s a) as [?s1 ?o];
  destruct Hg as [Hs (?Ho & ?Hd & ?Ha & ?Hf)];
  destruct (Undo_ok _ _ (proj1 Hs)) as [?C1 ?A1];
  eapply step_trans; [exact Hs|].

Lemma onObject_set s o f : deleted o = false ->
  onObject (setStateObject s o) (so_address o) f = Ret (setStateObject (setStateObject s o) (f o)).
Proof. intros Hd. unfold onObject. by rewrite setStateObject_get. Qed.

Lemma objSetBalance_step s a o v : core_ok s -> aux_ok s -> found s a o ->
  step_ok s (objSetBalance s o v).
Proof.
  intros C A (Ho & Hd & Ha & Hf).
  eapply (setter_step _ a o _ (setBalance (setBalance o v) (a_Balance (so_data o)))); try done.
  - unfold setBalance, setf. simpl. by destruct o as [? []].
  - by apply (onObject_set _ (setBalance o v)).
Qed.

Lemma touch_step s o : core_ok s -> aux_ok s -> step_ok s (touch s o).
Proof.
  intros C A. destruct (append_ok s (touchChange (so_address o)) C A I) as [C1 A1].
  unfold touch. split; [|by case_match].
  assert (entries (touch s o) = entries s ++ [touchChange (so_address o)]) as He.
  { unfold touch. by case_match. }
  eapply Undo_entry; [| | |exact He|reflexivity|].
  - unfold touch. case_match; [|done]. by destruct C1.
  - done.
  - unfold touch. case_match; [|done]. destruct A1 as [B1 B2 B3]. split; try done.
    simpl in *. intros b n Hb. rewrite lookup_insert_ne; [by apply B2|]. lia.
  - unfold touch. case_match; [|done]. split; try done. intros b Hb. simpl.
    rewrite lookup_insert_ne; [done|]. lia.
Qed.

Lemma AddBalance_step s a v : core_ok s -> aux_ok s -> step_ok s (AddBalance s a v).
Proof.
  intros C A. unfold AddBalance. get_or_new s a C A.
  repeat case_match; [by apply touch_step|by split; [apply Undo_refl|]|by apply (objSetBalance_step _ a)].
Qed.

Lemma SubBalance_step s a v : core_ok s -> aux_ok s -> step_ok s (SubBalance s a v).
Proof.
  intros C A. unfold SubBalance. get_or_new s a C A.
  case_match; [by split; [apply Undo_refl|]|]. by apply (objSetBalance_step _ a).
Qed.

Lemma SetBalance_step s a v : core_ok s -> aux_ok s -> step_ok s (SetBalance s a v).
Proof.
  intros C A. unfold SetBalance. get_or_new s a C A. by apply (objSetBalance_step _ a).
Qed.

Lemma SetNonce_step s a v : core_ok s -> aux_ok s -> step_ok s (SetNonce s a v).
Proof.
  intros C A. unfold SetNonce. get_or_new s a C A.
  eapply (setter_step _ a o _ (setNonce (setNonce o v) (a_Nonce (so_data o)))); try done.
  - unfold setNonce, setf. simpl. by destruct o as [? []].
  - by apply (onObject_set _ (setNonce o v)).
Qed.

Lemma SetCode_step s a c : core_ok s -> aux_ok s -> step_ok s (SetCode s a c).
Proof.
  intros C A. unfold SetCode. get_or_new s a C A.
  destruct (objCode o) as [o' prevcode] eqn:Ec.
  assert (o' = o \/ o' = o <| so_code := prevcode |>) as Ho'.
  { unfold objCode in Ec. repeat case_match; simplify_eq; auto. }
  assert (prevcode = (objCode o).2) as Hp by by rewrite Ec.
  assert (so_address o' = a /\ so_data o' = so_data o /\ deleted o' = false /\ fakeStorage o' = None /\
    sameStorage o' o /\ dirtyStorage o' = dirtyStorage o /\ suicided o' = suicided o)
    as (Ha' & Hdt & Hd' & Hf' & Hst & Hdy & Hsu) by by destruct Ho' as [-> | ->].
  rewrite Hdt, Ha'. set (h := a_CodeHash (so_data o)).
  eapply (setter_step _ a o _ (setCode (setCode o' (keccak256 c) (Some c)) h prevcode)); try done.
  - assert (sameStorage (setCode (setCode o' (keccak256 c) (Some c)) h prevcode) o) as Hs2 by done.
    split; try (simpl; congruence).
    + simpl. rewrite Hdt. unfold h, setf. simpl. by destruct (so_data o).
    + rewrite code_of. simpl. rewrite Hp, code_of. fold h.
      destruct (so_code o); [done|]. destruct (h =? emptyCodeHash); [done|]. by destruct (ContractCode h).
    + intros k. by apply committed_same.
    + intros k. by apply state_same.
  - simpl. rewrite <- Ha'. by apply (onObject_set _ (setCode o' (keccak256 c) (Some c))).
Qed.

Lemma objGetState_fill o k :
  let '(o', v) := objGetState o k in
  obj_equiv o' o /\ so_address o' = so_address o /\ fakeStorage o' = fakeStorage o /\
  deleted o' = deleted o.
Proof.
  unfold objGetState. destruct (fakeStorage o) eqn:Hf; [done|].
  destruct (dirtyStorage o !! k); [done|]. unfold objGetCommittedState. rewrite Hf.
  destruct (pendingStorage o !! k) eqn:Ep; [done|]. destruct (originStorage o !! k) eqn:Eo; [done|].
  unfold getTrie. set (t := default (OpenStorageTrie (a_Root (so_data o))) (so_trie o)).
  assert (forall k', (objGetCommittedState o k').2 =
    match pendingStorage o !! k' with Some v => v | None =>
      match originStorage o !! k' with Some v => v | None => default 0 (t !! k') end end) as Hc.
  { intros k'. unfold objGetCommittedState, getTrie. rewrite Hf. subst t.
    repeat case_match; simplify_eq/=; done. }
  set (o' := o <| so_trie := Some t |> <| originStorage := <[k := default 0 (t !! k)]> (originStorage o) |>).
  replace (let '(o0, t0) := match so_trie o with Some t0 => (o, t0) | None =>
      (o <| so_trie := Some (OpenStorageTrie (a_Root (so_data o))) |>, OpenStorageTrie (a_Root (so_data o))) end in
      (o0 <| originStorage := <[k := default 0 (t0 !! k)]> (originStorage o0) |>, default 0 (t0 !! k)))
    with (o', default 0 (t !! k)).
  2:{ subst t o'. unfold setf. simpl. destruct o as [? ? [|]]; done. }
  assert (forall k', (objGetCommittedState o' k').2 = (objGetCommittedState o k').2) as Hc'.
  { intros k'. rewrite Hc. unfold objGetCommittedState, getTrie. simpl. rewrite Hf, lookup_insert.
    repeat case_match; simplify_eq/=; congruence. }
  split_and!; try done. split; try done; [by rewrite !code_of|].
  intros k'. rewrite !state_of. simpl. rewrite Hf, Hc'. done.
Qed.

Lemma SetState_step s a k v : core_ok s -> aux_ok s -> step_ok s (SetState s a k v).
Proof.
  intros C A. unfold SetState. get_or_new s a C A. rewrite Hf.
  pose proof (objGetState_fill o k) as Hg. destruct (objGetState o k) as [o' prev] eqn:Hv.
  destruct Hg as (Eo & Ha' & Hf' & Hd').
  assert (step_ok s1 (setStateObject s1 o')) as Hs'.
  { split; [|done]. apply Undo_equiv; [apply core_setStateObject; congruence|done..|].
    split; try done. intros b. rewrite obj_at_set, Ha', Ha. case_decide; [|done]. subst b.
    rewrite Ho. by constructor. }
  case_match; [done|]. eapply step_trans; [exact Hs'|].
  destruct (Undo_ok _ _ (proj1 Hs')) as [C2 A2]. rewrite Ha', Ha.
  assert (fakeStorage o' = None) as Hfo by congruence.
  eapply (setter_step _ a o' _ (setState (setState o' k v) k prev)); try done.
  - rewrite obj_at_set, Ha', Ha. by case_decide.
  - simpl. congruence.
  - simpl. congruence.
  - split; try done; [by rewrite !code_of|intros k'; by apply committed_same|].
    intros k'. rewrite !setState_state by done. case_decide; [subst k'|done].
    by rewrite (oe_state _ _ Eo k), Hv.
  - simpl. rewrite <- Ha, <- Ha'. apply (onObject_set _ (setState o' k v)). simpl. congruence.
Qed.

Lemma Suicide_step s a : core_ok s -> aux_ok s -> step_ok s (Suicide s a).1.
Proof.
  intros C A. unfold Suicide. pose proof (getStateObject_step s a C A) as Hg.
  destruct (getStateObject s a) as [s1 [o|]]; [|apply Hg].
  destruct Hg as [Hs (Ho & Hd & Ha & Hf)]. eapply step_trans; [exact Hs|].
  destruct (Undo_ok _ _ (proj1 Hs)) as [C1 A1]. simpl.
  set (o1 := setBalance (o <| suicided := true |>) 0).
  eapply (setter_step _ a o _ (setBalance (o1 <| suicided := suicided o |>) (a_Balance (so_data o)))); try done.
  - unfold o1, setBalance, setf. simpl. by destruct o as [? []].
  - cbn [revertEntry]. replace a with (so_address o1) by done. by rewrite setStateObject_get.
Qed.

(** Entries that do not concern an account leave the dirty counters alone. *)
Lemma misc_step s s' e t : core_ok s -> aux_ok s -> aux_ok s' -> dirtied e = None ->
  entry_ok (stateObjectsPending s) e ->
  s' = s <| refund := refund s' |> <| logs := logs s' |> <| logSize := logSize s' |>
         <| preimages := preimages s' |> <| sdb_accessList := sdb_accessList s' |>
         <| entries := entries s ++ [e] |> ->
  revertEntry s' e = Ret t -> sdb_equiv t s -> step_ok s s'.
Proof.
  intros C A A' He Ho Es Hr Et. assert (core_ok s') as C'.
  { destruct C as [H1 H2 H3 H4]. rewrite Es. split; try done. simpl. apply Forall_app; auto. }
  split; [|by rewrite Es]. eapply Undo_entry; try done; [by rewrite Es|].
  unfold journal_append. rewrite He. by destruct Et.
Qed.

Lemma AddRefund_step s g : core_ok s -> aux_ok s -> step_ok s (AddRefund s g).
Proof.
  intros C A. eapply (misc_step _ _ (refundChange (refund s))); try done. by destruct A.
Qed.

Lemma SubRefund_step s g s' : core_ok s -> aux_ok s -> SubRefund s g = Ret s' -> step_ok s s'.
Proof.
  intros C A. unfold SubRefund. simpl. case_match; [done|]. intros [= <-].
  eapply (misc_step _ _ (refundChange (refund s))); try done.
  by destruct A.
Qed.

Lemma AddPreimage_step s h v : core_ok s -> aux_ok s -> step_ok s (AddPreimage s h v).
Proof.
  intros C A. unfold AddPreimage. destruct (preimages s !! h) eqn:E.
  { split; [by apply Undo_refl|done]. }
  eapply (misc_step _ _ (addPreimageChange h)); try done.
  - by destruct A.
  - split; try done. simpl. by rewrite delete_insert_id.
Qed.

Lemma AddLog_step s l : core_ok s -> aux_ok s -> step_ok s (AddLog s l).
Proof.
  intros C A. unfold AddLog. simpl.
  set (l' := l <| l_TxHash := _ |> <| l_BlockHash := _ |> <| l_TxIndex := _ |> <| l_Index := _ |>).
  match goal with |- step_ok _ ?x => set (s' := x) end.
  assert (aux_ok s') as A'.
  { destruct A as [A1 A2 A3]. split; try done. intros h ll. simpl. rewrite lookup_insert.
    case_decide; [|apply A3]. intros [= <-] Hn. by apply app_nil in Hn as []. }
  assert (sdb_equiv (s' <| logs := logs s |> <| logSize := logSize s |>) s) as E by by split.
  destruct (logs s !! thash s) as [ll|] eqn:El.
  - assert (ll <> []) as Hl by by eapply A.
    eapply (misc_step _ _ (addLogChange (thash s)) (s' <| logs := logs s |> <| logSize := logSize s |>)); try done.
    simpl. rewrite lookup_insert_eq. simpl.
    assert (take (length (ll ++ [l']) - 1) (ll ++ [l']) = ll) as ->.
    { rewrite length_app. simpl. replace (length ll + 1 - 1)%nat with (length ll) by lia.
      by rewrite take_app_length. }
    destruct ll as [|x [|y ll]]; simpl; [done|..]; subst s'; unfold setf; simpl;
      rewrite insert_insert_eq, insert_id by done; do 2 f_equal; lia.
  - eapply (misc_step _ _ (addLogChange (thash s)) (s' <| logs := logs s |> <| logSize := logSize s |>)); try done.
    simpl. rewrite lookup_insert_eq. simpl. subst s'. unfold setf. simpl.
    rewrite delete_insert_id by done. do 2 f_equal; lia.
Qed.

Lemma AddAddress_step s a : core_ok s -> aux_ok s -> step_ok s (AddAddressToAccessList s a).
Proof.
  intros C A. unfold AddAddressToAccessList.
  pose proof (AddAddress_ok _ a (ao_al _ A)) as Hok. pose proof (ao_al _ A) as Ha.
  destruct (AddAddress (sdb_accessList s) a) as [al added] eqn:E. simpl in Hok.
  destruct added.
  - eapply (misc_step _ _ (accessListAddAccountChange a)); try done.
    + by destruct A.
    + split; try done. simpl. by eapply DeleteAddress_AddAddress.
  - assert (al = sdb_accessList s) as ->.
    { unfold AddAddress in E. case_match; by simplify_eq. }
    split; [|done]. apply Undo_equiv; try done. by destruct C.
Qed.

Lemma AddSlot_split s a slot :
  AddSlotToAccessList s a slot = AddSlotToAccessList (AddAddressToAccessList s a) a slot.
Proof.
  unfold AddAddressToAccessList, AddAddress.
  destruct (addresses (sdb_accessList s) !! a) as [i|] eqn:E; simpl; [by destruct s|].
  unfold AddSlotToAccessList, AddSlot, setf. simpl. rewrite E, lookup_insert_eq. simpl.
  unfold journal_append, setf. simpl. by rewrite insert_insert_eq.
Qed.

Lemma AddSlot_present al a slot : is_Some (addresses al !! a) ->
  forall al' b1 b2, AddSlot al a slot = Ret (al', b1, b2) -> b1 = false.
Proof.
  intros [i Hi] al' b1 b2. unfold AddSlot. rewrite Hi. repeat case_match; intros; by simplify_eq.
Qed.

Lemma AddSlot_step s a slot : core_ok s -> aux_ok s ->
  exists s', AddSlotToAccessList s a slot = Ret s' /\ step_ok s s'.
Proof.
  intros C A. rewrite AddSlot_split. pose proof (AddAddress_step s a C A) as Hs.
  destruct (Undo_ok _ _ (proj1 Hs)) as [C1 A1].
  assert (is_Some (addresses (sdb_accessList (AddAddressToAccessList s a)) !! a)) as Hp.
  { unfold AddAddressToAccessList, AddAddress. destruct (addresses (sdb_accessList s) !! a) eqn:E; simpl; [by rewrite E|].
    rewrite lookup_insert_eq. eauto. }
  destruct (AddSlot_spec _ a slot (ao_al _ A1)) as (al' & b1 & b2 & E & Hok & Hno & Hyes).
  unfold AddSlotToAccessList at 1. rewrite E.
  assert (b1 = false) as -> by by eapply AddSlot_present.
  eexists. split; [done|]. eapply step_trans; [exact Hs|].
  set (s1 := AddAddressToAccessList s a) in *. destruct b2.
  - destruct (Hyes eq_refl) as (al1 & Hd & Hal).
    set (e := accessListAddSlotChange a slot).
    eapply (misc_step _ _ e (s1 <| entries := entries s1 ++ [e] |>)); try done.
    + by destruct A1.
    + simpl. rewrite Hd. subst al1. by destruct s1.
  - destruct (Hno eq_refl) as [-> _]. split; [|done]. apply Undo_equiv; try done. by destruct C1.
Qed.

(** ** Histories with nested snapshots *)

Inductive Op :=
| OCreateAccount (a : Address)
| OAddBalance (a : Address) (v : Z)
| OSubBalance (a : Address) (v : Z)
| OSetBalance (a : Address) (v : Z)
| OSetNonce (a : Address) (n : Z)
| OSetCode (a : Address) (c : bytes)
| OSetState (a : Address) (k v : Hash)
| OSuicide (a : Address)
| OAddRefund (g : Z)
| OSubRefund (g : Z)
| OAddLog (l : Log)
| OAddPreimage (h : Hash) (v : bytes)
| OAddAddress (a : Address)
| OAddSlot (a : Address) (slot : Hash)
| OSnapshot
| ORevert (id : Z).

Definition exec (s : StateDB) (op : Op) : outcome StateDB :=
  match op with
  | OCreateAccount a => Ret (CreateAccount s a)
  | OAddBalance a v => Ret (AddBalance s a v)
  | OSubBalance a v => Ret (SubBalance s a v)
  | OSetBalance a v => Ret (SetBalance s a v)
  | OSetNonce a n => Ret (SetNonce s a n)
  | OSetCode a c => Ret (SetCode s a c)
  | OSetState a k v => Ret (SetState s a k v)
  | OSuicide a => Ret (Suicide s a).1
  | OAddRefund g => Ret (AddRefund s g)
  | OSubRefund g => SubRefund s g
  | OAddLog l => Ret (AddLog s l)
  | OAddPreimage h v => Ret (AddPreimage s h v)
  | OAddAddress a => Ret (AddAddressToAccessList s a)
  | OAddSlot a slot => AddSlotToAccessList s a slot
  | OSnapshot => Ret (Snapshot s).1
  | ORevert id => RevertToSnapshot s id
  end.

(** The snapshot [id] is still valid after [op]. *)
Definition keeps (id : Z) (op : Op) : bool :=
  match op with ORevert i => id <? i | _ => true end.

Lemma exec_step s op s' : core_ok s -> aux_ok s -> exec s op = Ret s' ->
  match op with OSnapshot | ORevert _ => True | _ => step_ok s s' end.
Proof.
  intros C A. destruct op; simpl; intros E; simplify_eq;
    eauto using CreateAccount_step, AddBalance_step, SubBalance_step, SetBalance_step,
      SetNonce_step, SetCode_step, SetState_step, Suicide_step, AddRefund_step, SubRefund_step,
      AddLog_step, AddPreimage_step, AddAddress_step.
  destruct (AddSlot_step s a slot C A) as (s2 & E2 & Hs). rewrite E in E2. by simplify_eq.
Qed.

(** Revision ids increase along the stack. *)
Definition revs_ok (s : StateDB) : Prop :=
  (forall i j r1 r2, (i < j)%nat -> validRevisions s !! i = Some r1 ->
     validRevisions s !! j = Some r2 -> rev_id r1 < rev_id r2) /\
  (forall r, r ∈ validRevisions s -> rev_id r < nextRevisionId s).

Lemma revs_ok_take s s' n :
  revs_ok s -> validRevisions s' = take n (validRevisions s) ->
  nextRevisionId s' = nextRevisionId s -> revs_ok s'.
Proof.
  intros [H1 H2] E1 E2. split; rewrite E1.
  - intros i j r1 r2 Hij [Hi _]%lookup_take_Some [Hj _]%lookup_take_Some. eauto.
  - intros r (i & Hr & _)%elem_of_take. rewrite E2. apply H2. by eapply list_elem_of_lookup_2.
Qed.

Lemma Snapshot_revs s : revs_ok s -> revs_ok (Snapshot s).1.
Proof.
  intros [H1 H2]. split; simpl.
  - intros i j r1 r2 Hij Hi Hj.
    apply lookup_app_Some in Hj as [Hj|[Hl Hj]].
    + rewrite lookup_app_l in Hi by (apply lookup_lt_Some in Hj; lia). eauto.
    + apply list_lookup_singleton_Some in Hj as [Hj <-]. simpl.
      rewrite lookup_app_l in Hi by lia. apply H2. by eapply list_elem_of_lookup_2.
  - intros r [Hr|Hr]%elem_of_app; [specialize (H2 r Hr); lia|].
    apply list_elem_of_singleton in Hr as ->. simpl. lia.
Qed.

Lemma Search_rev s p r : revs_ok s -> validRevisions s !! p = Some r ->
  Search (length (validRevisions s)) (fun i => match validRevisions s !! i with
    | Some r' => rev_id r <=? rev_id r' | None => false end) = p.
Proof.
  intros [Hs _] Hp. pose proof (lookup_lt_Some _ _ _ Hp). apply Search_spec; [lia|..]; intros x Hx.
  - destruct (lookup_lt_is_Some_2 (validRevisions s) x) as [r' Hr]; [lia|]. rewrite Hr.
    pose proof (Hs x p _ _ ltac:(lia) Hr Hp). lia.
  - destruct (lookup_lt_is_Some_2 (validRevisions s) x) as [r' Hr]; [lia|]. rewrite Hr.
    destruct (decide (x = p)) as [->|]; [simplify_eq; lia|].
    pose proof (Hs p x _ _ ltac:(lia) Hp Hr). lia.
Qed.

(** What holds between [Snapshot], taken in [s0], and its revert. *)
Record within (s0 s : StateDB) (id : Z) : Prop := {
  wi_undo : Undo s0 s;
  wi_revs : revs_ok s;
  wi_take : take (length (validRevisions s0)) (validRevisions s) = validRevisions s0;
  wi_id : validRevisions s !! length (validRevisions s0) = Some (mkRevision id (length (entries s0)));
  wi_above i r : (length (validRevisions s0) < i)%nat -> validRevisions s !! i = Some r ->
    (length (entries s0) <= journalIndex r)%nat
}.

Lemma within_start s : core_ok s -> aux_ok s -> revs_ok s ->
  within s (Snapshot s).1 (nextRevisionId s).
Proof.
  intros C A R. split; simpl.
  - apply Undo_equiv; try done. by destruct C.
  - by apply Snapshot_revs.
  - by rewrite take_app_length.
  - by rewrite list_lookup_middle.
  - intros i r Hi Hr. apply lookup_lt_Some in Hr. rewrite length_app in Hr. simpl in Hr. lia.
Qed.

(** Cutting the new entries back to a shorter prefix keeps [Undo]. *)
Lemma Undo_cut s0 s n t : Undo s0 s -> (length (entries s0) <= n)%nat ->
  foldM revertStep s (reverse (drop n (entries s))) = Ret t ->
  Undo s0 (t <| entries := take n (entries s) |>).
Proof.
  intros (C & es & Ee & Hk) Hn Ht. pose proof (co_entries _ C) as Hes.
  destruct (foldM_revert_core _ _ _ C (proj2 (Forall_reverse _ _) (Forall_drop _ n _ Hes)) Ht) as [Ct Pt].
  assert (core_ok (t <| entries := take n (entries s) |>)) as Ct'.
  { destruct Ct. split; try done. simpl. rewrite Pt. by apply Forall_take. }
  rewrite Ee in *. rewrite drop_app_ge in Ht by lia. rewrite take_app_ge in * by lia.
  set (k := (n - length (entries s0))%nat) in *. split; [done|]. exists (take k es). split; [done|].
  intros j. destruct (decide (j <= k)%nat) as [Hj|Hj].
  - destruct (Hk j) as (u & Hu & Au & Eu).
    replace (drop j es) with (drop j (take k es) ++ drop k es) in Hu.
    2:{ rewrite <- (take_drop k es) at 3. destruct (decide (j <= length (take k es))%nat).
        - by rewrite drop_app_le.
        - rewrite length_take in *. rewrite (drop_ge (take k es)) by (rewrite length_take; lia).
          rewrite drop_app_ge by (rewrite length_take; lia). rewrite (drop_ge es k) by lia.
          by rewrite drop_nil. }
    rewrite reverse_app, foldM_app, Ht in Hu. simpl in Hu.
    destruct (foldM_revert_lift (reverse (drop j (take k es))) (t <| entries := entries s0 ++ take k es |>) t u)
      as (v & Hv & Ev); try done.
    { simpl. rewrite Pt. apply Forall_reverse, Forall_drop, Forall_take. by apply Forall_app in Hes as [_ Hes]. }
    exists v. split_and!; [done|by eapply aux_ok_equiv|]. intros Hj0. rewrite Ev. auto.
  - rewrite drop_ge by (rewrite length_take; lia). eexists. split; [done|].
    split; [|lia]. destruct (Hk k) as (u & Hu & Au & _). rewrite Ht in Hu. simplify_eq.
    by destruct Au.
Qed.

Lemma revertStep_keeps s e t : revertStep s e = Ret t ->
  entries t = entries s /\ validRevisions t = validRevisions s /\ nextRevisionId t = nextRevisionId s.
Proof.
  assert (forall a, (getStateObject s a).1 = s <| stateObjects := stateObjects (getStateObject s a).1 |>) as Hf
    by (intros a; apply (getState_fill s a)).
  unfold revertStep. destruct (revertEntry s e) as [u|] eqn:E; [|done]. intros [= <-].
  replace (entries (dropDirty u e)) with (entries u) by (unfold dropDirty; by repeat case_match).
  replace (validRevisions (dropDirty u e)) with (validRevisions u) by (unfold dropDirty; by repeat case_match).
  replace (nextRevisionId (dropDirty u e)) with (nextRevisionId u) by (unfold dropDirty; by repeat case_match).
  destruct e; simpl in E; unfold onObject in E;
    try (specialize (Hf account); destruct (getStateObject s account) as [s1 [o|]]; simpl in Hf, E);
    repeat (case_match; simplify_eq/=); simplify_eq/=; try done; by rewrite Hf.
Qed.

Lemma revert_keeps es s t : foldM revertStep s es = Ret t ->
  entries t = entries s /\ validRevisions t = validRevisions s /\ nextRevisionId t = nextRevisionId s.
Proof.
  apply (foldM_inv (fun x => entries x = entries s /\ validRevisions x = validRevisions s /\
                             nextRevisionId x = nextRevisionId s)); [|done].
  intros e x y _ (<- & <- & <-). apply revertStep_keeps.
Qed.

Lemma RevertToSnapshot_inv s i s' : RevertToSnapshot s i = Ret s' ->
  exists p r t, validRevisions s !! p = Some r /\ rev_id r = i /\
    foldM revertStep s (reverse (drop (journalIndex r) (entries s))) = Ret t /\
    s' = t <| entries := take (journalIndex r) (entries s) |> <| validRevisions := take p (validRevisions s) |> /\
    nextRevisionId s' = nextRevisionId s.
Proof.
  unfold RevertToSnapshot. set (p := Search _ _).
  destruct (validRevisions s !! p) as [r|] eqn:Hp; [|done].
  destruct (Z.eqb_spec (rev_id r) i) as [Hi|]; [|done]. simpl. unfold journal_revert.
  destruct (foldM revertStep s _) as [t|] eqn:Ht; [|done]. simpl. intros [= <-].
  pose proof (revert_keeps _ _ _ Ht) as (E1 & E2 & E3).
  exists p, r, t. simpl. by rewrite E1, E2.
Qed.

Lemma Undo_revisions s0 s s' : Undo s0 s ->
  s' = s <| validRevisions := validRevisions s' |> <| nextRevisionId := nextRevisionId s' |> ->
  Undo s0 s'.
Proof.
  intros U E. destruct (Undo_ok _ _ U) as [C A]. eapply Undo_trans; [exact U|]. rewrite E.
  apply Undo_equiv; try done. by destruct C.
Qed.

Lemma within_exec s0 s id op s' :
  within s0 s id -> keeps id op = true -> exec s op = Ret s' -> within s0 s' id.
Proof.
  intros [U R T I B] K E. destruct (Undo_ok _ _ U) as [C A].
  pose proof (exec_step s op s' C A E) as Hstep. set (n := length (validRevisions s0)) in *.
  pose proof (lookup_lt_Some _ _ _ I) as Hn.
  destruct op; lazymatch type of Hstep with True => idtac | _ => destruct Hstep as [U' [V N]]; split; rewrite ?V;
    [by eapply Undo_trans|by apply (revs_ok_take s s' (length (validRevisions s))); rewrite ?V, ?firstn_all|done..] end.
  - simpl in E. simplify_eq. split; simpl.
    + by eapply Undo_revisions.
    + by apply Snapshot_revs.
    + by rewrite take_app_le by lia.
    + by rewrite lookup_app_l.
    + intros i r Hi. destruct (decide (i < length (validRevisions s))%nat).
      * rewrite lookup_app_l by done. by apply B.
      * rewrite lookup_app_r by lia. intros [_ <-]%list_lookup_singleton_Some. simpl.
        destruct U as (_ & es & -> & _). rewrite length_app. lia.
  - simpl in E, K. apply RevertToSnapshot_inv in E as (p & r & t & Hp & Hr & Ht & -> & N).
    assert (n < p)%nat as Hnp.
    { destruct (decide (p = n)) as [->|]; [simplify_eq/=; lia|].
      destruct (decide (p < n)%nat); [|lia].
      pose proof (proj1 R p n _ _ ltac:(lia) Hp I) as Hlt. simpl in Hlt. lia. }
    split; simpl.
    + eapply Undo_revisions; [apply (Undo_cut _ _ (journalIndex r) t U); [by eapply (B p)|done]|done].
    + by eapply (revs_ok_take s).
    + rewrite take_take, Nat.min_l by lia. done.
    + by rewrite lookup_take_lt.
    + intros i r' Hi [Hr' _]%lookup_take_Some. by eapply B.
Qed.

(** Whatever ran since, the snapshot can be reverted, and the state is the one it was taken in. *)
Lemma within_revert s0 s id : within s0 s id ->
  exists s', RevertToSnapshot s id = Ret s' /\ sdb_equiv s' s0 /\
    entries s' = entries s0 /\ validRevisions s' = validRevisions s0.
Proof.
  intros [(C & es & Ee & Hk) R T I B]. pose proof (Search_rev s _ _ R I) as Hs. simpl in Hs.
  unfold RevertToSnapshot. rewrite Hs, I. simpl. rewrite Z.eqb_refl. simpl.
  unfold journal_revert. destruct (Hk 0%nat) as (t & Ht & At & Et). rewrite Ee, drop_app_length.
  rewrite drop_0 in Ht. rewrite Ht. simpl. eexists. split; [done|].
  pose proof (revert_keeps _ _ _ Ht) as (E1 & E2 & _).
  split_and!; simpl; [destruct (Et eq_refl); by split| |by rewrite E2].
  by rewrite E1, Ee, take_app_length.
Qed.

Lemma within_run s0 id ops s s' : within s0 s id -> forallb (keeps id) ops = true ->
  foldM exec s ops = Ret s' -> within s0 s' id.
Proof.
  intros W K. apply (foldM_inv (fun x => within s0 x id)); [|done]. intros op s1 s2 Hop W1 E.
  rewrite forallb_forall in K. apply (within_exec _ _ _ op _ W1); [|done].
  apply K. by apply list_elem_of_In.
Qed.

(** ** Reachable states *)

(** A state in the middle of a transaction, whose journal starts at [s0]. *)
Definition sane (s : StateDB) : Prop :=
  revs_ok s /\ exists s0, entries s0 = [] /\ Undo s0 s.

Lemma sane_ok s : sane s -> core_ok s /\ aux_ok s /\ revs_ok s.
Proof. intros [R (s0 & _ & U)]. by destruct (Undo_ok _ _ U). Qed.

Lemma sane_fresh s : core_ok s -> aux_ok s -> revs_ok s -> entries s = [] -> sane s.
Proof. intros C A R E. split; [done|]. exists s. split; [done|]. by apply Undo_refl. Qed.

Lemma exec_sane s op s' : sane s -> exec s op = Ret s' -> sane s'.
Proof.
  intros [R (s0 & E0 & U)] E. destruct (Undo_ok _ _ U) as [C A].
  pose proof (exec_step s op s' C A E) as Hstep.
  destruct op; lazymatch type of Hstep with True => idtac | _ =>
    destruct Hstep as [U' [V N]]; split;
      [apply (revs_ok_take s s' (length (validRevisions s))); rewrite ?V, ?firstn_all; done
      |exists s0; split; [done|by eapply Undo_trans]] end.
  - simpl in E. simplify_eq. split; [by apply Snapshot_revs|]. exists s0. split; [done|].
    by eapply Undo_revisions.
  - simpl in E. apply RevertToSnapshot_inv in E as (p & r & t & Hp & Hr & Ht & -> & N).
    split; [by eapply (revs_ok_take s)|]. exists s0. split; [done|].
    eapply Undo_revisions; [apply (Undo_cut _ _ (journalIndex r) t U); [|done]|done].
    rewrite E0. simpl. lia.
Qed.

(** [core_ok] without its journal part, which Finalise breaks until it clears
    the journal. *)
Definition objs_ok (s : StateDB) : Prop :=
  (forall a o, stateObjects s !! a = Some o -> so_address o = a /\ fakeStorage o = None) /\
  stateObjectsDirty s ⊆ dom (stateObjects s) /\ stateObjectsPending s ⊆ dom (stateObjects s).

Lemma objs_core s : objs_ok s -> entries s = [] -> core_ok s.
Proof. intros (H1 & H2 & H3) He. split; try done. rewrite He. constructor. Qed.

Lemma finaliseAddr_ok b s a : objs_ok s -> aux_ok s ->
  objs_ok (finaliseAddr b s a) /\ aux_ok (finaliseAddr b s a).
Proof.
  intros (H1 & H2 & H3) A. unfold finaliseAddr.
  destruct (stateObjects s !! a) as [o|] eqn:E; [|by split].
  destruct (H1 a o E) as [Ha Hf]. split; [|by destruct A]. split_and!; simpl.
  - intros c o'. rewrite lookup_insert. case_decide; [|apply H1]. intros [= <-]. subst. by case_match.
  - rewrite dom_insert. set_solver.
  - rewrite dom_insert. set_solver.
Qed.

Lemma Finalise_ok s b : core_ok s -> aux_ok s ->
  objs_ok (Finalise s b) /\ aux_ok (Finalise s b) /\ entries (Finalise s b) = [] /\
  revs_ok (Finalise s b).
Proof.
  intros [H1 H2 H3 _] A. unfold Finalise.
  assert (forall l x, objs_ok x -> aux_ok x ->
    objs_ok (fold_left (finaliseAddr b) l x) /\ aux_ok (fold_left (finaliseAddr b) l x)) as Hl.
  { induction l as [|a l IH]; intros x Cx Ax; simpl; [done|]. apply IH; by apply finaliseAddr_ok. }
  destruct (Hl (elements (dom (dirties s))) s) as [Ho [A1 A2 A3]]; [by split_and!|done|].
  unfold clearJournalAndRefund.
  split_and!; case_decide; try done; try (split; simpl; try done; set_solver).
Qed.

Lemma Finalise_sane s b : sane s -> sane (Finalise s b).
Proof.
  intros (C & A & R)%sane_ok. destruct (Finalise_ok s b C A) as (Ho & A' & E & R').
  apply sane_fresh; auto using objs_core.
Qed.

(** IntermediateRoot finds a live object for every pending address. *)
Lemma updateRoot_fields o :
  so_address (updateRoot o) = so_address o /\ fakeStorage (updateRoot o) = fakeStorage o.
Proof. unfold updateRoot, updateTrie, getTrie. by repeat case_match; simplify_eq/=. Qed.

Lemma updatePending_ok l s : objs_ok s -> aux_ok s -> Forall (fun a => a ∈ dom (stateObjects s)) l ->
  exists s', foldM updatePendingRoot s l = Ret s' /\ objs_ok s' /\ aux_ok s' /\
    entries s' = entries s /\ validRevisions s' = validRevisions s /\
    nextRevisionId s' = nextRevisionId s /\ dom (stateObjects s') = dom (stateObjects s).
Proof.
  revert s. induction l as [|a l IH]; intros s Ho A Hl; simpl; [by eauto 10|].
  apply Forall_cons_1 in Hl as [Ha Hl]. unfold updatePendingRoot at 1.
  apply elem_of_dom in Ha as [o Ea]. rewrite Ea. destruct (deleted o); [by apply IH|].
  assert (dom (<[a := updateRoot o]> (stateObjects s)) = dom (stateObjects s)) as Hd.
  { rewrite dom_insert_lookup_L; eauto. }
  destruct (IH (s <| stateObjects := <[a := updateRoot o]> (stateObjects s) |>))
    as (s' & E & Ho' & A' & E1 & E2 & E3 & E4).
  - destruct Ho as (H1 & H2 & H3). unfold objs_ok. simpl. rewrite Hd. split_and!; try done.
    intros b o'. rewrite lookup_insert. case_decide; [|by apply H1]. intros [= <-]. subst b.
    destruct (updateRoot_fields o) as [-> ->]. by apply H1.
  - by destruct A.
  - simpl. by rewrite Hd.
  - exists s'. simpl in E4. rewrite Hd in E4. by split_and!.
Qed.

Lemma writePending_ok l s : Forall (fun a => a ∈ dom (stateObjects s)) l ->
  exists tr, foldM writePending s l = Ret (s <| trie := tr |>).
Proof.
  revert s. induction l as [|a l IH]; intros s Hl; simpl; [exists (trie s); by destruct s|].
  apply Forall_cons_1 in Hl as [Ha Hl]. unfold writePending at 1.
  apply elem_of_dom in Ha as [o Ea]. rewrite Ea.
  match goal with |- context [foldM writePending ?x l] => destruct (IH x) as [tr Htr] end; [done|].
  exists tr. by rewrite Htr.
Qed.

Lemma IntermediateRoot_sane s b : sane s ->
  exists s' h, IntermediateRoot s b = Ret (s', h) /\ sane s' /\ stateObjectsPending s' = ∅ /\
    entries s' = [].
Proof.
  intros (C & A & R)%sane_ok. destruct (Finalise_ok s b C A) as (Ho & A' & E & R').
  unfold IntermediateRoot. set (f := Finalise s b) in *. clearbody f.
  assert (Forall (fun a => a ∈ dom (stateObjects f)) (elements (stateObjectsPending f))) as Hp.
  { apply Forall_forall. intros a Ha%elem_of_elements. destruct Ho as (_ & _ & H3). set_solver. }
  destruct (updatePending_ok _ f Ho A' Hp) as (s1 & -> & Ho1 & A1 & E1 & V1 & N1 & D1). simpl.
  destruct (writePending_ok (elements (stateObjectsPending f)) s1) as [tr Htr]; [by rewrite D1|].
  rewrite Htr. simpl. eexists _, _. split_and!; [done| |done|by simpl; rewrite E1].
  apply sane_fresh; [apply objs_core|..]; simpl; try congruence.
  - destruct Ho1 as (H1 & H2 & H3). split_and!; try done.
  - by destruct A1.
  - eapply (revs_ok_take f _ (length (validRevisions f))); [done|by rewrite firstn_all|done].
Qed.

Lemma Prepare_sane s th bh ti : sane s -> entries s = [] -> sane (Prepare s th bh ti).
Proof.
  intros ([] & [A1 A2 A3] & R)%sane_ok E. by apply sane_fresh.
Qed.

(** Copy finds a live object for every dirty address. *)
Lemma Copy_sane s : sane s -> exists s', Copy s = Ret s' /\ sane s' /\ entries s' = [] /\ refund s' = refund s.
Proof.
  intros ([Co Cd Cp _] & [A1 A2 A3] & _)%sane_ok. unfold Copy. set (J := filter _ (dom (dirties s))).
  assert (forall a, a ∈ J ∪ stateObjectsPending s ∪ stateObjectsDirty s ->
    exists o, stateObjects s !! a = Some o) as Hex.
  { intros a [[[Ha _]%elem_of_filter|Ha%Cp%elem_of_dom]%elem_of_union|Ha%Cd%elem_of_dom]%elem_of_union; done. }
  rewrite bool_decide_true by (intros a Ha; by apply Hex).
  eexists. split; [done|]. split; [|done]. apply sane_fresh; [..|done].
  - assert (forall a o, stateObjects s !! a = Some o -> a ∈ J ∪ stateObjectsPending s ∪ stateObjectsDirty s ->
      a ∈ dom (deepCopy <$> filter (fun kv : Address * stateObject => kv.1 ∈ J ∪ stateObjectsPending s ∪
        stateObjectsDirty s) (stateObjects s))) as Hin.
    { intros a o Ho Ha. rewrite dom_fmap. apply elem_of_dom. exists o. by apply map_lookup_filter_Some. }
    split; simpl; [|intros a Ha; destruct (Hex a) as [o Ho]; [set_solver|eapply Hin; set_solver]..|done].
    intros a o. rewrite lookup_fmap_Some. intros (o' & <- & [Ho' _]%map_lookup_filter_Some).
    by destruct (Co a o' Ho') as [<- _].
  - split; simpl; [done| |done]. intros a n _. by rewrite lookup_empty.
  - split; simpl; [by intros i j r1 r2 _|]. by intros r ?%elem_of_nil.
Qed.

(** The states of a block: transactions prepared, executed, finalised and
    hashed, from the state of the parent. *)
Inductive reachable : StateDB -> Prop :=
| reach_new tr : reachable (New tr)
| reach_exec s op s' : reachable s -> exec s op = Ret s' -> reachable s'
| reach_prepare s th bh ti : reachable s -> entries s = [] -> reachable (Prepare s th bh ti)
| reach_finalise s b : reachable s -> reachable (Finalise s b)
| reach_root s b s' h : reachable s -> IntermediateRoot s b = Ret (s', h) -> reachable s'
| reach_copy s s' : reachable s -> Copy s = Ret s' -> reachable s'.

Lemma reachable_sane s : reachable s -> sane s.
Proof.
  induction 1 as [tr|s op s' _ IH E|s th bh ti _ IH E|s b _ IH|s b s' h _ IH E|s s' _ IH E].
  - destruct (New_ok tr). apply sane_fresh; try done. split; simpl; set_solver.
  - by eapply exec_sane.
  - by apply Prepare_sane.
  - by apply Finalise_sane.
  - destruct (IntermediateRoot_sane s b IH) as (s1 & h1 & E1 & Hs & _).
    rewrite E in E1. by simplify_eq.
  - destruct (Copy_sane s IH) as (s'' & E' & Hs & _). congruence.
Qed.

(** ** Properties *)

(** C19: in every reachable state, after [Snapshot] and any operations that do
    not revert below it, nested snapshots and reverts included,
    [RevertToSnapshot] succeeds, no getter tells the resulting state from the
    one the snapshot was taken in, and the journal and the revision stack are
    the old ones. *)
Theorem revert_restores s ops s2 :
  reachable s ->
  foldM exec (Snapshot s).1 ops = Ret s2 ->
  forallb (keeps (Snapshot s).2) ops = true ->
  exists s3, RevertToSnapshot s2 (Snapshot s).2 = Ret s3 /\ sdb_equiv s3 s /\
    entries s3 = entries s /\ validRevisions s3 = validRevisions s.
Proof.
  intros (C & A & R)%reachable_sane%sane_ok E K. apply within_revert.
  by apply (within_run s _ ops (Snapshot s).1); [apply within_start|..].
Qed.


End Journal.

(** ** Witnesses *)

#[local] Existing Instances toyCrypto toyDatabase.

Definition ops_ex : list Op :=
  [OSetNonce 7 1; OSubBalance 7 30; OAddBalance 8 30; OSnapshot; OSetState 9 1 5;
   OSuicide 7; ORevert 1; OCreateAccount 7; OAddSlot 9 2; OAddLog (mkLog 9 [] [] 0 0 0 0 0)].

Definition state_ex : StateDB := New {[ 7 := mkAccount 0 100 emptyRoot 0 ]}.

Lemma revert_restores_witness :
  exists s2 s3, foldM (exec) (Snapshot state_ex).1 ops_ex = Ret s2 /\
    GetBalance s2 8 = 30 /\
    RevertToSnapshot s2 0 = Ret s3 /\ GetBalance s3 8 = 0.
Proof.
  destruct (foldM (exec) (Snapshot state_ex).1 ops_ex) as [s2|] eqn:E;
    [|vm_compute in E; discriminate].
  destruct (revert_restores state_ex ops_ex s2) as (s3 & E3 & Eq & _).
  - apply reach_new.
  - exact E.
  - vm_compute. reflexivity.
  - exists s2, s3. split; [reflexivity|]. split; [|split; [exact E3|]].
    + vm_compute in E. injection E as <-. vm_compute. reflexivity.
    + rewrite (GetBalance_equiv _ _ 8 Eq). vm_compute. reflexivity.
Defined.

