(* ===== verification/StateStore.v ===== *)
(** * Committed states (core/state/statedb.go Commit, and the state database)

    The trie database seen from the chain: the account tries it can open, by
    root, with the number of references the chain holds on each of them, and
    the roots that are on disk.  What a reference keeps alive and what a
    dereference deletes at the level of trie nodes is the subject of TrieGC
    and TrieSafety; here a root without a reference that is not on disk is
    gone.  Contract code and storage tries are content addressed and read
    through the class [Database]; the code [Commit] writes is collected. *)

From S2P Require Import Prelude Rlp Transaction AccessList StateDB Journal.

Record stateStore := mkStore {
  ss_tries : gmap Hash (gmap Address Account);
  ss_refs : gmap Hash Z;
  ss_disk : gset Hash;
  ss_code : gmap Hash bytes
}.
#[export] Instance eta_stateStore : Eta stateStore := fun r =>
  mkStore (ss_tries r) (ss_refs r) (ss_disk r) (ss_code r).

Definition emptyStore : stateStore := mkStore ∅ ∅ ∅ ∅.

Definition refs (st : stateStore) (root : Hash) : Z := default 0 (ss_refs st !! root).

(** OpenTrie: the zero hash and the root of the empty trie need no node. *)
Definition OpenTrie (st : stateStore) (root : Hash) : option (gmap Address Account) :=
  if (root =? 0) || (root =? emptyRoot) then Some ∅ else ss_tries st !! root.

(** Database.Reference of a root by the metadata root. *)
Definition ReferenceRoot (st : stateStore) (root : Hash) : stateStore :=
  match ss_tries st !! root with
  | Some _ => if decide (root ∈ ss_disk st) then st else st <| ss_refs := <[root := refs st root + 1]> (ss_refs st) |>
  | None => st
  end.

(** Database.Dereference of a root. *)
Definition DereferenceRoot (st : stateStore) (root : Hash) : stateStore :=
  if decide (root ∈ ss_disk st) then st
  else
    let n := if 0 <? refs st root then refs st root - 1 else refs st root in
    if n =? 0 then st <| ss_tries := delete root (ss_tries st) |> <| ss_refs := delete root (ss_refs st) |>
    else st <| ss_refs := <[root := n]> (ss_refs st) |>.

(** Database.Commit of a root, and the roots that Database.Cap has written in
    full; a missing root writes nothing. *)
Definition FlushRoots (st : stateStore) (roots : gset Hash) : stateStore :=
  st <| ss_disk := ss_disk st ∪ filter (fun r => is_Some (ss_tries st !! r)) roots |>.

Section Commit.
Context `{Crypto} `{Database}.

(** CommitTrie: the root of the committed storage trie is its hash. *)
Definition CommitTrie (o : stateObject) : stateObject :=
  let '(o, loaded) := updateTrie o in
  match so_trie o with
  | Some t => if loaded then o <| so_data := (so_data o) <| a_Root := storageRoot t |> |> else o
  | None => o
  end.

Definition commitAddr (sc : StateDB * gmap Hash bytes) (a : Address) : outcome (StateDB * gmap Hash bytes) :=
  let '(s, codes) := sc in
  match stateObjects s !! a with
  | None => Panic
  | Some o =>
      if deleted o then Ret (s, codes)
      else
        let '(o, codes) :=
          match so_code o with
          | Some code => if dirtyCode o then (o <| dirtyCode := false |>, <[a_CodeHash (so_data o) := code]> codes)
                         else (o, codes)
          | None => (o, codes)
          end in
        Ret (s <| stateObjects := <[a := CommitTrie o]> (stateObjects s) |>, codes)
  end.

(** StateDB.Commit: the state and the store it leaves, and the root.  Nodes
    that are already in the store are not written again. *)
Definition Commit (st : stateStore) (s : StateDB) (deleteEmptyObjects : bool) : outcome (stateStore * StateDB * Hash) :=
  '(s, _) ← IntermediateRoot s deleteEmptyObjects;
  '(s, codes) ← foldM commitAddr (s, ss_code st) (elements (stateObjectsDirty s));
  let s := s <| stateObjectsDirty := ∅ |> in
  let root := accountRoot (trie s) in
  let st := st <| ss_code := codes |> in
  Ret (if root =? emptyRoot then st else st <| ss_tries := ss_tries st ∪ {[root := trie s]} |>, s, root).

End Commit.

(** ** Settled states

    A state whose root was computed with a flag [d] keeps its trie when the
    root is computed again: the accounts that are still marked dirty are
    deleted, or written as they are in the trie. *)

Section Settled.
Context `{Crypto} `{Database}.

Definition finObj (d : bool) (o : stateObject) : stateObject :=
  if suicided o || (d && empty o) then o <| deleted := true |> else objFinalise o.
Definition rootObj (o : stateObject) : stateObject := if deleted o then o else updateRoot o.
Definition written (o : stateObject) : option Account := if deleted o then None else Some (so_data o).

(** A live object without changes, whose root is that of its trie. *)
Record clean (o : stateObject) : Prop := {
  cl_dirty : dirtyStorage o = ∅;
  cl_pending : pendingStorage o = ∅;
  cl_root : forall t, so_trie o = Some t -> a_Root (so_data o) = storageRoot t
}.

Record settled (d : bool) (s : StateDB) : Prop := {
  se_none : stateObjectsPending s = ∅;
  se_marked a o : a ∈ dom (dirties s) -> stateObjects s !! a = Some o ->
    trie s !! a = written o /\ (deleted o = false -> clean o /\ suicided o = false /\ (d && empty o) = false)
}.

Lemma finalise_fold d l s : NoDup l -> let s' := fold_left (finaliseAddr d) l s in
  (forall a, stateObjects s' !! a = if decide (a ∈ l) then finObj d <$> stateObjects s !! a else stateObjects s !! a) /\
  (forall a, a ∈ stateObjectsPending s' <-> a ∈ stateObjectsPending s \/ a ∈ l /\ is_Some (stateObjects s !! a)) /\
  (stateObjectsDirty s ⊆ dom (stateObjects s) -> stateObjectsDirty s' ⊆ dom (stateObjects s')) /\
  trie s' = trie s /\ dirties s' = dirties s /\ entries s' = entries s.
Proof.
  revert s. induction l as [|b l IH]; intros s Hnd; cbn [fold_left].
  - cbv zeta. split_and!; try done. set_solver.
  - apply NoDup_cons in Hnd as [Hb Hnd]. destruct (IH (finaliseAddr d s b) Hnd) as (Ho & Hp & Hd & Ht & Hdi & He).
    unfold finaliseAddr in *. destruct (stateObjects s !! b) as [o|] eqn:Eb; cbn in *; split_and!; try done; intros a.
    + rewrite Ho. destruct (decide (a = b)) as [->|Hne].
      * rewrite decide_False by done. rewrite decide_True by set_solver. by rewrite lookup_insert_eq, Eb.
      * rewrite lookup_insert_ne by done. destruct (decide (a ∈ l)); [rewrite decide_True by set_solver|rewrite decide_False by set_solver]; done.
    + rewrite Hp. destruct (decide (a = b)) as [->|Hne]; [rewrite Eb; set_solver|]. rewrite lookup_insert_ne by done. set_solver.
    + intros Ha. apply Hd. rewrite dom_insert. set_solver.
    + rewrite Ho. destruct (decide (a = b)) as [->|Hne].
      * rewrite decide_False by done. rewrite decide_True by set_solver. by rewrite Eb.
      * destruct (decide (a ∈ l)); [rewrite decide_True by set_solver|rewrite decide_False by set_solver]; done.
    + rewrite Hp. destruct (decide (a = b)) as [->|Hne]; [|set_solver]. rewrite Eb. split; [set_solver|]. intros [?|[_ [? ?]]]; [by left|done].
Qed.

Lemma Finalise_spec d s : let s' := Finalise s d in
  (forall a, stateObjects s' !! a =
    if decide (a ∈ dom (dirties s)) then finObj d <$> stateObjects s !! a else stateObjects s !! a) /\
  (forall a, a ∈ stateObjectsPending s' <-> a ∈ stateObjectsPending s \/ a ∈ dom (dirties s) /\ is_Some (stateObjects s !! a)) /\
  (stateObjectsDirty s ⊆ dom (stateObjects s) -> stateObjectsDirty s' ⊆ dom (stateObjects s')) /\
  trie s' = trie s /\ (forall a, a ∈ dom (dirties s') -> a ∈ dom (dirties s)).
Proof.
  unfold Finalise. destruct (finalise_fold d (elements (dom (dirties s))) s (NoDup_elements _)) as (Ho & Hp & Hd & Ht & Hdi & He).
  set (f := fold_left _ _ s) in *. clearbody f. cbv zeta.
  assert (forall a (X Y : option stateObject),
    (if decide (a ∈ elements (dom (dirties s))) then X else Y) = if decide (a ∈ dom (dirties s)) then X else Y) as Hdec.
  { intros a X Y. destruct (decide (a ∈ dom (dirties s))); [rewrite decide_True by by apply elem_of_elements|rewrite decide_False by by rewrite elem_of_elements]; done. }
  assert (forall a, a ∈ stateObjectsPending f <->
    a ∈ stateObjectsPending s \/ a ∈ dom (dirties s) /\ is_Some (stateObjects s !! a)) as Hp'.
  { intros a. by rewrite Hp, elem_of_elements. }
  assert (forall a, stateObjects f !! a =
    if decide (a ∈ dom (dirties s)) then finObj d <$> stateObjects s !! a else stateObjects s !! a) as Ho'.
  { intros a. by rewrite Ho, Hdec. }
  unfold clearJournalAndRefund. case_decide; cbn; split_and!; try done. intros a. by rewrite Hdi.
Qed.

Lemma updatePending_spec l s s' : NoDup l -> foldM updatePendingRoot s l = Ret s' ->
  (forall a, stateObjects s' !! a = if decide (a ∈ l) then rootObj <$> stateObjects s !! a else stateObjects s !! a) /\
  s' = s <| stateObjects := stateObjects s' |>.
Proof.
  revert s. induction l as [|b l IH]; intros s Hnd; cbn [foldM].
  - intros [= <-]. split; [|by destruct s]. intros a. by rewrite decide_False by apply not_elem_of_nil.
  - apply NoDup_cons in Hnd as [Hb Hnd]. unfold updatePendingRoot at 1. destruct (stateObjects s !! b) as [o|] eqn:Eb; [|done].
    intros E. destruct (IH _ Hnd E) as [Ho Hs]. split; [|rewrite Hs; by destruct (deleted o); destruct s].
    intros a. rewrite Ho. destruct (decide (a = b)) as [->|Hne].
    + rewrite decide_False by done. rewrite decide_True by set_solver. unfold rootObj. rewrite Eb. cbn.
      destruct (deleted o); [done|]. cbn. by rewrite lookup_insert_eq.
    + replace (stateObjects (if deleted o then s else s <| stateObjects := <[b:=updateRoot o]> (stateObjects s) |>) !! a)
        with (stateObjects s !! a) by (destruct (deleted o); [done|]; cbn; by rewrite lookup_insert_ne).
      destruct (decide (a ∈ l)); [rewrite decide_True by set_solver|rewrite decide_False by set_solver]; done.
Qed.

Lemma writePending_spec l s s' : foldM writePending s l = Ret s' ->
  (forall a, trie s' !! a = if decide (a ∈ l) then stateObjects s !! a ≫= written else trie s !! a) /\
  s' = s <| trie := trie s' |>.
Proof.
  revert s. induction l as [|b l IH]; intros s; cbn [foldM].
  - intros [= <-]. split; [|by destruct s]. intros a. by rewrite decide_False by apply not_elem_of_nil.
  - unfold writePending at 1. destruct (stateObjects s !! b) as [o|] eqn:Eb; [|done].
    intros E. destruct (IH _ E) as [Ht Hs]. split; [|rewrite Hs; by destruct s].
    intros a. rewrite Ht. cbn. destruct (decide (a ∈ l)) as [Hl|Hl]; [by rewrite decide_True by set_solver|].
    destruct (decide (a = b)) as [->|Hne].
    + rewrite decide_True by set_solver. rewrite Eb. cbn. unfold written. destruct (deleted o); by rewrite ?lookup_delete_eq, ?lookup_insert_eq.
    + rewrite decide_False by set_solver. destruct (deleted o); by rewrite ?lookup_delete_ne, ?lookup_insert_ne.
Qed.

Lemma updatePending_total l s : Forall (fun a => a ∈ dom (stateObjects s)) l ->
  exists s', foldM updatePendingRoot s l = Ret s' /\ dom (stateObjects s') = dom (stateObjects s).
Proof.
  revert s. induction l as [|a l IH]; intros s Hl; cbn [foldM]; [by eauto|].
  apply Forall_cons_1 in Hl as [Ha Hl]. unfold updatePendingRoot at 1.
  apply elem_of_dom in Ha as [o Ea]. rewrite Ea. destruct (deleted o); [by apply IH|].
  assert (dom (<[a := updateRoot o]> (stateObjects s)) = dom (stateObjects s)) as Hd by (rewrite dom_insert_lookup_L; eauto).
  destruct (IH (s <| stateObjects := <[a := updateRoot o]> (stateObjects s) |>)) as (s' & E & Hs'); cbn in *; rewrite ?Hd in *; eauto.
Qed.

Lemma IntermediateRoot_spec s d s' h : IntermediateRoot s d = Ret (s', h) -> let f := Finalise s d in
  h = accountRoot (trie s') /\ stateObjectsPending s' = ∅ /\ dirties s' = dirties f /\ stateObjectsDirty s' = stateObjectsDirty f /\
  (forall a, stateObjects s' !! a =
    if decide (a ∈ stateObjectsPending f) then rootObj <$> stateObjects f !! a else stateObjects f !! a) /\
  (forall a, trie s' !! a = if decide (a ∈ stateObjectsPending f) then stateObjects s' !! a ≫= written else trie s !! a).
Proof.
  unfold IntermediateRoot. cbv zeta. set (f := Finalise s d).
  destruct (foldM updatePendingRoot f _) as [s1|] eqn:E1; [|done]. cbn [mbind outcome_bind].
  destruct (foldM writePending s1 _) as [s2|] eqn:E2; [|done]. cbn [mbind outcome_bind]. intros [= <- <-].
  destruct (updatePending_spec _ f s1 (NoDup_elements _) E1) as [Ho Hs1]. destruct (writePending_spec _ s1 s2 E2) as [Ht Hs2].
  assert (trie f = trie s) as Htf by apply (Finalise_spec d s). clearbody f. rewrite Hs2. cbn.
  split_and!; try done; try (rewrite Hs1; done); intros a; [rewrite Ho|rewrite Ht].
  - destruct (decide (a ∈ stateObjectsPending f)); [rewrite decide_True by by apply elem_of_elements|rewrite decide_False by by rewrite elem_of_elements]; done.
  - destruct (decide (a ∈ stateObjectsPending f)); [rewrite decide_True by by apply elem_of_elements|].
    done.
    rewrite decide_False by by rewrite elem_of_elements. rewrite Hs1. cbn. by rewrite Htf.
Qed.

Lemma updateTrie_clean o : let r := updateTrie o in
  dirtyStorage r.1 = ∅ /\ pendingStorage r.1 = ∅ /\ (is_Some (so_trie r.1) -> r.2 = true).
Proof.
  unfold updateTrie, getTrie. set (o' := objFinalise o). assert (dirtyStorage o' = ∅) as Hd by done. clearbody o'.
  case_decide as Hp; cbn; [split_and!; [done..|]; intros Ht; by rewrite bool_decide_true|].
  destruct (so_trie o') as [t|]; cbn; match goal with |- context [fold_left ?f ?l ?i] => destruct (fold_left f l i) end; by cbn.
Qed.

Lemma updateRoot_clean o : clean (updateRoot o).
Proof.
  unfold updateRoot. pose proof (updateTrie_clean o) as (Hd & Hp & Hl). destruct (updateTrie o) as [o' loaded]. cbn in *.
  destruct (so_trie o') as [t|] eqn:Et; [rewrite Hl by by eexists|]; (split; cbn; [done..|]); rewrite Et; [by intros ? [= ->]|done].
Qed.

Lemma updateRoot_data o : suicided (updateRoot o) = suicided o /\ deleted (updateRoot o) = deleted o /\
  empty (updateRoot o) = empty o.
Proof. unfold updateRoot, updateTrie, getTrie. by repeat case_match; simplify_eq/=. Qed.

Lemma clean_id o : clean o -> updateRoot (objFinalise o) = o.
Proof.
  intros [Hd Hp Hr]. assert (objFinalise o = o) as E by (unfold objFinalise; rewrite Hd, Hp, (left_id_L ∅ (∪)); destruct o; cbn in *; by subst).
  rewrite E. unfold updateRoot, updateTrie. rewrite E, Hp, decide_True by done. destruct (so_trie o) as [t|] eqn:Et; [|done].
  rewrite bool_decide_true by done. destruct o as [? [] ]; cbn in *. subst. by rewrite <- (Hr t eq_refl).
Qed.

(** The root is settled once it is computed, *)
Lemma IntermediateRoot_settles s d s' h : IntermediateRoot s d = Ret (s', h) -> settled d s'.
Proof.
  intros E. destruct (IntermediateRoot_spec s d s' h E) as (_ & Hn & Hd & _ & Ho & Ht).
  destruct (Finalise_spec d s) as (Fo & Fp & _ & Ft & Fd). split; [done|]. intros a o Ha Eo.
  rewrite Hd in Ha. apply Fd in Ha. rewrite Ho, Fo in Eo. rewrite (decide_True _ _ Ha) in Eo.
  destruct (stateObjects s !! a) as [o0|] eqn:E0; [|by case_decide].
  assert (a ∈ stateObjectsPending (Finalise s d)) as Hp by (apply Fp; right; by rewrite E0).
  rewrite (decide_True _ _ Hp) in Eo. cbn in Eo. injection Eo as <-.
  rewrite Ht, (decide_True _ _ Hp), Ho, (decide_True _ _ Hp), Fo, (decide_True _ _ Ha), E0. split; [done|].
  unfold rootObj. destruct (deleted (finObj d o0)) eqn:Ed; [congruence|]. intros _.
  unfold finObj in *. destruct (suicided o0 || d && empty o0) eqn:Es; [done|]. apply orb_false_iff in Es as [Es Ee].
  destruct (updateRoot_data (objFinalise o0)) as (-> & _ & ->). split_and!; [apply updateRoot_clean|done..].
Qed.

(** and computing it again changes nothing. *)
Lemma IntermediateRoot_again s d d' : settled d s -> implb d' d = true ->
  exists s', IntermediateRoot s d' = Ret (s', accountRoot (trie s)) /\ trie s' = trie s /\ settled d s' /\
    (stateObjectsDirty s ⊆ dom (stateObjects s) -> stateObjectsDirty s' ⊆ dom (stateObjects s')).
Proof.
  intros [Hn Hm] Hdd. destruct (Finalise_spec d' s) as (Fo & Fp & Fdd & Ft & Fd).
  assert (exists s' h, IntermediateRoot s d' = Ret (s', h)) as (s' & h & E).
  { unfold IntermediateRoot. assert (Forall (fun a => a ∈ dom (stateObjects (Finalise s d'))) (elements (stateObjectsPending (Finalise s d')))) as Hp.
    { apply Forall_forall. intros a [Ha|[Ha [o Ho]]]%elem_of_elements%Fp; [set_solver|]. apply elem_of_dom. rewrite Fo, decide_True, Ho by done. by eexists. }
    destruct (updatePending_total _ _ Hp) as (s1 & -> & Hs1). cbn [mbind outcome_bind].
    destruct (writePending_ok (elements (stateObjectsPending (Finalise s d'))) s1) as [tr ->]; [by rewrite Hs1|]. cbn. by eexists _, _. }
  destruct (IntermediateRoot_spec s d' s' h E) as (-> & Hn' & Hd & Hdi & Ho & Ht).
  (* the objects that are written again *)
  assert (forall a o, a ∈ dom (dirties s) -> stateObjects s !! a = Some o ->
    written (rootObj (finObj d' o)) = written o /\ (deleted o = false -> rootObj (finObj d' o) = o)) as Hre.
  { intros a o Ha Eo. destruct (Hm a o Ha Eo) as [_ Hl]. unfold finObj. destruct (deleted o) eqn:Ed.
    - split; [|done]. unfold rootObj, written. by destruct (suicided o || _); cbn; rewrite ?Ed; cbn; rewrite ?Ed.
    - destruct (Hl eq_refl) as (Hc & Hs & He). rewrite Hs. cbn [orb]. destruct (d' && empty o) eqn:E'.
      { destruct d', d, (empty o); done. }
      unfold rootObj. change (deleted (objFinalise o)) with (deleted o). rewrite Ed, clean_id by done. done. }
  assert (trie s' = trie s) as Etr.
  { apply map_eq. intros a. rewrite Ht. destruct (decide (a ∈ _)) as [Hp|]; [|done].
    rewrite Ho, (decide_True _ _ Hp), Fo. apply Fp in Hp as [Hp|[Ha [o Eo]]]; [set_solver|].
    rewrite (decide_True _ _ Ha), Eo. cbn. destruct (Hre a o Ha Eo) as [-> _]. symmetry. by apply Hm. }
  rewrite Etr in E. exists s'. split_and!; [done|done| |].
  - split; [done|]. intros a o Ha Eo. rewrite Hd in Ha. apply Fd in Ha. rewrite Ho, Fo, (decide_True _ _ Ha) in Eo.
    destruct (stateObjects s !! a) as [o0|] eqn:E0; [|by case_decide].
    assert (a ∈ stateObjectsPending (Finalise s d')) as Hp by (apply Fp; right; by rewrite E0).
    rewrite (decide_True _ _ Hp) in Eo. cbn in Eo. injection Eo as <-. destruct (Hre a o0 Ha E0) as [-> Hl]. rewrite Etr.
    destruct (Hm a o0 Ha E0) as [Hw Hm']. split; [done|]. intros Hdel. destruct (deleted o0) eqn:Ed0; [|rewrite Hl by done; by apply Hm'].
    exfalso. revert Hdel. unfold rootObj, finObj. by destruct (suicided o0 || _); cbn; rewrite ?Ed0; cbn; rewrite ?Ed0.
  - intros Hsub. rewrite Hdi. intros a Ha%(Fdd Hsub). apply elem_of_dom in Ha as [o Eo]. apply elem_of_dom. rewrite Ho, Eo. case_decide; by eexists.
Qed.

End Settled.

(** ** Commit *)

Section CommitFacts.
Context `{Crypto} `{Database}.

Lemma commitAddr_fold l sc sc' : foldM commitAddr sc l = Ret sc' -> trie sc'.1 = trie sc.1.
Proof.
  apply (foldM_inv (fun x => trie x.1 = trie sc.1)); [|done].
  intros a [s c] [s' c'] _ <- E. unfold commitAddr in E. repeat case_match; simplify_eq/=; done.
Qed.

Lemma commitAddr_total l s c : Forall (fun a => a ∈ dom (stateObjects s)) l -> exists sc, foldM commitAddr (s, c) l = Ret sc.
Proof.
  revert s c. induction l as [|a l IH]; intros s c Hl; cbn [foldM]; [by eexists|].
  apply Forall_cons_1 in Hl as [[o Ha]%elem_of_dom Hl]. unfold commitAddr at 1. rewrite Ha.
  destruct (deleted o); [by apply IH|]. destruct (match so_code o with Some _ => _ | None => _ end) as [o' c'].
  apply IH. cbn. eapply Forall_impl; [exact Hl|]. intros b Hb. rewrite dom_insert. set_solver.
Qed.

(** The store after the account trie [t] was committed. *)
Definition withTrie (st : stateStore) (t : gmap Address Account) : stateStore :=
  if accountRoot t =? emptyRoot then st else st <| ss_tries := ss_tries st ∪ {[accountRoot t := t]} |>.

Lemma Commit_stores st s d st' s' root : Commit st s d = Ret (st', s', root) ->
  root = accountRoot (trie s') /\ exists codes, st' = withTrie (st <| ss_code := codes |>) (trie s').
Proof.
  unfold Commit. destruct (IntermediateRoot s d) as [[s1 h]|]; [|done]. cbn [mbind outcome_bind].
  destruct (foldM commitAddr _ _) as [[s2 c]|]; [|done]. cbn [mbind outcome_bind]. intros [= <- <- <-]. split; [done|]. by exists c.
Qed.

Lemma Commit_settled st s d d' st' s' root : settled d s -> implb d' d = true -> Commit st s d' = Ret (st', s', root) ->
  trie s' = trie s.
Proof.
  intros Hs Hd. destruct (IntermediateRoot_again s d d' Hs Hd) as (s1 & E & Ht & _). unfold Commit. rewrite E. cbn [mbind outcome_bind].
  destruct (foldM commitAddr _ _) as [[s2 c]|] eqn:E2; [|done]. cbn [mbind outcome_bind]. apply commitAddr_fold in E2. cbn in E2.
  intros [= <- <- <-]. change (trie s2 = trie s). congruence.
Qed.

Lemma Commit_total st s d d' : settled d s -> implb d' d = true -> stateObjectsDirty s ⊆ dom (stateObjects s) ->
  exists r, Commit st s d' = Ret r.
Proof.
  intros Hs Hd Hsub. destruct (IntermediateRoot_again s d d' Hs Hd) as (s1 & E & _ & _ & Hs1). unfold Commit. rewrite E. cbn [mbind outcome_bind].
  destruct (commitAddr_total (elements (stateObjectsDirty s1)) s1 (ss_code st)) as [[s2 c] ->]; [|by eexists].
  apply Forall_forall. intros a Ha%elem_of_elements. by apply Hs1.
Qed.

End CommitFacts.

(** ** References

    The references of a root are its entries in the queue [q] of the chain. *)

Definition occ (q : list (Hash * Z)) (r : Hash) : nat := count_occ Z.eq_dec (q.*1) r.

Record gc_ok (st : stateStore) (q : list (Hash * Z)) : Prop := {
  gk_refs r : r ∉ ss_disk st -> r <> emptyRoot -> refs st r = Z.of_nat (occ q r);
  gk_tries r : r ∉ ss_disk st -> r <> emptyRoot -> is_Some (ss_tries st !! r) <-> (0 < occ q r)%nat;
  gk_disk r : r ∈ ss_disk st -> is_Some (ss_tries st !! r);
  gk_empty : ss_tries st !! emptyRoot = None
}.

#[global] Arguments occ : simpl never.

Lemma occ_perm q q' : q ≡ₚ q' -> forall r, occ q r = occ q' r.
Proof. intros E r. unfold occ. apply Permutation_count_occ. by rewrite E. Qed.

Lemma occ_cons r n q x : occ ((r, n) :: q) x = if decide (r = x) then S (occ q x) else occ q x.
Proof. unfold occ. cbn. destruct (Z.eq_dec r x), (decide (r = x)); done. Qed.

Lemma occ_elem q r : (0 < occ q r)%nat <-> exists n, (r, n) ∈ q.
Proof.
  unfold occ. change (0 < ?n)%nat with (n > 0)%nat. rewrite <- (count_occ_In Z.eq_dec), <- list_elem_of_In, list_elem_of_fmap.
  split; [intros ([x n] & -> & ?); by exists n|intros [n ?]; by exists (r, n)].
Qed.

Lemma gc_ok_perm st q q' : q ≡ₚ q' -> gc_ok st q -> gc_ok st q'.
Proof.
  intros E [H1 H2 H3 H4]. split; try done; intros r Hr Hne; rewrite <- (occ_perm q q' E r); auto.
Qed.

Lemma gc_ok_code st q codes : gc_ok st q -> gc_ok (st <| ss_code := codes |>) q.
Proof. intros [H1 H2 H3 H4]. by split. Qed.

Lemma FlushRoots_ok st q roots : gc_ok st q -> gc_ok (FlushRoots st roots) q.
Proof.
  intros [H1 H2 H3 H4]. split; cbn; try done.
  - intros r Hr. apply H1. set_solver.
  - intros r Hr. apply H2. set_solver.
  - intros r [Hr|[Hr _]%elem_of_filter]%elem_of_union; auto.
Qed.

Lemma ReferenceRoot_frame st root : ss_disk (ReferenceRoot st root) = ss_disk st /\ ss_tries (ReferenceRoot st root) = ss_tries st.
Proof. unfold ReferenceRoot. by repeat case_match. Qed.

Lemma withTrie_disk `{Database} st t : ss_disk (withTrie st t) = ss_disk st.
Proof. unfold withTrie. by case_match. Qed.

(** A commit, its reference and its entry in the queue. *)
Lemma retain_ok `{Database} st q q' t n : gc_ok st q -> q' ≡ₚ (accountRoot t, n) :: q ->
  gc_ok (ReferenceRoot (withTrie st t) (accountRoot t)) q'.
Proof.
  intros [H1 H2 H3 H4] Hq. apply (gc_ok_perm _ _ _ (symmetry Hq)). unfold withTrie, ReferenceRoot.
  destruct (Z.eqb_spec (accountRoot t) emptyRoot) as [E|E].
  - rewrite E, H4. split; try done; intros r Hr Hne; rewrite occ_cons, decide_False by done; auto.
  - set (root := accountRoot t) in *. cbn.
    assert (is_Some ((ss_tries st ∪ {[root := t]}) !! root)) as [x Hx].
    { destruct (ss_tries st !! root) as [x|] eqn:Ex; [exists x; by apply lookup_union_Some_l|].
      exists t. rewrite lookup_union_r by done. apply lookup_singleton_eq. }
    assert (forall r, r <> root -> (ss_tries st ∪ {[root := t]}) !! r = ss_tries st !! r) as Hne'.
    { intros r Hr. apply lookup_union_l. by rewrite lookup_singleton_ne. }
    rewrite Hx. destruct (decide (root ∈ ss_disk st)) as [Hd|Hd]; split; cbn; try (rewrite Hne'; done).
    + intros r Hr Hn. rewrite occ_cons, decide_False by set_solver. by apply H1.
    + intros r Hr Hn. rewrite occ_cons, decide_False, Hne' by set_solver. by apply H2.
    + intros r Hr. destruct (decide (r = root)) as [->|]; [by rewrite Hx|]. rewrite Hne' by done. by apply H3.
    + intros r Hr Hn. unfold refs. cbn. rewrite occ_cons, lookup_insert. case_decide as Er.
      * subst r. cbn. fold (refs st root). unfold refs in *. cbn in *. rewrite H1 by done. lia.
      * by apply H1.
    + intros r Hr Hn. rewrite occ_cons. case_decide as Er; [subst r; rewrite Hx; split; [lia|by eexists]|].
      rewrite Hne' by done. by apply H2.
    + intros r Hr. destruct (decide (r = root)) as [->|]; [done|]. rewrite Hne' by done. by apply H3.
Qed.

Lemma DereferenceRoot_ok st q r n : gc_ok st ((r, n) :: q) -> gc_ok (DereferenceRoot st r) q.
Proof.
  intros [H1 H2 H3 H4]. unfold DereferenceRoot. destruct (decide (r ∈ ss_disk st)) as [Hd|Hd].
  { split; try done; intros x Hx Hn.
    - specialize (H1 x Hx Hn). rewrite occ_cons, decide_False in H1 by set_solver. done.
    - specialize (H2 x Hx Hn). rewrite occ_cons, decide_False in H2 by set_solver. done. }
  assert (forall x, x <> r -> x ∉ ss_disk st -> x <> emptyRoot ->
    refs st x = Z.of_nat (occ q x) /\ (is_Some (ss_tries st !! x) <-> (0 < occ q x)%nat)) as Ho.
  { intros x Hx Hxd Hn. specialize (H1 x Hxd Hn). specialize (H2 x Hxd Hn). rewrite occ_cons, decide_False in H1, H2 by done. done. }
  set (m := if 0 <? refs st r then _ else _).
  assert (r <> emptyRoot -> m = Z.of_nat (occ q r) /\ is_Some (ss_tries st !! r)) as Hm.
  { intros Hn. specialize (H1 r Hd Hn). specialize (H2 r Hd Hn). rewrite occ_cons, decide_True in H1, H2 by done.
    subst m. destruct (Z.ltb_spec 0 (refs st r)); [|lia]. split; [lia|]. apply H2. lia. }
  destruct (Z.eqb_spec m 0) as [E|E]; split; cbn.
  - intros x Hx Hn. unfold refs. cbn. rewrite lookup_delete. case_decide as Ex; [subst x|apply (Ho x); congruence].
    destruct (Hm Hn). cbn. lia.
  - intros x Hx Hn. rewrite lookup_delete. case_decide as Ex; [subst x|apply (Ho x); congruence].
    destruct (Hm Hn). split; [by intros [? ?]|lia].
  - intros x Hx. rewrite lookup_delete_ne by set_solver. by apply H3.
  - rewrite lookup_delete. by case_decide.
  - intros x Hx Hn. unfold refs. cbn. rewrite lookup_insert. case_decide as Ex; [subst x|apply (Ho x); congruence].
    cbn. by apply Hm.
  - intros x Hx Hn. destruct (decide (x = r)) as [->|Ex]; [|by apply Ho]. destruct (Hm Hn). split; [lia|done].
  - done.
  - done.
Qed.

(** What a dereference cannot touch: tries on disk and tries that keep an
    entry. *)
Lemma gc_ok_open st q root : gc_ok st q -> root ∈ ss_disk st \/ (exists n, (root, n) ∈ q) \/ root = 0 \/ root = emptyRoot ->
  is_Some (OpenTrie st root).
Proof.
  intros [H1 H2 H3 H4] Hr. unfold OpenTrie. destruct (Z.eqb_spec root 0); [by eexists|].
  destruct (Z.eqb_spec root emptyRoot); [by eexists|]. cbn. destruct Hr as [Hr|[Hr%occ_elem|[?|?]]]; [by apply H3| |done..].
  destruct (decide (root ∈ ss_disk st)); [by apply H3|]. by apply H2.
Qed.

Lemma archive_ok `{Database} st q t : gc_ok st q -> gc_ok (FlushRoots (withTrie st t) {[accountRoot t]}) q.
Proof.
  intros Hg. unfold withTrie. destruct (Z.eqb_spec (accountRoot t) emptyRoot) as [E|E]; [by apply FlushRoots_ok|].
  destruct Hg as [H1 H2 H3 H4]. set (root := accountRoot t) in *.
  assert (is_Some ((ss_tries st ∪ {[root := t]}) !! root)) as Hx.
  { destruct (ss_tries st !! root) as [x|] eqn:Ex; [exists x; by apply lookup_union_Some_l|].
    exists t. rewrite lookup_union_r by done. apply lookup_singleton_eq. }
  assert (forall r, r <> root -> (ss_tries st ∪ {[root := t]}) !! r = ss_tries st !! r) as Hne'.
  { intros r Hr. apply lookup_union_l. by rewrite lookup_singleton_ne. }
  split; cbn.
  - intros r Hr. apply H1. set_solver.
  - intros r Hr. assert (r <> root) by (intros ->; apply Hr, elem_of_union; right; apply elem_of_filter; set_solver).
    rewrite Hne' by done. apply H2. set_solver.
  - intros r Hr. destruct (decide (r = root)) as [->|]; [done|]. rewrite Hne' by done.
    apply elem_of_union in Hr as [Hr|[_ Hr]%elem_of_filter]; [by apply H3|set_solver].
  - by rewrite Hne' by done.
Qed.
