(* ===== verification/Accounts.v ===== *)
(** * What the operations of the state do to accounts

    The effect of each account operation of [StateDB] on the objects a lookup
    finds ([live_at]) and on the balances, nonces and codes the getters
    return.  The caches an operation fills do not show. *)

From S2P Require Import Prelude Rlp Transaction AccessList StateDB Journal.

Section Accounts.
Context `{Crypto} `{Database}.

Definition fresh (a : Address) : stateObject := setNonce (newObject a None) 0.

Lemma live_at_obj s s' b : obj_at s' b = obj_at s b -> live_at s' b = live_at s b.
Proof. unfold live_at. by intros ->. Qed.

Lemma live_at_set s o b : deleted o = false ->
  live_at (setStateObject s o) b = if decide (b = so_address o) then Some o else live_at s b.
Proof.
  intros Hd. unfold live_at. rewrite obj_at_set. case_decide; [|done]. simpl. by rewrite Hd.
Qed.

Lemma live_at_fill s s' b : cacheFill s s' -> live_at s' b = live_at s b.
Proof. intros (_ & Ho & _). apply live_at_obj, Ho. Qed.

Lemma live_at_append s e b : live_at (journal_append s e) b = live_at s b.
Proof. unfold journal_append. by case_match. Qed.

Lemma live_found s a o : core_ok s -> live_at s a = Some o -> found s a o.
Proof.
  intros C. unfold live_at. destruct (obj_at s a) as [o'|] eqn:E; simpl; [|done].
  destruct (deleted o') eqn:D; [done|]. intros [= <-]. destruct (core_at s a o' C E). by split_and!.
Qed.

Lemma GetOrNew_live s a b : core_ok s ->
  let '(s', o) := GetOrNewStateObject s a in
  o = default (fresh a) (live_at s a) /\
  live_at s' b = (if decide (b = a) then Some o else live_at s b) /\
  so_address o = a /\ deleted o = false.
Proof.
  intros C. unfold GetOrNewStateObject. pose proof (getState_fill s a) as F.
  pose proof (getStateObject_at s a) as L. destruct (getStateObject s a) as [s1 [o|]]; simpl in *.
  - destruct (live_found s a o C (eq_sym L)) as (_ & Hd & Ha & _).
    rewrite <- L. split_and!; try done. rewrite (live_at_fill s s1 b F). case_decide; [by subst|done].
  - unfold createObject. pose proof (getDeleted_fill s1 a) as F1.
    destruct (getDeletedStateObject s1 a) as [s2 prev]. simpl in *. rewrite <- L. split_and!; try done.
    rewrite live_at_set by done. cbn [so_address setNonce setf]. simpl.
    case_decide; [done|]. transitivity (live_at s2 b); [destruct prev; by rewrite live_at_append|].
    by rewrite (live_at_fill s1 s2 b F1), (live_at_fill s s1 b F).
Qed.

(** An operation that rewrites the object at [a] and no other. *)
Definition updates (s s' : StateDB) (a : Address) (f : stateObject -> stateObject) : Prop :=
  forall b, live_at s' b = if decide (b = a) then Some (f (default (fresh a) (live_at s a)))
                           else live_at s b.

Ltac or_new s a b C :=
  let Hg := fresh "Hg" in
  pose proof (GetOrNew_live s a b C) as Hg; destruct (GetOrNewStateObject s a) as [?s1 ?o];
  destruct Hg as (?Ho & ?Hl & ?Ha & ?Hd).

Lemma objSetBalance_live s o v b : deleted o = false ->
  live_at (objSetBalance s o v) b = if decide (b = so_address o) then Some (setBalance o v) else live_at s b.
Proof.
  intros Hd. unfold objSetBalance. rewrite live_at_set by done. simpl. by rewrite live_at_append.
Qed.

Lemma AddBalance_updates s a v : core_ok s ->
  updates s (AddBalance s a v) a (fun o => setBalance o (a_Balance (so_data o) + v)).
Proof.
  intros C b. unfold AddBalance. or_new s a b C. rewrite <- Ho.
  destruct (Z.eqb_spec v 0) as [->|].
  - assert (setBalance o (a_Balance (so_data o) + 0) = o) as ->.
    { rewrite Z.add_0_r. by destruct o as [? []]. }
    rewrite <- Hl. destruct (empty o); [|done]. unfold touch.
    destruct (so_address o =? ripemd); [|by rewrite live_at_append].
    transitivity (live_at (journal_append s1 (touchChange (so_address o))) b); [done|].
    by rewrite live_at_append.
  - rewrite objSetBalance_live, Hl, Ha by done. by case_decide.
Qed.

Lemma SubBalance_updates s a v : core_ok s ->
  updates s (SubBalance s a v) a (fun o => setBalance o (a_Balance (so_data o) - v)).
Proof.
  intros C b. unfold SubBalance. or_new s a b C. rewrite <- Ho.
  destruct (Z.eqb_spec v 0) as [->|].
  - assert (setBalance o (a_Balance (so_data o) - 0) = o) as ->.
    { rewrite Z.sub_0_r. by destruct o as [? []]. }
    done.
  - rewrite objSetBalance_live, Hl, Ha by done. by case_decide.
Qed.

Lemma SetBalance_updates s a v : core_ok s -> updates s (SetBalance s a v) a (fun o => setBalance o v).
Proof.
  intros C b. unfold SetBalance. or_new s a b C. rewrite <- Ho, objSetBalance_live, Hl, Ha by done.
  by case_decide.
Qed.

Lemma SetNonce_updates s a n : core_ok s -> updates s (SetNonce s a n) a (fun o => setNonce o n).
Proof.
  intros C b. unfold SetNonce. or_new s a b C. rewrite live_at_set by done. simpl.
  rewrite live_at_append, <- Ho, Hl, Ha. by case_decide.
Qed.

Lemma CreateAccount_live s a b : core_ok s ->
  live_at (CreateAccount s a) b =
    if decide (b = a)
    then Some (match live_at s a with
               | Some p => setBalance (fresh a) (a_Balance (so_data p)) | None => fresh a end)
    else live_at s b.
Proof.
  intros C. unfold CreateAccount, createObject.
  pose proof (getDeleted_fill s a) as F. pose proof (getDeletedStateObject_at s a) as L.
  destruct (getDeletedStateObject s a) as [s1 prev]. simpl in *. unfold live_at at 2. rewrite <- L.
  destruct prev as [p|]; simpl; [destruct (deleted p)|];
    rewrite !live_at_set by done; simpl; rewrite live_at_append, (live_at_fill s s1 b F);
    by repeat case_decide.
Qed.

(** ** Getters *)

Definition balance_of (o : option stateObject) : Z :=
  match o with Some o => a_Balance (so_data o) | None => 0 end.
Definition nonce_of (o : option stateObject) : Z :=
  match o with Some o => a_Nonce (so_data o) | None => 0 end.
Definition code_at (o : option stateObject) : option bytes :=
  match o with Some o => (objCode o).2 | None => None end.

Lemma GetBalance_live s a : GetBalance s a = balance_of (live_at s a).
Proof. unfold GetBalance. by rewrite getStateObject_at. Qed.
Lemma GetNonce_live s a : GetNonce s a = nonce_of (live_at s a).
Proof. unfold GetNonce. by rewrite getStateObject_at. Qed.
Lemma GetCode_live s a : GetCode s a = code_at (live_at s a).
Proof. unfold GetCode. by rewrite getStateObject_at. Qed.
Lemma Exist_live s a : Exist s a = bool_decide (is_Some (live_at s a)).
Proof. unfold Exist. by rewrite getStateObject_at. Qed.

Lemma GetBalance_New tr a : GetBalance (New tr) a = default 0 (a_Balance <$> tr !! a).
Proof.
  rewrite GetBalance_live. unfold live_at, obj_at. simpl. rewrite lookup_empty.
  destruct (tr !! a) as [d|]; simpl; [|done]. unfold newObject. by repeat case_match.
Qed.

Lemma fresh_getters a : balance_of (Some (fresh a)) = 0 /\ nonce_of (Some (fresh a)) = 0 /\
  code_at (Some (fresh a)) = None.
Proof. split_and!; [done..|]. simpl. unfold objCode. simpl. by rewrite Z.eqb_refl. Qed.

Lemma default_fresh s a :
  balance_of (Some (default (fresh a) (live_at s a))) = GetBalance s a /\
  nonce_of (Some (default (fresh a) (live_at s a))) = GetNonce s a /\
  code_at (Some (default (fresh a) (live_at s a))) = GetCode s a.
Proof.
  rewrite GetBalance_live, GetNonce_live, GetCode_live.
  destruct (live_at s a) as [o|]; [done|]. apply fresh_getters.
Qed.

Lemma code_setBalance o v : (objCode (setBalance o v)).2 = (objCode o).2.
Proof. by rewrite !code_of. Qed.
Lemma code_setNonce o v : (objCode (setNonce o v)).2 = (objCode o).2.
Proof. by rewrite !code_of. Qed.

(** What an update of [a] does to the three getters. *)
Lemma updates_getters s s' a f : updates s s' a f ->
  let o := default (fresh a) (live_at s a) in
  forall b,
    GetBalance s' b = (if decide (b = a) then a_Balance (so_data (f o)) else GetBalance s b) /\
    GetNonce s' b = (if decide (b = a) then a_Nonce (so_data (f o)) else GetNonce s b) /\
    GetCode s' b = (if decide (b = a) then (objCode (f o)).2 else GetCode s b).
Proof.
  intros U o b. rewrite !GetBalance_live, !GetNonce_live, !GetCode_live, (U b).
  by case_decide.
Qed.

Lemma AddBalance_getters s a v b : core_ok s ->
  GetBalance (AddBalance s a v) b = GetBalance s b + (if decide (b = a) then v else 0) /\
  GetNonce (AddBalance s a v) b = GetNonce s b /\ GetCode (AddBalance s a v) b = GetCode s b.
Proof.
  intros C. destruct (updates_getters _ _ _ _ (AddBalance_updates s a v C) b) as (-> & -> & ->).
  destruct (default_fresh s a) as (E1 & E2 & E3). simpl in *. rewrite code_setBalance.
  case_decide; [subst b|split_and!; lia || done]. by rewrite E1, E2, E3.
Qed.

Lemma SubBalance_getters s a v b : core_ok s ->
  GetBalance (SubBalance s a v) b = GetBalance s b - (if decide (b = a) then v else 0) /\
  GetNonce (SubBalance s a v) b = GetNonce s b /\ GetCode (SubBalance s a v) b = GetCode s b.
Proof.
  intros C. destruct (updates_getters _ _ _ _ (SubBalance_updates s a v C) b) as (-> & -> & ->).
  destruct (default_fresh s a) as (E1 & E2 & E3). simpl in *. rewrite code_setBalance.
  case_decide; [subst b|split_and!; lia || done]. by rewrite E1, E2, E3.
Qed.

Lemma SetNonce_getters s a n b : core_ok s ->
  GetBalance (SetNonce s a n) b = GetBalance s b /\
  GetNonce (SetNonce s a n) b = (if decide (b = a) then n else GetNonce s b) /\
  GetCode (SetNonce s a n) b = GetCode s b.
Proof.
  intros C. destruct (updates_getters _ _ _ _ (SetNonce_updates s a n C) b) as (-> & -> & ->).
  destruct (default_fresh s a) as (E1 & E2 & E3). simpl in *. rewrite code_setNonce.
  case_decide; [subst b|done]. by rewrite E1, E3.
Qed.

(** Creating an account over none gives one with no balance, nonce or code. *)
Lemma CreateAccount_getters s a b : core_ok s -> live_at s a = None ->
  GetBalance (CreateAccount s a) b = GetBalance s b /\ GetNonce (CreateAccount s a) b = GetNonce s b /\
  GetCode (CreateAccount s a) b = GetCode s b.
Proof.
  intros C Hn. rewrite !GetBalance_live, !GetNonce_live, !GetCode_live, CreateAccount_live, Hn by done.
  case_decide; [|done]. subst. rewrite Hn. apply fresh_getters.
Qed.

End Accounts.
