(* ===== verification/Metering.v ===== *)
(** * The refund counter against the storage

    Net metering of SSTORE takes back a refund when a slot that was cleared in
    the transaction is written again, and panics when the counter is below the
    refund.  [metered] is the invariant that rules this out: the counter
    covers the slots that are cleared, and only accounts of the journal have
    such slots.  The operations of the state other than writes to the storage
    keep it ([calm]), and so does going back to a snapshot.  [runs] relates
    the states before and after a run of code. *)

From S2P Require Import Prelude Rlp Transaction AccessList StateDB Journal Accounts VmCommon.

(** ** Runs

    [runs s s']: the state went from [s] to [s'] by operations of its
    interface, none of which reverts to a snapshot older than [s]. *)
Section Laws.
Context `{Crypto} `{Database}.

Definition runs (s s' : StateDB) : Prop :=
  exists ops, foldM exec s ops = Ret s' /\ forallb (keeps (nextRevisionId s - 1)) ops = true.

Lemma runs_refl s : runs s s.
Proof. exists []. done. Qed.

Lemma RevertToSnapshot_next s i s' : RevertToSnapshot s i = Ret s' -> nextRevisionId s' = nextRevisionId s.
Proof. intros E. by apply RevertToSnapshot_inv in E as (p & r & t & _ & _ & _ & _ & ?). Qed.

Lemma exec_next s op s' : sane s -> exec s op = Ret s' -> nextRevisionId s <= nextRevisionId s'.
Proof.
  intros Hs E. destruct (sane_ok s Hs) as (C & A & _). pose proof (exec_step s op s' C A E) as Hst.
  destruct op; lazymatch type of Hst with True => idtac | _ => destruct Hst as [_ [_ ->]]; lia end.
  - simpl in E. simplify_eq. simpl. lia.
  - simpl in E. apply RevertToSnapshot_next in E. lia.
Qed.

Lemma run_next ops s s' : sane s -> foldM exec s ops = Ret s' ->
  sane s' /\ nextRevisionId s <= nextRevisionId s'.
Proof.
  intros Hs. apply (foldM_inv (fun x => sane x /\ nextRevisionId s <= nextRevisionId x)); [|split; [done|lia]].
  intros op s1 s2 _ [H1 H2] E. split; [by eapply exec_sane|]. pose proof (exec_next s1 op s2 H1 E). lia.
Qed.

Lemma keeps_weaken i j ops : i <= j -> forallb (keeps j) ops = true -> forallb (keeps i) ops = true.
Proof.
  intros Hij. rewrite !forallb_forall. intros Hk op Hop. specialize (Hk op Hop).
  destruct op; simpl in *; try done. lia.
Qed.

Lemma runs_trans s1 s2 s3 : sane s1 -> runs s1 s2 -> runs s2 s3 -> runs s1 s3.
Proof.
  intros Hs (ops1 & E1 & K1) (ops2 & E2 & K2). exists (ops1 ++ ops2).
  destruct (run_next ops1 s1 s2 Hs E1) as [_ Hn]. split.
  - rewrite foldM_app, E1. done.
  - rewrite forallb_app, K1. simpl. apply (keeps_weaken _ (nextRevisionId s2 - 1)); [lia|done].
Qed.

Lemma runs_sane s s' : sane s -> runs s s' -> sane s'.
Proof. intros Hs (ops & E & _). by eapply run_next. Qed.

Lemma runs_op s op s' : match op with ORevert _ => False | _ => True end -> exec s op = Ret s' -> runs s s'.
Proof. intros Ho E. exists [op]. split; [simpl; by rewrite E|]. by destruct op. Qed.

(** After a snapshot, whatever ran can be reverted. *)
Lemma runs_revert s s' : sane s -> runs (Snapshot s).1 s' ->
  exists s'', RevertToSnapshot s' (Snapshot s).2 = Ret s'' /\ sdb_equiv s'' s /\ runs s s'' /\ entries s'' = entries s.
Proof.
  intros Hs (ops & E & K). destruct (sane_ok s Hs) as (C & A & R).
  simpl in K. replace (nextRevisionId s + 1 - 1) with (nextRevisionId s) in K by lia.
  assert (within s s' (nextRevisionId s)) as W.
  { apply (within_run s _ ops (Snapshot s).1); [by apply within_start|done..]. }
  destruct (within_revert s s' _ W) as (s'' & Er & Eq & Ee & _). exists s''. split_and!; [done..| |done].
  exists (OSnapshot :: ops ++ [ORevert (nextRevisionId s)]). split.
  - simpl. rewrite foldM_app. simpl in E. rewrite E. simpl. rewrite Er. done.
  - simpl. rewrite forallb_app. simpl. rewrite (keeps_weaken _ (nextRevisionId s)) by (lia || done). lia.
Qed.

End Laws.

(** ** The counters of the journal

    [journal.dirties] counts the entries of an account; the account of ripemd
    has marks besides, which no revert removes. *)
Section Counters.
Context `{Crypto} `{Database}.

Definition dirt (s : StateDB) (a : Address) : Z := default 0 (dirties s !! a).
Definition concerns (a : Address) (es : list journalEntry) : Z :=
  Z.of_nat (length (filter (fun e => dirtied e = Some a) es)).
Definition margin (s : StateDB) (a : Address) : Z := dirt s a - concerns a (entries s).

Lemma concerns_app a es es' : concerns a (es ++ es') = concerns a es + concerns a es'.
Proof. unfold concerns. rewrite filter_app, length_app. lia. Qed.

Lemma margin_same s s' a : dirties s' = dirties s -> entries s' = entries s -> margin s' a = margin s a.
Proof. unfold margin, dirt. by intros -> ->. Qed.

Lemma dirt_append s e a : dirt (journal_append s e) a = dirt s a + (if decide (dirtied e = Some a) then 1 else 0).
Proof.
  unfold journal_append, dirt. destruct (dirtied e) as [b|] eqn:Ed; [|case_decide; [done|simpl; lia]].
  cbn [dirties setf]. rewrite lookup_insert. case_decide as Hb.
  - subst b. simpl. case_decide; [done|congruence].
  - case_decide; [congruence|]. lia.
Qed.

Lemma entries_append s e : entries (journal_append s e) = entries s ++ [e].
Proof. unfold journal_append. by case_match. Qed.

Lemma margin_append s e a : margin (journal_append s e) a = margin s a.
Proof.
  unfold margin. rewrite dirt_append, entries_append, concerns_app. unfold concerns at 2.
  rewrite filter_cons, filter_nil. case_decide; simpl; lia.
Qed.

Lemma margin_fill s s' a : cacheFill s s' -> margin s' a = margin s a.
Proof. intros [-> _]. by apply margin_same. Qed.

Lemma margin_set s e o a : margin (setStateObject (journal_append s e) o) a = margin s a.
Proof. transitivity (margin (journal_append s e) a); [by apply margin_same|apply margin_append]. Qed.

Lemma margin_create s b a : margin (createObject s b).1.1 a = margin s a.
Proof.
  unfold createObject. pose proof (margin_fill _ _ a (getDeleted_fill s b)) as Hf.
  destruct (getDeletedStateObject s b) as [s1 [p|]]; cbn [fst] in *; by rewrite margin_set.
Qed.

Lemma margin_GetOrNew s b a : margin (GetOrNewStateObject s b).1 a = margin s a.
Proof.
  unfold GetOrNewStateObject. pose proof (margin_fill _ _ a (getState_fill s b)) as Hf.
  destruct (getStateObject s b) as [s1 [o|]]; [done|]. pose proof (margin_create s1 b a) as Hc.
  destruct (createObject s1 b) as [[s2 o] p]. simpl in *. congruence.
Qed.

Lemma margin_touch s o a : margin s a <= margin (touch s o) a.
Proof.
  unfold touch. rewrite <- (margin_append s (touchChange (so_address o)) a). case_match; [|lia].
  unfold margin, dirt, journal_dirty. cbn [dirties entries setf].
  destruct (decide (so_address o = a)) as [<-|]; [rewrite lookup_insert_eq|rewrite lookup_insert_ne by done]; simpl; lia.
Qed.

Lemma revertEntry_dirties s e t : revertEntry s e = Ret t -> dirties t = dirties s.
Proof.
  assert (forall a f u, onObject s a f = Ret u -> dirties u = dirties s) as Ho.
  { intros a f u. rewrite onObject_spec. destruct (live_at s a); intros E; simplify_eq. simpl.
    by destruct (getState_fill s a) as [-> _]. }
  destruct e; simpl; intros E; simplify_eq; try done; eauto.
  - match goal with E : context [getStateObject s ?b] |- _ =>
      destruct (getState_fill s b) as [Ef _]; destruct (getStateObject s b) as [s1 [o|]] end;
      simplify_eq; simpl in *; by rewrite Ef.
  - repeat case_match; by simplify_eq.
  - destruct (DeleteSlot _ _ _); by simplify_eq.
Qed.

Lemma foldM_revert_dirt es s t a : foldM revertStep s es = Ret t -> dirt t a = dirt s a - concerns a es.
Proof.
  revert s. induction es as [|e es IH]; intros s; simpl.
  { intros [= <-]. unfold concerns. simpl. lia. }
  unfold revertStep at 1. destruct (revertEntry s e) as [u|] eqn:Eu; [|done]. cbn [mbind outcome_bind].
  intros E. rewrite (IH _ E). apply revertEntry_dirties in Eu. unfold concerns. rewrite filter_cons.
  assert (dirt (dropDirty u e) a = dirt s a - (if decide (dirtied e = Some a) then 1 else 0)) as ->;
    [|case_decide; simpl; lia].
  unfold dropDirty, dirt. rewrite <- Eu. destruct (dirtied e) as [b|]; [|case_decide; [done|lia]].
  destruct (decide (Some b = Some a)) as [[= ->]|Hne].
  - case_match; simpl; [rewrite lookup_delete_eq|rewrite lookup_insert_eq]; simpl; lia.
  - assert (b <> a) by congruence.
    case_match; simpl; [rewrite lookup_delete_ne by done|rewrite lookup_insert_ne by done]; lia.
Qed.

Lemma revert_margin s i s' a : RevertToSnapshot s i = Ret s' -> margin s' a = margin s a.
Proof.
  intros (p & r & t & _ & _ & Ht & -> & _)%RevertToSnapshot_inv. unfold margin. cbn [entries setf].
  match goal with |- dirt ?x a - _ = _ => change (dirt x a) with (dirt t a) end. rewrite (foldM_revert_dirt _ _ _ a Ht).
  rewrite <- (take_drop (journalIndex r) (entries s)) at 3. rewrite concerns_app.
  assert (forall es, concerns a (reverse es) = concerns a es) as ->; [|lia].
  intros es. unfold concerns. by rewrite (reverse_Permutation es).
Qed.

Ltac margin_new s b a :=
  rewrite <- (margin_GetOrNew s b a); destruct (GetOrNewStateObject s b) as [?s1 ?o]; cbn [fst].

Lemma exec_margin s op s' a : exec s op = Ret s' -> margin s a <= margin s' a.
Proof.
  intros E. destruct op; simpl in E; [..|by rewrite (revert_margin s id s')]; simplify_eq.
  - unfold CreateAccount. rewrite <- (margin_create s a0 a). by destruct (createObject s a0) as [[s1 o] [p|]].
  - unfold AddBalance. margin_new s a0 a. case_match; [case_match; [apply margin_touch|lia]|].
    unfold objSetBalance. rewrite margin_set. lia.
  - unfold SubBalance. margin_new s a0 a. case_match; [lia|]. unfold objSetBalance. rewrite margin_set. lia.
  - unfold SetBalance. margin_new s a0 a. unfold objSetBalance. rewrite margin_set. lia.
  - unfold SetNonce. margin_new s a0 a. rewrite margin_set. lia.
  - unfold SetCode. margin_new s a0 a. destruct (objCode o). rewrite margin_set. lia.
  - unfold SetState. margin_new s a0 a. destruct (fakeStorage o); [done|]. destruct (objGetState o k) as [o' prev].
    case_match; [done|]. rewrite margin_set. done.
  - unfold Suicide. rewrite <- (margin_fill _ _ a (getState_fill s a0)).
    destruct (getStateObject s a0) as [s1 [o|]]; simpl; [rewrite margin_set|]; lia.
  - etrans; [apply Z.eq_le_incl; symmetry; apply (margin_append s (refundChange (refund s)))|]. done.
  - unfold SubRefund in E. case_match; [done|]. simplify_eq.
    etrans; [apply Z.eq_le_incl; symmetry; apply (margin_append s (refundChange (refund s)))|]. done.
  - etrans; [apply Z.eq_le_incl; symmetry; apply (margin_append s (addLogChange (thash s)))|]. done.
  - unfold AddPreimage. case_match; [lia|].
    etrans; [apply Z.eq_le_incl; symmetry; apply (margin_append s (addPreimageChange h))|]. done.
  - unfold AddAddressToAccessList. destruct (AddAddress _ _) as [al []]; [by rewrite margin_append|done].
  - unfold AddSlotToAccessList in E. destruct (AddSlot _ _ _) as [[[al b1] b2]|]; [|done]. simplify_eq.
    destruct b1, b2; by rewrite ?margin_append.
  - done.
Qed.

Lemma runs_margin s s' a : runs s s' -> margin s a <= margin s' a.
Proof.
  intros (ops & E & _). revert E. apply (foldM_inv (fun x => margin s a <= margin x a)); [|lia].
  intros op x y _ Hx Ey. pose proof (exec_margin x op y a Ey). lia.
Qed.

(** A state reverted to has the marks of the one the snapshot was taken in. *)
Lemma reverted_dirt s s'' a : runs s s'' -> entries s'' = entries s -> dirt s a <= dirt s'' a.
Proof. intros Hr%(runs_margin _ _ a) He. unfold margin in Hr. rewrite He in Hr. lia. Qed.

End Counters.

(** ** Cleared slots *)
Section Metered.
Context `{Crypto} `{Database}.

(** The slot was set when the transaction started and is zero now. *)
Definition cleared (s : StateDB) (a : Address) (k : Hash) : Prop :=
  GetState s a k = 0 /\ GetCommittedState s a k <> 0.

Record metered (s : StateDB) : Prop := {
  md_refund : 0 <= refund s;
  md_idle : entries s = [] -> refund s = 0;
  md_dirt a : 0 <= dirt s a;
  md_dirty a k : cleared s a k -> 0 < dirt s a;
  md_slots : exists X : gset (Address * Hash),
    (forall a k, cleared s a k -> (a, k) ∈ X) /\ 15000 * Z.of_nat (base.size X) <= refund s
}.

Definition unset (o : stateObject) (k : Hash) : Prop :=
  (objGetState o k).2 = 0 /\ (objGetCommittedState o k).2 <> 0.

Lemma cleared_live s a k : cleared s a k <-> exists o, live_at s a = Some o /\ unset o k.
Proof.
  unfold cleared, unset, GetState, GetCommittedState. rewrite getStateObject_at.
  destruct (live_at s a) as [o|]; naive_solver.
Qed.

(** An object that was not written to has no cleared slot. *)
Lemma unset_clean o k : dirtyStorage o = ∅ -> ~ unset o k.
Proof.
  intros Hd [H1 H2]. rewrite state_of, Hd, lookup_empty in H1. unfold objGetCommittedState in *.
  destruct (fakeStorage o); simpl in *; congruence.
Qed.

(** [calm s s']: the refund counter and the access list are the same, and no
    slot was cleared. *)
Record calm (s s' : StateDB) : Prop := {
  cl_refund : refund s' = refund s;
  cl_list : sdb_accessList s' = sdb_accessList s;
  cl_journal : exists es, entries s' = entries s ++ es;
  cl_dirt a : dirt s a <= dirt s' a;
  cl_exist a : is_Some (live_at s a) -> is_Some (live_at s' a);
  cl_slots a k : cleared s' a k -> cleared s a k
}.

Lemma calm_refl s : calm s s.
Proof. split; try done. exists []. by rewrite app_nil_r. Qed.

Lemma calm_trans s1 s2 s3 : calm s1 s2 -> calm s2 s3 -> calm s1 s3.
Proof.
  intros [A1 A2 [e1 A3] A4 A5 A6] [B1 B2 [e2 B3] B4 B5 B6]. split; try congruence; eauto.
  - exists (e1 ++ e2). by rewrite B3, A3, app_assoc.
  - intros a. etrans; [apply A4|apply B4].
Qed.

Lemma calm_metered s s' : calm s s' -> metered s -> metered s'.
Proof.
  intros [A1 A2 [es A3] A4 _ A5] [M1 M2 M3 M4 (X & M5 & M6)]. split.
  - by rewrite A1.
  - rewrite A1, A3. intros [? _]%app_nil. by apply M2.
  - intros a. etrans; [apply M3|apply A4].
  - intros a k Hc%A5%M4. eapply Z.lt_le_trans; [done|apply A4].
  - exists X. rewrite A1. eauto.
Qed.

Lemma exec_journal s op s' : match op with ORevert _ => False | _ => True end -> sane s -> exec s op = Ret s' ->
  (exists es, entries s' = entries s ++ es) /\ forall a, dirt s a <= dirt s' a.
Proof.
  intros Ho (C & A & _)%sane_ok E.
  assert (exists es, entries s' = entries s ++ es) as [es Ee].
  { pose proof (exec_step s op s' C A E) as Hst.
    destruct op; try done; try (lazymatch type of Hst with step_ok _ _ => destruct Hst as [(_ & es & He & _) _]; by exists es end).
    simpl in E. simplify_eq. exists []. by rewrite app_nil_r. }
  split; [by exists es|]. intros a. pose proof (exec_margin s op s' a E) as Hm. unfold margin in Hm.
  rewrite Ee, concerns_app in Hm. unfold concerns in *. lia.
Qed.

(** An operation that rewrites one object and keeps its storage. *)
Lemma calm_updates s op s' a f : match op with ORevert _ => False | _ => True end -> sane s -> exec s op = Ret s' ->
  updates s s' a f -> (forall o k, unset (f o) k -> unset o k) ->
  refund s' = refund s -> sdb_accessList s' = sdb_accessList s -> calm s s'.
Proof.
  intros Ho Hs E Hu Hf Hr Hl. destruct (exec_journal s op s' Ho Hs E). split; try done.
  { intros b Hb. rewrite Hu. by case_decide. }
  intros b k (o & Lo & Uo)%cleared_live. rewrite Hu in Lo. apply cleared_live. case_decide as Hb.
  - subst b. injection Lo as <-. apply Hf in Uo. destruct (live_at s a) as [p|]; [eauto|].
    by apply unset_clean in Uo.
  - eauto.
Qed.

Lemma unset_same o o' k : sameStorage o' o -> dirtyStorage o' = dirtyStorage o -> unset o' k -> unset o k.
Proof. intros S1 Hd. unfold unset. by rewrite (committed_same o' o), (state_same o' o). Qed.

(** ** The operations *)

Lemma same_fill s s' : cacheFill s s' -> refund s' = refund s /\ sdb_accessList s' = sdb_accessList s.
Proof. by intros [-> _]. Qed.
Lemma same_append s e : refund (journal_append s e) = refund s /\ sdb_accessList (journal_append s e) = sdb_accessList s.
Proof. unfold journal_append. by case_match. Qed.
Lemma same_create s a : refund (createObject s a).1.1 = refund s /\ sdb_accessList (createObject s a).1.1 = sdb_accessList s.
Proof.
  unfold createObject. destruct (same_fill _ _ (getDeleted_fill s a)) as [F1 F2].
  destruct (getDeletedStateObject s a) as [s1 [p|]]; simpl in *;
    destruct (same_append s1 (createObjectChange a)); by rewrite <- F1, <- F2.
Qed.
Lemma same_GetOrNew s a : refund (GetOrNewStateObject s a).1 = refund s /\
  sdb_accessList (GetOrNewStateObject s a).1 = sdb_accessList s.
Proof.
  unfold GetOrNewStateObject. destruct (same_fill _ _ (getState_fill s a)) as [F1 F2].
  destruct (getStateObject s a) as [s1 [o|]]; [done|]. destruct (same_create s1 a) as [C1 C2].
  destruct (createObject s1 a) as [[s2 o] p]. simpl in *. split; congruence.
Qed.

Ltac same_new s a := let F := fresh "F" in
  pose proof (same_GetOrNew s a) as F; destruct (GetOrNewStateObject s a) as [?s1 ?o]; cbn [fst] in F;
  destruct F as [<- <-].
Ltac same_appended := match goal with |- context [journal_append ?s ?e] =>
  destruct (same_append s e) as [?F1 ?F2]; simpl; by rewrite ?F1, ?F2 end.

Lemma calm_Snapshot s : calm s (Snapshot s).1.
Proof.
  split; [done|done|exists []; by rewrite app_nil_r|reflexivity|done|].
  intros a k (o & Lo & Uo)%cleared_live. apply cleared_live. by exists o.
Qed.

Lemma calm_AddBalance s a v : sane s -> calm s (AddBalance s a v).
Proof.
  intros Hs. pose proof (sane_ok s Hs) as (C & _ & _).
  assert (refund (AddBalance s a v) = refund s /\ sdb_accessList (AddBalance s a v) = sdb_accessList s) as [].
  { unfold AddBalance. same_new s a. unfold touch, objSetBalance. repeat case_match; try done; same_appended. }
  eapply (calm_updates s (OAddBalance a v)); try done; [by apply AddBalance_updates|].
  intros o k. by apply unset_same.
Qed.

Lemma calm_SubBalance s a v : sane s -> calm s (SubBalance s a v).
Proof.
  intros Hs. pose proof (sane_ok s Hs) as (C & _ & _).
  assert (refund (SubBalance s a v) = refund s /\ sdb_accessList (SubBalance s a v) = sdb_accessList s) as [].
  { unfold SubBalance. same_new s a. unfold objSetBalance. repeat case_match; try done; same_appended. }
  eapply (calm_updates s (OSubBalance a v)); try done; [by apply SubBalance_updates|].
  intros o k. by apply unset_same.
Qed.

Lemma calm_SetNonce s a v : sane s -> calm s (SetNonce s a v).
Proof.
  intros Hs. pose proof (sane_ok s Hs) as (C & _ & _).
  assert (refund (SetNonce s a v) = refund s /\ sdb_accessList (SetNonce s a v) = sdb_accessList s) as [].
  { unfold SetNonce. same_new s a. same_appended. }
  eapply (calm_updates s (OSetNonce a v)); try done; [by apply SetNonce_updates|].
  intros o k. by apply unset_same.
Qed.

Lemma objCode_same o : sameStorage (objCode o).1 o /\ dirtyStorage (objCode o).1 = dirtyStorage o /\
  so_address (objCode o).1 = so_address o /\ deleted (objCode o).1 = deleted o.
Proof. unfold objCode, sameStorage. by repeat case_match. Qed.

Lemma calm_SetCode s a c : sane s -> calm s (SetCode s a c).
Proof.
  intros Hs. pose proof (sane_ok s Hs) as (C & _ & _).
  assert (refund (SetCode s a c) = refund s /\ sdb_accessList (SetCode s a c) = sdb_accessList s) as [].
  { unfold SetCode. same_new s a. destruct (objCode o). same_appended. }
  eapply (calm_updates s (OSetCode a c) _ a (fun o => setCode (objCode o).1 (keccak256 c) (Some c))); try done.
  - intros b. unfold SetCode. pose proof (GetOrNew_live s a b C) as Hg.
    destruct (GetOrNewStateObject s a) as [s1 o]. destruct Hg as (Ho & Hl & Ha & Hd).
    destruct (objCode_same o) as (_ & _ & Ha' & Hd'). rewrite <- Ho.
    destruct (objCode o) as [o' prev]. simpl in *. rewrite live_at_set by (simpl; congruence).
    simpl. rewrite live_at_append, Hl, Ha', Ha. by case_decide.
  - intros o k. destruct (objCode_same o) as (S1 & S2 & _). by apply unset_same.
Qed.

Lemma calm_CreateAccount s a : sane s -> calm s (CreateAccount s a).
Proof.
  intros Hs. pose proof (sane_ok s Hs) as (C & _ & _).
  destruct (exec_journal s (OCreateAccount a) (CreateAccount s a)) as [J1 J2]; [done..|].
  destruct (same_create s a) as [F1 F2]. split; [| |done..| |].
  - rewrite <- F1. unfold CreateAccount. by destruct (createObject s a) as [[s1 o] [p|]].
  - rewrite <- F2. unfold CreateAccount. by destruct (createObject s a) as [[s1 o] [p|]].
  - intros b Hb. rewrite CreateAccount_live by done. by case_decide.
  - intros b k (o & Lo & Uo)%cleared_live. rewrite CreateAccount_live in Lo by done. apply cleared_live.
    case_decide; [|by exists o]. injection Lo as <-. exfalso. revert Uo. apply unset_clean.
    by destruct (live_at s a).
Qed.

Lemma calm_Suicide s a : sane s -> calm s (Suicide s a).1.
Proof.
  intros Hs. pose proof (sane_ok s Hs) as (C & _ & _).
  destruct (exec_journal s (OSuicide a) (Suicide s a).1) as [J1 J2]; [done..|].
  destruct (same_fill _ _ (getState_fill s a)) as [F1 F2]. pose proof (getState_fill s a) as Ff.
  pose proof (getStateObject_at s a) as La. revert J1 J2. unfold Suicide.
  destruct (getStateObject s a) as [s1 [o|]]; simpl in *; intros J1 J2.
  - destruct (live_found s a o C (eq_sym La)) as (_ & Hd & Ha & _).
    destruct (same_append s1 (suicideChange a (suicided o) (a_Balance (so_data o)))) as [G1 G2].
    split; [by rewrite <- F1, <- G1|by rewrite <- F2, <- G2|done..| |].
    { intros b Hb. rewrite live_at_set by done. case_decide; [done|]. simpl. by rewrite live_at_append, (live_at_fill s s1 b Ff). }
    intros b k (o' & Lo & Uo)%cleared_live. rewrite live_at_set in Lo by done. simpl in Lo. apply cleared_live.
    case_decide as Hb; [subst b; rewrite Ha|rewrite live_at_append, (live_at_fill s s1 b Ff) in Lo; by exists o'].
    injection Lo as <-. exists o. split; [done|]. by eapply unset_same in Uo.
  - split; [done..| |]. { intros b Hb. by rewrite (live_at_fill s s1 b Ff). }
    intros b k (o' & Lo & Uo)%cleared_live. rewrite (live_at_fill s s1 b Ff) in Lo.
    apply cleared_live. by exists o'.
Qed.

(** Operations on the journal and the other tables only. *)
Lemma calm_misc s op s' : match op with ORevert _ => False | _ => True end -> sane s -> exec s op = Ret s' ->
  refund s' = refund s -> sdb_accessList s' = sdb_accessList s -> (forall b, live_at s' b = live_at s b) -> calm s s'.
Proof.
  intros Ho Hs E Hr Hl Hb. destruct (exec_journal s op s' Ho Hs E). split; try done.
  { intros b. by rewrite Hb. }
  intros b k (o & Lo & Uo)%cleared_live. rewrite Hb in Lo. apply cleared_live. by exists o.
Qed.

Lemma calm_AddLog s l : sane s -> calm s (AddLog s l).
Proof.
  intros Hs. by eapply (calm_misc s (OAddLog l)).
Qed.

(** ** Refunds, writes and the access list *)

(** [tallied s s']: bookkeeping that leaves the accounts alone. *)
Record tallied (s s' : StateDB) : Prop := {
  ta_live b : live_at s' b = live_at s b;
  ta_journal : exists es, entries s' = entries s ++ es;
  ta_dirt a : dirt s a <= dirt s' a;
  ta_idle : entries s' = [] -> refund s' = refund s
}.

Lemma tallied_refl s : tallied s s.
Proof. split; try done. exists []. by rewrite app_nil_r. Qed.

Lemma tallied_trans s1 s2 s3 : tallied s1 s2 -> tallied s2 s3 -> tallied s1 s3.
Proof.
  intros [A1 [e1 A2] A3 A4] [B1 [e2 B2] B3 B4]. split.
  - intros b. by rewrite B1.
  - exists (e1 ++ e2). by rewrite B2, A2, app_assoc.
  - intros a. etrans; [apply A3|apply B3].
  - intros E. rewrite (B4 E). apply A4. rewrite B2 in E. by apply app_nil in E as [? _].
Qed.

Lemma tallied_cleared s s' a k : tallied s s' -> cleared s' a k <-> cleared s a k.
Proof. intros T. rewrite !cleared_live. by rewrite (ta_live _ _ T). Qed.

Lemma tallied_getters s s' a k : tallied s s' ->
  GetState s' a k = GetState s a k /\ GetCommittedState s' a k = GetCommittedState s a k.
Proof. intros T. unfold GetState, GetCommittedState. by rewrite !getStateObject_at, (ta_live _ _ T). Qed.

Lemma metered_tallied s s' : tallied s s' -> refund s <= refund s' -> metered s -> metered s'.
Proof.
  intros T Hr [M1 M2 M3 M4 (X & M5 & M6)]. destruct (T) as [_ [es Te] Td Ti]. split.
  - lia.
  - intros E. rewrite (Ti E). apply M2. rewrite Te in E. by apply app_nil in E as [? _].
  - intros a. etrans; [apply M3|apply Td].
  - intros a k Hc%(tallied_cleared s s' a k T)%M4. eapply Z.lt_le_trans; [done|apply Td].
  - exists X. split; [|lia]. intros a k Hc%(tallied_cleared s s' a k T). by apply M5.
Qed.

Lemma tallied_append s e s' : (forall b, live_at s' b = live_at s b) -> entries s' = entries s ++ [e] ->
  dirties s' = dirties (journal_append s e) -> tallied s s'.
Proof.
  intros Hl He Hd. split; [done|by exists [e]| |].
  - intros a. unfold dirt at 2. rewrite Hd. fold (dirt (journal_append s e) a). rewrite dirt_append. case_decide; lia.
  - rewrite He. intros E. by apply app_nil in E as [].
Qed.

Lemma AddRefund_tallied s g : tallied s (AddRefund s g).
Proof. by apply (tallied_append s (refundChange (refund s))). Qed.

Lemma SubRefund_tallied s g : g <= refund s ->
  exists s', SubRefund s g = Ret s' /\ tallied s s' /\ refund s' = refund s - g /\ sdb_accessList s' = sdb_accessList s.
Proof.
  intros Hg. unfold SubRefund. cbn [refund journal_append dirtied setf].
  destruct (Z.ltb_spec (refund s) g); [lia|]. eexists. split; [done|]. split_and!; [|done..].
  by apply (tallied_append s (refundChange (refund s))).
Qed.

Definition warm (s : StateDB) (a : Address) : Prop := ContainsAddress (sdb_accessList s) a = true.

Lemma warm_add s a b : warm s b -> warm (AddAddressToAccessList s a) b.
Proof.
  unfold warm, ContainsAddress, AddAddressToAccessList, AddAddress. rewrite !bool_decide_eq_true.
  destruct (addresses (sdb_accessList s) !! a) eqn:E; [done|]. simpl.
  rewrite lookup_insert. by case_decide.
Qed.

Lemma warm_added s a : warm (AddAddressToAccessList s a) a.
Proof.
  unfold warm, ContainsAddress, AddAddressToAccessList, AddAddress. rewrite bool_decide_eq_true.
  destruct (addresses (sdb_accessList s) !! a) eqn:E; [simpl; by rewrite E|]. simpl. by rewrite lookup_insert_eq.
Qed.

Lemma AddAddress_tallied s a : tallied s (AddAddressToAccessList s a) /\ refund (AddAddressToAccessList s a) = refund s.
Proof.
  unfold AddAddressToAccessList, AddAddress. destruct (addresses (sdb_accessList s) !! a).
  - split; [|done]. split; try done. exists []. by rewrite app_nil_r.
  - split; [|done]. by apply (tallied_append s (accessListAddAccountChange a)).
Qed.

Lemma AddSlot_tallied s a k : sane s -> exists s', AddSlotToAccessList s a k = Ret s' /\ tallied s s' /\
  refund s' = refund s /\ forall b, warm s b -> warm s' b.
Proof.
  intros (C & A & _)%sane_ok. destruct (AddSlot_step s a k C A) as (s' & E & _). exists s'. split; [done|].
  revert E. unfold AddSlotToAccessList. destruct (AddSlot (sdb_accessList s) a k) as [[[al b1] b2]|] eqn:Ea; [|done].
  intros [= <-]. split_and!.
  - set (s1 := s <| sdb_accessList := al |>).
    assert (tallied s s1) as T1 by (split; try done; exists []; by rewrite app_nil_r).
    set (s2 := if b1 then _ else s1).
    assert (tallied s1 s2) as T2 by (unfold s2; destruct b1; [by apply (tallied_append s1 (accessListAddAccountChange a))|apply tallied_refl]).
    eapply tallied_trans; [exact T1|]. eapply tallied_trans; [exact T2|].
    destruct b2; [by apply (tallied_append s2 (accessListAddSlotChange a k))|apply tallied_refl].
  - by destruct b1, b2.
  - intros b. unfold warm. assert (ContainsAddress (sdb_accessList s) b = true -> ContainsAddress al b = true) as Hb;
      [|by destruct b1, b2].
    unfold AddSlot in Ea. unfold ContainsAddress. rewrite !bool_decide_eq_true.
    repeat case_match; simplify_eq; simpl; try done; rewrite lookup_insert; by case_decide.
Qed.

Lemma calm_GetOrNew s a : sane s -> calm s (GetOrNewStateObject s a).1.
Proof.
  intros (C & A & _)%sane_ok. destruct (same_GetOrNew s a) as [F1 F2]. pose proof (GetOrNew_step s a C A) as Hst.
  assert (exists es, entries (GetOrNewStateObject s a).1 = entries s ++ es) as [es Ee].
  { destruct (GetOrNewStateObject s a). destruct Hst as [[(_ & es & He & _) _] _]. by exists es. }
  split; [done|done|by exists es| | |].
  - intros b. pose proof (margin_GetOrNew s a b) as Hm. unfold margin in Hm. rewrite Ee, concerns_app in Hm.
    unfold concerns in *. lia.
  - intros b Hb. pose proof (GetOrNew_live s a b C) as Hg. destruct (GetOrNewStateObject s a) as [s1 p].
    destruct Hg as (_ & Hl & _). simpl. rewrite Hl. by case_decide.
  - intros b k (o & Lo & Uo)%cleared_live. apply cleared_live. pose proof (GetOrNew_live s a b C) as Hg.
    destruct (GetOrNewStateObject s a) as [s1 p]. destruct Hg as (Hp & Hl & _). simpl in Lo. rewrite Hl in Lo.
    case_decide; [|by exists o]. subst b. injection Lo as ->. rewrite Hp in Uo.
    destruct (live_at s a) as [q|]; [by exists q|]. by apply unset_clean in Uo.
Qed.

Lemma SetState_slots s a k v : sane s -> is_Some (live_at s a) -> let s' := SetState s a k v in
  refund s' = refund s /\ sdb_accessList s' = sdb_accessList s /\
  (GetCommittedState s a k <> 0 -> GetState s a k <> v -> dirt s a < dirt s' a) /\
  forall b k', cleared s' b k' ->
    if decide ((b, k') = (a, k)) then v = 0 /\ GetCommittedState s a k <> 0 else cleared s b k'.
Proof.
  intros Hs [q El]. destruct (calm_GetOrNew s a Hs) as [F1 F2 _ Hdirt _ Hslot]. destruct (sane_ok s Hs) as (C & A & _).
  unfold GetState, GetCommittedState. rewrite !getStateObject_at. unfold SetState.
  pose proof (GetOrNew_live s a a C) as Hg. pose proof (GetOrNew_step s a C A) as Hst.
  destruct (GetOrNewStateObject s a) as [s1 o]. destruct Hg as (Ho & Hl & Ha & Hd). destruct Hst as [_ (_ & _ & _ & Hf)].
  cbn [fst] in *. rewrite decide_True in Hl by done. rewrite Hf.
  rewrite El in Ho. simpl in Ho. subst q. rewrite El.
  pose proof (objGetState_fill o k) as Hfill.
  destruct (objGetState o k) as [o' prev] eqn:Eo. destruct Hfill as (Eq & Ha' & Hf' & Hd').
  assert (forall b k', cleared (setStateObject s1 o') b k' -> cleared s b k') as Hcl.
  { intros b k' (p & Lp & Up)%cleared_live. apply Hslot, cleared_live. rewrite live_at_set in Lp by congruence.
    rewrite Ha', Ha in Lp. case_decide; [|by exists p]. subst b. injection Lp as <-. exists o. split; [done|].
    destruct Up as [U1 U2]. split; [by rewrite <- (oe_state _ _ Eq)|by rewrite <- (oe_committed _ _ Eq)]. }
  destruct (Z.eqb_spec prev v) as [->|Hne].
  - split_and!; [done..|]. intros b k' Hc. case_decide as Hbk; [|by apply Hcl]. injection Hbk as -> ->.
    apply Hcl, cleared_live in Hc as (p & Lp & [U1 U2]). rewrite El in Lp. injection Lp as <-. by rewrite Eo in U1.
  - destruct (same_append (setStateObject s1 o') (storageChange (so_address o') k prev)) as [G1 G2].
    split_and!; [by rewrite <- F1|by rewrite <- F2| |].
    + intros _ _. change (dirt s a < dirt (journal_append (setStateObject s1 o') (storageChange (so_address o') k prev)) a).
      rewrite dirt_append, Ha', Ha. simpl. rewrite decide_True by done. specialize (Hdirt a).
      change (dirt (setStateObject s1 o') a) with (dirt s1 a). lia.
    + intros b k' (p & Lp & Up)%cleared_live. rewrite live_at_set in Lp by (simpl; congruence).
      simpl in Lp. rewrite live_at_append, Ha', Ha in Lp. case_decide as Hba.
      * subst b. injection Lp as <-. destruct Up as [U1 U2].
        rewrite setState_state in U1 by congruence. rewrite (committed_same _ o') in U2 by done.
        rewrite (oe_committed _ _ Eq) in U2. case_decide as Hk.
        { subst k'. by rewrite decide_True. }
        rewrite decide_False by congruence. apply Hcl, cleared_live. exists o'.
        rewrite live_at_set, Ha', Ha, decide_True by (done || congruence). split; [done|]. split; [done|].
        by rewrite (oe_committed _ _ Eq).
      * rewrite decide_False by congruence. apply Hcl, cleared_live. by exists p.
Qed.

(** What SSTORE has to add to the counter, at least, for the value [v]. *)
Definition clearing (s : StateDB) (a : Address) (k v : Hash) : Z :=
  if decide (GetCommittedState s a k = 0) then 0
  else (if decide (v = 0) then 15000 else 0) - (if decide (GetState s a k = 0) then 15000 else 0).

Lemma metered_covers s a k : metered s -> cleared s a k -> 15000 <= refund s.
Proof.
  intros [_ _ _ _ (X & M5 & M6)] Hc%M5. assert (base.size X <> 0)%nat; [|lia].
  intros E%size_empty_inv. set_solver.
Qed.

Lemma clearing_set (s : StateDB) (a : Address) (k v : Hash) (X : gset (Address * Hash)) : (forall b k', cleared s b k' -> (b, k') ∈ X) ->
  exists Y : gset (Address * Hash),
    15000 * Z.of_nat (base.size Y) <= 15000 * Z.of_nat (base.size X) + clearing s a k v /\
    forall b k', (if decide ((b, k') = (a, k)) then v = 0 /\ GetCommittedState s a k <> 0 else cleared s b k') ->
      (b, k') ∈ Y.
Proof.
  intros HX. unfold clearing. destruct (decide (GetCommittedState s a k = 0)) as [Hc|Hc].
  { exists X. split; [lia|]. intros b k'. case_decide; [by intros []|apply HX]. }
  destruct (decide (v = 0)) as [->|Hv], (decide (GetState s a k = 0)) as [Hg|Hg].
  - exists X. split; [lia|]. intros b k'. case_decide as E; [injection E as -> ->|apply HX]. intros _. by apply HX.
  - exists ({[ (a, k) ]} ∪ X). split.
    + assert (base.size ({[ (a, k) ]} ∪ X) <= 1 + base.size X)%nat; [|lia].
      rewrite size_union_alt, size_singleton. assert (base.size (X ∖ {[ (a, k) ]}) <= base.size X)%nat; [|lia].
      apply subseteq_size. set_solver.
    + intros b k'. case_decide; [set_solver|]. intros ?%HX. set_solver.
  - exists (X ∖ {[ (a, k) ]}). split.
    + assert ((a, k) ∈ X) by (apply HX; by split). rewrite size_difference by set_solver. rewrite size_singleton.
      assert (base.size X <> 0)%nat; [|lia]. intros E%size_empty_inv. set_solver.
    + intros b k'. case_decide; [by intros []|]. intros ?%HX. set_solver.
  - exists X. split; [lia|]. intros b k'. case_decide; [by intros []|apply HX].
Qed.

Lemma metered_SetState s s1 a k v : sane s1 -> is_Some (live_at s a) -> tallied s s1 -> metered s -> 0 <= refund s1 ->
  refund s + clearing s a k v <= refund s1 -> metered (SetState s1 a k v).
Proof.
  intros Hs Hl T M Hr Hc. pose proof M as [M1 M2 M3 M4 (X & M5 & M6)].
  destruct (tallied_getters s s1 a k T) as [G1 G2]. destruct (T) as [Tl [es Te] Td Ti].
  destruct (SetState_slots s1 a k v Hs) as (F1 & _ & Fd & Fs); [by rewrite Tl|]. rewrite G1, G2 in *.
  destruct (exec_journal s1 (OSetState a k v) (SetState s1 a k v)) as [[es' Ee] Ed]; [done..|].
  destruct (clearing_set s a k v X M5) as (Y & HY & HYs).
  assert (forall b k', cleared (SetState s1 a k v) b k' ->
    if decide ((b, k') = (a, k)) then v = 0 /\ GetCommittedState s a k <> 0 else cleared s b k') as Hcl.
  { intros b k' Hb%Fs. case_decide; [done|]. by apply (tallied_cleared s s1). }
  split.
  - by rewrite F1.
  - rewrite Ee, F1. intros [E1 _]%app_nil. rewrite (Ti E1). apply M2. rewrite Te in E1. by apply app_nil in E1 as [].
  - intros b. specialize (M3 b). specialize (Td b). specialize (Ed b). lia.
  - intros b k' Hb%Hcl. specialize (Td b). specialize (Ed b). case_decide as E.
    + injection E as -> ->. destruct Hb as [-> Hb]. specialize (M3 a). destruct (decide (GetState s a k = 0)) as [Hg|Hg].
      * assert (0 < dirt s a) by (apply (M4 a k); by split). lia.
      * specialize (Fd Hb Hg). lia.
    + apply M4 in Hb. lia.
  - exists Y. split; [|lia]. intros b k' Hb%Hcl. by apply HYs.
Qed.

(** Going back to a snapshot. *)
Lemma metered_reverted s s' : sdb_equiv s' s -> runs s s' -> entries s' = entries s -> metered s -> metered s'.
Proof.
  intros Eq Hr He [M1 M2 M3 M4 (X & M5 & M6)].
  assert (forall a k, cleared s' a k -> cleared s a k) as Hc.
  { intros a k. unfold cleared. by rewrite (GetState_equiv s' s), (GetCommittedState_equiv s' s). }
  pose proof (se_refund _ _ Eq) as Er. split; rewrite ?Er, ?He; try done.
  - intros a. etrans; [apply M3|by apply reverted_dirt].
  - intros a k Hb%Hc%M4. eapply Z.lt_le_trans; [done|by apply reverted_dirt].
  - exists X. split; [|done]. intros a k ?%Hc. by apply M5.
Qed.

Lemma metered_New tr : metered (New tr).
Proof.
  assert (forall a k, ~ cleared (New tr) a k) as Hn.
  { intros a k (o & Lo & Uo)%cleared_live. revert Uo. apply unset_clean. revert Lo. unfold live_at, obj_at. simpl.
    destruct (tr !! a); simpl; [|done]. by intros [= <-]. }
  split; [done..|intros a k Hc; by apply Hn in Hc|].
  exists ∅. split; [|done]. intros a k Hc. by apply Hn in Hc.
Qed.

(** ** Between transactions *)

(** The state between transactions. *)
Record rested (s : StateDB) : Prop := {
  re_cleared a k : ~ cleared s a k;
  re_refund : refund s = 0;
  re_dirt a : 0 <= dirt s a
}.

Lemma rested_metered s : rested s -> metered s.
Proof.
  intros [Hc Hr Hd]. split; [lia|done|done|intros a k Hk; by apply Hc in Hk|].
  exists ∅. split; [intros a k Hk; by apply Hc in Hk|]. rewrite size_empty. lia.
Qed.

(** The same of the objects. *)
Record tidied (s : StateDB) : Prop := {
  st_tidy a o : stateObjects s !! a = Some o -> deleted o = false -> forall k, ~ unset o k;
  st_refund : refund s = 0;
  st_dirt a : 0 <= dirt s a
}.

Lemma tidied_rested s : tidied s -> rested s.
Proof.
  intros [Ht Hr Hd]. split; [|done..]. intros a k (o & Lo & Uo)%cleared_live. revert Lo. unfold live_at, obj_at.
  destruct (stateObjects s !! a) as [p|] eqn:Ep; simpl.
  - destruct (deleted p) eqn:Ed; [done|]. intros [= <-]. by apply (Ht a p Ep Ed k).
  - destruct (trie s !! a); simpl; [|done]. intros [= <-]. by apply unset_clean in Uo.
Qed.

Lemma rested_New tr : rested (New tr).
Proof. by apply tidied_rested. Qed.

Lemma rested_calm s s' : calm s s' -> rested s -> rested s'.
Proof.
  intros C [Hc Hr Hd]. split.
  - intros a k Hk%(cl_slots _ _ C). by apply Hc in Hk.
  - by rewrite (cl_refund _ _ C).
  - intros a. etrans; [apply Hd|apply (cl_dirt _ _ C)].
Qed.

Lemma rested_reverted s s' : sdb_equiv s' s -> runs s s' -> entries s' = entries s -> rested s -> rested s'.
Proof.
  intros Eq Hr He [Hc Hf Hd]. split.
  - intros a k. unfold cleared. rewrite (GetState_equiv s' s), (GetCommittedState_equiv s' s) by done. apply Hc.
  - by rewrite (se_refund _ _ Eq).
  - intros a. etrans; [apply Hd|by apply reverted_dirt].
Qed.

Lemma rested_Prepare s th bh ti : rested s -> rested (Prepare s th bh ti).
Proof.
  intros [Hc Hr Hd]. split; [|done..]. intros a k (o & Lo & Uo)%cleared_live. apply (Hc a k), cleared_live. by exists o.
Qed.

Lemma fold_finalise b l s : let s' := fold_left (finaliseAddr b) l s in
  refund s' = refund s /\ entries s' = entries s /\ dirties s' = dirties s /\
  forall a, (a ∈ l -> forall o, stateObjects s' !! a = Some o -> deleted o = true \/ dirtyStorage o = ∅) /\
            (a ∉ l -> stateObjects s' !! a = stateObjects s !! a).
Proof.
  induction l as [|x l IH] using rev_ind; cbv zeta in *; [split_and!; [done..|]; intros a; split; [set_solver|done]|].
  rewrite fold_left_app. cbn [fold_left]. set (s1 := fold_left (finaliseAddr b) l s) in *.
  destruct IH as (I1 & I2 & I3 & I4). unfold finaliseAddr. destruct (stateObjects s1 !! x) as [o|] eqn:Ex; simpl.
  - split_and!; [done..|]. intros a. destruct (I4 a) as [J1 J2]. split; rewrite elem_of_app, list_elem_of_singleton.
    + intros Ha o'. rewrite lookup_insert. case_decide; [|naive_solver]. intros [= <-].
      destruct (suicided o || b && empty o); [by left|by right].
    + intros Ha. rewrite lookup_insert_ne by naive_solver. apply J2. naive_solver.
  - split_and!; [done..|]. intros a. destruct (I4 a) as [J1 J2]. split; rewrite elem_of_app, list_elem_of_singleton.
    + intros [Ha| ->] o'; [by apply J1|]. by rewrite Ex.
    + intros Ha. apply J2. naive_solver.
Qed.

Lemma tidied_Finalise s b : metered s -> tidied (Finalise s b).
Proof.
  intros [M1 M2 M3 M4 _]. unfold Finalise.
  destruct (fold_finalise b (elements (dom (dirties s))) s) as (F1 & F2 & F3 & F4).
  set (s1 := fold_left _ _ s) in *.
  assert (forall a o, stateObjects s1 !! a = Some o -> deleted o = false -> forall k, ~ unset o k) as Ht.
  { intros a o Ho Hd k Hu. destruct (F4 a) as [A1 A2]. destruct (decide (a ∈ dom (dirties s))) as [Hin|Hin].
    - destruct (A1 ltac:(by apply elem_of_elements) o Ho); [congruence|]. by apply unset_clean in Hu.
    - rewrite A2 in Ho by (by rewrite elem_of_elements). assert (0 < dirt s a) as Hp.
      { apply (M4 a k), cleared_live. exists o. split; [|done]. unfold live_at, obj_at. rewrite Ho. simpl. by rewrite Hd. }
      apply not_elem_of_dom in Hin. unfold dirt in Hp. rewrite Hin in Hp. simpl in Hp. lia. }
  unfold clearJournalAndRefund. case_decide as He; split; try done.
  - simpl. rewrite F1. apply M2. congruence.
  - intros a. unfold dirt. simpl. rewrite F3. apply M3.
Qed.

Lemma updateRoot_settled o k : ~ unset (updateRoot o) k.
Proof.
  apply unset_clean. unfold updateRoot, updateTrie. case_decide; simpl.
  - by repeat case_match.
  - unfold getTrie. destruct (so_trie _); simpl; destruct (fold_left _ _ _); simpl; done.
Qed.

Lemma tidied_IntermediateRoot s b s' h : metered s -> IntermediateRoot s b = Ret (s', h) -> tidied s'.
Proof.
  intros M. unfold IntermediateRoot. pose proof (tidied_Finalise s b M) as Hf. set (f := Finalise s b) in *.
  destruct (foldM updatePendingRoot f _) as [s1|] eqn:E1; [|done]. cbn [mbind outcome_bind].
  destruct (foldM writePending s1 _) as [s2|] eqn:E2; [|done]. cbn [mbind outcome_bind].
  apply (foldM_inv tidied) in E1; [|intros a x y _ Hx|done].
  - apply (foldM_inv tidied) in E2; [|intros a x y _ Hx|done].
    + intros [= <- _]. destruct E2. by split.
    + unfold writePending. repeat case_match; intros [= <-]; destruct Hx; by split.
  - unfold updatePendingRoot. repeat case_match; intros [= <-]; try done. destruct Hx as [Ht Hr Hd]. split; try done.
    intros b' o' Ho Hdel k. simpl in Ho. rewrite lookup_insert in Ho. case_decide; [|by eapply Ht].
    injection Ho as <-. apply updateRoot_settled.
Qed.

End Metered.
