(* ===== verification/Receipt.v ===== *)
(** * Receipts and bloom filters (core/types/receipt.go, core/types/bloom9.go)

    A bloom filter is its 256 bytes.  [CreateBloom_complete]: a filter made
    from receipts contains the address and the topics of all their logs. *)

From S2P Require Import Prelude Rlp Transaction AccessList StateDB.

(** ** Receipts *)

Definition ReceiptStatusFailed : Z := 0.
Definition ReceiptStatusSuccessful : Z := 1.

Record Receipt := mkReceipt {
  r_Type : Z;
  r_PostState : bytes;
  r_Status : Z;
  r_CumulativeGasUsed : Z;
  r_Bloom : bytes;
  r_Logs : list Log;
  r_TxHash : Hash;
  r_ContractAddress : Address;
  r_GasUsed : Z;
  r_BlockHash : Hash;
  r_BlockNumber : option Z;
  r_TransactionIndex : Z
}.
#[export] Instance eta_Receipt : Eta Receipt := fun r =>
  mkReceipt (r_Type r) (r_PostState r) (r_Status r) (r_CumulativeGasUsed r) (r_Bloom r) (r_Logs r)
    (r_TxHash r) (r_ContractAddress r) (r_GasUsed r) (r_BlockHash r) (r_BlockNumber r)
    (r_TransactionIndex r).

(** ** Bloom filters *)

Definition BloomByteLength : nat := 256.
(** The byte at an index. *)
Definition at_ (b : bytes) (i : nat) : Z := default 0 (b !! i).

Definition emptyBloom : bytes := replicate BloomByteLength 0.

Section Bloom.
Context `{Crypto}.

(** The index and the value of the byte of the [k]th pair of hash bytes. *)
Definition bloomValue (hashbuf : bytes) (k : nat) : nat * Z :=
  let hi := at_ hashbuf (2 * k) in
  let lo := at_ hashbuf (2 * k + 1) in
  ((BloomByteLength - Z.to_nat (Z.shiftr (Z.land (hi * 256 + lo) 0x7ff) 3) - 1)%nat,
   Z.shiftl 1 (Z.land lo 0x7) mod 256).

Definition bloomValues (data : bytes) : list (nat * Z) :=
  let hashbuf := take 6 (be_bytes 32 (keccak256 data)) in
  [bloomValue hashbuf 0; bloomValue hashbuf 1; bloomValue hashbuf 2].

Definition setByte (b : bytes) (iv : nat * Z) : bytes := <[iv.1 := Z.lor (at_ b iv.1) iv.2]> b.

Definition bloom_add (b d : bytes) : bytes := fold_left setByte (bloomValues d) b.

Definition Test (b topic : bytes) : bool :=
  forallb (fun iv => iv.2 =? Z.land iv.2 (at_ b iv.1)) (bloomValues topic).

(** What a log puts into the filter. *)
Definition addLog (b : bytes) (l : Log) : bytes :=
  fold_left (fun b t => bloom_add b (be_bytes HashLength t)) (l_Topics l)
    (bloom_add b (be_bytes AddressLength (l_Address l))).

Definition LogsBloom (logs : list Log) : bytes := fold_left addLog logs emptyBloom.

Definition CreateBloom (receipts : list Receipt) : bytes :=
  fold_left (fun b r => fold_left addLog (r_Logs r) b) receipts emptyBloom.

(** ** No false negatives *)

(** Every bit of [b] is set in [b']. *)
Definition covers (b b' : bytes) : Prop :=
  length b' = length b /\ forall i, Z.land (at_ b i) (at_ b' i) = at_ b i.

Lemma covers_refl b : covers b b.
Proof. split; [done|]. intros i. apply Z.land_diag. Qed.

Lemma land_trans x y z : Z.land x y = x -> Z.land y z = y -> Z.land x z = x.
Proof. intros E1 E2. rewrite <- E1 at 1. by rewrite <- Z.land_assoc, E2. Qed.

Lemma covers_trans b1 b2 b3 : covers b1 b2 -> covers b2 b3 -> covers b1 b3.
Proof. intros [L1 C1] [L2 C2]. split; [congruence|]. intros i. by eapply land_trans. Qed.

Lemma setByte_covers b iv : (iv.1 < length b)%nat -> covers b (setByte b iv) /\
  Z.land iv.2 (at_ (setByte b iv) iv.1) = iv.2.
Proof.
  intros Hi. unfold setByte, covers, at_. rewrite length_insert, list_lookup_insert_eq by done. simpl.
  split; [split; [done|]|].
  - intros j. destruct (decide (iv.1 = j)) as [<-|Hj].
    + rewrite list_lookup_insert_eq by done. simpl. apply Z.bits_inj'. intros n Hn.
      rewrite Z.land_spec, Z.lor_spec. by destruct (Z.testbit (default 0 _) n).
    + rewrite list_lookup_insert_ne by done. apply Z.land_diag.
  - apply Z.bits_inj'. intros n Hn. rewrite Z.land_spec, Z.lor_spec. destruct (Z.testbit iv.2 n); [|done].
    by rewrite orb_true_r.
Qed.

Lemma bloomValue_bound hb k : ((bloomValue hb k).1 < BloomByteLength)%nat.
Proof. simpl. unfold BloomByteLength. lia. Qed.

Lemma bloomValues_bound d iv : iv ∈ bloomValues d -> (iv.1 < BloomByteLength)%nat.
Proof. unfold bloomValues. rewrite !elem_of_cons. intros [->|[->|[->|[]%elem_of_nil]]]; apply bloomValue_bound. Qed.

(** Setting the bytes of [l] covers the old filter and contains each of them. *)
Lemma setBytes_covers l b : Forall (fun iv => (iv.1 < length b)%nat) l ->
  covers b (fold_left setByte l b) /\
  Forall (fun iv => Z.land iv.2 (at_ (fold_left setByte l b) iv.1) = iv.2) l.
Proof.
  revert b. induction l as [|iv l IH]; intros b Hb; simpl; [split; [apply covers_refl|constructor]|].
  apply Forall_cons in Hb as [Hi Hb]. destruct (setByte_covers b iv Hi) as [Hc Hl].
  destruct (IH (setByte b iv)) as [Hc' Hl'].
  { eapply Forall_impl; [exact Hb|]. intros x Hx. simpl. by rewrite (proj1 Hc). }
  split; [by eapply covers_trans|]. constructor; [|done]. eapply land_trans; [exact Hl|]. apply Hc'.
Qed.

Definition wf (b : bytes) : Prop := length b = BloomByteLength.

Lemma Test_covers b b' d : covers b b' -> Test b d = true -> Test b' d = true.
Proof.
  intros [_ Hc]. unfold Test. rewrite !forallb_forall. intros Ht iv Hin. specialize (Ht iv Hin).
  apply Z.eqb_eq in Ht. apply Z.eqb_eq. symmetry. eapply land_trans; [by symmetry|]. apply Hc.
Qed.

Lemma bloom_add_ok b d : wf b -> covers b (bloom_add b d) /\ wf (bloom_add b d) /\ Test (bloom_add b d) d = true.
Proof.
  intros Hb. destruct (setBytes_covers (bloomValues d) b) as [Hc Hl].
  { apply Forall_forall. intros iv Hiv. rewrite Hb. by eapply bloomValues_bound. }
  split; [done|]. split; [unfold wf in *; etrans; [apply Hc|done]|].
  apply forallb_forall. intros iv Hin%list_elem_of_In. rewrite Forall_forall in Hl.
  apply Z.eqb_eq. symmetry. by apply Hl.
Qed.

Lemma addTopics_ok (ts : list Hash) b : wf b ->
  let b' := fold_left (fun b t => bloom_add b (be_bytes HashLength t)) ts b in
  covers b b' /\ wf b' /\ forall t, t ∈ ts -> Test b' (be_bytes HashLength t) = true.
Proof.
  revert b. induction ts as [|t ts IH]; intros b Hb; simpl; [split_and!; [apply covers_refl|done|by intros t ?%elem_of_nil]|].
  destruct (bloom_add_ok b (be_bytes HashLength t) Hb) as (C1 & W1 & T1).
  destruct (IH _ W1) as (C2 & W2 & T2). split_and!; [by eapply covers_trans|done|].
  intros t' Hin. apply elem_of_cons in Hin as [->|Ht]; [by apply (Test_covers _ _ _ C2)|by apply T2].
Qed.

(** The data of a log that a filter must contain. *)
Definition contains_log (b : bytes) (l : Log) : Prop :=
  Test b (be_bytes AddressLength (l_Address l)) = true /\
  forall t, t ∈ l_Topics l -> Test b (be_bytes HashLength t) = true.

Lemma contains_covers b b' l : covers b b' -> contains_log b l -> contains_log b' l.
Proof. intros C [Ha Ht]. split; [by eapply Test_covers|]. intros t Hin. eapply Test_covers; [done|auto]. Qed.

Lemma addLog_ok b l : wf b -> covers b (addLog b l) /\ wf (addLog b l) /\ contains_log (addLog b l) l.
Proof.
  intros Hb. unfold addLog. destruct (bloom_add_ok b (be_bytes AddressLength (l_Address l)) Hb) as (C1 & W1 & T1).
  destruct (addTopics_ok (l_Topics l) _ W1) as (C2 & W2 & T2).
  split; [by eapply covers_trans|]. split; [done|]. split; [by apply (Test_covers _ _ _ C2)|done].
Qed.

Lemma addLogs_ok ls b : wf b -> covers b (fold_left addLog ls b) /\ wf (fold_left addLog ls b) /\
  forall l, l ∈ ls -> contains_log (fold_left addLog ls b) l.
Proof.
  revert b. induction ls as [|l ls IH]; intros b Hb; simpl; [split_and!; [apply covers_refl|done|by intros l ?%elem_of_nil]|].
  destruct (addLog_ok b l Hb) as (C1 & W1 & T1). destruct (IH _ W1) as (C2 & W2 & T2).
  split_and!; [by eapply covers_trans|done|]. intros l' Hin. apply elem_of_cons in Hin as [->|Hl]; [by apply (contains_covers _ _ _ C2)|by apply T2].
Qed.

Lemma CreateBloom_ok rs b : wf b ->
  let b' := fold_left (fun b r => fold_left addLog (r_Logs r) b) rs b in
  covers b b' /\ wf b' /\ forall r l, r ∈ rs -> l ∈ r_Logs r -> contains_log b' l.
Proof.
  revert b. induction rs as [|r rs IH]; intros b Hb; simpl; [split_and!; [apply covers_refl|done|by intros r l ?%elem_of_nil]|].
  destruct (addLogs_ok (r_Logs r) b Hb) as (C1 & W1 & T1). destruct (IH _ W1) as (C2 & W2 & T2).
  split_and!; [by eapply covers_trans|done|]. intros r' l Hin Hl. apply elem_of_cons in Hin as [->|Hr]; [apply (contains_covers _ _ _ C2); auto|by apply (T2 r')].
Qed.

(** The filter made from receipts has 256 bytes and answers yes for the
    address and for every topic of every log of the receipts. *)
Theorem CreateBloom_complete rs r l : r ∈ rs -> l ∈ r_Logs r ->
  length (CreateBloom rs) = BloomByteLength /\
  Test (CreateBloom rs) (be_bytes AddressLength (l_Address l)) = true /\
  forall t, t ∈ l_Topics l -> Test (CreateBloom rs) (be_bytes HashLength t) = true.
Proof.
  intros Hr Hl. destruct (CreateBloom_ok rs emptyBloom (length_replicate _ _)) as (_ & W & T).
  split; [done|]. by apply (T r).
Qed.

End Bloom.

#[local] Existing Instance toyCrypto.

Definition log_ex : Log := mkLog 5 [6; 7] [] 0 0 0 0 0.
Definition receipt_ex : Receipt := mkReceipt 0 [] 1 0 [] [log_ex] 0 0 0 0 None 0.

Lemma CreateBloom_complete_witness : Test (CreateBloom [receipt_ex]) (be_bytes HashLength 7) = true.
Proof.
  apply (proj2 (proj2 (CreateBloom_complete [receipt_ex] receipt_ex log_ex ltac:(left) ltac:(left)))).
  right. left.
Defined.
