(* ===== verification/DeriveSha.v ===== *)
(** * Roots of lists (core/types/hashing.go, core/types/block.go)

    [DeriveSha] is the root of the trie that maps the encoded index of an item
    to the encoding of the item; it feeds a stack trie, in the order of the
    encoded indices.  The encodings of transactions and receipts are those of
    their EncodeIndex methods.

    [DeriveSha_root]: for every list the root is the one the ordinary trie
    has. *)

From S2P Require Import Prelude Rlp RlpRaw Transaction Trie TrieMap TrieRefine TrieHash TrieKeys StackTrie Block AccessList StateDB Receipt.

(** ** Items *)

Definition encodeTx (tx : Transaction) : bytes :=
  if Type_ tx =? LegacyTxType then encodeOrNothing (rlpTxData (inner tx))
  else Type_ tx :: encodeOrNothing (rlpTxData (inner tx)).

Definition rlpLog (l : Log) : value :=
  VList [rlpAddress (l_Address l); VList (rlpHash32 <$> l_Topics l); VBytes (l_Data l)].

Definition statusEncoding (r : Receipt) : bytes :=
  match r_PostState r with
  | [] => if r_Status r =? ReceiptStatusFailed then [] else [1]
  | s => s
  end.

(** A receipt of another type is written as nothing. *)
Definition encodeReceipt (r : Receipt) : bytes :=
  let data := VList [VBytes (statusEncoding r); VUint (r_CumulativeGasUsed r); VByteArray (r_Bloom r); VList (rlpLog <$> r_Logs r)] in
  if r_Type r =? LegacyTxType then encodeOrNothing data
  else if r_Type r =? AccessListTxType then AccessListTxType :: encodeOrNothing data
  else [].

Section Lists.
Context `{Crypto}.

(** The order of the loops of DeriveSha over [n] items: 1 to 127, 0, 128 on. *)
Definition deriveOrder (n : nat) : list nat :=
  seq 1 (min 127 (n - 1)) ++ (if (0 <? n)%nat then [0%nat] else []) ++ seq 128 (n - 128).

Definition indexKey (i : nat) : bytes := AppendUint64 [] (Z.of_nat i).

Definition DeriveSha (items : list bytes) : outcome Hash :=
  st ← foldM (fun st i => st_TryUpdate st (indexKey i) (default [] (items !! i))) NewStackTrie (deriveOrder (length items));
  '(_, h) ← st_Hash st;
  Ret h.

(** types.NewBlock; the uncles are those of the caller. *)
Definition NewBlock (header : Header) (txs : list Transaction) (uncles : list Header) (receipts : list Receipt) : outcome Block :=
  txHash ← match txs with [] => Ret TrieHash.emptyRoot | _ => DeriveSha (encodeTx <$> txs) end;
  '(receiptHash, bloom) ← match receipts with
                          | [] => Ret (TrieHash.emptyRoot, h_Bloom header)
                          | _ => r ← DeriveSha (encodeReceipt <$> receipts); Ret (r, CreateBloom receipts)
                          end;
  Ret (mkBlock (header <| h_TxHash := txHash |> <| h_ReceiptHash := receiptHash |> <| h_Bloom := bloom |>
                       <| h_UncleHash := CalcUncleHash uncles |>) uncles txs).

End Lists.

(** ** The order of the keys *)

Lemma klt_snoc a b x y : klt a b -> klt (a ++ x) (b ++ y).
Proof.
  intros (p & u & v & ra & rb & -> & -> & Huv). exists p, u, v, (ra ++ x), (rb ++ y). by rewrite <- !app_assoc.
Qed.

Lemma klt_last a x y : x < y -> klt (a ++ [x]) (a ++ [y]).
Proof. intros Hxy. by exists a, x, y, [], []. Qed.

Lemma klt_cons z a b : klt a b -> klt (z :: a) (z :: b).
Proof. intros (p & u & v & ra & rb & -> & -> & Huv). by exists (z :: p), u, v, ra, rb. Qed.

Lemma klt_head x y a b : x < y -> klt (x :: a) (y :: b).
Proof. intros Hxy. by exists [], x, y, a, b. Qed.

Lemma be_bytes_klt n : forall i j, 0 <= i < j -> j < 256 ^ Z.of_nat n -> klt (be_bytes n i) (be_bytes n j).
Proof.
  induction n as [|n IH]; intros i j Hij Hj; [cbn in Hj; lia|]. cbn [be_bytes].
  rewrite Nat2Z.inj_succ, Z.pow_succ_r in Hj by lia. pose proof (Z.div_mod i 256). pose proof (Z.div_mod j 256).
  pose proof (Z.mod_pos_bound i 256). pose proof (Z.mod_pos_bound j 256).
  destruct (Z.eq_dec (i / 256) (j / 256)) as [E|E].
  - rewrite E. apply klt_last. lia.
  - apply klt_snoc, IH; [|apply Z.div_lt_upper_bound; lia]. split; [apply Z.div_pos; lia|].
    pose proof (Z.div_le_mono i j 256). lia.
Qed.

(** Bytes in order have their nibbles in order. *)
Definition nibblesOf (b : bytes) : bytes := concat ((fun x => [x / 16; x mod 16]) <$> b).

Lemma nibblesOf_app a b : nibblesOf (a ++ b) = nibblesOf a ++ nibblesOf b.
Proof. unfold nibblesOf. by rewrite fmap_app, concat_app. Qed.

Lemma klt_nibbles a b : klt a b -> bytes_ok a -> bytes_ok b -> klt (nibblesOf a) (nibblesOf b).
Proof.
  intros (p & x & y & ra & rb & -> & -> & Hxy) [_ [Hx _]%Forall_cons]%Forall_app [_ [Hy _]%Forall_cons]%Forall_app.
  rewrite !nibblesOf_app. change (nibblesOf (?z :: ?l)) with (z / 16 :: z mod 16 :: nibblesOf l).
  pose proof (Z.div_mod x 16). pose proof (Z.div_mod y 16). pose proof (Z.mod_pos_bound x 16). pose proof (Z.mod_pos_bound y 16).
  destruct (Z.eq_dec (x / 16) (y / 16)) as [E|E].
  - rewrite E. exists (nibblesOf p ++ [y / 16]), (x mod 16), (y mod 16), (nibblesOf ra), (nibblesOf rb). rewrite <- !app_assoc.
    split_and!; [done..|lia].
  - exists (nibblesOf p), (x / 16), (y / 16), (x mod 16 :: nibblesOf ra), (y mod 16 :: nibblesOf rb). split_and!; [done..|].
    pose proof (Z.div_le_mono x y 16). lia.
Qed.

Lemma klt_keys a b : klt a b -> bytes_ok a -> bytes_ok b ->
  klt (keybytesToHex a) (take (length (keybytesToHex b) - 1) (keybytesToHex b)).
Proof.
  intros Hk Ha Hb. unfold keybytesToHex. rewrite length_app, Nat.add_sub, take_app_length.
  rewrite <- (app_nil_r (concat (_ <$> b))). apply klt_snoc. by apply klt_nibbles.
Qed.

(** ** The keys of a list *)

Lemma AppendUint64_big i : 128 <= i < two64 -> exists n, (1 <= n <= 8)%nat /\ AppendUint64 [] i = (0x80 + Z.of_nat n) :: be_bytes n i /\
  i < 256 ^ Z.of_nat n /\ (n = 1%nat \/ 256 ^ Z.of_nat (n - 1) <= i).
Proof.
  unfold AppendUint64, two64. intros Hi. rewrite (proj2 (Z.eqb_neq _ _)) by lia. rewrite (proj2 (Z.ltb_ge _ _)) by lia.
  repeat match goal with |- context [Z.shiftl 1 ?k] => let v := eval vm_compute in (Z.shiftl 1 k) in change (Z.shiftl 1 k) with v end.
  destruct (Z.ltb_spec i 256); [exists 1%nat; cbn -[be_bytes Z.pow]; split_and!; [lia..|done|lia|by left]|].
  destruct (Z.ltb_spec i 65536); [exists 2%nat|].
  2: destruct (Z.ltb_spec i 16777216); [exists 3%nat|].
  3: destruct (Z.ltb_spec i 4294967296); [exists 4%nat|].
  4: destruct (Z.ltb_spec i 1099511627776); [exists 5%nat|].
  5: destruct (Z.ltb_spec i 281474976710656); [exists 6%nat|].
  6: destruct (Z.ltb_spec i 72057594037927936); [exists 7%nat|exists 8%nat].
  all: cbn [app]; split_and!; [lia..|reflexivity|cbn -[Z.pow]; lia|right; cbn -[Z.pow]; lia].
Qed.

Lemma AppendUint64_klt i j : 128 <= i < j -> j < two64 -> klt (AppendUint64 [] i) (AppendUint64 [] j).
Proof.
  intros Hij Hj. destruct (AppendUint64_big i) as (n & Hn & -> & Hi1 & Hi2); [lia|].
  destruct (AppendUint64_big j) as (m & Hm & -> & Hj1 & _); [lia|]. destruct (lt_eq_lt_dec n m) as [[Hlt|<-]|Hgt].
  - apply klt_head. lia.
  - apply klt_cons, be_bytes_klt; [lia|done].
  - destruct Hi2 as [->|Hi2]; [lia|]. pose proof (Z.pow_le_mono_r 256 (Z.of_nat m) (Z.of_nat (n - 1))). lia.
Qed.

(** [i] is written before [j]. *)
Definition before (i j : nat) : Prop := (0 < i < j)%nat \/ (i < 128 /\ j = 0 /\ i <> 0)%nat \/ (i = 0 /\ 128 <= j)%nat.

Lemma before_klt i j : before i j -> Z.of_nat i < two64 -> Z.of_nat j < two64 -> klt (indexKey i) (indexKey j).
Proof.
  intros Hij Hi Hj. unfold indexKey. assert (forall k, (0 < k < 128)%nat -> AppendUint64 [] (Z.of_nat k) = [Z.of_nat k]) as Hs.
  { intros k Hk. unfold AppendUint64. rewrite (proj2 (Z.eqb_neq _ _)), (proj2 (Z.ltb_lt _ _)) by lia. done. }
  destruct Hij as [Hij|[(H1 & -> & H2)|[-> H1]]].
  - destruct (le_lt_dec 128 i) as [Hi'|Hi']; [apply AppendUint64_klt; lia|]. rewrite (Hs i) by lia.
    destruct (le_lt_dec 128 j) as [Hj'|Hj']; [|rewrite (Hs j) by lia; apply klt_head; lia].
    destruct (AppendUint64_big (Z.of_nat j)) as (n & Hn & -> & _); [lia|]. apply klt_head. lia.
  - rewrite Hs by lia. apply klt_head. lia.
  - destruct (AppendUint64_big (Z.of_nat j)) as (n & Hn & -> & _); [lia|]. apply klt_head. lia.
Qed.

Lemma sorted_seq a n : StronglySorted before (seq (S a) n).
Proof.
  revert a. induction n as [|n IH]; intros a; cbn; constructor; [apply IH|]. apply Forall_forall. intros j [Hj _]%elem_of_seq. left. lia.
Qed.

Lemma strong_sorted_app {A} (R : A -> A -> Prop) l1 l2 : StronglySorted R l1 -> StronglySorted R l2 -> Forall (fun x => Forall (R x) l2) l1 ->
  StronglySorted R (l1 ++ l2).
Proof.
  intros H1 H2. induction H1 as [|x l1 H1 IH Hx]; intros Hf; [done|]. apply Forall_cons in Hf as [Hf1 Hf]. cbn. constructor; [by apply IH|].
  by apply Forall_app.
Qed.

Lemma deriveOrder_sorted n : StronglySorted before (deriveOrder n).
Proof.
  unfold deriveOrder. apply strong_sorted_app; [apply sorted_seq|apply strong_sorted_app; [|apply sorted_seq|]|].
  - destruct (0 <? n)%nat; repeat constructor.
  - destruct (0 <? n)%nat; repeat constructor. apply Forall_forall. intros j [Hj _]%elem_of_seq. right. right. lia.
  - apply Forall_forall. intros i Hi%elem_of_seq. apply Forall_app. split.
    + destruct (0 <? n)%nat; [|constructor]. apply Forall_singleton. right. left. lia.
    + apply Forall_forall. intros j [Hj _]%elem_of_seq. left. lia.
Qed.

Lemma deriveOrder_elem n i : i ∈ deriveOrder n <-> (i < n)%nat.
Proof.
  unfold deriveOrder. rewrite !elem_of_app, !elem_of_seq. destruct (Nat.ltb_spec 0 n).
  - rewrite list_elem_of_singleton. lia.
  - rewrite elem_of_nil. lia.
Qed.

(** ** Roots *)

(** The map whose root DeriveSha computes. *)
Definition indexed (items : list bytes) (m : gmap bytes bytes) : Prop :=
  forall k v, m !! k = Some v <-> exists i, k = indexKey i /\ items !! i = Some v.

Lemma indexKey_ok i : Z.of_nat i < two64 -> bytes_ok (indexKey i).
Proof.
  intros Hi. unfold indexKey. destruct (le_lt_dec 128 i) as [Hl|Hl].
  - destruct (AppendUint64_big (Z.of_nat i)) as (n & Hn & -> & _); [lia|]. constructor; [unfold is_byte; lia|apply be_bytes_ok].
  - unfold AppendUint64. destruct (Z.eqb_spec (Z.of_nat i) 0); [by repeat constructor|]. rewrite (proj2 (Z.ltb_lt _ _)) by lia.
    repeat constructor; lia.
Qed.

Section Roots.
Context `{Crypto} (items : list bytes) (Hitems : Forall (fun b => b <> [] /\ bytes_ok b) items) (Hlen : Z.of_nat (length items) < two64).

(** The map with the items of [l]. *)
Definition written (l : list nat) (m : gmap bytes bytes) : Prop :=
  forall k v, m !! k = Some v <-> exists i, i ∈ l /\ k = indexKey i /\ items !! i = Some v.

Lemma write_ok l : forall st m l0, StronglySorted before l -> (forall i, i ∈ l -> (i < length items)%nat) ->
  (forall i j, i ∈ l0 -> j ∈ l -> before i j) -> (forall i, i ∈ l0 -> (i < length items)%nat) -> stackHolds st m -> written l0 m ->
  exists st' m', foldM (fun st i => st_TryUpdate st (indexKey i) (default [] (items !! i))) st l = Ret st' /\
    stackHolds st' m' /\ written (l0 ++ l) m'.
Proof.
  induction l as [|i l IH]; intros st m l0 Hs Hl Hb H0 Hst Hw.
  { exists st, m. rewrite app_nil_r. done. }
  apply StronglySorted_cons in Hs as [Hi Hs]. rewrite Forall_forall in Hi.
  destruct (lookup_lt_is_Some_2 items i) as [b Hib]; [apply Hl; left|]. destruct (proj1 (Forall_lookup _ _) Hitems i b Hib) as [Hn Hok].
  assert (forall j, j ∈ l0 -> klt (indexKey j) (indexKey i)) as Hklt.
  { intros j Hj. apply before_klt; [by apply Hb; [|left]|specialize (H0 j Hj); lia|specialize (Hl i ltac:(left)); lia]. }
  assert (bytes_ok (indexKey i)) as Hki by (apply indexKey_ok; apply lookup_lt_Some in Hib; lia).
  cbn [foldM]. rewrite Hib. cbn [from_option id].
  destruct (TryUpdate_ok st m (indexKey i) b Hst Hki Hn Hok) as (st1 & -> & Hst1).
  { intros k Hk [w Hm]. apply Hw in Hm as (j & Hj & -> & _). apply klt_keys; [by apply Hklt|done..]. }
  cbn [mbind outcome_bind]. destruct (IH st1 (<[indexKey i := b]> m) (l0 ++ [i])) as (st' & m' & E & Hst' & Hw'); try done.
  - intros j Hj. apply Hl. by right.
  - intros j k [Hj| ->%list_elem_of_singleton]%elem_of_app Hk; [apply Hb; [done|by right]|by apply Hi].
  - intros j [Hj| ->%list_elem_of_singleton]%elem_of_app; [by apply H0|apply Hl; left].
  - intros k v. rewrite lookup_insert_Some. split.
    + intros [[<- <-]|[_ Hm]]; [exists i; split_and!; [set_solver|done..]|].
      apply Hw in Hm as (j & Hj & ? & ?). exists j. split_and!; [set_solver|done..].
    + intros (j & [Hj| ->%list_elem_of_singleton]%elem_of_app & -> & Hv); [|left; by simplify_eq].
      right. split; [|apply Hw; by exists j]. intros E. destruct (Hklt j Hj) as (p & x & y & ra & rb & E1 & E2 & Hxy).
      rewrite <- E, E2 in E1. apply app_inv_head in E1. injection E1 as ->. lia.
  - exists st', m'. rewrite <- app_assoc in Hw'. done.
Qed.

Lemma feed_ok : exists st m, stackHolds st m /\ indexed items m /\
  foldM (fun st i => st_TryUpdate st (indexKey i) (default [] (items !! i))) NewStackTrie (deriveOrder (length items)) = Ret st.
Proof.
  destruct (write_ok (deriveOrder (length items)) NewStackTrie ∅ []) as (st & m & E & Hst & Hw).
  - apply deriveOrder_sorted.
  - intros i. by rewrite deriveOrder_elem.
  - by intros i j Hi%elem_of_nil.
  - by intros i Hi%elem_of_nil.
  - exists TNil. split; [|by left]. intros k v _. cbn. split; [done|]. intros (key & _ & _ & E). by rewrite lookup_empty in E.
  - intros k v. rewrite lookup_empty. split; [done|]. by intros (i & Hi%elem_of_nil & _).
  - exists st, m. split; [done|]. split; [|done]. intros k v. rewrite (Hw k v). cbn [app].
    split; [intros (i & _ & ?); by exists i|]. intros (i & Ek & Hi). exists i. split; [|done].
    apply deriveOrder_elem. by apply lookup_lt_Some in Hi.
Qed.

Lemma derive_ok m : indexed items m -> exists st, stackHolds st m /\
  foldM (fun st i => st_TryUpdate st (indexKey i) (default [] (items !! i))) NewStackTrie (deriveOrder (length items)) = Ret st.
Proof.
  intros Hm. destruct feed_ok as (st & m' & Hst & Hw & E). exists st. split; [|done]. replace m with m'; [done|].
  apply map_eq. intros k. apply option_eq. intros v. by rewrite (Hm k v), (Hw k v).
Qed.

Lemma DeriveSha_total : exists root, DeriveSha items = Ret root.
Proof.
  destruct feed_ok as (st & m & Hst & _ & E). destruct (Hash_ok st m Hst) as (st' & tr & _ & _ & Eh).
  unfold DeriveSha. rewrite E. cbn [mbind outcome_bind]. rewrite Eh. cbn. by eexists.
Qed.

End Roots.

(** C28: DeriveSha does not panic on a list of nonempty items and gives the root of
    the ordinary trie that maps the RLP encoding of each index to its item,
    however that trie was built: the stack trie, which hashes and forgets every
    finished subtree, and the order in which DeriveSha feeds it (1 to 127, 0,
    128 on) compute the same function. *)
Theorem DeriveSha_root `{Crypto} (Known : tree -> Prop) (items : list bytes) (t : Trie) (m : gmap bytes bytes) :
  Forall (fun b => b <> [] /\ bytes_ok b) items -> Z.of_nat (length items) < two64 -> indexed items m -> holds Known t m ->
  exists t' root, Trie_Hash t = Ret (t', root) /\ DeriveSha items = Ret root.
Proof.
  intros Hitems Hlen Hm (tr & R & Ro & Hw & C). destruct (Trie_Hash_spec Known t tr R Ro Hw) as (t' & -> & _).
  destruct (derive_ok items Hitems Hlen m Hm) as (st & Hst & E). destruct (Hash_ok st m Hst) as (st' & tr' & C' & Hw' & Eh).
  exists t', (rootOf tr). split; [done|]. unfold DeriveSha. rewrite E. cbn [mbind outcome_bind]. rewrite Eh. cbn [mbind outcome_bind].
  by rewrite (contents_unique tr tr' m Hw Hw' C C').
Qed.

(** Three items, written to the trie in the order of their indices. *)
Lemma DeriveSha_root_witness :
  let t := trieRun noNodes 12 (mkTrie nilNode 0) [OpUpdate [128] [7]; OpUpdate [1] [8; 8]; OpUpdate [2] [9]] in
  exists t1 rt t' root, t = Ret (t1, rt) /\ @Trie_Hash toyCrypto t1 = Ret (t', root) /\ @DeriveSha toyCrypto [[7]; [8; 8]; [9]] = Ret root.
Proof.
  intros t.
  destruct (@trieRun_agrees toyCrypto (fun _ => False) noNodes ltac:(by intros ? ? []) 12 (mkTrie nilNode 0) ∅
    [OpUpdate [128] [7]; OpUpdate [1] [8; 8]; OpUpdate [2] [9]]) as (t1 & rt & mt & Et & At & Ht);
    [apply holds_empty|repeat constructor; cbn; unfold is_byte; try lia|].
  assert (rt = [inl None; inl None; inl None]) as -> by (vm_compute in Et; congruence).
  assert (mt = <[[2] := [9]]> (<[[1] := [8; 8]]> (<[[128] := [7]]> ∅))) as -> by (destruct At as (_ & _ & _ & <-); vm_compute; reflexivity).
  destruct (@DeriveSha_root toyCrypto (fun _ => False) [[7]; [8; 8]; [9]] t1 (<[[2] := [9]]> (<[[1] := [8; 8]]> (<[[128] := [7]]> ∅)))) as (t' & root & E1 & E2).
  - repeat constructor; try done.
  - done.
  - intros k v. rewrite !lookup_insert_Some, lookup_empty. split.
    + intros [[<- <-]|[_ [[<- <-]|[_ [[<- <-]|[_ E]]]]]]; [by exists 2%nat|by exists 1%nat|by exists 0%nat|done].
    + intros (i & -> & Hi). destruct i as [|[|[|i]]]; cbn in Hi; simplify_eq; vm_compute; intuition congruence.
  - exact Ht.
  - exists t1, [inl None; inl None; inl None], t', root. split_and!; assumption.
Defined.

(** A receipt of a type without an encoding makes DeriveSha panic: the stack
    trie takes the missing encoding for a deletion. *)
Theorem DeriveSha_unsupported `{Crypto} r : r_Type r <> LegacyTxType -> r_Type r <> AccessListTxType ->
  DeriveSha [encodeReceipt r] = Panic.
Proof.
  intros H1 H2. unfold encodeReceipt. by rewrite (proj2 (Z.eqb_neq _ _) H1), (proj2 (Z.eqb_neq _ _) H2).
Qed.
