(* ===== verification/CliqueSnapshot.v ===== *)
(** * Authorization snapshots of the proof of authority engine
    (consensus/clique/snapshot.go)

    A snapshot holds the signers, the votes on changing them and a cached
    tally.  The cache of recovered signatures and the clock, which only feeds
    log messages, are left out.

    [apply_refines]: a snapshot is what a replay of the votes with a recount
    at every header gives; the cached tally is never out of step.
    [apply_app]: applying headers in batches is applying them at once.
    [inturn_unique]: at every height one signer is in turn. *)

From stdpp Require Import sorting.
From S2P Require Import Prelude Rlp Params Transaction Block Clique.

Record Vote := mkVote { v_Signer : Address; v_Block : Z; v_Address : Address; v_Authorize : bool }.
Record Tally := mkTally { t_Authorize : bool; t_Votes : Z }.

Record Snapshot := mkSnapshot {
  sn_Number : Z;
  sn_Hash : Hash;
  sn_Signers : gset Address;
  sn_Recents : gmap Z Address;
  sn_Votes : list Vote;
  sn_Tally : gmap Address Tally
}.
#[export] Instance eta_Snapshot : Eta Snapshot := fun r =>
  mkSnapshot (sn_Number r) (sn_Hash r) (sn_Signers r) (sn_Recents r) (sn_Votes r) (sn_Tally r).

#[export] Instance Vote_eq_dec : EqDecision Vote.
Proof. solve_decision. Defined.
#[export] Instance Tally_eq_dec : EqDecision Tally.
Proof. solve_decision. Defined.

Definition nonceAuthVote : bytes := replicate 8 0xff.
Definition nonceDropVote : bytes := replicate 8 0x00.

Definition newSnapshot (number : Z) (hash : Hash) (signers : list Address) : Snapshot :=
  mkSnapshot number hash (list_to_set signers) ∅ [] ∅.

Definition validVote (s : Snapshot) (address : Address) (authorize : bool) : bool :=
  let signer := bool_decide (address ∈ sn_Signers s) in
  (signer && negb authorize) || (negb signer && authorize).

(** cast and uncast return whether the tally changed. *)
Definition cast (s : Snapshot) (address : Address) (authorize : bool) : Snapshot * bool :=
  if negb (validVote s address authorize) then (s, false)
  else
    let t := match sn_Tally s !! address with
             | Some old => mkTally (t_Authorize old) (t_Votes old + 1)
             | None => mkTally authorize 1
             end in
    (s <| sn_Tally := <[address := t]> (sn_Tally s) |>, true).

Definition uncast (s : Snapshot) (address : Address) (authorize : bool) : Snapshot * bool :=
  match sn_Tally s !! address with
  | None => (s, false)
  | Some t =>
      if negb (eqb (t_Authorize t) authorize) then (s, false)
      else if 1 <? t_Votes t
      then (s <| sn_Tally := <[address := mkTally (t_Authorize t) (t_Votes t - 1)]> (sn_Tally s) |>, true)
      else (s <| sn_Tally := delete address (sn_Tally s) |>, true)
  end.

(** ** apply *)

(** Forget the signer that may sign again at block [number]. *)
Definition dropRecent (s : Snapshot) (number : Z) : Snapshot :=
  let limit := Z.of_nat (base.size (sn_Signers s)) / 2 + 1 in
  if limit <=? number then s <| sn_Recents := delete (number - limit) (sn_Recents s) |> else s.

(** The first vote of [signer] on [address], and the other votes. *)
Fixpoint takeVote (signer address : Address) (votes : list Vote) : option (Vote * list Vote) :=
  match votes with
  | [] => None
  | v :: votes =>
      if bool_decide (v_Signer v = signer /\ v_Address v = address) then Some (v, votes)
      else '(w, rest) ← takeVote signer address votes; Some (w, v :: rest)
  end.

Definition discardVote (s : Snapshot) (signer address : Address) : Snapshot :=
  match takeVote signer address (sn_Votes s) with
  | Some (v, rest) => (uncast s (v_Address v) (v_Authorize v)).1 <| sn_Votes := rest |>
  | None => s
  end.

(** Uncast all votes of a signer that was dropped. *)
Definition discardAll (s : Snapshot) (signer : Address) : Snapshot :=
  let s' := fold_left (fun s v => if bool_decide (v_Signer v = signer)
                                  then (uncast s (v_Address v) (v_Authorize v)).1 else s) (sn_Votes s) s in
  s' <| sn_Votes := filter (fun v => v_Signer v <> signer) (sn_Votes s) |>.

(** The vote on [address] may have passed. *)
Definition settle (s : Snapshot) (number : Z) (address : Address) : Snapshot :=
  let tally := default (mkTally false 0) (sn_Tally s !! address) in
  if Z.of_nat (base.size (sn_Signers s)) / 2 <? t_Votes tally then
    let s := if t_Authorize tally then s <| sn_Signers := {[ address ]} ∪ sn_Signers s |>
             else discardAll (dropRecent (s <| sn_Signers := sn_Signers s ∖ {[ address ]} |>) number) address in
    s <| sn_Votes := filter (fun v => v_Address v <> address) (sn_Votes s) |>
      <| sn_Tally := delete address (sn_Tally s) |>
  else s.

Definition voteOf (h : Header) : option bool :=
  if bool_decide (h_Nonce h = nonceAuthVote) then Some true
  else if bool_decide (h_Nonce h = nonceDropVote) then Some false
  else None.

Section Apply.
Context `{Crypto}.

(** The body of the loop; a remainder by zero panics. *)
Definition applyHeader (epoch : Z) (s : Snapshot) (h : Header) : outcome (Snapshot + error) :=
  let number := u64 (h_Number h) in
  if epoch =? 0 then Panic else
  let s := if number mod epoch =? 0 then s <| sn_Votes := [] |> <| sn_Tally := ∅ |> else s in
  let s := dropRecent s number in
  signer ← clique_ecrecover h;
  match (signer : Address + error) with
  | inr e => Ret (inr e)
  | inl signer =>
      if bool_decide (signer ∉ sn_Signers s) then Ret (inr errUnauthorizedSigner)
      else
        let s := s <| sn_Recents := <[number := signer]> (sn_Recents s) |> in
        let s := discardVote s signer (h_Coinbase h) in
        match voteOf h with
        | None => Ret (inr errInvalidVote)
        | Some authorize =>
            let '(s, counted) := cast s (h_Coinbase h) authorize in
            let s := if (counted : bool)
                     then s <| sn_Votes := sn_Votes s ++ [mkVote signer number (h_Coinbase h) authorize] |> else s in
            Ret (inl (settle s number (h_Coinbase h)))
        end
  end.

Fixpoint applyLoop (epoch : Z) (s : Snapshot) (headers : list Header) : outcome (Snapshot + error) :=
  match headers with
  | [] => Ret (inl s)
  | h :: headers =>
      r ← applyHeader epoch s h;
      match (r : Snapshot + error) with inr e => Ret (inr e) | inl s => applyLoop epoch s headers end
  end.

(** The numbers of the headers follow [number] without a gap. *)
Fixpoint contiguous (number : Z) (headers : list Header) : bool :=
  match headers with
  | [] => true
  | h :: headers => (u64 (h_Number h) =? u64 (number + 1)) && contiguous (u64 (h_Number h)) headers
  end.

Definition apply (epoch : Z) (s : Snapshot) (headers : list Header) : outcome (Snapshot + error) :=
  match last headers with
  | None => Ret (inl s)
  | Some h =>
      if negb (contiguous (sn_Number s) headers) then Ret (inr errInvalidVotingChain)
      else
        r ← applyLoop epoch s headers;
        match (r : Snapshot + error) with
        | inr e => Ret (inr e)
        | inl s' => Ret (inl (s' <| sn_Number := u64 (sn_Number s' + Z.of_nat (length headers)) |>
                                 <| sn_Hash := HeaderHash h |>))
        end
  end.

End Apply.

(** ** Signers in order *)

Definition signers (s : Snapshot) : list Address := merge_sort Z.le (elements (sn_Signers s)).

(** The position of [signer], the length of the list when it is missing. *)
Fixpoint offsetOf (signer : Address) (l : list Address) : nat :=
  match l with
  | [] => 0%nat
  | a :: l => if bool_decide (a = signer) then 0%nat else S (offsetOf signer l)
  end.

Definition inturn (s : Snapshot) (number : Z) (signer : Address) : outcome bool :=
  let sigs := signers s in
  if bool_decide (sigs = []) then Panic
  else Ret (number mod Z.of_nat (length sigs) =? Z.of_nat (offsetOf signer sigs)).

(** ** The reference: the votes, recounted at every header *)

Record ballot := mkBallot { bl_number : Z; bl_signer : Address; bl_address : Address; bl_authorize : bool }.

Definition votesOn (a : Address) (votes : list Vote) : list Vote := filter (fun v => v_Address v = a) votes.

(** The signers and the votes after the vote on [a] was counted. *)
Definition settled (G : gset Address) (V : list Vote) (a : Address) : gset Address * list Vote :=
  if Z.of_nat (base.size G) / 2 <? Z.of_nat (length (votesOn a V)) then
    if bool_decide (a ∈ G)
    then (G ∖ {[ a ]}, filter (fun v => v_Address v <> a) (filter (fun v => v_Signer v <> a) V))
    else ({[ a ]} ∪ G, filter (fun v => v_Address v <> a) V)
  else (G, V).

Definition replay1 (epoch : Z) (st : gset Address * list Vote) (b : ballot) : option (gset Address * list Vote) :=
  let '(G, V) := st in
  let a := bl_address b in
  if bool_decide (bl_signer b ∈ G) then
    let V := if bl_number b mod epoch =? 0 then [] else V in
    let V := filter (fun v => ~ (v_Signer v = bl_signer b /\ v_Address v = a)) V in
    let V := if eqb (bl_authorize b) (bool_decide (a ∉ G))
             then V ++ [mkVote (bl_signer b) (bl_number b) a (bl_authorize b)] else V in
    Some (settled G V a)
  else None.

Fixpoint replay (epoch : Z) (st : gset Address * list Vote) (bs : list ballot) : option (gset Address * list Vote) :=
  match bs with
  | [] => Some st
  | b :: bs => st ← replay1 epoch st b; replay epoch st bs
  end.

(** The tally a recount gives. *)
Definition recount (G : gset Address) (V : list Vote) (a : Address) : option Tally :=
  match length (votesOn a V) with
  | O => None
  | n => Some (mkTally (bool_decide (a ∉ G)) (Z.of_nat n))
  end.

(** Every vote is by a signer, would change the signers, and is the only one
    of its signer on its address. *)
Record votes_ok (G : gset Address) (V : list Vote) : Prop := {
  vo_signer v : v ∈ V -> v_Signer v ∈ G;
  vo_change v : v ∈ V -> v_Authorize v = bool_decide (v_Address v ∉ G);
  vo_once : NoDup ((fun v => (v_Signer v, v_Address v)) <$> V)
}.

Record snap_ok (s : Snapshot) : Prop := {
  so_votes : votes_ok (sn_Signers s) (sn_Votes s);
  so_tally a : sn_Tally s !! a = recount (sn_Signers s) (sn_Votes s) a
}.

Lemma votesOn_app a V W : votesOn a (V ++ W) = votesOn a V ++ votesOn a W.
Proof. apply filter_app. Qed.

Lemma votesOn_cons a v V : votesOn a (v :: V) = if decide (v_Address v = a) then v :: votesOn a V else votesOn a V.
Proof. unfold votesOn. rewrite filter_cons. by case_decide. Qed.

Lemma votesOn_filter a V : votesOn a (filter (fun v => v_Address v <> a) V) = [].
Proof.
  unfold votesOn. induction V as [|v V IH]; [done|]. rewrite !filter_cons.
  repeat case_decide; try rewrite filter_cons; repeat case_decide; done.
Qed.

Lemma votesOn_filter_ne a b V : a <> b -> votesOn a (filter (fun v => v_Address v <> b) V) = votesOn a V.
Proof.
  intros Hne. unfold votesOn. induction V as [|v V IH]; [done|]. rewrite !filter_cons.
  repeat case_decide; try rewrite filter_cons; repeat case_decide; congruence.
Qed.

Lemma votes_ok_sub G V W : W `sublist_of` V -> votes_ok G V -> votes_ok G W.
Proof.
  intros Hsub [Hs Hc Ho]. split.
  - intros v Hv. apply Hs. by eapply sublist_subseteq.
  - intros v Hv. apply Hc. by eapply sublist_subseteq.
  - eapply sublist_NoDup; [exact Ho|]. by apply fmap_sublist.
Qed.

(** Uncasting a vote of the list is taking it out of the count. *)
Lemma uncast_recount s G V1 v V2 : (forall a, sn_Tally s !! a = recount G (V1 ++ v :: V2) a) ->
  v_Authorize v = bool_decide (v_Address v ∉ G) ->
  exists T, (uncast s (v_Address v) (v_Authorize v)).1 = s <| sn_Tally := T |> /\
    forall a, T !! a = recount G (V1 ++ V2) a.
Proof.
  intros HT Ha.
  assert (forall a, length (votesOn a (V1 ++ v :: V2)) =
    (length (votesOn a (V1 ++ V2)) + if decide (v_Address v = a) then 1 else 0)%nat) as Hlen.
  { intros a. rewrite !votesOn_app, votesOn_cons, !length_app. repeat case_decide; simpl; try done; lia. }
  unfold uncast. rewrite HT. unfold recount at 1. rewrite Hlen, decide_True by done.
  replace (length (votesOn (v_Address v) (V1 ++ V2)) + 1)%nat
    with (S (length (votesOn (v_Address v) (V1 ++ V2)))) by lia.
  rewrite Ha. cbn [t_Authorize t_Votes]. rewrite eqb_reflx. cbn [negb].
  destruct (Z.ltb_spec 1 (Z.of_nat (S (length (votesOn (v_Address v) (V1 ++ V2)))))) as [Hl|Hl];
    (eexists; split; [done|]); intros a.
  - destruct (decide (a = v_Address v)) as [->|Hne].
    + rewrite lookup_insert_eq. unfold recount. destruct (length (votesOn _ (V1 ++ V2))) as [|n] eqn:E; [lia|].
      f_equal. f_equal. lia.
    + rewrite lookup_insert_ne, HT by done. unfold recount. by rewrite Hlen, decide_False, Nat.add_0_r by done.
  - destruct (decide (a = v_Address v)) as [->|Hne].
    + rewrite lookup_delete_eq. unfold recount. by replace (length (votesOn _ (V1 ++ V2))) with 0%nat by lia.
    + rewrite lookup_delete_ne, HT by done. unfold recount. by rewrite Hlen, decide_False, Nat.add_0_r by done.
Qed.

Lemma discardAll_fold s G a V W :
  (forall b, sn_Tally s !! b = recount G (W ++ V) b) -> (forall v, v ∈ V -> v_Authorize v = bool_decide (v_Address v ∉ G)) ->
  exists T, fold_left (fun s v => if bool_decide (v_Signer v = a) then (uncast s (v_Address v) (v_Authorize v)).1 else s) V s
      = s <| sn_Tally := T |> /\
    forall b, T !! b = recount G (W ++ filter (fun v => v_Signer v <> a) V) b.
Proof.
  revert s W. induction V as [|v V IH]; intros s W HT Hc; simpl.
  { exists (sn_Tally s). by split; [destruct s|]. }
  rewrite filter_cons. case_bool_decide as Hv.
  - destruct (uncast_recount s G W v V HT) as (T & -> & HT'); [apply Hc; left|].
    destruct (IH (s <| sn_Tally := T |>) W) as (T' & -> & HT2); [exact HT'|intros; apply Hc; by right|].
    exists T'. split; [done|]. by rewrite decide_False by tauto.
  - rewrite decide_True by done.
    destruct (IH s (W ++ [v])) as (T' & -> & HT2); [intros; by rewrite <- app_assoc|intros; apply Hc; by right|].
    exists T'. split; [done|]. intros b. rewrite HT2. by rewrite <- app_assoc.
Qed.

Lemma discardAll_ok s a : (forall b, sn_Tally s !! b = recount (sn_Signers s ∪ {[ a ]}) (sn_Votes s) b) ->
  (forall v, v ∈ sn_Votes s -> v_Authorize v = bool_decide (v_Address v ∉ sn_Signers s ∪ {[ a ]})) ->
  exists T, discardAll s a = s <| sn_Votes := filter (fun v => v_Signer v <> a) (sn_Votes s) |> <| sn_Tally := T |> /\
    forall b, T !! b = recount (sn_Signers s ∪ {[ a ]}) (filter (fun v => v_Signer v <> a) (sn_Votes s)) b.
Proof.
  intros HT Hc. unfold discardAll.
  destruct (discardAll_fold s _ a (sn_Votes s) [] HT Hc) as (T & -> & HT'). by exists T.
Qed.

Lemma takeVote_spec signer a V : NoDup ((fun v => (v_Signer v, v_Address v)) <$> V) ->
  match takeVote signer a V with
  | Some (v, rest) => v_Signer v = signer /\ v_Address v = a /\
      rest = filter (fun v => ~ (v_Signer v = signer /\ v_Address v = a)) V /\
      exists V1 V2, V = V1 ++ v :: V2 /\ rest = V1 ++ V2
  | None => filter (fun v => ~ (v_Signer v = signer /\ v_Address v = a)) V = V
  end.
Proof.
  induction V as [|v V IH]; intros Hnd; simpl; [done|]. rewrite filter_cons.
  apply NoDup_cons in Hnd as [Hv Hnd]. case_bool_decide as Hm.
  - rewrite decide_False by tauto. destruct Hm as [<- <-]. split_and!; [done..| |by exists [], V].
    symmetry. apply filter_all, Forall_forall. intros w Hw [E1 E2]. apply Hv. rewrite <- E1, <- E2.
    by apply (list_elem_of_fmap_2 (fun v => (v_Signer v, v_Address v))).
  - rewrite decide_True by done. specialize (IH Hnd). destruct (takeVote signer a V) as [[w rest]|]; simpl.
    + destruct IH as (? & ? & -> & V1 & V2 & -> & E). split_and!; [done..|]. exists (v :: V1), V2. by rewrite E.
    + by rewrite IH.
Qed.

(** The vote of [signer] on [a] is gone from the list and from the tally. *)
Lemma discardVote_ok s signer a : snap_ok s ->
  exists T, let V := filter (fun v => ~ (v_Signer v = signer /\ v_Address v = a)) (sn_Votes s) in
    discardVote s signer a = s <| sn_Votes := V |> <| sn_Tally := T |> /\
    forall b, T !! b = recount (sn_Signers s) V b.
Proof.
  intros [[Hs Hc Ho] HT]. unfold discardVote. pose proof (takeVote_spec signer a (sn_Votes s) Ho) as Ht.
  destruct (takeVote signer a (sn_Votes s)) as [[v rest]|].
  - destruct Ht as (_ & _ & <- & V1 & V2 & EV & ->).
    destruct (uncast_recount s (sn_Signers s) V1 v V2) as (T & -> & HT'); [by rewrite <- EV|apply Hc; rewrite EV; apply elem_of_app; right; left|].
    by exists T.
  - exists (sn_Tally s). cbv zeta. rewrite Ht. by destruct s.
Qed.

Lemma recount_snoc G V v a : v_Address v = a ->
  recount G (V ++ [v]) a = Some (mkTally (bool_decide (a ∉ G)) (Z.of_nat (length (votesOn a V)) + 1)).
Proof.
  intros Ha. unfold recount. rewrite votesOn_app, length_app, votesOn_cons, decide_True by done. simpl.
  destruct (length (votesOn a V) + 1)%nat as [|n] eqn:E; [lia|]. f_equal. f_equal. lia.
Qed.

Lemma recount_snoc_ne G V v a : v_Address v <> a -> recount G (V ++ [v]) a = recount G V a.
Proof. intros Ha. unfold recount. by rewrite votesOn_app, votesOn_cons, decide_False, app_nil_r. Qed.

Lemma recount_votes G V a : t_Votes (default (mkTally false 0) (recount G V a)) = Z.of_nat (length (votesOn a V)).
Proof. unfold recount. by destruct (length (votesOn a V)). Qed.

(** A vote that would change the signers is counted and appended, another one
    is ignored. *)
Lemma cast_ok s signer number a auth : snap_ok s -> signer ∈ sn_Signers s ->
  (forall v, v ∈ sn_Votes s -> ~ (v_Signer v = signer /\ v_Address v = a)) ->
  let '(s', counted) := cast s a auth in
  let s'' := if counted then s' <| sn_Votes := sn_Votes s' ++ [mkVote signer number a auth] |> else s' in
  exists V T, s'' = s <| sn_Votes := V |> <| sn_Tally := T |> /\ snap_ok s'' /\
    V = if eqb auth (bool_decide (a ∉ sn_Signers s)) then sn_Votes s ++ [mkVote signer number a auth] else sn_Votes s.
Proof.
  intros [[Hs Hc Ho] HT] Hin Hfresh. unfold cast, validVote.
  destruct (eqb auth (bool_decide (a ∉ sn_Signers s))) eqn:Hv.
  - apply eqb_prop in Hv. assert ((bool_decide (a ∈ sn_Signers s) && negb auth) ||
      (negb (bool_decide (a ∈ sn_Signers s)) && auth) = true) as ->.
    { subst auth. repeat case_bool_decide; simpl; tauto. }
    cbn [negb]. eexists _, _. split; [done|]. split; [|done]. split; simpl.
    + split; simpl.
      * intros v [Hin'|Hin'%list_elem_of_singleton]%elem_of_app; [|subst v]; [by apply Hs|done].
      * intros v [Hin'|Hin'%list_elem_of_singleton]%elem_of_app; [|subst v]; [by apply Hc|done].
      * rewrite fmap_app. apply NoDup_app. split_and!; [done| |apply NoDup_singleton].
        intros p Hp E%list_elem_of_singleton. apply list_elem_of_fmap in Hp as (v & -> & Hv').
        injection E as E1 E2. by apply (Hfresh v Hv').
    + intros b. destruct (decide (b = a)) as [->|Hne].
      * rewrite lookup_insert_eq, recount_snoc by done. rewrite HT. unfold recount.
        destruct (length (votesOn a (sn_Votes s))); [by rewrite Hv|]. done.
      * rewrite lookup_insert_ne, recount_snoc_ne by done. apply HT.
  - apply eqb_false_iff in Hv. assert ((bool_decide (a ∈ sn_Signers s) && negb auth) ||
      (negb (bool_decide (a ∈ sn_Signers s)) && auth) = false) as ->.
    { destruct auth; repeat case_bool_decide; simpl; tauto. }
    cbn [negb]. exists (sn_Votes s), (sn_Tally s). by destruct s.
Qed.

Lemma dropRecent_same s n : exists R, dropRecent s n = s <| sn_Recents := R |>.
Proof. unfold dropRecent. case_match; [by eexists|]. exists (sn_Recents s). by destruct s. Qed.

Lemma recount_filter G V a b :
  recount G (filter (fun v => v_Address v <> a) V) b = if decide (a = b) then None else recount G V b.
Proof.
  unfold recount. case_decide as E; [subst; by rewrite votesOn_filter|]. by rewrite votesOn_filter_ne.
Qed.

(** A change of the signers matters only for the address voted on. *)
Lemma recount_signers G G' V b : (b ∈ G <-> b ∈ G') -> recount G V b = recount G' V b.
Proof.
  intros E. unfold recount. destruct (length (votesOn b V)); [done|].
  rewrite (bool_decide_ext (b ∉ G) (b ∉ G')) by tauto. done.
Qed.

Lemma votes_ok_change G G' V a : votes_ok G V -> (forall v, v ∈ V -> v_Address v <> a /\ v_Signer v ∈ G') ->
  (forall b, b <> a -> (b ∈ G <-> b ∈ G')) -> votes_ok G' V.
Proof.
  intros [Hs Hc Ho] HV HG. split; [by intros v Hv; apply HV| |done].
  intros v Hv. rewrite (Hc v Hv). apply bool_decide_ext. destruct (HV v Hv) as [Hne _]. by rewrite (HG _ Hne).
Qed.

Lemma put_back (G : gset Address) a : a ∈ G -> G ∖ {[ a ]} ∪ {[ a ]} = G.
Proof. intros Ha. apply set_eq. intros b. destruct (decide (b = a)); set_solver. Qed.

Lemma settle_ok s n a : snap_ok s -> snap_ok (settle s n a) /\
  (sn_Signers (settle s n a), sn_Votes (settle s n a)) = settled (sn_Signers s) (sn_Votes s) a /\
  sn_Number (settle s n a) = sn_Number s.
Proof.
  intros [Hv HT]. unfold settle, settled. rewrite HT, recount_votes.
  set (G := sn_Signers s). set (V := sn_Votes s).
  destruct (Z.ltb_spec (Z.of_nat (base.size G) / 2) (Z.of_nat (length (votesOn a V)))) as [Hl|_]; [|done].
  assert (t_Authorize (default (mkTally false 0) (recount G V a)) = bool_decide (a ∉ G)) as ->.
  { unfold recount. destruct (length (votesOn a V)) as [|k] eqn:E; [|done].
    assert (0 <= Z.of_nat (base.size G) / 2) by (apply Z.div_pos; lia). lia. }
  destruct (decide (a ∈ G)) as [Ha|Ha].
  - rewrite (bool_decide_eq_false_2 (a ∉ G)), (bool_decide_eq_true_2 (a ∈ G)) by tauto.
    destruct (dropRecent_same (s <| sn_Signers := G ∖ {[ a ]} |>) n) as [R ->].
    set (s1 := s <| sn_Signers := G ∖ {[ a ]} |> <| sn_Recents := R |>).
    assert (sn_Signers s1 ∪ {[ a ]} = G) as HG by by apply put_back.
    destruct (discardAll_ok s1 a) as (T & -> & HT'); rewrite ?HG; [exact HT|apply Hv|]. rewrite HG in HT'. cbn in HT' |- *.
    split_and!; [|done..]. split; cbn.
    + apply (votes_ok_change G _ _ a).
      * eapply votes_ok_sub, Hv. etrans; apply sublist_filter.
      * intros v [Hva [Hvs Hv']%list_elem_of_filter]%list_elem_of_filter. split; [done|].
        apply elem_of_difference. split; [by apply Hv|set_solver].
      * set_solver.
    + intros b. rewrite lookup_delete, HT', recount_filter. case_decide; [done|].
      apply recount_signers. set_solver.
  - rewrite (bool_decide_eq_true_2 (a ∉ G)), (bool_decide_eq_false_2 (a ∈ G)) by tauto. cbn.
    split_and!; [|done..]. split; cbn.
    + apply (votes_ok_change G _ _ a).
      * eapply votes_ok_sub, Hv. apply sublist_filter.
      * intros v [Hva Hv']%list_elem_of_filter. split; [done|]. apply elem_of_union. right. by apply Hv.
      * set_solver.
    + intros b. rewrite lookup_delete, HT, recount_filter. case_decide; [done|].
      apply recount_signers. set_solver.
Qed.

Section ApplyFacts.
Context `{Crypto}.

(** The vote a header casts. *)
Definition casts (h : Header) (b : ballot) : Prop :=
  bl_number b = u64 (h_Number h) /\ clique_ecrecover h = Ret (inl (bl_signer b)) /\
  bl_address b = h_Coinbase h /\ voteOf h = Some (bl_authorize b).

Lemma applyHeader_ok epoch s h b : snap_ok s -> epoch <> 0 -> casts h b ->
  match replay1 epoch (sn_Signers s, sn_Votes s) b with
  | None => applyHeader epoch s h = Ret (inr errUnauthorizedSigner)
  | Some (G, V) => exists s', applyHeader epoch s h = Ret (inl s') /\ snap_ok s' /\
      sn_Signers s' = G /\ sn_Votes s' = V /\ sn_Number s' = sn_Number s
  end.
Proof.
  intros Hs He (Hn & Hsig & Ha & Hv). unfold replay1, applyHeader.
  rewrite (proj2 (Z.eqb_neq epoch 0)) by done. rewrite <- Hn. cbv zeta.
  set (V0 := if bl_number b mod epoch =? 0 then [] else sn_Votes s).
  set (s0 := if bl_number b mod epoch =? 0 then _ else s).
  assert (snap_ok s0 /\ sn_Signers s0 = sn_Signers s /\ sn_Votes s0 = V0 /\ sn_Number s0 = sn_Number s)
    as (Hs0 & EG & EV & EN).
  { unfold s0, V0. case_match; [|done]. split_and!; [|done..]. split; [|done]. simpl.
    split; [by intros v ?%elem_of_nil..|constructor]. }
  clearbody s0 V0. destruct (dropRecent_same s0 (bl_number b)) as [R ->]. rewrite Hsig. cbn [mbind outcome_bind].
  cbn [sn_Signers]. change (sn_Signers (s0 <| sn_Recents := R |>)) with (sn_Signers s0). rewrite EG.
  destruct (decide (bl_signer b ∈ sn_Signers s)) as [Hin|Hin].
  2:{ by rewrite (bool_decide_eq_false_2 (bl_signer b ∈ _)), (bool_decide_eq_true_2 (bl_signer b ∉ _)) by tauto. }
  rewrite (bool_decide_eq_true_2 (bl_signer b ∈ _)), (bool_decide_eq_false_2 (bl_signer b ∉ _)) by tauto.
  set (s1 := s0 <| sn_Recents := R |> <| sn_Recents := _ |>).
  assert (snap_ok s1) as Hs1 by (by destruct Hs0).
  destruct (discardVote_ok s1 (bl_signer b) (h_Coinbase h) Hs1) as (T & E2 & HT). cbv zeta in E2, HT. rewrite E2.
  set (V1 := filter _ _) in E2, HT |- *. set (s2 := s1 <| sn_Votes := V1 |> <| sn_Tally := T |>).
  assert (V1 `sublist_of` V0) as Hsub by (unfold V1; rewrite <- EV; apply sublist_filter).
  assert (snap_ok s2) as Hs2.
  { split; [|exact HT]. eapply votes_ok_sub, Hs1. simpl. by rewrite EV. }
  rewrite Hv. pose proof (cast_ok s2 (bl_signer b) (bl_number b) (h_Coinbase h) (bl_authorize b) Hs2) as Hc.
  destruct (cast s2 (h_Coinbase h) (bl_authorize b)) as [s3 counted].
  destruct Hc as (V & T3 & E3 & Hs3 & EV3).
  { simpl. by rewrite EG. }
  { intros v Hv1. by apply list_elem_of_filter in Hv1 as [? _]. }
  set (s4 := if counted then _ else _) in *. destruct (settle_ok s4 (bl_number b) (h_Coinbase h) Hs3) as (Hs5 & E5 & N5).
  assert (sn_Signers s4 = sn_Signers s /\ sn_Number s4 = sn_Number s /\ sn_Votes s4 = V) as (EG4 & EN4 & EV4)
    by (rewrite E3; simpl; by rewrite EG).
  rewrite EG4, EV4 in E5. rewrite Ha.
  assert (V1 = filter (fun v => ~ (v_Signer v = bl_signer b /\ v_Address v = h_Coinbase h)) V0) as <-
    by (unfold V1; simpl; by rewrite EV).
  change (sn_Signers s2) with (sn_Signers s0) in EV3. rewrite EG in EV3. change (sn_Votes s2) with V1 in EV3.
  rewrite <- EV3, <- E5. exists (settle s4 (bl_number b) (h_Coinbase h)). split_and!; [done..|]. by rewrite N5, EN4.
Qed.

Lemma applyLoop_ok epoch hs bs s : snap_ok s -> epoch <> 0 -> Forall2 casts hs bs ->
  match replay epoch (sn_Signers s, sn_Votes s) bs with
  | None => applyLoop epoch s hs = Ret (inr errUnauthorizedSigner)
  | Some (G, V) => exists s', applyLoop epoch s hs = Ret (inl s') /\ snap_ok s' /\
      sn_Signers s' = G /\ sn_Votes s' = V /\ sn_Number s' = sn_Number s
  end.
Proof.
  intros Hs He Hc. revert s Hs. induction Hc as [|h b hs bs Hh _ IH]; intros s Hs; cbn [replay applyLoop]; [by exists s|].
  pose proof (applyHeader_ok epoch s h b Hs He Hh) as H1. destruct (replay1 epoch _ b) as [[G V]|]; cbn [mbind option_bind].
  - destruct H1 as (s' & -> & Hs' & <- & <- & N). cbn [mbind outcome_bind]. specialize (IH s' Hs').
    destruct (replay epoch _ bs) as [[G V]|]; [|done].
    destruct IH as (s2 & -> & Hs2 & <- & <- & N2). exists s2. by rewrite N2.
  - by rewrite H1.
Qed.

(** *** Batches *)

(** The number and the hash are set at the end and not read in between. *)
Definition renum (n : Z) (h : Hash) (s : Snapshot) : Snapshot := s <| sn_Number := n |> <| sn_Hash := h |>.

Lemma uncast_renum n h s a b : uncast (renum n h s) a b = (renum n h (uncast s a b).1, (uncast s a b).2).
Proof. unfold uncast. cbn. repeat case_match; done. Qed.

Lemma dropRecent_renum n h s k : dropRecent (renum n h s) k = renum n h (dropRecent s k).
Proof. unfold dropRecent. cbn. by case_match. Qed.

Lemma discardVote_renum n h s a b : discardVote (renum n h s) a b = renum n h (discardVote s a b).
Proof. unfold discardVote. cbn. destruct (takeVote _ _ _) as [[v rest]|]; [|done]. by rewrite uncast_renum. Qed.

Lemma discardAll_renum n h s a : discardAll (renum n h s) a = renum n h (discardAll s a).
Proof.
  unfold discardAll. change (sn_Votes (renum n h s)) with (sn_Votes s). generalize (filter (fun v => v_Signer v <> a) (sn_Votes s)).
  intros W. enough (forall V t, fold_left (fun s v => if bool_decide (v_Signer v = a) then
      (uncast s (v_Address v) (v_Authorize v)).1 else s) V (renum n h t) =
    renum n h (fold_left (fun s v => if bool_decide (v_Signer v = a) then
      (uncast s (v_Address v) (v_Authorize v)).1 else s) V t)) as E by by rewrite E.
  induction V as [|v V IH]; intros t; [done|]. cbn [fold_left]. case_bool_decide; [|apply IH].
  rewrite uncast_renum. apply IH.
Qed.

Lemma settle_renum n h s k a : settle (renum n h s) k a = renum n h (settle s k a).
Proof.
  unfold settle. cbn [sn_Tally sn_Signers renum]. change (sn_Tally (renum n h s)) with (sn_Tally s).
  change (sn_Signers (renum n h s)) with (sn_Signers s). case_match; [|done]. case_match; [done|].
  change ((renum n h s) <| sn_Signers := sn_Signers s ∖ {[ a ]} |>)
    with (renum n h (s <| sn_Signers := sn_Signers s ∖ {[ a ]} |>)).
  rewrite dropRecent_renum, discardAll_renum. done.
Qed.

Definition mapSnap (f : Snapshot -> Snapshot) (o : outcome (Snapshot + error)) : outcome (Snapshot + error) :=
  match o with Ret (inl s) => Ret (inl (f s)) | o => o end.

Lemma applyHeader_renum e n hh s h : applyHeader e (renum n hh s) h = mapSnap (renum n hh) (applyHeader e s h).
Proof.
  unfold applyHeader. destruct (e =? 0); [done|]. cbv zeta.
  set (s0 := if u64 (h_Number h) mod e =? 0 then _ else s).
  replace (if u64 (h_Number h) mod e =? 0 then _ else renum n hh s) with (renum n hh s0)
    by (unfold s0; by case_match). clearbody s0. rewrite dropRecent_renum. generalize (dropRecent s0 (u64 (h_Number h))).
  intros s1. destruct (clique_ecrecover h) as [[signer|er]|]; cbn [mbind outcome_bind]; [|done..].
  change (sn_Signers (renum n hh s1)) with (sn_Signers s1). case_bool_decide; [done|].
  change ((renum n hh s1) <| sn_Recents := _ |>)
    with (renum n hh (s1 <| sn_Recents := <[u64 (h_Number h) := signer]> (sn_Recents s1) |>)).
  rewrite discardVote_renum. generalize (discardVote (s1 <| sn_Recents := <[u64 (h_Number h) := signer]> (sn_Recents s1) |>)
    signer (h_Coinbase h)). intros s2. destruct (voteOf h) as [auth|]; [|done].
  unfold cast, validVote. change (sn_Signers (renum n hh s2)) with (sn_Signers s2).
  destruct (negb _); [cbn [mapSnap]; by rewrite settle_renum|].
  change (sn_Tally (renum n hh s2)) with (sn_Tally s2). cbn [mapSnap]. rewrite <- settle_renum. done.
Qed.

Lemma applyLoop_renum e n hh hs s : applyLoop e (renum n hh s) hs = mapSnap (renum n hh) (applyLoop e s hs).
Proof.
  revert s. induction hs as [|h hs IH]; intros s; [done|]. cbn [applyLoop]. rewrite applyHeader_renum.
  destruct (applyHeader e s h) as [[s'|er]|]; cbn; [apply IH|done|done].
Qed.

Lemma applyLoop_app e hs1 hs2 s : applyLoop e s (hs1 ++ hs2) =
  (r ← applyLoop e s hs1; match (r : Snapshot + error) with inr er => Ret (inr er) | inl s1 => applyLoop e s1 hs2 end).
Proof.
  revert s. induction hs1 as [|h hs IH]; intros s; [done|]. cbn [app applyLoop].
  destruct (applyHeader e s h) as [[s'|er]|]; cbn; [apply IH|done|done].
Qed.

Lemma contiguous_app n hs1 hs2 : is_u64 n ->
  contiguous n (hs1 ++ hs2) = contiguous n hs1 && contiguous (u64 (n + Z.of_nat (length hs1))) hs2.
Proof.
  revert n. induction hs1 as [|h hs IH]; intros n Hn; cbn [app contiguous length].
  - rewrite Z.add_0_r, u64_small by done. done.
  - destruct (Z.eqb_spec (u64 (h_Number h)) (u64 (n + 1))) as [E|]; [|done]. cbn [andb].
    rewrite IH by apply u64_range. f_equal. f_equal. rewrite E. unfold u64, two64. rewrite Zplus_mod_idemp_l.
    f_equal. lia.
Qed.

Lemma apply_cons e s h hs : apply e s (h :: hs) =
  if negb (contiguous (sn_Number s) (h :: hs)) then Ret (inr errInvalidVotingChain)
  else r ← applyLoop e s (h :: hs);
       match (r : Snapshot + error) with
       | inr er => Ret (inr er)
       | inl s' => Ret (inl (renum (u64 (sn_Number s' + Z.of_nat (length (h :: hs)))) (HeaderHash (default h (last (h :: hs)))) s'))
       end.
Proof. unfold apply. destruct (last (h :: hs)) eqn:E; [done|]. by apply last_None in E. Qed.

Lemma applyLoop_number e s hs s' : applyLoop e s hs = Ret (inl s') -> sn_Number s' = sn_Number s.
Proof.
  intros E. pose proof (applyLoop_renum e (sn_Number s) (sn_Hash s) hs s) as R.
  replace (renum (sn_Number s) (sn_Hash s) s) with s in R by by destruct s.
  rewrite E in R. cbn in R. injection R as ->. done.
Qed.

(** Applying headers in batches is applying them at once. *)
Lemma apply_app e s hs1 hs2 : is_u64 (sn_Number s) -> contiguous (sn_Number s) (hs1 ++ hs2) = true ->
  apply e s (hs1 ++ hs2) =
    (r ← apply e s hs1; match (r : Snapshot + error) with inr er => Ret (inr er) | inl s1 => apply e s1 hs2 end).
Proof.
  intros Hn Hc. destruct hs1 as [|h hs1]; [done|].
  pose proof Hc as Hc'. rewrite contiguous_app in Hc' by done. apply andb_prop in Hc' as [Hc1 Hc2].
  destruct hs2 as [|g hs2].
  { rewrite app_nil_r. destruct (apply e s (h :: hs1)) as [[s1|er]|]; done. }
  change ((h :: hs1) ++ g :: hs2) with (h :: (hs1 ++ g :: hs2)) in *. rewrite !apply_cons, Hc, Hc1. cbn [negb].
  change (h :: (hs1 ++ g :: hs2)) with ((h :: hs1) ++ g :: hs2). rewrite applyLoop_app.
  destruct (applyLoop e s (h :: hs1)) as [[s1|er]|] eqn:E1; [|done..]. apply applyLoop_number in E1.
  cbn [mbind outcome_bind]. rewrite apply_cons. change (sn_Number (renum ?n _ _)) with n. rewrite E1, Hc2. cbn [negb].
  rewrite applyLoop_renum. destruct (applyLoop e s1 (g :: hs2)) as [[s2|er]|] eqn:E2; [|done..].
  apply applyLoop_number in E2. cbn [mapSnap mbind outcome_bind]. do 2 f_equal.
  rewrite last_app_cons. change (sn_Number (renum ?n _ _)) with n. rewrite E2, E1.
  assert (u64 (sn_Number s + Z.of_nat (length ((h :: hs1) ++ g :: hs2))) =
    u64 (u64 (sn_Number s + Z.of_nat (length (h :: hs1))) + Z.of_nat (length (g :: hs2)))) as ->.
  { unfold u64. rewrite Zplus_mod_idemp_l, length_app. f_equal. lia. }
  destruct (last (g :: hs2)) eqn:E; [done|]. by apply last_None in E.
Qed.

End ApplyFacts.

(** ** In turn *)

Lemma offsetOf_lt a l : a ∈ l -> (offsetOf a l < length l)%nat /\ l !! offsetOf a l = Some a.
Proof.
  induction l as [|b l IH]; [by intros ?%elem_of_nil|]. intros Ha. cbn [offsetOf length].
  case_bool_decide as E; [split; [lia|by subst]|]. apply elem_of_cons in Ha as [->|Ha]; [done|].
  destruct (IH Ha). split; [lia|done].
Qed.

Lemma offsetOf_lookup l i a : NoDup l -> l !! i = Some a -> offsetOf a l = i.
Proof.
  intros Hnd Hi. destruct (offsetOf_lt a l) as [_ Ho]; [by eapply list_elem_of_lookup_2|].
  by eapply NoDup_lookup.
Qed.

Lemma elem_of_signers s a : a ∈ signers s <-> a ∈ sn_Signers s.
Proof. unfold signers. rewrite merge_sort_Permutation. apply elem_of_elements. Qed.

Lemma NoDup_signers s : NoDup (signers s).
Proof. unfold signers. rewrite merge_sort_Permutation. apply NoDup_elements. Qed.

(** ** Properties *)

Section SnapshotProperties.
Context `{Crypto}.

(** C30: applying headers to a snapshot without votes, such as the one of the
    genesis block, gives what a replay of their votes gives that recounts the
    votes at every header: the same signers, the same votes and a tally equal
    to the recount, or the same refusal of a header not signed by a signer. *)
Theorem apply_refines epoch number hash sigs hs bs : epoch <> 0 -> Forall2 casts hs bs ->
  contiguous number hs = true ->
  let s := newSnapshot number hash sigs in
  match replay epoch (list_to_set sigs, []) bs with
  | None => apply epoch s hs = Ret (inr errUnauthorizedSigner)
  | Some (G, V) => exists s', apply epoch s hs = Ret (inl s') /\ sn_Signers s' = G /\ sn_Votes s' = V /\
      forall a, sn_Tally s' !! a = recount G V a
  end.
Proof.
  intros He Hc Hn s. assert (snap_ok s) as Hs.
  { split; [split; [by intros v ?%elem_of_nil..|constructor]|done]. }
  pose proof (applyLoop_ok epoch hs bs s Hs He Hc) as Hl. unfold s in *. cbn [newSnapshot sn_Signers sn_Votes] in Hl.
  destruct hs as [|h hs].
  { apply Forall2_nil_inv_l in Hc as ->. eexists. split_and!; [done..|apply Hs]. }
  rewrite apply_cons. change (sn_Number (newSnapshot number hash sigs)) with number. rewrite Hn. cbn [negb].
  destruct (replay epoch (list_to_set sigs, []) bs) as [[G V]|]; [|by rewrite Hl].
  destruct Hl as (s' & -> & Hs' & <- & <- & _). cbn [mbind outcome_bind]. eexists. split_and!; [done..|apply Hs'].
Qed.

(** At every height exactly one of the signers is in turn; asked of a
    snapshot without signers, inturn divides by zero. *)
Theorem inturn_unique s n : 0 <= n ->
  if bool_decide (sn_Signers s = ∅) then forall a, inturn s n a = Panic
  else exists a, a ∈ sn_Signers s /\ forall b, b ∈ sn_Signers s -> inturn s n b = Ret (bool_decide (b = a)).
Proof.
  intros Hn. unfold inturn. case_bool_decide as He.
  - assert (signers s = []) as ->; [|done]. unfold signers. by rewrite He, elements_empty.
  - assert (signers s <> []) as Hne.
    { intros E. apply He, set_eq. intros a. rewrite <- elem_of_signers, E. set_solver. }
    rewrite bool_decide_eq_false_2 by done. set (l := signers s) in *.
    assert (0 < Z.of_nat (length l)) by (destruct l; [done|cbn [length]; lia]).
    pose proof (Z.mod_pos_bound n (Z.of_nat (length l))) as Hb.
    destruct (lookup_lt_is_Some_2 l (Z.to_nat (n mod Z.of_nat (length l)))) as [a Ha]; [lia|].
    exists a. split; [apply elem_of_signers; by eapply list_elem_of_lookup_2|].
    intros b Hb'%elem_of_signers. f_equal. destruct (offsetOf_lt b l Hb') as [Ho1 Ho2].
    pose proof (offsetOf_lookup l _ a (NoDup_signers s) Ha) as Ho.
    case_bool_decide as E; [subst b; apply Z.eqb_eq; lia|]. apply Z.eqb_neq. intros E'. apply E.
    rewrite E', Nat2Z.id in Ha. congruence.
Qed.

End SnapshotProperties.

(** ** Three signers *)

#[local] Existing Instance toyCrypto.

(** With the toy signatures the signer is the last byte of the seal. *)
Definition header_by (number signer coinbase : Z) (authorize : bool) : Header :=
  mkHeader 0 EmptyUncleHash coinbase 0 0 0 [] 2 number 8000000 0 number (replicate 95 0 ++ [signer; 0]) 0
    (if authorize then nonceAuthVote else nonceDropVote).

(** Two of the signers 1, 2 and 3 vote 4 in. *)
Lemma apply_refines_witness :
  exists s', apply 30000 (newSnapshot 0 0 [1; 2; 3]) [header_by 1 1 4 true; header_by 2 2 4 true] = Ret (inl s') /\
    sn_Signers s' = {[ 1; 2; 3; 4 ]}.
Proof.
  destruct (apply_refines 30000 0 0 [1; 2; 3] [header_by 1 1 4 true; header_by 2 2 4 true]
    [mkBallot 1 1 4 true; mkBallot 2 2 4 true]) as (s' & E & EG & _).
  - discriminate.
  - repeat constructor; vm_compute; reflexivity.
  - vm_compute. reflexivity.
  - exists s'. split; [exact E|]. rewrite EG. refine (bool_decide_unpack _ _). vm_compute. exact I.
Defined.

Lemma inturn_unique_witness :
  exists a, a ∈ sn_Signers (newSnapshot 0 0 [7; 5]) /\
    forall b, b ∈ sn_Signers (newSnapshot 0 0 [7; 5]) -> inturn (newSnapshot 0 0 [7; 5]) 1 b = Ret (bool_decide (b = a)).
Proof. apply (inturn_unique (newSnapshot 0 0 [7; 5]) 1). discriminate. Defined.
