(* ===== verification/CliqueEngine.v ===== *)
(** * The proof of authority engine (consensus/clique/clique.go,
    consensus/clique/api.go, consensus/misc/forks.go)

    Cascadeth keeps one chain per validator: a header is accepted when its
    signer is authorised and signed its parent too, unless that is the genesis
    block.  The model covers the verification of headers, the retrieval of
    snapshots through the cache and the disk, and the preparation and sealing
    of a header.

    The cache is a library ([ARC]): after an addition it holds the new entry
    and some of the old ones.  Whether a write to the database succeeds is a
    parameter, and so are the headers of the chain, the time, the random
    number and the signing function.  A stored snapshot is read back as it
    was written.  The search for a snapshot takes fuel; running out counts as
    a panic, so a theorem that it returns shows that the fuel is enough. *)

From S2P Require Import Prelude Rlp Params Transaction Block Clique CliqueSnapshot.

Class ARC := { evict : Hash -> gmap Hash Snapshot -> gmap Hash Snapshot }.
Class ARCLaws `{ARC} : Prop := {
  evict_sub k m : evict k m ⊆ m;
  evict_new k m : evict k m !! k = m !! k
}.

(** What the engine reads of the chain (consensus.ChainHeaderReader). *)
Record chainReader := mkChainReader {
  ch_Config : ChainConfig;
  GetHeader : Hash -> Z -> option Header;
  GetHeaderByNumber : Z -> option Header
}.

Record clique := mkClique {
  cl_config : CliqueConfig;
  cl_db : gmap Hash Snapshot;
  cl_recents : gmap Hash Snapshot;
  cl_proposals : gmap Address bool;
  cl_signer : Address
}.
#[export] Instance eta_clique : Eta clique := fun r =>
  mkClique (cl_config r) (cl_db r) (cl_recents r) (cl_proposals r) (cl_signer r).

Definition checkpointInterval : Z := 1024.
Definition epochLength : Z := 30000.
Definition extraVanity : nat := 32.
Definition diffInTurn : Z := 2.
Definition diffNoTurn : Z := 1.

(** New, over a database that may hold snapshots. *)
Definition newClique (config : CliqueConfig) (db : gmap Hash Snapshot) : clique :=
  let epoch := if Epoch config =? 0 then epochLength else Epoch config in
  mkClique (mkCliqueConfig (Period config) epoch) db ∅ ∅ 0.

Definition Authorize (c : clique) (signer : Address) : clique := c <| cl_signer := signer |>.

(** The proposals of the API. *)
Definition Propose (c : clique) (a : Address) (auth : bool) : clique :=
  c <| cl_proposals := <[a := auth]> (cl_proposals c) |>.
Definition Discard (c : clique) (a : Address) : clique := c <| cl_proposals := delete a (cl_proposals c) |>.

(** [b[lo:hi]] *)
Definition slice (b : bytes) (lo hi : Z) : outcome bytes :=
  if (0 <=? lo) && (lo <=? hi) && (hi <=? Z.of_nat (length b))
  then Ret (take (Z.to_nat (hi - lo)) (drop (Z.to_nat lo) b)) else Panic.

Section Engine.
Context `{Crypto} `{ARC}.
Context (putFails : Snapshot -> bool).

Definition store (c : clique) (s : Snapshot) : clique + error :=
  if putFails s then inr errDatabase else inl (c <| cl_db := <[sn_Hash s := s]> (cl_db c) |>).

(** The signers listed in a checkpoint header; a negative length panics. *)
Definition checkpointSigners (checkpoint : Header) : outcome (list Address) :=
  let n := Z.quot (Z.of_nat (length (h_Extra checkpoint)) - Z.of_nat extraVanity - Z.of_nat extraSeal)
             (Z.of_nat AddressLength) in
  if n <? 0 then Panic
  else Ret ((fun i => of_be (take AddressLength (drop (extraVanity + i * AddressLength) (h_Extra checkpoint))))
              <$> seq 0 (Z.to_nat n)).

(** Whether the search may start from the header of block [number]. *)
Definition trusted (c : clique) (chain : chainReader) (number : Z) (gathered : nat) : outcome bool :=
  if number =? 0 then Ret true
  else if Epoch (cl_config c) =? 0 then Panic
  else Ret ((number mod Epoch (cl_config c) =? 0) &&
            (bool_decide (FullImmutabilityThreshold < gathered)%nat ||
             bool_decide (GetHeaderByNumber chain (u64 (number - 1)) = None))).

(** The snapshot at [hash], the snapshot to start from if there is one. *)
Definition findSnapshot (c : clique) (chain : chainReader) (number : Z) (hash : Hash) (gathered : nat)
  : outcome (clique * (option Snapshot + error)) :=
  match cl_recents c !! hash with
  | Some s => Ret (c, inl (Some s))
  | None =>
      match (if number mod checkpointInterval =? 0 then cl_db c !! hash else None) with
      | Some s => Ret (c, inl (Some s))
      | None =>
          start ← trusted c chain number gathered;
          match (if (start : bool) then GetHeaderByNumber chain number else None) with
          | None => Ret (c, inl None)
          | Some checkpoint =>
              sigs ← checkpointSigners checkpoint;
              let snap := newSnapshot number (HeaderHash checkpoint) sigs in
              match store c snap with
              | inr e => Ret (c, inr e)
              | inl c => Ret (c, inl (Some snap))
              end
          end
      end
  end.

(** The header of block [number], from the given parents first. *)
Definition nextHeader (chain : chainReader) (number : Z) (hash : Hash) (parents : list Header)
  : (Header * list Header) + error :=
  match last parents with
  | Some h =>
      if bool_decide (HeaderHash h <> hash) || negb (u64 (h_Number h) =? number) then inr ErrUnknownAncestor
      else inl (h, take (length parents - 1) parents)
  | None =>
      match GetHeader chain hash number with
      | None => inr ErrUnknownAncestor
      | Some h => inl (h, [])
      end
  end.

(** The loop of snapshot; [headers] are the headers gathered, newest last. *)
Fixpoint gather (fuel : nat) (c : clique) (chain : chainReader) (number : Z) (hash : Hash)
    (parents headers : list Header) : outcome (clique * ((Snapshot * list Header) + error)) :=
  match fuel with
  | O => Panic
  | S fuel =>
      '(c, r) ← findSnapshot c chain number hash (length headers);
      match (r : option Snapshot + error) with
      | inr e => Ret (c, inr e)
      | inl (Some s) => Ret (c, inl (s, headers))
      | inl None =>
          match nextHeader chain number hash parents with
          | inr e => Ret (c, inr e)
          | inl (h, parents) =>
              gather fuel c chain (u64 (number - 1)) (h_ParentHash h) parents (headers ++ [h])
          end
      end
  end.

Definition snapshot (fuel : nat) (c : clique) (chain : chainReader) (number : Z) (hash : Hash)
    (parents : list Header) : outcome (clique * (Snapshot + error)) :=
  '(c, r) ← gather fuel c chain number hash parents [];
  match (r : (Snapshot * list Header) + error) with
  | inr e => Ret (c, inr e)
  | inl (s, headers) =>
      r ← apply (Epoch (cl_config c)) s (rev headers);
      match (r : Snapshot + error) with
      | inr e => Ret (c, inr e)
      | inl s =>
          let c := c <| cl_recents := evict (sn_Hash s) (<[sn_Hash s := s]> (cl_recents c)) |> in
          if (sn_Number s mod checkpointInterval =? 0) && bool_decide (headers <> []) then
            match store c s with
            | inr e => Ret (c, inr e)
            | inl c => Ret (c, inl s)
            end
          else Ret (c, inl s)
      end
  end.

(** ** Verification *)

Definition VerifyForkHashes (cc : ChainConfig) (h : Header) (uncle : bool) : option error :=
  if uncle then None
  else if bool_decide (EIP150Block cc = Some (h_Number h)) && negb (EIP150Hash cc =? 0)
          && negb (EIP150Hash cc =? HeaderHash h) then Some errForkHash
  else None.

Definition verifySeal (fuel : nat) (c : clique) (chain : chainReader) (header : Header) (parents : list Header)
    (parent : Header) : outcome (clique * option error) :=
  let number := u64 (h_Number header) in
  if number =? 0 then Ret (c, Some errUnknownBlock)
  else
    '(c, r) ← snapshot fuel c chain (u64 (number - 1)) (h_ParentHash header) parents;
    match (r : Snapshot + error) with
    | inr e => Ret (c, Some e)
    | inl snap =>
        r ← clique_ecrecover header;
        match (r : Address + error) with
        | inr e => Ret (c, Some e)
        | inl signer =>
            if bool_decide (signer ∉ sn_Signers snap) then Ret (c, Some errUnauthorizedSigner)
            else if u64 (h_Number parent) =? 0 then Ret (c, None)
            else
              r ← clique_ecrecover parent;
              match (r : Address + error) with
              | inr e => Ret (c, Some e)
              | inl signerParent =>
                  if signerParent =? signer then Ret (c, None) else Ret (c, Some errWrongValidatorSigned)
              end
        end
    end.

(** The extra data of a checkpoint: the signers in ascending order. *)
Definition signersBytes (s : Snapshot) : bytes := concat ((fun a => be_bytes AddressLength a) <$> signers s).

Definition verifyCascadingFields (fuel : nat) (c : clique) (chain : chainReader) (header : Header)
    (parents : list Header) : outcome (clique * option error) :=
  let number := u64 (h_Number header) in
  if number =? 0 then Ret (c, None)
  else
    match (match last parents with Some p => Some p | None => GetHeader chain (h_ParentHash header) (u64 (number - 1)) end) with
    | None => Ret (c, Some ErrUnknownAncestor)
    | Some parent =>
        if negb (u64 (h_Number parent) =? u64 (number - 1)) || negb (HeaderHash parent =? h_ParentHash header)
        then Ret (c, Some ErrUnknownAncestor)
        else if h_Time header <? u64 (h_Time parent + Period (cl_config c)) then Ret (c, Some errInvalidTimestamp)
        else
          '(c, r) ← snapshot fuel c chain (u64 (number - 1)) (h_ParentHash header) parents;
          match (r : Snapshot + error) with
          | inr e => Ret (c, Some e)
          | inl snap =>
              if Epoch (cl_config c) =? 0 then Panic
              else if number mod Epoch (cl_config c) =? 0 then
                b ← slice (h_Extra header) (Z.of_nat extraVanity) (Z.of_nat (length (h_Extra header)) - Z.of_nat extraSeal);
                if bool_decide (b = signersBytes snap) then verifySeal fuel c chain header parents parent
                else Ret (c, Some errMismatchingCheckpointSigners)
              else verifySeal fuel c chain header parents parent
          end
    end.

(** The checks of verifyHeader that need no other header. *)
Definition verifyAlone (now : Z) (c : clique) (chain : chainReader) (header : Header) : outcome (option error) :=
  let number := u64 (h_Number header) in
  if now <? h_Time header then Ret (Some ErrFutureBlock)
  else if Epoch (cl_config c) =? 0 then Panic
  else
    let checkpoint := number mod Epoch (cl_config c) =? 0 in
    let len := length (h_Extra header) in
    Ret
      (if checkpoint && negb (h_Coinbase header =? 0) then Some errInvalidCheckpointBeneficiary
       else if bool_decide (h_Nonce header <> nonceAuthVote) && bool_decide (h_Nonce header <> nonceDropVote)
       then Some errInvalidVote
       else if checkpoint && bool_decide (h_Nonce header <> nonceDropVote) then Some errInvalidCheckpointVote
       else if bool_decide (len < extraVanity)%nat then Some errMissingVanity
       else if bool_decide (len < extraVanity + extraSeal)%nat then Some errMissingSignature
       else if negb checkpoint && bool_decide (len - extraVanity - extraSeal <> 0)%nat then Some errExtraSigners
       else if checkpoint && bool_decide ((len - extraVanity - extraSeal) mod AddressLength <> 0)%nat
       then Some errInvalidCheckpointSigners
       else if negb (h_MixDigest header =? 0) then Some errInvalidMixDigest
       else if negb (h_UncleHash header =? EmptyUncleHash) then Some errInvalidUncleHash
       else if (0 <? number) && negb (h_Difficulty header =? diffInTurn) && negb (h_Difficulty header =? diffNoTurn)
       then Some errInvalidDifficulty
       else VerifyForkHashes (ch_Config chain) header false).

Definition verifyHeader (fuel : nat) (now : Z) (c : clique) (chain : chainReader) (header : Header)
    (parents : list Header) : outcome (clique * option error) :=
  r ← verifyAlone now c chain header;
  match (r : option error) with
  | Some e => Ret (c, Some e)
  | None => verifyCascadingFields fuel c chain header parents
  end.

(** VerifyHeaders: the results in the order of the headers; each header has
    the ones before it as parents. *)
Fixpoint verifyLoop (fuel : nat) (now : Z) (c : clique) (chain : chainReader) (parents headers : list Header)
  : outcome (clique * list (option error)) :=
  match headers with
  | [] => Ret (c, [])
  | h :: headers =>
      '(c, e) ← verifyHeader fuel now c chain h parents;
      '(c, es) ← verifyLoop fuel now c chain (parents ++ [h]) headers;
      Ret (c, e :: es)
  end.
Definition VerifyHeaders (fuel : nat) (now : Z) (c : clique) (chain : chainReader) (headers : list Header) :=
  verifyLoop fuel now c chain [] headers.

Definition VerifyUncles (b : Block) : option error :=
  if bool_decide (b_uncles b = []) then None else Some errUncles.

(** ** Preparing and sealing *)

Definition calcDifficulty (s : Snapshot) (signer : Address) : outcome Z :=
  t ← inturn s (u64 (sn_Number s + 1)) signer;
  Ret (if (t : bool) then diffInTurn else diffNoTurn).

(** The vote of a block that is not a checkpoint: a proposal that makes
    sense, [r] being the random number. *)
Definition chooseVote (c : clique) (snap : Snapshot) (r : nat) (header : Header) : Header :=
  let addrs := filter (fun a => exists auth, cl_proposals c !! a = Some auth /\ validVote snap a auth = true)
                 (map_to_list (cl_proposals c)).*1 in
  match addrs !! (r mod length addrs)%nat with
  | None => header
  | Some a => header <| h_Coinbase := a |>
                     <| h_Nonce := if default false (cl_proposals c !! a) then nonceAuthVote else nonceDropVote |>
  end.

Definition Prepare (fuel : nat) (now : Z) (r : nat) (c : clique) (chain : chainReader) (header : Header)
  : outcome (clique * Header * option error) :=
  let header := header <| h_Coinbase := 0 |> <| h_Nonce := replicate 8 0 |> in
  let number := u64 (h_Number header) in
  '(c, res) ← snapshot fuel c chain (u64 (number - 1)) (h_ParentHash header) [];
  match (res : Snapshot + error) with
  | inr e => Ret (c, header, Some e)
  | inl snap =>
      if Epoch (cl_config c) =? 0 then Panic else
      let checkpoint := number mod Epoch (cl_config c) =? 0 in
      let header := if checkpoint then header else chooseVote c snap r header in
      d ← calcDifficulty snap (cl_signer c);
      let vanity := take extraVanity (h_Extra header ++ replicate (extraVanity - length (h_Extra header)) 0) in
      let header := header <| h_Difficulty := d |>
                           <| h_Extra := vanity ++ (if checkpoint then signersBytes snap else []) ++ replicate extraSeal 0 |>
                           <| h_MixDigest := 0 |> in
      match GetHeader chain (h_ParentHash header) (u64 (number - 1)) with
      | None => Ret (c, header, Some ErrUnknownAncestor)
      | Some parent =>
          let time := u64 (h_Time parent + Period (cl_config c)) in
          Ret (c, header <| h_Time := if time <? now then now else time |>, None)
      end
  end.

(** Seal returns the sealed block, [None] when it pauses, or an error; the
    block is handed over after the delay. *)
Definition Seal (fuel : nat) (c : clique) (chain : chainReader) (signFn : Address -> bytes -> bytes + error)
    (block : Block) : outcome (clique * (option Block + error)) :=
  let header := b_header block in
  let number := u64 (h_Number header) in
  if number =? 0 then Ret (c, inr errUnknownBlock)
  else if (Period (cl_config c) =? 0) && bool_decide (b_transactions block = []) then Ret (c, inl None)
  else
    '(c, res) ← snapshot fuel c chain (u64 (number - 1)) (h_ParentHash header) [];
    match (res : Snapshot + error) with
    | inr e => Ret (c, inr e)
    | inl snap =>
        if bool_decide (cl_signer c ∉ sn_Signers snap) then Ret (c, inr errUnauthorizedSigner)
        else if decide (length (h_Extra header) < extraSeal)%nat then Panic
        else
          match EncodeToBytes (rlpSigHeader header) with
          | None => Panic
          | Some message =>
              match signFn (cl_signer c) message with
              | inr e => Ret (c, inr e)
              | inl sighash =>
                  let keep := take (length (h_Extra header) - extraSeal) (h_Extra header) in
                  let old := drop (length (h_Extra header) - extraSeal) (h_Extra header) in
                  let seal := take extraSeal sighash ++ drop (length sighash) old in
                  Ret (c, inl (Some (mkBlock (header <| h_Extra := keep ++ seal |>) (b_uncles block) (b_transactions block))))
              end
          end
    end.

End Engine.
