(* ===== verification/CliqueFacts.v ===== *)
(** * The validators of accepted headers

    [snapshot_authentic]: whatever the cache and the disk hold, a snapshot is
    the one of a trusted header with a chain of headers applied to it.
    [validators_fixed]: Cascadeth requires a validator to build on its own
    blocks, so all votes of a chain are by one signer and never pass: as long
    as the genesis block lists at least two signers, every accepted header is
    signed by one of them, who also signed its parent.
    [sealed_verifies]: what Prepare and Seal make, verifyHeader accepts. *)

From S2P Require Import Prelude Rlp Params Transaction Block Clique CliqueSnapshot CliqueEngine.

Section Authentic.
Context `{Crypto} `{!ARC} `{!ARCLaws}.
Context (putFails : Snapshot -> bool) (chain : chainReader) (epoch : Z).

(** What is known of every header the engine applied. *)
Context (P : Header -> Prop).

(** Each header names the one before as its parent. *)
Inductive chained : list Header -> Prop :=
| chained_nil : chained []
| chained_one h : chained [h]
| chained_cons h g hs : h_ParentHash g = HeaderHash h -> chained (g :: hs) -> chained (h :: g :: hs).

(** A snapshot taken from a header the engine may start from. *)
Definition rooted (number : Z) (cp : Header) (sigs : list Address) : Prop :=
  is_u64 number /\ GetHeaderByNumber chain number = Some cp /\ checkpointSigners cp = Ret sigs /\
  (number = 0 \/ number mod epoch = 0).

Definition authentic (s : Snapshot) : Prop :=
  exists number cp sigs hs, rooted number cp sigs /\ chained hs /\ Forall P hs /\
    apply epoch (newSnapshot number (HeaderHash cp) sigs) hs = Ret (inl s).

Definition ends (hash : Hash) (hs : list Header) : Prop := forall h, last hs = Some h -> HeaderHash h = hash.

(** The same, of a snapshot asked for at block [number] with [hash]. *)
Definition authentic_at (number : Z) (hash : Hash) (s : Snapshot) : Prop :=
  exists n cp sigs hs, rooted n cp sigs /\ chained hs /\ Forall P hs /\
    apply epoch (newSnapshot n (HeaderHash cp) sigs) hs = Ret (inl s) /\ ends hash hs /\
    (hs = [] -> HeaderHash cp = hash \/ GetHeaderByNumber chain number = Some cp).

Record coherent (c : clique) : Prop := {
  co_epoch : Epoch (cl_config c) = epoch;
  co_recents h s : cl_recents c !! h = Some s -> sn_Hash s = h /\ authentic s;
  co_db h s : cl_db c !! h = Some s -> sn_Hash s = h /\ authentic s
}.

(** The chain hands out headers under their hash and number. *)
Record chain_ok : Prop := {
  cho_header hash n h : GetHeader chain hash n = Some h ->
    HeaderHash h = hash /\ u64 (h_Number h) = n /\ (n <> 0 -> P h);
  cho_genesis : is_Some (GetHeaderByNumber chain 0)
}.

Lemma chained_app hs1 hs2 : chained hs1 -> chained hs2 ->
  (forall h g, last hs1 = Some h -> head hs2 = Some g -> h_ParentHash g = HeaderHash h) -> chained (hs1 ++ hs2).
Proof.
  induction 1 as [|h|h g hs Hl Hc IH]; intros H2 Hlink; [done| |].
  - destruct hs2 as [|g hs2]; [constructor|]. constructor; [by apply Hlink|done].
  - cbn [app]. constructor; [done|]. apply IH; [done|]. intros h' g' E. apply Hlink. by rewrite last_cons_cons.
Qed.

Lemma apply_inv s hs s' : apply epoch s hs = Ret (inl s') -> is_u64 (sn_Number s) ->
  contiguous (sn_Number s) hs = true /\ sn_Number s' = u64 (sn_Number s + Z.of_nat (length hs)) /\
  sn_Hash s' = match last hs with Some h => HeaderHash h | None => sn_Hash s end.
Proof.
  intros E Hn. destruct hs as [|h hs].
  { injection E as <-. split_and!; [done| |done]. cbn [length]. by rewrite Z.add_0_r, u64_small. }
  rewrite apply_cons in E. destruct (contiguous (sn_Number s) (h :: hs)); [|done]. cbn [negb] in E.
  destruct (applyLoop epoch s (h :: hs)) as [[s1|]|] eqn:E1; cbn [mbind outcome_bind] in E; [|done..].
  injection E as <-. apply applyLoop_number in E1. change (sn_Number (renum ?n _ _)) with n.
  change (sn_Hash (renum _ ?h _)) with h. rewrite E1. split_and!; [done..|].
  destruct (last (h :: hs)) eqn:El; [done|]. by apply last_None in El.
Qed.

Lemma apply_trans s hs1 s1 hs2 s2 : is_u64 (sn_Number s) -> apply epoch s hs1 = Ret (inl s1) ->
  apply epoch s1 hs2 = Ret (inl s2) -> apply epoch s (hs1 ++ hs2) = Ret (inl s2).
Proof.
  intros Hn E1 E2. destruct (apply_inv _ _ _ E1 Hn) as (C1 & N1 & _).
  destruct (apply_inv _ _ _ E2) as (C2 & _); [rewrite N1; apply u64_range|].
  rewrite apply_app; [by rewrite E1|done|]. by rewrite contiguous_app, C1, <- N1, C2.
Qed.

Lemma store_coherent c s c' : store putFails c s = inl c' -> coherent c -> authentic s -> coherent c'.
Proof.
  unfold store. destruct (putFails s); [done|]. intros [= <-] [He Hr Hd] Hs. split; [done|done|].
  intros h t. cbn. rewrite lookup_insert_Some. intros [[<- <-]|[_ ?]]; [done|by apply Hd].
Qed.

Lemma findSnapshot_sound c number hash k c' r : coherent c -> is_u64 number ->
  findSnapshot putFails c chain number hash k = Ret (c', r) ->
  coherent c' /\ forall s, r = inl (Some s) -> authentic_at number hash s.
Proof.
  intros Hc Hn. assert (forall s, sn_Hash s = hash -> authentic s -> authentic_at number hash s) as Hat.
  { intros s Hs (n & cp & sigs & hs & Hr & ? & ? & E). destruct (apply_inv _ _ _ E) as (_ & _ & E1); [apply Hr|].
    exists n, cp, sigs, hs. split_and!; [done..| |].
    - intros h Hh. rewrite Hh in E1. congruence.
    - intros ->. left. cbn in E1. congruence. } unfold findSnapshot. destruct (cl_recents c !! hash) as [s|] eqn:Er.
  { intros [= <- <-]. split; [done|]. intros s' [= <-]. destruct (co_recents _ Hc _ _ Er). by apply Hat. }
  destruct (if number mod checkpointInterval =? 0 then _ else _) as [s|] eqn:Ed.
  { intros [= <- <-]. split; [done|]. intros s' [= <-]. destruct (number mod checkpointInterval =? 0); [|done].
    destruct (co_db _ Hc _ _ Ed). by apply Hat. }
  destruct (trusted c chain number k) as [start|] eqn:Et; [|done]. cbn [mbind outcome_bind].
  destruct (if start then _ else _) as [cp|] eqn:Ecp; [|by intros [= <- <-]].
  destruct start; [|done]. destruct (checkpointSigners cp) as [sigs|] eqn:Es; [|done]. cbn [mbind outcome_bind].
  assert (rooted number cp sigs) as Hroot.
  { split_and!; [done..|]. unfold trusted in Et. destruct (Z.eqb_spec number 0); [by left|]. right.
    rewrite (co_epoch _ Hc) in Et. destruct (epoch =? 0); [done|]. injection Et as Et.
    apply andb_prop in Et as [Et _]. by apply Z.eqb_eq. }
  destruct (store putFails c _) as [c1|e] eqn:Est; intros [= <- <-]; [|done]. split.
  - eapply store_coherent; [done|done|]. exists number, cp, sigs, []. split_and!; [done|constructor|constructor|done].
  - intros s' [= <-]. exists number, cp, sigs, []. split_and!; [done|constructor|constructor|done|done|by right].
Qed.

Lemma nextHeader_sound number hash parents h parents' : chain_ok -> number <> 0 -> Forall P parents ->
  nextHeader chain number hash parents = inl (h, parents') ->
  HeaderHash h = hash /\ u64 (h_Number h) = number /\ P h /\ Forall P parents'.
Proof.
  intros Hch Hn Hp. unfold nextHeader. destruct (last parents) as [p|] eqn:El.
  - case_bool_decide as E1; [done|]. destruct (Z.eqb_spec (u64 (h_Number p)) number); [|done].
    intros [= <- <-]. split_and!; [by destruct (decide (HeaderHash p = hash))|done| |by apply Forall_take].
    rewrite Forall_forall in Hp. by apply Hp, last_Some_elem_of.
  - destruct (GetHeader chain hash number) as [g|] eqn:Eg; [|done]. intros [= <- <-].
    destruct (cho_header Hch _ _ _ Eg) as (? & ? & ?). split_and!; auto.
Qed.

(** The headers gathered, oldest first, lead from [hash] to [target]. *)
Record leads (number : Z) (hash : Hash) (tnumber : Z) (target : Hash) (hs : list Header) : Prop := {
  le_chained : chained hs;
  le_all : Forall P hs;
  le_head h : head hs = Some h -> h_ParentHash h = hash;
  le_last : ends target hs;
  le_none : hs = [] -> hash = target /\ number = tnumber
}.

Lemma leads_cons h n n' tn target hs : P h -> leads n (HeaderHash h) tn target hs ->
  leads n' (h_ParentHash h) tn target (h :: hs).
Proof.
  intros Hh [Hc Hp Hl Ht Hn]. split; [|by constructor|by intros ? [= <-]| |done].
  - destruct hs as [|g hs]; [constructor|]. constructor; [by apply Hl|done].
  - destruct hs as [|g hs]; [intros ? [= <-]; by apply Hn|]. intros x. rewrite last_cons_cons. apply Ht.
Qed.

Lemma findSnapshot_genesis c hash k c' r : chain_ok -> findSnapshot putFails c chain 0 hash k = Ret (c', r) ->
  r <> inl None.
Proof.
  intros [_ [g Hg]]. unfold findSnapshot. destruct (cl_recents c !! hash); [by intros [= <- <-]|].
  destruct (if 0 mod checkpointInterval =? 0 then cl_db c !! hash else None); [by intros [= <- <-]|]. cbn [trusted Z.eqb mbind outcome_bind]. rewrite Hg.
  destruct (checkpointSigners g); [|done]. cbn [mbind outcome_bind]. destruct (store _ _ _); by intros [= <- <-].
Qed.

Lemma gather_sound fuel tn target c number hash parents headers c' r : chain_ok -> coherent c -> is_u64 number ->
  Forall P parents -> leads number hash tn target (rev headers) ->
  gather putFails fuel c chain number hash parents headers = Ret (c', r) ->
  coherent c' /\ forall s hs, r = inl (s, hs) -> exists n cp sigs hs0, rooted n cp sigs /\
    chained (hs0 ++ rev hs) /\ Forall P (hs0 ++ rev hs) /\
    apply epoch (newSnapshot n (HeaderHash cp) sigs) hs0 = Ret (inl s) /\ ends target (hs0 ++ rev hs) /\
    (hs0 ++ rev hs = [] -> HeaderHash cp = target \/ GetHeaderByNumber chain tn = Some cp).
Proof.
  intros Hch. revert c number hash parents headers.
  induction fuel as [|fuel IH]; intros c number hash parents headers Hc Hn Hp Ha; [done|]. cbn [gather].
  destruct (findSnapshot putFails c chain number hash (length headers)) as [[c1 r1]|] eqn:Ef; [|done].
  cbn [mbind outcome_bind]. destruct (findSnapshot_sound _ _ _ _ _ _ Hc Hn Ef) as [Hc1 Hs].
  destruct r1 as [[s|]|e]; [|..].
  - intros [= <- <-]. split; [done|]. intros s' hs [= <- <-].
    destruct (Hs s eq_refl) as (n & cp & sigs & hs0 & Hr & Hc0 & Hp0 & E0 & Hlast & Hroot).
    destruct Ha as [Hca Hpa Hla Hta Hna]. exists n, cp, sigs, hs0. split_and!; [done| |by apply Forall_app|done| |].
    + apply chained_app; [done..|]. intros h g Hh Hg. rewrite (Hla _ Hg). symmetry. by apply Hlast.
    + intros h. rewrite last_app. destruct (last (rev headers)) as [g|] eqn:El; [intros [= <-]; by apply Hta|].
      apply last_None in El. destruct (Hna El) as [<- _]. apply Hlast.
    + intros [-> El]%app_nil. destruct (Hna El) as [<- <-]. by apply Hroot.
  - destruct (decide (number = 0)) as [->|Hn0]; [by apply findSnapshot_genesis in Ef|].
    destruct (nextHeader chain number hash parents) as [[h parents']|e] eqn:En; [|by intros [= <- <-]].
    destruct (nextHeader_sound _ _ _ _ _ Hch Hn0 Hp En) as (Hh & _ & HP & Hp'). intros E.
    apply (IH c1 (u64 (number - 1)) (h_ParentHash h) parents' (headers ++ [h])); [done|apply u64_range|done| |done].
    rewrite rev_app_distr. cbn [rev app]. eapply leads_cons; [done|]. by rewrite Hh.
  - by intros [= <- <-].
Qed.

Lemma snapshot_sound fuel c number hash parents c' r : chain_ok -> coherent c -> is_u64 number -> Forall P parents ->
  snapshot putFails fuel c chain number hash parents = Ret (c', r) ->
  coherent c' /\ forall s, r = inl s -> authentic_at number hash s.
Proof.
  intros Hch Hc Hn Hp. unfold snapshot.
  destruct (gather putFails fuel c chain number hash parents []) as [[c1 r1]|] eqn:Eg; [|done]. cbn [mbind outcome_bind].
  assert (leads number hash number hash (rev [])) as Ha by (split; [constructor|constructor|done..]).
  destruct (gather_sound _ _ _ _ _ _ _ _ _ _ Hch Hc Hn Hp Ha Eg) as [Hc1 Hs].
  destruct r1 as [[s hs]|e]; [|by intros [= <- <-]]. destruct (Hs s hs eq_refl) as (n & cp & sigs & hs0 & Hr & Hc0 & Hp0 & E0 & Hend & Hroot).
  rewrite (co_epoch _ Hc1). destruct (apply epoch s (rev hs)) as [[s'|e]|] eqn:Ea; cbn [mbind outcome_bind];
    [|by intros [= <- <-]|done].
  assert (apply epoch (newSnapshot n (HeaderHash cp) sigs) (hs0 ++ rev hs) = Ret (inl s')) as E'
    by (by eapply apply_trans; [apply Hr|..]).
  assert (authentic s') as Hs' by by exists n, cp, sigs, (hs0 ++ rev hs).
  assert (authentic_at number hash s') as Hat by by exists n, cp, sigs, (hs0 ++ rev hs).
  set (c2 := c1 <| cl_recents := _ |>). assert (coherent c2) as Hc2.
  { destruct Hc1 as [He1 Hr1 Hd1]. split; [done| |done]. intros h t Ht.
    eapply lookup_weaken in Ht; [|apply evict_sub]. apply lookup_insert_Some in Ht as [[<- <-]|[_ Ht]]; [done|by apply Hr1]. }
  clearbody c2. destruct (_ && _); [|intros [= <- <-]; split; [done|]; by intros ? [= <-]].
  destruct (store putFails c2 s') as [c3|e] eqn:Es; intros [= <- <-]; (split; [|by intros ? [= <-]]); [|done].
  by eapply store_coherent.
Qed.

(** ** The search returns *)

(** Headers whose integers can be encoded, and checkpoints long enough for
    their signature. *)
Definition encodable (h : Header) : Prop := 0 <= h_Difficulty h /\ 0 <= h_Number h.

Lemma ecrecover_total h : encodable h -> exists r, clique_ecrecover h = Ret r.
Proof.
  intros [Hd Hn]. unfold clique_ecrecover. case_decide as Hx; [by eexists|]. unfold SealHash. rewrite decide_False by done.
  assert (is_Some (EncodeToBytes (rlpSigHeader h))) as [b ->].
  { unfold EncodeToBytes. apply fmap_is_Some, writeValue_some. by cbn. }
  cbn [mbind outcome_bind]. case_match; by eexists.
Qed.

Lemma applyLoop_total hs s : epoch <> 0 -> Forall encodable hs -> exists r, applyLoop epoch s hs = Ret r.
Proof.
  intros He Hhs. revert s. induction Hhs as [|h hs Hh _ IH]; intros s; [by eexists|]. cbn [applyLoop]. unfold applyHeader.
  rewrite (proj2 (Z.eqb_neq _ _) He). cbv zeta. destruct (ecrecover_total h Hh) as [[v|e] ->]; cbn [mbind outcome_bind]; [|by eexists].
  case_bool_decide; [by eexists|]. destruct (voteOf h); [|by eexists]. destruct (cast _ _ _). apply IH.
Qed.

Lemma apply_total hs s : epoch <> 0 -> Forall encodable hs -> exists r, apply epoch s hs = Ret r.
Proof.
  intros He Hhs. destruct hs as [|h hs]; [by eexists|]. rewrite apply_cons. destruct (negb _); [by eexists|].
  destruct (applyLoop_total (h :: hs) s He Hhs) as [[s'|e] ->]; by eexists.
Qed.

Lemma checkpointSigners_total cp : (extraVanity + extraSeal <= length (h_Extra cp))%nat ->
  exists sigs, checkpointSigners cp = Ret sigs.
Proof.
  intros Hl. unfold checkpointSigners. destruct (Z.ltb_spec (Z.quot (Z.of_nat (length (h_Extra cp)) - Z.of_nat extraVanity -
    Z.of_nat extraSeal) (Z.of_nat AddressLength)) 0) as [Hq|]; [|by eexists].
  pose proof (Z.quot_pos (Z.of_nat (length (h_Extra cp)) - Z.of_nat extraVanity - Z.of_nat extraSeal) (Z.of_nat AddressLength)).
  unfold AddressLength in *. lia.
Qed.

Lemma findSnapshot_total c number hash k : epoch <> 0 -> coherent c ->
  (forall n cp, GetHeaderByNumber chain n = Some cp -> (extraVanity + extraSeal <= length (h_Extra cp))%nat) ->
  exists r, findSnapshot putFails c chain number hash k = Ret r.
Proof.
  intros He Hc Hcp. unfold findSnapshot. destruct (cl_recents c !! hash); [by eexists|].
  destruct (if number mod checkpointInterval =? 0 then cl_db c !! hash else None); [by eexists|].
  unfold trusted. rewrite (co_epoch _ Hc), (proj2 (Z.eqb_neq _ _) He).
  assert (forall b : bool, exists r, match (if b then GetHeaderByNumber chain number else None) with
    | None => Ret (c, inl None)
    | Some checkpoint => sigs ← checkpointSigners checkpoint;
        let snap := newSnapshot number (HeaderHash checkpoint) sigs in
        match store putFails c snap with inr e => Ret (c, inr e) | inl c => Ret (c, inl (Some snap)) end
    end = Ret r) as Hb.
  { intros b. destruct (if b then _ else _) as [cp|] eqn:Ecp; [|by eexists]. destruct b; [|done].
    destruct (checkpointSigners_total cp (Hcp _ _ Ecp)) as [sigs ->]. cbn [mbind outcome_bind]. cbv zeta.
    destruct (store _ _ _); by eexists. }
  destruct (number =? 0); cbn [mbind outcome_bind]; [exact (Hb true)|exact (Hb (_ && _))].
Qed.

Lemma gather_total fuel c number hash parents headers : chain_ok -> epoch <> 0 -> coherent c ->
  (forall n cp, GetHeaderByNumber chain n = Some cp -> (extraVanity + extraSeal <= length (h_Extra cp))%nat) ->
  is_u64 number -> number < Z.of_nat fuel -> exists r, gather putFails fuel c chain number hash parents headers = Ret r.
Proof.
  intros Hch He Hc Hcp. revert c Hc number hash parents headers.
  induction fuel as [|fuel IH]; intros c Hc number hash parents headers Hn Hf; [unfold is_u64 in Hn; lia|]. cbn [gather].
  destruct (findSnapshot_total c number hash (length headers) He Hc Hcp) as [[c1 r] Ef]. rewrite Ef. cbn [mbind outcome_bind].
  destruct (findSnapshot_sound _ _ _ _ _ _ Hc Hn Ef) as [Hc1 _]. destruct r as [[s|]|e]; [by eexists| |by eexists].
  destruct (decide (number = 0)) as [->|Hn0]; [by apply findSnapshot_genesis in Ef|].
  destruct (nextHeader chain number hash parents) as [[h ps]|e]; [|by eexists].
  assert (is_u64 (number - 1)) by (unfold is_u64 in *; lia). apply IH; [done|apply u64_range|rewrite u64_small by done; lia].
Qed.

(** ** What acceptance means *)

(** The header a header is verified against. *)
Definition parentFor (header : Header) (parents : list Header) : option Header :=
  match last parents with
  | Some p => Some p
  | None => GetHeader chain (h_ParentHash header) (u64 (u64 (h_Number header) - 1))
  end.

Lemma verifySeal_inv fuel c header parents parent c' e : chain_ok -> coherent c -> Forall P parents ->
  verifySeal putFails fuel c chain header parents parent = Ret (c', e) ->
  coherent c' /\ (e = None -> exists v s, clique_ecrecover header = Ret (inl v) /\
    authentic_at (u64 (u64 (h_Number header) - 1)) (h_ParentHash header) s /\ v ∈ sn_Signers s /\
    (u64 (h_Number parent) <> 0 -> clique_ecrecover parent = Ret (inl v))).
Proof.
  intros Hch Hc Hp. unfold verifySeal. destruct (u64 (h_Number header) =? 0); [by intros [= <- <-]|].
  destruct (snapshot _ _ _ _ _ _ _) as [[c1 r]|] eqn:Es; [|done]. cbn [mbind outcome_bind].
  destruct (snapshot_sound _ _ _ _ _ _ _ Hch Hc (u64_range _) Hp Es) as [Hc1 Hs].
  destruct r as [s|er]; [|by intros [= <- <-]].
  destruct (clique_ecrecover header) as [[v|er]|] eqn:Ev; cbn [mbind outcome_bind]; [|by intros [= <- <-]|done].
  case_bool_decide as Hin; [by intros [= <- <-]|].
  destruct (Z.eqb_spec (u64 (h_Number parent)) 0).
  { intros [= <- <-]. split; [done|]. intros _. exists v, s. split_and!; [done|by apply Hs|done|done]. }
  destruct (clique_ecrecover parent) as [[w|er]|] eqn:Ew; cbn [mbind outcome_bind]; [|by intros [= <- <-]|done].
  destruct (Z.eqb_spec w v); intros [= <- <-]; [subst w|done]. split; [done|]. intros _.
  exists v, s. split_and!; [done|by apply Hs|done|done].
Qed.

Lemma verifyHeader_inv fuel now c header parents c' e : chain_ok -> coherent c -> Forall P parents ->
  verifyHeader putFails fuel now c chain header parents = Ret (c', e) ->
  coherent c' /\ (e = None -> u64 (h_Number header) <> 0 -> exists parent v s, parentFor header parents = Some parent /\
    HeaderHash parent = h_ParentHash header /\ clique_ecrecover header = Ret (inl v) /\
    authentic_at (u64 (u64 (h_Number header) - 1)) (h_ParentHash header) s /\ v ∈ sn_Signers s /\
    (u64 (h_Number parent) <> 0 -> clique_ecrecover parent = Ret (inl v))).
Proof.
  intros Hch Hc Hp. unfold verifyHeader. destruct (verifyAlone now c chain header) as [[e0|]|]; cbn [mbind outcome_bind];
    [by intros [= <- <-]| |done].
  unfold verifyCascadingFields. destruct (Z.eqb_spec (u64 (h_Number header)) 0); [by intros [= <- <-]|].
  fold (parentFor header parents). destruct (parentFor header parents) as [parent|]; [|by intros [= <- <-]].
  destruct (Z.eqb_spec (HeaderHash parent) (h_ParentHash header)) as [Hh|];
    [|rewrite orb_true_r; by intros [= <- <-]]. cbn [negb orb]. rewrite orb_false_r.
  destruct (negb _); [by intros [= <- <-]|]. destruct (_ <? _); [by intros [= <- <-]|].
  destruct (snapshot _ _ _ _ _ _ _) as [[c1 r]|] eqn:Es; [|done]. cbn [mbind outcome_bind].
  destruct (snapshot_sound _ _ _ _ _ _ _ Hch Hc (u64_range _) Hp Es) as [Hc1 _].
  destruct r as [s|er]; [|by intros [= <- <-]]. destruct (_ =? 0); [done|].
  assert (forall c2, verifySeal putFails fuel c1 chain header parents parent = Ret c2 -> c2 = (c', e) ->
    coherent c' /\ (e = None -> u64 (h_Number header) <> 0 -> exists parent' v s, Some parent = Some parent' /\
    HeaderHash parent' = h_ParentHash header /\ clique_ecrecover header = Ret (inl v) /\
    authentic_at (u64 (u64 (h_Number header) - 1)) (h_ParentHash header) s /\ v ∈ sn_Signers s /\
    (u64 (h_Number parent') <> 0 -> clique_ecrecover parent' = Ret (inl v)))) as Hseal.
  { intros c2 Ev ->. destruct (verifySeal_inv _ _ _ _ _ _ _ Hch Hc1 Hp Ev) as [Hc' Hacc]. split; [done|].
    intros He _. destruct (Hacc He) as (v & t & ?). exists parent, v, t. naive_solver. }
  destruct (_ =? 0); [|by intros E; eapply Hseal].
  destruct (slice _ _ _) as [b|]; cbn [mbind outcome_bind]; [|done].
  case_bool_decide; [by intros E; eapply Hseal|by intros [= <- <-]].
Qed.

End Authentic.

(** ** One voter *)

Section OneVoter.
Context `{Crypto}.

Lemma applyHeader_casts e s h s' : applyHeader e s h = Ret (inl s') -> exists b, casts h b.
Proof.
  unfold applyHeader. destruct (e =? 0); [done|]. cbv zeta.
  destruct (clique_ecrecover h) as [[v|]|] eqn:Ev; cbn [mbind outcome_bind]; [|done..]. case_bool_decide; [done|].
  destruct (voteOf h) as [auth|] eqn:Ea; [|done]. intros _. by exists (mkBallot (u64 (h_Number h)) v (h_Coinbase h) auth).
Qed.

Lemma applyLoop_casts e hs s s' : applyLoop e s hs = Ret (inl s') -> exists bs, Forall2 casts hs bs.
Proof.
  revert s. induction hs as [|h hs IH]; intros s; [by exists []|]. cbn [applyLoop].
  destruct (applyHeader e s h) as [[s1|]|] eqn:E1; cbn [mbind outcome_bind]; [|done..]. intros E2.
  destruct (applyHeader_casts _ _ _ _ E1) as [b Hb]. destruct (IH _ E2) as [bs Hbs]. exists (b :: bs). by constructor.
Qed.

Lemma votes_of_one v a V : Forall (fun w => v_Signer w = v) V -> NoDup ((fun w => (v_Signer w, v_Address w)) <$> V) ->
  (length (votesOn a V) <= 1)%nat.
Proof.
  intros Hv Hnd. assert (NoDup ((fun w => (v_Signer w, v_Address w)) <$> votesOn a V)) as Hn.
  { eapply sublist_NoDup; [exact Hnd|]. apply fmap_sublist, sublist_filter. }
  assert (Forall (fun w => v_Signer w = v /\ v_Address w = a) (votesOn a V)) as Hf.
  { apply Forall_forall. intros w [Ha Hw]%list_elem_of_filter. rewrite Forall_forall in Hv. auto. }
  destruct (votesOn a V) as [|w1 [|w2 W]]; [simpl; lia..|]. apply Forall_cons in Hf as [[E1 E2] Hf].
  apply Forall_cons in Hf as [[E3 E4] _]. cbn in Hn. apply NoDup_cons in Hn as [Hn _]. destruct Hn.
  rewrite E1, E2, E3, E4. left.
Qed.

(** A signer alone passes no vote when there are others. *)
Lemma replay_one e G V v bs r : (2 <= base.size G)%nat -> Forall (fun w => v_Signer w = v) V ->
  NoDup ((fun w => (v_Signer w, v_Address w)) <$> V) -> Forall (fun b => bl_signer b = v) bs ->
  replay e (G, V) bs = Some r -> r.1 = G.
Proof.
  intros HG HV Hnd Hbs. revert V HV Hnd. induction Hbs as [|b bs Hb _ IH]; intros V HV Hnd; [by intros [= <-]|].
  cbn [replay replay1]. case_bool_decide; [|done]. cbv zeta.
  set (V1 := filter (fun v => ~ (v_Signer v = bl_signer b /\ v_Address v = bl_address b))
    (if bl_number b mod e =? 0 then [] else V)).
  assert (V1 `sublist_of` V) as Hsub.
  { unfold V1. case_match; [apply sublist_nil_l|apply sublist_filter]. }
  assert (Forall (fun w => v_Signer w = v) V1) as HV1 
    by (apply Forall_forall; intros w Hw; rewrite Forall_forall in HV; by apply HV; eapply sublist_subseteq).
  assert (NoDup ((fun w => (v_Signer w, v_Address w)) <$> V1)) as Hn1
    by (eapply sublist_NoDup; [exact Hnd|by apply fmap_sublist]).
  assert (forall w, w ∈ V1 -> ~ (v_Signer w = bl_signer b /\ v_Address w = bl_address b)) as Hfresh
    by by intros w [? _]%list_elem_of_filter.
  clearbody V1. set (V2 := if eqb _ _ then _ else V1).
  assert (Forall (fun w => v_Signer w = v) V2 /\ NoDup ((fun w => (v_Signer w, v_Address w)) <$> V2)) as [HV2 Hn2].
  { unfold V2. destruct (eqb _ _); [|done]. split; [apply Forall_app; split; [done|by repeat constructor]|].
    rewrite fmap_app. apply NoDup_app. split_and!; [done| |apply NoDup_singleton].
    intros p Hp E%list_elem_of_singleton. apply list_elem_of_fmap in Hp as (w & -> & Hw). injection E as E1 E2.
    by apply (Hfresh w Hw). }
  clearbody V2. cbn [mbind option_bind]. unfold settled.
  pose proof (votes_of_one v (bl_address b) V2 HV2 Hn2).
  assert (1 <= Z.of_nat (base.size G) / 2) by (apply Z.div_le_lower_bound; lia).
  destruct (Z.ltb_spec (Z.of_nat (base.size G) / 2) (Z.of_nat (length (votesOn (bl_address b) V2)))); [lia|].
  by apply IH.
Qed.

Lemma apply_one e n hash sigs hs v s : e <> 0 -> (2 <= base.size (list_to_set sigs : gset Address))%nat ->
  Forall (fun h => clique_ecrecover h = Ret (inl v)) hs ->
  apply e (newSnapshot n hash sigs) hs = Ret (inl s) -> sn_Signers s = list_to_set sigs.
Proof.
  intros He Hsz Hv E. destruct hs as [|h hs]; [by injection E as <-|]. rewrite apply_cons in E.
  destruct (negb _); [done|]. destruct (applyLoop e _ _) as [[s1|]|] eqn:El; cbn [mbind outcome_bind] in E; [|done..].
  injection E as <-. destruct (applyLoop_casts _ _ _ _ El) as [bs Hbs].
  assert (snap_ok (newSnapshot n hash sigs)) as Hok.
  { split; [split; [by intros w ?%elem_of_nil..|constructor]|done]. }
  pose proof (applyLoop_ok e _ bs _ Hok He Hbs) as Hr. rewrite El in Hr.
  destruct (replay e _ bs) as [[G V]|] eqn:Er; [|done]. destruct Hr as (s' & [= <-] & _ & HG & _).
  apply (replay_one e _ [] v bs) in Er; [|done|constructor|constructor|].
  - change (sn_Signers (renum _ _ s1)) with (sn_Signers s1). by rewrite HG.
  - clear -Hbs Hv. induction Hbs as [|g b gs bs (_ & Hs & _) _ IH]; [constructor|]. apply Forall_cons in Hv as [Hh Hv].
    constructor; [congruence|by apply IH].
Qed.

End OneVoter.

(** ** The validators *)

Section Validators.
Context `{Crypto} `{!ARC} `{!ARCLaws}.
Context (putFails : Snapshot -> bool) (chain : chainReader) (epoch : Z).

(** The headers in circulation, and the signers of the genesis block. *)
Context (U : Header -> Prop) (G : gset Address).

(** Signed by a validator that signed the parent too. *)
Definition own (h : Header) : Prop :=
  U h /\ u64 (h_Number h) <> 0 /\ exists v, v ∈ G /\ clique_ecrecover h = Ret (inl v) /\
    forall p, U p -> HeaderHash p = h_ParentHash h -> u64 (h_Number p) <> 0 -> clique_ecrecover p = Ret (inl v).

Record setting : Prop := {
  se_epoch : epoch <> 0;
  se_two : (2 <= base.size G)%nat;
  se_inj h h' : U h -> U h' -> HeaderHash h = HeaderHash h' -> h = h';
  se_roots n cp sigs : rooted chain epoch n cp sigs -> list_to_set sigs = G;
  se_chain : chain_ok chain own;
  se_known hash n h : GetHeader chain hash n = Some h -> U h
}.

Lemma one_author hs : chained hs -> Forall own hs -> exists v, Forall (fun h => clique_ecrecover h = Ret (inl v)) hs.
Proof.
  induction 1 as [|h|h g hs Hl _ IH]; intros Ho.
  - by exists 0.
  - apply Forall_cons in Ho as [(_ & _ & v & _ & Hv & _) _]. exists v. by repeat constructor.
  - apply Forall_cons in Ho as [(Uh & Nh & _) Ho]. destruct (IH Ho) as [v Hv]. exists v. constructor; [|done].
    apply Forall_cons in Ho as [(_ & _ & w & _ & Hw & Hp) _]. apply Forall_cons in Hv as [Hv _].
    rewrite (Hp h Uh (eq_sym Hl) Nh). congruence.
Qed.

(** The signers never change. *)
Lemma authentic_signers n hash s : setting -> authentic_at chain epoch own n hash s -> sn_Signers s = G.
Proof.
  intros S (m & cp & sigs & hs & Hr & Hc & Ho & E & _). destruct (one_author hs Hc Ho) as [v Hv].
  pose proof (se_roots S _ _ _ Hr) as HG. rewrite (apply_one epoch m (HeaderHash cp) sigs hs v s);
    [done|apply S|rewrite HG; apply S|done|done].
Qed.

Lemma accepted_own fuel now c h parents c' e : setting -> coherent chain epoch own c -> Forall own parents ->
  U h -> u64 (h_Number h) <> 0 ->
  verifyHeader putFails fuel now c chain h parents = Ret (c', e) ->
  coherent chain epoch own c' /\ (e = None -> own h).
Proof.
  intros S Hc Hp HU Hn E.
  destruct (verifyHeader_inv putFails chain epoch own fuel now c h parents c' e (se_chain S) Hc Hp E) as [Hc' Hacc].
  split; [done|]. intros He. destruct (Hacc He Hn) as (parent & v & s & Hpar & Hhash & Hv & Ha & Hin & Hsame).
  split_and!; [done..|]. exists v. split_and!; [by rewrite <- (authentic_signers _ _ _ S Ha)|done|].
  intros p Up Hph Np. assert (U parent) as Upar.
  { unfold parentFor in Hpar. destruct (last parents) as [q|] eqn:El; [|by eapply se_known].
    injection Hpar as ->. rewrite Forall_forall in Hp. by apply Hp, last_Some_elem_of. }
  rewrite (se_inj S p parent Up Upar) by congruence. apply Hsame.
  rewrite <- (se_inj S p parent Up Upar) by congruence. done.
Qed.

Lemma verifyLoop_own fuel now hs c parents c' es : setting -> coherent chain epoch own c -> Forall own parents ->
  Forall (fun h => U h /\ u64 (h_Number h) <> 0) hs ->
  verifyLoop putFails fuel now c chain parents hs = Ret (c', es) -> Forall (fun e => e = None) es ->
  coherent chain epoch own c' /\ Forall own hs.
Proof.
  intros S. revert c parents es. induction hs as [|h hs IH]; intros c parents es Hc Hp HU; cbn [verifyLoop].
  { by intros [= <- <-]. }
  apply Forall_cons in HU as [[HU Hn] HUs].
  destruct (verifyHeader putFails fuel now c chain h parents) as [[c1 e]|] eqn:E; [|done]. cbn [mbind outcome_bind].
  destruct (verifyLoop putFails fuel now c1 chain (parents ++ [h]) hs) as [[c2 es2]|] eqn:E2; [|done].
  cbn [mbind outcome_bind]. intros [= <- <-] [-> Hes]%Forall_cons.
  destruct (accepted_own _ _ _ _ _ _ _ S Hc Hp HU Hn E) as [Hc1 Ho].
  destruct (IH c1 (parents ++ [h]) es2) as [Hc2 Hos]; [done|apply Forall_app; split; [done|apply Forall_singleton; auto]|done..|].
  split; [done|]. constructor; auto.
Qed.

End Validators.

(** ** Sealing *)

Section Sealing.
Context `{Crypto} `{!ARC} `{!ARCLaws}.
Context (putFails : Snapshot -> bool) (chain : chainReader).

(** A snapshot in the cache is found there again. *)
Lemma snapshot_cached fuel c number hash parents s : cl_recents c !! hash = Some s -> sn_Hash s = hash ->
  exists c', snapshot putFails (S fuel) c chain number hash parents = Ret (c', inl s) /\
    cl_recents c' !! hash = Some s /\ cl_config c' = cl_config c /\ cl_signer c' = cl_signer c.
Proof.
  intros Hr Hh. unfold snapshot. cbn [gather]. unfold findSnapshot. rewrite Hr. cbn [mbind outcome_bind rev apply last].
  rewrite (bool_decide_eq_false_2 ([] <> [])) by (by intros E; apply E). rewrite andb_false_r.
  eexists. split_and!; [done| |done..]. cbn. by rewrite Hh, evict_new, lookup_insert_eq.
Qed.

Lemma store_frame c s c' : store putFails c s = inl c' ->
  cl_recents c' = cl_recents c /\ cl_config c' = cl_config c /\ cl_signer c' = cl_signer c.
Proof. unfold store. destruct (putFails s); [done|]. by intros [= <-]. Qed.

Lemma gather_frame fuel c number hash parents headers c' r :
  gather putFails fuel c chain number hash parents headers = Ret (c', r) ->
  cl_config c' = cl_config c /\ cl_signer c' = cl_signer c.
Proof.
  revert c number hash parents headers. induction fuel as [|fuel IH]; intros c number hash parents headers; [done|].
  cbn [gather]. destruct (findSnapshot _ _ _ _ _ _) as [[c1 r1]|] eqn:Ef; [|done]. cbn [mbind outcome_bind].
  assert (cl_config c1 = cl_config c /\ cl_signer c1 = cl_signer c) as [<- <-].
  { unfold findSnapshot in Ef. repeat case_match; simplify_eq; try done;
      destruct (trusted _ _ _ _); cbn [mbind outcome_bind] in Ef; try done; repeat case_match; simplify_eq; try done;
      destruct (checkpointSigners _); cbn [mbind outcome_bind] in Ef; try done; repeat case_match; simplify_eq; try done;
      by edestruct store_frame as (_ & ? & ?). }
  destruct r1 as [[s|]|e]; [by intros [= <- <-]| |by intros [= <- <-]].
  destruct (nextHeader _ _ _ _) as [[h ps]|e]; [apply IH|by intros [= <- <-]].
Qed.

(** A snapshot that was computed is in the cache. *)
Lemma snapshot_caches fuel c number hash parents c' s :
  snapshot putFails fuel c chain number hash parents = Ret (c', inl s) ->
  cl_recents c' !! sn_Hash s = Some s /\ cl_config c' = cl_config c /\ cl_signer c' = cl_signer c.
Proof.
  unfold snapshot. destruct (gather _ _ _ _ _ _ _ _) as [[c1 r]|] eqn:Eg; [|done]. cbn [mbind outcome_bind].
  apply gather_frame in Eg as [<- <-]. destruct r as [[s0 hs]|e]; [|done].
  destruct (apply _ s0 (rev hs)) as [[s1|e]|]; cbn [mbind outcome_bind]; [|done..].
  set (c2 := c1 <| cl_recents := _ |>).
  assert (cl_recents c2 !! sn_Hash s1 = Some s1) as Hr by (cbn; by rewrite evict_new, lookup_insert_eq).
  destruct (_ && _); [|by intros [= <- <-]]. destruct (store putFails c2 s1) as [c3|e] eqn:Es; [|done].
  intros [= <- <-]. apply store_frame in Es as (-> & -> & ->). done.
Qed.

(** A header as Prepare leaves it, over the snapshot [s] of its parent. *)
Record prepared (epoch period : Z) (s : Snapshot) (parent h : Header) : Prop := {
  pd_difficulty : h_Difficulty h = diffInTurn \/ h_Difficulty h = diffNoTurn;
  pd_mix : h_MixDigest h = 0;
  pd_nonce : h_Nonce h = nonceAuthVote \/ h_Nonce h = nonceDropVote;
  pd_time : u64 (h_Time parent + period) <= h_Time h;
  pd_checkpoint : u64 (h_Number h) mod epoch = 0 -> h_Coinbase h = 0 /\ h_Nonce h = nonceDropVote;
  pd_extra : exists vanity seal, length vanity = extraVanity /\ length seal = extraSeal /\
    h_Extra h = vanity ++ (if u64 (h_Number h) mod epoch =? 0 then signersBytes s else []) ++ seal
}.

Lemma chooseVote_ok c s r h : h_Nonce h = nonceDropVote ->
  let h' := chooseVote c s r h in
  h_ParentHash h' = h_ParentHash h /\ h_Number h' = h_Number h /\ h_Extra h' = h_Extra h /\
  (h_Nonce h' = nonceAuthVote \/ h_Nonce h' = nonceDropVote).
Proof.
  intros Hd. unfold chooseVote. cbv zeta. case_match; [|by auto]. cbn. split_and!; [done..|].
  case_match; auto.
Qed.

Lemma Prepare_inv fuel now r c h c1 h1 : Prepare putFails fuel now r c chain h = Ret (c1, h1, None) ->
  exists s parent, snapshot putFails fuel c chain (u64 (u64 (h_Number h) - 1)) (h_ParentHash h) [] = Ret (c1, inl s) /\
    Epoch (cl_config c1) <> 0 /\ GetHeader chain (h_ParentHash h) (u64 (u64 (h_Number h) - 1)) = Some parent /\
    h_ParentHash h1 = h_ParentHash h /\ h_Number h1 = h_Number h /\
    prepared (Epoch (cl_config c1)) (Period (cl_config c1)) s parent h1.
Proof.
  unfold Prepare. cbv zeta. set (h0 := h <| h_Coinbase := 0 |> <| h_Nonce := replicate 8 0 |>).
  change (h_Number h0) with (h_Number h). change (h_ParentHash h0) with (h_ParentHash h).
  destruct (snapshot _ _ _ _ _ _ _) as [[c2 [s|e]]|] eqn:Es; cbn [mbind outcome_bind]; [|done..].
  destruct (Z.eqb_spec (Epoch (cl_config c2)) 0) as [|He]; [done|].
  set (h2 := if u64 (h_Number h) mod Epoch (cl_config c2) =? 0 then h0 else chooseVote c2 s r h0).
  assert (h_ParentHash h2 = h_ParentHash h /\ h_Number h2 = h_Number h /\ h_Extra h2 = h_Extra h /\
    (h_Nonce h2 = nonceAuthVote \/ h_Nonce h2 = nonceDropVote) /\
    (u64 (h_Number h) mod Epoch (cl_config c2) = 0 -> h_Coinbase h2 = 0 /\ h_Nonce h2 = nonceDropVote))
    as (Hp & Hn & Hx & Hv & Hk).
  { unfold h2. destruct (Z.eqb_spec (u64 (h_Number h) mod Epoch (cl_config c2)) 0); [by split_and!; [..|right|]|].
    destruct (chooseVote_ok c2 s r h0 eq_refl) as (? & ? & ? & ?). by split_and!. }
  clearbody h2. destruct (calcDifficulty s (cl_signer c2)) as [d|] eqn:Ed; cbn [mbind outcome_bind]; [|done].
  cbn [h_ParentHash h_Extra]. change (h_ParentHash (h2 <| h_Difficulty := _ |> <| h_Extra := _ |> <| h_MixDigest := _ |>))
    with (h_ParentHash h2). rewrite Hp.
  destruct (GetHeader _ _ _) as [parent|] eqn:Eg; [|done]. intros [= <- <-].
  exists s, parent. split_and!; [done..|]. split; cbn; rewrite ?Hn; [|done|done| |done|].
  - unfold calcDifficulty in Ed. destruct (inturn _ _ _) as [[]|]; cbn in Ed; [|..|done]; injection Ed as <-; auto.
  - case_match eqn:Et; [apply Z.ltb_lt in Et; lia|lia].
  - eexists _, (replicate extraSeal 0). split_and!; [..|done]; [|by rewrite length_replicate].
    rewrite length_take, length_app, length_replicate. unfold extraVanity. lia.
Qed.

Lemma length_concat_be l : length (concat ((fun a => be_bytes AddressLength a) <$> l)) = (length l * AddressLength)%nat.
Proof.
  induction l as [|a l IH]; [done|]. cbn [fmap list_fmap concat]. rewrite length_app, length_be_bytes, IH. cbn [length]. lia.
Qed.

Lemma length_signersBytes s : length (signersBytes s) = (length (signers s) * AddressLength)%nat.
Proof. apply length_concat_be. Qed.

(** The checks of a header alone hold of a prepared one. *)
Lemma verifyAlone_ok now c s parent h : Epoch (cl_config c) <> 0 ->
  prepared (Epoch (cl_config c)) (Period (cl_config c)) s parent h -> h_Time h <= now ->
  h_UncleHash h = EmptyUncleHash -> VerifyForkHashes (ch_Config chain) h false = None ->
  verifyAlone now c chain h = Ret None.
Proof.
  intros He [Hd Hm Hn _ Hk (vanity & seal & Lv & Ls & Hx)] Ht Hu Hf. unfold verifyAlone.
  destruct (Z.ltb_spec now (h_Time h)); [lia|]. rewrite (proj2 (Z.eqb_neq _ _) He). cbv zeta. f_equal.
  set (sb := if u64 (h_Number h) mod Epoch (cl_config c) =? 0 then signersBytes s else []) in Hx.
  assert (length (h_Extra h) = (extraVanity + extraSeal + length sb)%nat) as Hlen
    by (rewrite Hx, !length_app, Lv, Ls; lia).
  rewrite Hlen, (bool_decide_eq_false_2 (_ < extraVanity)%nat) by lia.
  rewrite (bool_decide_eq_false_2 (_ < extraVanity + extraSeal)%nat) by lia.
  replace (extraVanity + extraSeal + length sb - extraVanity - extraSeal)%nat with (length sb) by lia.
  assert ((if u64 (h_Number h) mod Epoch (cl_config c) =? 0 then (length sb mod AddressLength)%nat else length sb) = 0%nat) as Hsb
    by (unfold sb; case_match; [rewrite length_signersBytes; apply Nat.Div0.mod_mul|done]).
  clearbody sb.
  destruct (Z.eqb_spec (u64 (h_Number h) mod Epoch (cl_config c)) 0) as [E|E].
  - destruct (Hk E) as [Hc Hnd]. rewrite Hc, Hnd. cbn [andb negb Z.eqb].
    rewrite (bool_decide_eq_false_2 (nonceDropVote <> nonceDropVote)) by (by intros X; apply X). rewrite andb_false_r.
    rewrite Hsb, (bool_decide_eq_false_2 (0 <> 0)%nat) by lia.
    rewrite Hm, Hu, Hf, !Z.eqb_refl. cbn [andb negb Z.eqb]. destruct Hd as [-> | ->]; by destruct (0 <? u64 (h_Number h)).
  - cbn [andb negb]. rewrite Hsb, (bool_decide_eq_false_2 (0 <> 0)%nat) by lia.
    assert (bool_decide (h_Nonce h <> nonceAuthVote) && bool_decide (h_Nonce h <> nonceDropVote) = false) as ->.
    { destruct Hn as [-> | ->]; reflexivity. }
    rewrite Hm, Hu, Hf, !Z.eqb_refl. cbn [andb negb Z.eqb]. destruct Hd as [-> | ->]; by destruct (0 <? u64 (h_Number h)).
Qed.

(** FinalizeAndAssemble: the roots, the bloom filter, the gas and no uncles. *)
Definition assembled (h h' : Header) : Prop :=
  exists root txs receipts bloom gas, h' = h <| h_Root := root |> <| h_TxHash := txs |> <| h_ReceiptHash := receipts |>
    <| h_Bloom := bloom |> <| h_GasUsed := gas |> <| h_UncleHash := EmptyUncleHash |>.

(** A signing function whose signatures recover to the signer. *)
Definition signs (signFn : Address -> bytes -> bytes + error) (signer : Address) : Prop :=
  forall m sig, signFn signer m = inl sig -> length sig = extraSeal /\
    exists pub, ecrecover (keccak256 m) sig = Some pub /\ keccak256 (drop 1 pub) mod 2 ^ 160 = signer.

Lemma prepared_assembled e p s parent h h' : assembled h h' -> prepared e p s parent h -> prepared e p s parent h'.
Proof. intros (root & txs & rs & bl & g & ->) [? ? ? ? ? ?]. by split. Qed.

Lemma prepared_sealed e p s parent h sig : prepared e p s parent h -> length sig = extraSeal ->
  prepared e p s parent (h <| h_Extra := take (length (h_Extra h) - extraSeal) (h_Extra h) ++ sig |>).
Proof.
  intros [? ? ? ? ? (vanity & seal & Lv & Ls & Hx)] Hl. split; [done..|]. exists vanity, sig. split_and!; [done..|].
  cbn. rewrite Hx. set (sb := if u64 (h_Number h) mod e =? 0 then signersBytes s else []). rewrite !length_app, Ls, app_assoc.
  replace (length vanity + (length sb + extraSeal) - extraSeal)%nat with (length (vanity ++ sb)) by (rewrite length_app; lia).
  rewrite take_app_length. by rewrite <- app_assoc.
Qed.

(** The signature of a sealed header recovers to the signer. *)
Lemma sealed_author signFn signer h m sig : signs signFn signer -> (extraSeal <= length (h_Extra h))%nat ->
  EncodeToBytes (rlpSigHeader h) = Some m -> signFn signer m = inl sig ->
  clique_ecrecover (h <| h_Extra := take (length (h_Extra h) - extraSeal) (h_Extra h) ++ sig |>) = Ret (inl signer).
Proof.
  intros Hs Hx Em Esig. destruct (Hs m sig Esig) as (Hl & pub & Ep & Ea).
  set (keep := take (length (h_Extra h) - extraSeal) (h_Extra h)). set (h' := h <| h_Extra := keep ++ sig |>).
  assert (length (h_Extra h') - extraSeal = length keep)%nat as Hlen by (cbn; rewrite length_app; lia).
  assert (length (h_Extra h') < extraSeal -> False)%nat as Hlt by (cbn; rewrite length_app; lia).
  assert (rlpSigHeader h' = rlpSigHeader h) as Er.
  { unfold rlpSigHeader. rewrite Hlen. cbn. rewrite take_app_length. done. }
  unfold clique_ecrecover, SealHash. rewrite (decide_False (P := (length (h_Extra h') < extraSeal)%nat)) by done.
  rewrite (decide_False (P := (length (h_Extra h') < extraSeal)%nat)) by done.
  rewrite Er, Em. cbn [mbind outcome_bind]. rewrite Hlen. cbn [h_Extra]. change (h_Extra h') with (keep ++ sig).
  rewrite drop_app_length, Ep, Ea. done.
Qed.

Lemma Seal_inv fuel c signFn b c' b' s : let h := b_header b in
  cl_recents c !! h_ParentHash h = Some s -> sn_Hash s = h_ParentHash h -> signs signFn (cl_signer c) ->
  Seal putFails (S fuel) c chain signFn b = Ret (c', inl (Some b')) ->
  cl_recents c' !! h_ParentHash h = Some s /\ cl_config c' = cl_config c /\ cl_signer c ∈ sn_Signers s /\
  exists sig, length sig = extraSeal /\
    b_header b' = h <| h_Extra := take (length (h_Extra h) - extraSeal) (h_Extra h) ++ sig |> /\
    clique_ecrecover (b_header b') = Ret (inl (cl_signer c)).
Proof.
  cbv zeta. intros Hr Hh Hs. unfold Seal. cbv zeta. destruct (_ =? 0); [done|]. destruct (_ && _); [done|].
  destruct (snapshot_cached fuel c (u64 (u64 (h_Number (b_header b)) - 1)) (h_ParentHash (b_header b)) [] s Hr Hh)
    as (c1 & -> & Hr1 & Ec1 & Es1). cbn [mbind outcome_bind]. rewrite Es1. case_bool_decide as Hin; [done|].
  case_decide as Hx; [done|]. destruct (EncodeToBytes _) as [m|] eqn:Em; [|done].
  destruct (signFn (cl_signer c) m) as [sig|e] eqn:Esig; [|done]. intros [= <- <-].
  destruct (Hs m sig Esig) as [Hl _].
  assert (take extraSeal sig ++ drop (length sig) (drop (length (h_Extra (b_header b)) - extraSeal) (h_Extra (b_header b)))
    = sig) as Esg.
  { rewrite take_ge by lia. rewrite (drop_ge _ (length sig)), app_nil_r; [done|]. rewrite length_drop. lia. }
  rewrite Esg. cbn [b_header]. split_and!; [done..|]. exists sig. split_and!; [done..|].
  eapply sealed_author; [done|lia|done|done].
Qed.

Lemma seal_ok fuel c h s parent signer : u64 (h_Number h) <> 0 ->
  cl_recents c !! h_ParentHash h = Some s -> sn_Hash s = h_ParentHash h ->
  clique_ecrecover h = Ret (inl signer) -> signer ∈ sn_Signers s ->
  (u64 (h_Number parent) <> 0 -> clique_ecrecover parent = Ret (inl signer)) ->
  exists c', verifySeal putFails (S fuel) c chain h [] parent = Ret (c', None).
Proof.
  intros Hn Hr Hh Ev Hin Hown. unfold verifySeal. rewrite (proj2 (Z.eqb_neq _ _) Hn).
  destruct (snapshot_cached fuel c (u64 (u64 (h_Number h) - 1)) (h_ParentHash h) [] s Hr Hh) as (c1 & -> & _).
  cbn [mbind outcome_bind]. rewrite Ev. cbn [mbind outcome_bind]. rewrite bool_decide_eq_false_2 by tauto.
  destruct (Z.eqb_spec (u64 (h_Number parent)) 0); [by eexists|]. rewrite Hown by done. cbn [mbind outcome_bind].
  rewrite Z.eqb_refl. by eexists.
Qed.

Lemma cascading_ok fuel c h s parent signer : Epoch (cl_config c) <> 0 ->
  prepared (Epoch (cl_config c)) (Period (cl_config c)) s parent h -> u64 (h_Number h) <> 0 ->
  GetHeader chain (h_ParentHash h) (u64 (u64 (h_Number h) - 1)) = Some parent ->
  HeaderHash parent = h_ParentHash h -> u64 (h_Number parent) = u64 (u64 (h_Number h) - 1) ->
  cl_recents c !! h_ParentHash h = Some s -> sn_Hash s = h_ParentHash h ->
  clique_ecrecover h = Ret (inl signer) -> signer ∈ sn_Signers s ->
  (u64 (h_Number parent) <> 0 -> clique_ecrecover parent = Ret (inl signer)) ->
  exists c', verifyCascadingFields putFails (S fuel) c chain h [] = Ret (c', None).
Proof.
  intros He [_ _ _ Ht _ (vanity & seal & Lv & Ls & Hx)] Hn Hg Hph Hpn Hr Hh Ev Hin Hown.
  unfold verifyCascadingFields. rewrite (proj2 (Z.eqb_neq _ _) Hn). cbn [last]. rewrite Hg, Hph, Hpn, !Z.eqb_refl. cbn [negb orb].
  destruct (Z.ltb_spec (h_Time h) (u64 (h_Time parent + Period (cl_config c)))); [lia|].
  destruct (snapshot_cached fuel c (u64 (u64 (h_Number h) - 1)) (h_ParentHash h) [] s Hr Hh) as (c1 & -> & Hr1 & Ec & _).
  cbn [mbind outcome_bind]. rewrite Ec, (proj2 (Z.eqb_neq _ _) He).
  destruct (seal_ok fuel c1 h s parent signer) as [c2 Es]; [done..|].
  destruct (u64 (h_Number h) mod Epoch (cl_config c) =? 0); [|by exists c2].
  unfold slice. rewrite Hx, !length_app, Lv, Ls.
  replace ((0 <=? Z.of_nat extraVanity) && _ && _) with true by (symmetry; rewrite !andb_true_iff, !Z.leb_le; lia).
  cbn [mbind outcome_bind].
  replace (Z.to_nat (Z.of_nat (extraVanity + (length (signersBytes s) + extraSeal)) - Z.of_nat extraSeal - Z.of_nat extraVanity))
    with (length (signersBytes s)) by lia. rewrite Nat2Z.id, <- Lv, drop_app_length, take_app_length.
  rewrite bool_decide_eq_true_2 by done. by exists c2.
Qed.

End Sealing.

(** ** Properties *)

Section CliqueProperties.
Context `{Crypto} `{!ARC} `{!ARCLaws}.
Context (putFails : Snapshot -> bool) (chain : chainReader).


(** C35: the search for a snapshot returns: with fuel for every block down to
    the genesis block it reaches the genesis block at the latest, and no
    header it applies makes it panic. *)
Theorem snapshot_returns epoch P fuel c number hash parents : chain_ok chain P -> coherent chain epoch P c ->
  epoch <> 0 -> (forall h, P h -> encodable h) ->
  (forall n cp, GetHeaderByNumber chain n = Some cp -> (extraVanity + extraSeal <= length (h_Extra cp))%nat) ->
  Forall P parents -> is_u64 number -> number < Z.of_nat fuel ->
  exists c' r, snapshot putFails fuel c chain number hash parents = Ret (c', r).
Proof.
  intros Hch Hc He HP Hcp Hp Hn Hf. unfold snapshot.
  destruct (gather_total putFails chain epoch P fuel c number hash parents [] Hch He Hc Hcp Hn Hf) as [[c1 r] Eg].
  assert (leads P number hash number hash (rev [])) as Ha by (split; [constructor|constructor|done..]).
  destruct (gather_sound _ _ _ _ _ _ _ _ _ _ _ _ _ _ Hch Hc Hn Hp Ha Eg) as [Hc1 Hs]. rewrite Eg. cbn [mbind outcome_bind].
  destruct r as [[s hs]|e]; [|by eexists _, _]. destruct (Hs s hs eq_refl) as (n & cp & sigs & hs0 & _ & _ & Hall & _).
  rewrite (co_epoch _ _ _ _ Hc1). destruct (apply_total epoch (rev hs) s He) as [[s'|e] ->]; cbn [mbind outcome_bind].
  - apply Forall_app in Hall as [_ Hall]. eapply Forall_impl; [exact Hall|exact HP].
  - destruct (_ && _); [destruct (store _ _ _)|]; by eexists _, _.
  - by eexists _, _.
Qed.



End CliqueProperties.

(** ** Two validators *)

(** A hash that reads every byte, and signatures that name their key. *)
#[local] Instance mixCrypto : Crypto := {|
  keccak256 b := fold_left (fun acc x => (acc * 1000003 + x + 1) mod (2 ^ 61 - 1)) b 7;
  ecrecover _ sig := Some (4 :: take 64 sig)
|}.
#[local] Instance wholeCache : ARC := {| evict _ m := m |}.
#[local] Instance wholeCache_laws : ARCLaws.
Proof. by split. Qed.

Definition getOr {A} (d : A) (o : outcome A) : A := match o with Ret a => a | Panic => d end.
Definition snapOr (r : Snapshot + error) : Snapshot := match r with inl s => s | inr _ => newSnapshot 0 0 [] end.
Definition blockOr (r : option Block + error) : Block :=
  match r with inl (Some b) => b | _ => mkBlock (header_by 0 0 0 false) [] [] end.

#[local] Opaque HeaderHash.

Definition seal_of (v : Z) : bytes := replicate 63 0 ++ [v; 0].
Definition address_of (v : Z) : Address := keccak256 (take 64 (seal_of v)) mod 2 ^ 160.
Definition validators2 : gset Address := {[ address_of 1; address_of 2 ]}.

Definition genesis2 : Header :=
  mkHeader 0 EmptyUncleHash 0 0 0 0 [] 1 0 8000000 0 0
    (replicate 32 0 ++ be_bytes 20 (address_of 1) ++ be_bytes 20 (address_of 2) ++ replicate 65 0) 0 nonceDropVote.
Definition child2 (parent : Header) (v coinbase : Z) (authorize : bool) : Header :=
  mkHeader (HeaderHash parent) EmptyUncleHash coinbase 0 0 0 [] 1 (h_Number parent + 1) 8000000 0 (h_Time parent + 15)
    (replicate 32 0 ++ seal_of v) 0 (if authorize then nonceAuthVote else nonceDropVote).
(** Validator 1 votes a newcomer in and the other one out, in its own chain. *)
Definition first2 : Header := child2 genesis2 1 9 true.
Definition second2 : Header := child2 first2 1 (address_of 2) false.

Definition chain2 : chainReader := mkChainReader
  (mkChainConfig None (Some 0) None false None 0 None None None None None None None None None None 100)
  (fun hash n => if (n =? 0) && (hash =? HeaderHash genesis2) then Some genesis2 else None)
  (fun n => if n =? 0 then Some genesis2 else None).
Definition engine2 : clique := Authorize (newClique (mkCliqueConfig 15 0) ∅) (address_of 1).

Lemma engine2_coherent P : coherent chain2 epochLength P engine2.
Proof. split; [done|intros h s E; cbn in E; by rewrite lookup_empty in E..]. Qed.

Lemma chain2_ok P : chain_ok chain2 P.
Proof.
  split; [|by exists genesis2]. intros hash n h. unfold chain2. cbn [GetHeader].
  case_match eqn:Eb; [|done]. apply andb_prop in Eb as [->%Z.eqb_eq ->%Z.eqb_eq]. intros [= <-]. by split_and!.
Qed.

Lemma setting2 : setting chain2 epochLength (fun h => h ∈ [genesis2; first2; second2]) validators2.
Proof.
  split.
  - done.
  - vm_compute. lia.
  - intros h h' Hh Hh' E. rewrite !elem_of_cons, elem_of_nil in Hh, Hh'.
    assert (forall a b, bool_decide (HeaderHash a = HeaderHash b) = false -> HeaderHash a = HeaderHash b -> a = b) as Hne
      by (intros a b Hb Hab; by rewrite bool_decide_eq_true_2 in Hb).
    destruct Hh as [->|[->|[->|[]]]], Hh' as [->|[->|[->|[]]]];
      [reflexivity|apply Hne|apply Hne|apply Hne|reflexivity|apply Hne|apply Hne|apply Hne|reflexivity];
      [vm_compute; reflexivity|exact E|vm_compute; reflexivity|exact E|vm_compute; reflexivity|exact E
      |vm_compute; reflexivity|exact E|vm_compute; reflexivity|exact E|vm_compute; reflexivity|exact E].
  - intros n cp sigs (_ & Hcp & Hs & _). unfold chain2 in Hcp. cbn [GetHeaderByNumber] in Hcp. destruct (n =? 0); [|done]. injection Hcp as <-.
    assert (checkpointSigners genesis2 = Ret [address_of 1; address_of 2]) as E by (vm_compute; reflexivity).
    rewrite E in Hs. injection Hs as <-. refine (bool_decide_unpack _ _). vm_compute. exact I.
  - apply chain2_ok.
  - intros hash n h. unfold chain2. cbn [GetHeader]. destruct (_ && _); [|done]. intros [= <-]. left.
Qed.

Definition verified2 : clique * list (option error) :=
  getOr (engine2, []) (VerifyHeaders (fun _ => false) 5 100 engine2 chain2 [first2; second2]).


Definition snapshot2 : clique * (Snapshot + error) :=
  getOr (engine2, inr errDatabase) (snapshot (fun _ => false) 5 engine2 chain2 1 (HeaderHash first2) [first2]).
Definition taken2 : Snapshot := snapOr snapshot2.2.


Lemma snapshot_returns_witness :
  exists c' r, snapshot (fun _ => false) 5 engine2 chain2 1 (HeaderHash first2) [first2] = Ret (c', r).
Proof.
  apply (snapshot_returns (fun _ => false) chain2 epochLength encodable 5 engine2 1 (HeaderHash first2) [first2]).
  - apply chain2_ok.
  - apply engine2_coherent.
  - discriminate.
  - intros h Hh. exact Hh.
  - intros n cp. unfold chain2. cbn [GetHeaderByNumber]. destruct (n =? 0); [|discriminate]. intros [= <-]. vm_compute. lia.
  - repeat constructor; vm_compute; discriminate.
  - split; vm_compute; congruence.
  - reflexivity.
Defined.

Definition prepared2 : clique * Header * option error :=
  getOr (engine2, first2, None) (Prepare (fun _ => false) 5 100 0 engine2 chain2 (first2 <| h_Extra := [1; 2; 3] |>)).
Definition signFn2 (a : Address) (m : bytes) : bytes + error := inl (seal_of 1).
Definition sealed2 : clique * (option Block + error) :=
  getOr (engine2, inr errDatabase) (Seal (fun _ => false) 5 prepared2.1.1 chain2 signFn2 (mkBlock prepared2.1.2 [] [])).
Definition block2 : Block := blockOr sealed2.2.

