(* ===== verification/Evm.v ===== *)
(** * The frame of the EVM (core/vm/evm.go, core/evm.go)

    [Call] and [create] are the message call and the contract creation: the
    depth and balance checks, the snapshot, the transfer, the code run and the
    revert on failure.  The byte code interpreter and the precompiled
    contracts are behind the class [Interpreter]: what the frame runs and what
    it may rely on ([InterpreterLaws]).  Tracers only observe and are left
    out. *)

From S2P Require Import Prelude Rlp Params Transaction AccessList StateDB Journal Accounts VmCommon Metering.

(** Errors of core/vm/errors.go. *)
Inductive vmerror :=
| VErrInvalidSubroutineEntry | VErrOutOfGas | VErrCodeStoreOutOfGas | VErrDepth
| VErrInsufficientBalance | VErrContractAddressCollision | VErrExecutionReverted
| VErrMaxCodeSizeExceeded | VErrInvalidJump | VErrWriteProtection | VErrReturnDataOutOfBounds
| VErrGasUintOverflow | VErrInvalidRetsub | VErrReturnStackExceeded
| VErrStackUnderflow (stackLen required : Z)
| VErrStackOverflow (stackLen limit : Z)
| VErrInvalidOpCode (opcode : Z)
| VErrPrecompile.                 (* an error of a precompiled contract *)

#[export] Instance vmerror_eq_dec : EqDecision vmerror.
Proof. solve_decision. Defined.

(** BlockContext, TxContext and the configuration of an EVM. *)
Record EVM := mkEVM {
  Coinbase : Address;
  GasLimit : Z;
  BlockNumber : Z;
  Time : Z;
  Difficulty : Z;
  GetHash : Z -> Hash;
  Origin : Address;
  evm_GasPrice : Z;
  chainConfig : ChainConfig;
  NoRecursion : bool;
  depth : Z;
  readOnly : bool                  (* of the interpreter of the EVM *)
}.
#[export] Instance eta_EVM : Eta EVM := fun r =>
  mkEVM (Coinbase r) (GasLimit r) (BlockNumber r) (Time r) (Difficulty r) (GetHash r) (Origin r)
    (evm_GasPrice r) (chainConfig r) (NoRecursion r) (depth r) (readOnly r).

(** Contract: the callee, its code and the gas it may use.  The code hash is
    zero where SetCodeOptionalHash is given none. *)
Record Contract := mkContract {
  c_CallerAddress : Address;
  c_self : Address;
  c_Code : bytes;
  c_CodeHash : Hash;
  c_value : Z;
  c_Gas : Z
}.
#[export] Instance eta_Contract : Eta Contract := fun r =>
  mkContract (c_CallerAddress r) (c_self r) (c_Code r) (c_CodeHash r) (c_value r) (c_Gas r).

Definition rule (f : ChainConfig -> option Z -> bool) (evm : EVM) : bool :=
  f (chainConfig evm) (Some (BlockNumber evm)).

(** UseGas: the remaining gas, when there is enough. *)
Definition UseGas (have gas : Z) : option Z := if have <? gas then None else Some (have - gas).

Class Interpreter := {
  (* interpreter.Run on a contract: state, return data, remaining gas, error *)
  Run : EVM -> StateDB -> Contract -> bytes -> bool -> outcome (StateDB * bytes * Z * option vmerror);
  (* the precompiled contracts of the rule set, and RunPrecompiledContract *)
  RunPrecompiled : EVM -> Address -> bytes -> Z -> outcome (bytes * Z * option vmerror)
}.

(** ** Precompiled addresses (core/vm/contracts.go) *)

Definition PrecompiledContractsHomestead : list Address := [1; 2; 3; 4].
Definition PrecompiledContractsByzantium : list Address := [1; 2; 3; 4; 5; 6; 7; 8].
Definition PrecompiledContractsIstanbul : list Address := [1; 2; 3; 4; 5; 6; 7; 8; 9].
Definition PrecompiledContractsBerlin : list Address := [1; 2; 3; 4; 5; 6; 7; 8; 9].

(** The address lists as [init] fills them. *)
Record PrecompiledAddresses := mkPA {
  pa_Berlin : list Address; pa_Istanbul : list Address;
  pa_Byzantium : list Address; pa_Homestead : list Address
}.
#[export] Instance eta_PA : Eta PrecompiledAddresses :=
  fun r => mkPA (pa_Berlin r) (pa_Istanbul r) (pa_Byzantium r) (pa_Homestead r).

Definition init : PrecompiledAddresses :=
  let p := mkPA [] [] [] [] in
  let p := fold_left (fun p k => p <| pa_Homestead := pa_Homestead p ++ [k] |>)
             PrecompiledContractsHomestead p in
  let p := fold_left (fun p k => p <| pa_Homestead := pa_Byzantium p ++ [k] |>)
             PrecompiledContractsByzantium p in
  let p := fold_left (fun p k => p <| pa_Istanbul := pa_Istanbul p ++ [k] |>)
             PrecompiledContractsIstanbul p in
  fold_left (fun p k => p <| pa_Berlin := pa_Berlin p ++ [k] |>) PrecompiledContractsBerlin p.

Definition ActivePrecompiles (evm : EVM) : list Address :=
  if rule IsBerlin evm then pa_Berlin init
  else if rule IsIstanbul evm then pa_Istanbul init
  else if rule IsByzantium evm then pa_Byzantium init
  else pa_Homestead init.

Definition precompile (evm : EVM) (a : Address) : bool :=
  bool_decide (a ∈ if rule IsBerlin evm then PrecompiledContractsBerlin
                   else if rule IsIstanbul evm then PrecompiledContractsIstanbul
                   else if rule IsByzantium evm then PrecompiledContractsByzantium
                   else PrecompiledContractsHomestead).

Section Frame.
Context `{Crypto} `{Database} `{Interpreter}.

Definition CanTransfer (s : StateDB) (a : Address) (amount : Z) : bool := amount <=? GetBalance s a.
Definition Transfer (s : StateDB) (sender recipient : Address) (amount : Z) : StateDB :=
  AddBalance (SubBalance s sender amount) recipient amount.

(** The end of a call: a failure reverts, and eats the gas unless it is REVERT. *)
Definition endCall (snapshot : Z) (s : StateDB) (ret : bytes) (gas : Z) (err : option vmerror)
  : outcome (StateDB * bytes * Z * option vmerror) :=
  match err with
  | None => Ret (s, ret, gas, None)
  | Some e =>
      s ← RevertToSnapshot s snapshot;
      Ret (s, ret, if decide (e = VErrExecutionReverted) then gas else 0, Some e)
  end.

(** Call returns the state, the return data, the remaining gas and the error. *)
Definition Call (evm : EVM) (s : StateDB) (caller addr : Address) (input : bytes) (gas value : Z)
  : outcome (StateDB * bytes * Z * option vmerror) :=
  if NoRecursion evm && (0 <? depth evm) then Ret (s, [], gas, None)
  else if CallCreateDepth <? depth evm then Ret (s, [], gas, Some VErrDepth)
  else if negb (value =? 0) && negb (CanTransfer s caller value)
  then Ret (s, [], gas, Some VErrInsufficientBalance)
  else
    let '(s, snapshot) := Snapshot s in
    let isPrecompile := precompile evm addr in
    if negb (Exist s addr) && negb isPrecompile && rule IsEIP158 evm && (value =? 0)
    then Ret (s, [], gas, None)
    else
      let s := if Exist s addr then s else CreateAccount s addr in
      let s := Transfer s caller addr value in
      if isPrecompile then
        '(ret, gas, err) ← (RunPrecompiled evm addr input gas : outcome (bytes * Z * option vmerror));
        endCall snapshot s ret gas err
      else
        let code := default [] (GetCode s addr) in
        if bool_decide (code = []) then endCall snapshot s [] gas None
        else
          '(s, ret, gas, err) ← Run evm s (mkContract caller addr code (GetCodeHash s addr) value gas) input false;
          endCall snapshot s ret gas err.

(** What CallCode, DelegateCall and StaticCall do after their snapshot. *)
Definition callBody (evm : EVM) (snapshot : Z) (s : StateDB) (addr : Address) (c : Contract)
    (input : bytes) (ro : bool) : outcome (StateDB * bytes * Z * option vmerror) :=
  if precompile evm addr then
    '(ret, gas, err) ← (RunPrecompiled evm addr input (c_Gas c) : outcome (bytes * Z * option vmerror));
    endCall snapshot s ret gas err
  else
    '(s, ret, gas, err) ← Run evm s c input ro;
    endCall snapshot s ret gas err.

(** CallCode runs the code of [addr] in the context of the caller. *)
Definition CallCode (evm : EVM) (s : StateDB) (caller addr : Address) (input : bytes) (gas value : Z)
  : outcome (StateDB * bytes * Z * option vmerror) :=
  if NoRecursion evm && (0 <? depth evm) then Ret (s, [], gas, None)
  else if CallCreateDepth <? depth evm then Ret (s, [], gas, Some VErrDepth)
  else if negb (CanTransfer s caller value) then Ret (s, [], gas, Some VErrInsufficientBalance)
  else
    let '(s, snapshot) := Snapshot s in
    callBody evm snapshot s addr
      (mkContract caller caller (default [] (GetCode s addr)) (GetCodeHash s addr) value gas) input false.

(** DelegateCall keeps the caller and the value of its parent besides. *)
Definition DelegateCall (evm : EVM) (s : StateDB) (parent : Contract) (addr : Address) (input : bytes) (gas : Z)
  : outcome (StateDB * bytes * Z * option vmerror) :=
  if NoRecursion evm && (0 <? depth evm) then Ret (s, [], gas, None)
  else if CallCreateDepth <? depth evm then Ret (s, [], gas, Some VErrDepth)
  else
    let '(s, snapshot) := Snapshot s in
    callBody evm snapshot s addr
      (mkContract (c_CallerAddress parent) (c_self parent) (default [] (GetCode s addr)) (GetCodeHash s addr)
         (c_value parent) gas) input false.

(** StaticCall touches the account and runs its code without writes. *)
Definition StaticCall (evm : EVM) (s : StateDB) (caller addr : Address) (input : bytes) (gas : Z)
  : outcome (StateDB * bytes * Z * option vmerror) :=
  if NoRecursion evm && (0 <? depth evm) then Ret (s, [], gas, None)
  else if CallCreateDepth <? depth evm then Ret (s, [], gas, Some VErrDepth)
  else
    let '(s, snapshot) := Snapshot s in
    let s := AddBalance s addr 0 in
    callBody evm snapshot s addr
      (mkContract caller addr (default [] (GetCode s addr)) (GetCodeHash s addr) 0 gas) input true.

(** crypto.CreateAddress and crypto.CreateAddress2 *)
Definition CreateAddress (b : Address) (nonce : Z) : Address :=
  keccak256 (encodeOrNothing (VList [rlpAddress b; VUint nonce])) mod 2 ^ 160.

Definition CreateAddress2 (b : Address) (salt inithash : Hash) : Address :=
  keccak256 (0xff :: be_bytes AddressLength b ++ be_bytes HashLength salt ++ be_bytes HashLength inithash) mod 2 ^ 160.

(** The tail of create: the code is stored or the creation is undone. *)
Definition createTail (evm : EVM) (snapshot : Z) (s : StateDB) (address : Address) (ret : bytes) (gas : Z) (err : option vmerror)
  : outcome (StateDB * bytes * Address * Z * option vmerror) :=
  let maxCodeSizeExceeded := rule IsEIP158 evm && (MaxCodeSize <? Z.of_nat (length ret)) in
  let '(s, gas, err) :=
    match err with
    | None =>
        if maxCodeSizeExceeded then (s, gas, None)
        else match UseGas gas (u64 (Z.of_nat (length ret) * CreateDataGas)) with
             | Some gas => (SetCode s address ret, gas, None)
             | None => (s, gas, Some VErrCodeStoreOutOfGas)
             end
    | Some e => (s, gas, Some e)
    end in
  let failed := match err with
    | Some e => rule IsHomestead evm || bool_decide (e <> VErrCodeStoreOutOfGas) | None => false end in
  '(s, gas) ← if maxCodeSizeExceeded || failed
              then s ← RevertToSnapshot s snapshot;
                   Ret (s, if decide (err = Some VErrExecutionReverted) then gas else 0)
              else Ret (s, gas);
  let err := match err with
    | None => if maxCodeSizeExceeded then Some VErrMaxCodeSizeExceeded else None | _ => err end in
  Ret (s, ret, address, gas, err).

(** create: the state, the return data, the new address, the gas, the error. *)
Definition create (evm : EVM) (s : StateDB) (caller : Address) (code : bytes) (codeHash : Hash) (gas value : Z)
    (address : Address) : outcome (StateDB * bytes * Address * Z * option vmerror) :=
  if CallCreateDepth <? depth evm then Ret (s, [], 0, gas, Some VErrDepth)
  else if negb (CanTransfer s caller value) then Ret (s, [], 0, gas, Some VErrInsufficientBalance)
  else
    let s := SetNonce s caller (u64 (GetNonce s caller + 1)) in
    let s := if rule IsBerlin evm then AddAddressToAccessList s address else s in
    let contractHash := GetCodeHash s address in
    if negb (GetNonce s address =? 0)
       || (negb (contractHash =? 0) && negb (contractHash =? emptyCodeHash))
    then Ret (s, [], 0, 0, Some VErrContractAddressCollision)
    else
      let '(s, snapshot) := Snapshot s in
      let s := CreateAccount s address in
      let s := if rule IsEIP158 evm then SetNonce s address 1 else s in
      let s := Transfer s caller address value in
      if NoRecursion evm && (0 <? depth evm) then Ret (s, [], address, gas, None)
      else
        '(s, ret, gas, err) ← Run evm s (mkContract caller address code codeHash value gas) [] false;
        createTail evm snapshot s address ret gas err.

Definition Create (evm : EVM) (s : StateDB) (caller : Address) (code : bytes) (gas value : Z)
  : outcome (StateDB * bytes * Address * Z * option vmerror) :=
  create evm s caller code 0 gas value (CreateAddress caller (GetNonce s caller)).

(** Create2 derives the address from a salt and the hash of the code. *)
Definition Create2 (evm : EVM) (s : StateDB) (caller : Address) (code : bytes) (gas endowment salt : Z)
  : outcome (StateDB * bytes * Address * Z * option vmerror) :=
  create evm s caller code (keccak256 code) gas endowment (CreateAddress2 caller salt (keccak256 code)).

End Frame.

(** ** What the frame relies on *)

(** Every unit of gas pays for at most [RefundRatio] units of refund, and
    every frame for one SELFDESTRUCT more. *)
Definition RefundRatio : Z := 600.
Definition potential (s : StateDB) (gas : Z) : Z := refund s + RefundRatio * gas.

Section Ready.
Context `{Crypto} `{Database}.

(** What running a contract needs: a metered state with room in the refund
    counter, the account of the contract in the state and, from Berlin on, in
    the access list, and a chain with an identifier. *)
Record ready (evm : EVM) (s : StateDB) (self : Address) (gas : Z) : Prop := {
  rd_sane : sane s;
  rd_metered : metered s;
  rd_gas : 0 <= gas;
  rd_room : potential s gas + SelfdestructRefundGas < two64;
  rd_warm : rule IsBerlin evm = true -> warm s self;
  rd_exist : is_Some (live_at s self);
  rd_chain : ChainID (chainConfig evm) <> None
}.

(** What a run that did not fail leaves. *)
Record ran_ok (s s' : StateDB) (gas gas' : Z) : Prop := {
  kp_metered : metered s';
  kp_potential : potential s' gas' <= potential s gas + SelfdestructRefundGas;
  kp_warm a : warm s a -> warm s' a;
  kp_exist a : is_Some (live_at s a) -> is_Some (live_at s' a)
}.

(** Running code in [evm] returns, changes the state through its interface
    only, reverts no snapshot of its callers and does not create gas. *)
Definition run_ok `{Interpreter} (evm : EVM) : Prop := forall s c input ro,
  ready evm s (c_self c) (c_Gas c) ->
  exists s' ret gas err, Run evm s c input ro = Ret (s', ret, gas, err) /\ runs s s' /\
    0 <= gas <= c_Gas c /\ err <> Some VErrCodeStoreOutOfGas /\ (err = None -> ran_ok s s' (c_Gas c) gas).

(** So do the precompiled contracts, on an amount of gas that can be paid. *)
Definition precompiled_ok `{Interpreter} (evm : EVM) : Prop := forall a input gas, 0 <= gas < 2 ^ 56 ->
  exists ret gas' err, RunPrecompiled evm a input gas = Ret (ret, gas', err) /\ 0 <= gas' <= gas.

Lemma ran_refl s gas gas' : 0 <= gas' <= gas -> metered s -> ran_ok s s gas gas'.
Proof. intros Hg M. split; try done. unfold potential, RefundRatio, SelfdestructRefundGas. lia. Qed.

(** A frame that changed nothing before its code ran. *)
Lemma ran_calm s s1 s2 gas gas' : calm s s1 -> ran_ok s1 s2 gas gas' -> ran_ok s s2 gas gas'.
Proof.
  intros C [K1 K2 K3 K4]. split; [done| | |].
  - unfold potential in *. by rewrite <- (cl_refund _ _ C).
  - intros a Ha. apply K3. unfold warm. by rewrite (cl_list _ _ C).
  - intros a Ha. by apply K4, (cl_exist _ _ C).
Qed.

Lemma calm_ran s s1 gas gas' : calm s s1 -> metered s -> 0 <= gas' <= gas -> ran_ok s s1 gas gas'.
Proof. intros C M Hg. eapply ran_calm; [done|]. apply ran_refl; [done|]. by eapply calm_metered. Qed.

(** Code stored after the run. *)
Lemma ran_then s s1 s2 gas gas1 gas2 : ran_ok s s1 gas gas1 -> calm s1 s2 -> gas2 <= gas1 -> ran_ok s s2 gas gas2.
Proof.
  intros [K1 K2 K3 K4] C Hg. split.
  - by eapply calm_metered.
  - unfold potential, RefundRatio in *. rewrite (cl_refund _ _ C). lia.
  - intros a Ha%K3. unfold warm. by rewrite (cl_list _ _ C).
  - intros a Ha%K4. by apply (cl_exist _ _ C).
Qed.

Lemma equiv_exist s s' a : sdb_equiv s' s -> is_Some (live_at s a) -> is_Some (live_at s' a).
Proof. intros Eq. by destruct (live_at_equiv s' s a Eq). Qed.

(** A frame that went back to its snapshot. *)
Lemma reverted_ran s s' gas gas' : sdb_equiv s' s -> runs s s' -> entries s' = entries s -> metered s ->
  0 <= gas' <= gas -> ran_ok s s' gas gas'.
Proof.
  intros Eq Hr He M Hg. split.
  - by eapply metered_reverted.
  - unfold potential, RefundRatio, SelfdestructRefundGas. rewrite (se_refund _ _ Eq). lia.
  - intros a. unfold warm. by rewrite (se_accessList _ _ Eq).
  - intros a. by apply equiv_exist.
Qed.

(** A state the frame set up for its code. *)
Lemma ready_calm evm s s1 self self' gas : ready evm s self gas -> sane s1 -> calm s s1 ->
  (rule IsBerlin evm = true -> warm s self') -> is_Some (live_at s1 self') -> ready evm s1 self' gas.
Proof.
  intros [R1 R2 R3 R4 R5 R6 R7] Hs C Hw Hl. split; try done.
  - by eapply calm_metered.
  - unfold potential in *. by rewrite (cl_refund _ _ C).
  - intros Hb. unfold warm. rewrite (cl_list _ _ C). by apply Hw.
Qed.

End Ready.

Class InterpreterLaws `{Crypto} `{Database} `{Interpreter} : Prop := {
  Run_total evm : run_ok evm;
  RunPrecompiled_total evm : precompiled_ok evm
}.

Section CallProofs.
Context `{Crypto} `{Database} `{Interpreter}.

(** The laws at one EVM; the code runs below the limit of the depth only. *)
Context (evm : EVM).
Hypothesis Hrun : depth evm <= CallCreateDepth -> run_ok evm.
Hypothesis Hpre : precompiled_ok evm.

Lemma Transfer_runs s a b v : runs s (Transfer s a b v).
Proof. exists [OSubBalance a v; OAddBalance b v]. done. Qed.

Lemma calm_Transfer s a b v : sane s -> calm s (Transfer s a b v).
Proof.
  intros Hs. eapply calm_trans; [by apply calm_SubBalance|]. apply calm_AddBalance.
  by eapply runs_sane; [|by eapply (runs_op s (OSubBalance a v))].
Qed.

(** The states a frame passes through, from before its snapshot. *)
Record frame_ok (s s' : StateDB) (gas gas' : Z) (err : option vmerror) : Prop := {
  fr_runs : runs s s';
  fr_ran : ran_ok s s' gas gas';
  fr_gas : 0 <= gas' <= gas;
  fr_error : err <> None -> sdb_equiv s' s
}.

Lemma endCall_ok s s1 ret gas gas1 err : sane s -> metered s -> runs (Snapshot s).1 s1 ->
  (err = None -> ran_ok s s1 gas gas1) -> 0 <= gas1 <= gas ->
  exists s' gas', endCall (Snapshot s).2 s1 ret gas1 err = Ret (s', ret, gas', err) /\
    frame_ok s s' gas gas' err.
Proof.
  intros Hs M Hr Hk Hg. unfold endCall. destruct err as [e|].
  - destruct (runs_revert s s1 Hs Hr) as (s' & -> & Eq & Hr' & He). cbn [mbind outcome_bind].
    assert (0 <= (if decide (e = VErrExecutionReverted) then gas1 else 0) <= gas) by (case_decide; lia).
    eexists _, _. split; [done|]. split; [done| |done|done]. by apply reverted_ran.
  - eexists _, _. split; [done|]. split; [|by apply Hk|done|done].
    eapply runs_trans; [done|by eapply (runs_op s OSnapshot)|done].
Qed.

(** The code of a frame, started in a state [s1] after its snapshot. *)
Lemma body_ok s s1 c input ro gas : sane s -> metered s -> depth evm <= CallCreateDepth ->
  runs (Snapshot s).1 s1 -> calm s s1 -> c_Gas c = gas -> ready evm s1 (c_self c) gas ->
  exists s' ret gas' err,
    ('(s2, ret, gas, err) ← Run evm s1 c input ro; endCall (Snapshot s).2 s2 ret gas err) = Ret (s', ret, gas', err) /\
    frame_ok s s' gas gas' err.
Proof.
  intros Hs M Hd Hr1 C1 <- R. destruct (Hrun Hd s1 c input ro R) as (s2 & ret & gas1 & err & -> & Hr2 & Hg & _ & Hk).
  cbn [mbind outcome_bind].
  destruct (endCall_ok s s2 ret (c_Gas c) gas1 err Hs M) as (s' & gas' & -> & Hf); [|by intros E; eapply ran_calm, Hk|done|eauto 10].
  eapply runs_trans; [|done..]. by eapply runs_sane; [|by eapply (runs_op s OSnapshot)].
Qed.

Lemma potential_gas s gas : metered s -> potential s gas + SelfdestructRefundGas < two64 -> gas < 2 ^ 56.
Proof. intros [Hr _ _ _ _]. unfold potential, RefundRatio, SelfdestructRefundGas, two64. lia. Qed.

Lemma native_ok s s1 addr input gas : sane s -> metered s -> 0 <= gas < 2 ^ 56 -> runs (Snapshot s).1 s1 -> calm s s1 ->
  exists s' ret gas' err,
    ('(ret, gas, err) ← (RunPrecompiled evm addr input gas : outcome (bytes * Z * option vmerror));
     endCall (Snapshot s).2 s1 ret gas err) = Ret (s', ret, gas', err) /\ frame_ok s s' gas gas' err.
Proof.
  intros Hs M Hg Hr C. destruct (Hpre addr input gas Hg) as (ret & gas1 & err & -> & Hg1). cbn [mbind outcome_bind].
  destruct (endCall_ok s s1 ret gas gas1 err Hs M Hr) as (s' & gas' & -> & Hfr);
    [by intros _; apply calm_ran|done|eauto 10].
Qed.

Lemma frame_refl s gas err : metered s -> 0 <= gas -> exists s' ret gas' err',
  Ret (s, ([] : bytes), gas, err) = Ret (s', ret, gas', err') /\ frame_ok s s' gas gas' err'.
Proof.
  intros M Hg. eexists _, _, _, _. split; [done|]. split; [apply runs_refl|by apply ran_refl|lia|done].
Qed.

Lemma Call_frame s caller addr input gas value : sane s -> metered s -> 0 <= gas ->
  potential s gas + SelfdestructRefundGas < two64 -> (rule IsBerlin evm = true -> warm s addr) ->
  ChainID (chainConfig evm) <> None ->
  exists s' ret gas' err, Call evm s caller addr input gas value = Ret (s', ret, gas', err) /\
    frame_ok s s' gas gas' err.
Proof.
  intros Hs M Hg Hp Hw Hch. unfold Call.
  case_match; [by apply frame_refl|]. destruct (Z.ltb_spec CallCreateDepth (depth evm)); [by apply frame_refl|].
  case_match; [by apply frame_refl|]. rewrite (surjective_pairing (Snapshot s)). set (s0 := (Snapshot s).1).
  assert (runs s s0) as Hs0 by by eapply (runs_op s OSnapshot).
  assert (calm s s0) as C0 by apply calm_Snapshot. assert (sane s0) as Hsane0 by by eapply runs_sane.
  case_match.
  { eexists _, _, _, _. split; [done|]. split; [done|by apply calm_ran|lia|done]. }
  set (s1 := if Exist s0 addr then s0 else CreateAccount s0 addr).
  assert (runs s0 s1 /\ calm s0 s1 /\ is_Some (live_at s1 addr)) as (Hr1 & C1 & L1).
  { unfold s1. rewrite Exist_live. case_bool_decide; [by split_and!; [apply runs_refl|apply calm_refl|]|].
    split_and!; [by eapply (runs_op s0 (OCreateAccount addr))|by apply calm_CreateAccount|].
    rewrite CreateAccount_live, decide_True by (done || by apply sane_ok). by destruct (live_at s0 addr). }
  set (s2 := Transfer s1 caller addr value). assert (sane s1) as Hsane1 by by eapply (runs_sane s0).
  assert (runs s0 s2) as Hr2 by (by eapply runs_trans, Transfer_runs).
  pose proof (calm_Transfer s1 caller addr value Hsane1) as C2. fold s2 in C2.
  assert (calm s s2) as C by (eapply calm_trans; [done|]; by eapply calm_trans).
  destruct (precompile evm addr); [apply native_ok; try done; split; [done|by eapply potential_gas]|].
  case_match.
  - destruct (endCall_ok s s2 [] gas gas None Hs M Hr2) as (s' & gas' & -> & Hfr);
      [intros _; by apply calm_ran|lia|eauto 10].
  - apply body_ok; try done. cbn [c_self]. split; try done.
    + by apply (runs_sane s0).
    + by eapply calm_metered.
    + unfold potential. by rewrite (cl_refund _ _ C).
    + intros Hb. unfold warm. rewrite (cl_list _ _ C). by apply Hw.
    + by apply (cl_exist _ _ C2).
Qed.

(** The calls that run foreign code for their caller. *)
Lemma callBody_ok s s1 addr c input ro : sane s -> depth evm <= CallCreateDepth ->
  runs (Snapshot s).1 s1 -> calm s s1 ->
  ready evm s1 (c_self c) (c_Gas c) -> metered s ->
  exists s' ret gas' err, callBody evm (Snapshot s).2 s1 addr c input ro = Ret (s', ret, gas', err) /\
    frame_ok s s' (c_Gas c) gas' err.
Proof.
  intros Hs Hd Hr C R M. unfold callBody. destruct (precompile evm addr).
  - apply native_ok; try done. split; [apply R|]. eapply potential_gas; apply R.
  - by apply body_ok.
Qed.

Lemma CallCode_frame s caller addr input gas value : ready evm s caller gas ->
  exists s' ret gas' err, CallCode evm s caller addr input gas value = Ret (s', ret, gas', err) /\
    frame_ok s s' gas gas' err.
Proof.
  intros R. destruct (R) as [Hs M Hg _ Hw He _]. unfold CallCode.
  case_match; [by apply frame_refl|]. destruct (Z.ltb_spec CallCreateDepth (depth evm)); [by apply frame_refl|].
  case_match; [by apply frame_refl|]. rewrite (surjective_pairing (Snapshot s)).
  pose proof (calm_Snapshot s) as C. assert (runs s (Snapshot s).1) as Hr by by eapply (runs_op s OSnapshot).
  apply (callBody_ok s (Snapshot s).1 addr (mkContract _ _ _ _ _ gas)); try done; [apply runs_refl|].
  cbn [c_self c_Gas]. eapply ready_calm; try done. by eapply runs_sane.
Qed.

Lemma DelegateCall_frame s parent addr input gas : ready evm s (c_self parent) gas ->
  exists s' ret gas' err, DelegateCall evm s parent addr input gas = Ret (s', ret, gas', err) /\
    frame_ok s s' gas gas' err.
Proof.
  intros R. destruct (R) as [Hs M Hg _ Hw He _]. unfold DelegateCall.
  case_match; [by apply frame_refl|]. destruct (Z.ltb_spec CallCreateDepth (depth evm)); [by apply frame_refl|].
  rewrite (surjective_pairing (Snapshot s)).
  pose proof (calm_Snapshot s) as C. assert (runs s (Snapshot s).1) as Hr by by eapply (runs_op s OSnapshot).
  apply (callBody_ok s (Snapshot s).1 addr (mkContract _ _ _ _ _ gas)); try done; [apply runs_refl|].
  cbn [c_self c_Gas]. eapply ready_calm; try done. by eapply runs_sane.
Qed.

Lemma StaticCall_frame s caller addr input gas : ready evm s caller gas ->
  (rule IsBerlin evm = true -> warm s addr) ->
  exists s' ret gas' err, StaticCall evm s caller addr input gas = Ret (s', ret, gas', err) /\
    frame_ok s s' gas gas' err.
Proof.
  intros R Hw'. destruct (R) as [Hs M Hg _ Hw He _]. unfold StaticCall.
  case_match; [by apply frame_refl|]. destruct (Z.ltb_spec CallCreateDepth (depth evm)); [by apply frame_refl|].
  rewrite (surjective_pairing (Snapshot s)). set (s0 := (Snapshot s).1).
  pose proof (calm_Snapshot s) as C0. assert (runs s s0) as Hr0 by by eapply (runs_op s OSnapshot).
  assert (sane s0) as Hs0 by by eapply runs_sane. set (s1 := AddBalance s0 addr 0).
  assert (runs s0 s1) as Hr1 by by eapply (runs_op s0 (OAddBalance addr 0)).
  assert (calm s s1) as C by (eapply calm_trans; [done|by apply calm_AddBalance]).
  apply (callBody_ok s s1 addr (mkContract _ _ _ _ _ gas)); try done.
  cbn [c_self c_Gas]. eapply ready_calm; try done; [by apply (runs_sane s0)|].
  unfold s1. rewrite AddBalance_updates, decide_True by (done || by apply sane_ok). done.
Qed.

(** The state create takes its snapshot in. *)
Definition preCreate (s : StateDB) (caller address : Address) : StateDB :=
  let s := SetNonce s caller (u64 (GetNonce s caller + 1)) in
  if rule IsBerlin evm then AddAddressToAccessList s address else s.

Lemma preCreate_ok s caller address gas : sane s -> metered s -> let s0 := preCreate s caller address in
  runs s s0 /\ metered s0 /\ refund s0 = refund s /\ (forall a, warm s a -> warm s0 a) /\
  (rule IsBerlin evm = true -> warm s0 address) /\ (forall a, is_Some (live_at s a) -> is_Some (live_at s0 a)) /\
  (forall s' gas', ran_ok s0 s' gas gas' -> ran_ok s s' gas gas').
Proof.
  intros Hs M. unfold preCreate. set (s1 := SetNonce _ _ _). pose proof (calm_SetNonce s caller (u64 (GetNonce s caller + 1)) Hs) as C1.
  fold s1 in C1. assert (runs s s1) as R1 by by eapply (runs_op s (OSetNonce caller (u64 (GetNonce s caller + 1)))).
  assert (sane s1) as Hs1 by by eapply runs_sane. assert (metered s1) as M1 by by eapply calm_metered.
  assert (forall a, warm s a -> warm s1 a) as W1 by (intros a; unfold warm; by rewrite (cl_list _ _ C1)).
  destruct (rule IsBerlin evm).
  - destruct (AddAddress_tallied s1 address) as [T F]. set (s2 := AddAddressToAccessList s1 address) in *.
    assert (refund s2 = refund s) as F2 by (rewrite F; by apply (cl_refund _ _ C1)).
    assert (forall a, warm s a -> warm s2 a) as W2 by (intros a Ha; by apply warm_add, W1).
    assert (forall a, is_Some (live_at s a) -> is_Some (live_at s2 a)) as L2.
    { intros a Ha. rewrite (ta_live _ _ T). by apply (cl_exist _ _ C1). }
    split_and!; try done.
    + eapply runs_trans; [done..|]. by eapply (runs_op s1 (OAddAddress address)).
    + eapply metered_tallied; [done| |done]. lia.
    + intros _. apply warm_added.
    + intros s' gas' [K1 K2 K3 K4]. split; [done| |naive_solver..]. unfold potential in *. by rewrite <- F2.
  - split_and!; try done; [apply (cl_refund _ _ C1)|apply (cl_exist _ _ C1)|]. intros s' gas'. by apply ran_calm.
Qed.

Lemma UseGas_bound have gas rest : 0 <= gas -> UseGas have gas = Some rest -> 0 <= rest <= have.
Proof. unfold UseGas. case_match; intros; simplify_eq. lia. Qed.


Lemma createTail_ok s0 s1 address ret gas gas1 err : sane s0 -> metered s0 -> runs (Snapshot s0).1 s1 ->
  (err = None -> ran_ok s0 s1 gas gas1) -> err <> Some VErrCodeStoreOutOfGas -> 0 <= gas1 <= gas ->
  exists s' gas' err', createTail evm (Snapshot s0).2 s1 address ret gas1 err = Ret (s', ret, address, gas', err') /\
    runs s0 s' /\ ran_ok s0 s' gas gas' /\ 0 <= gas' <= gas /\
    (err' <> None -> rule IsHomestead evm = true -> sdb_equiv s' s0).
Proof.
  intros Hs M Hr Hk Hne Hg. unfold createTail. set (exceeded := rule IsEIP158 evm && _).
  assert (sane (Snapshot s0).1) as Hs1 by (by eapply runs_sane; [|by eapply (runs_op s0 OSnapshot)]).
  assert (runs s0 (Snapshot s0).1) as Hsnap by by eapply (runs_op s0 OSnapshot).
  assert (sane s1) as Hsane1 by by apply (runs_sane (Snapshot s0).1).
  destruct (runs_revert s0 s1 Hs Hr) as (sr & Er & Eq & Hrr & Her).
  assert (forall g, 0 <= g <= gas -> ran_ok s0 sr gas g) as Hkr by (intros; by apply reverted_ran).
  destruct err as [e|].
  { assert (bool_decide (e <> VErrCodeStoreOutOfGas) = true) as -> by (apply bool_decide_eq_true; congruence).
    rewrite !orb_true_r, Er. cbn [mbind outcome_bind]. eexists _, _, _. split; [done|].
    split_and!; try done; [apply Hkr|..]; case_decide; lia. }
  destruct exceeded.
  { cbn [orb]. rewrite Er. cbn [mbind outcome_bind]. eexists _, _, _. split; [done|].
    split_and!; try done; [apply Hkr|..]; case_decide; lia. }
  assert (runs s0 s1) as Hr01 by by apply (runs_trans _ (Snapshot s0).1).
  destruct (UseGas gas1 _) as [gas2|] eqn:Eu; cbn [orb].
  - pose proof (UseGas_bound _ _ _ (proj1 (u64_range _)) Eu). cbn [mbind outcome_bind]. eexists _, _, _. split; [done|].
    split_and!; try done; try lia.
    + eapply runs_trans; [done..|]. by eapply (runs_op s1 (OSetCode address ret)).
    + eapply ran_then; [by apply Hk|by apply calm_SetCode|lia].
  - rewrite bool_decide_eq_false_2 by (intros Hn; by apply Hn). rewrite orb_false_r.
    destruct (rule IsHomestead evm) eqn:Eh; cbn [mbind outcome_bind].
    + rewrite Er. cbn [mbind outcome_bind]. eexists _, _, _. split; [done|].
      split_and!; try done; [apply Hkr|..]; case_decide; lia.
    + eexists _, _, _. split; [done|]. split_and!; try done; [by apply Hk|lia..].
Qed.

(** Both ways of creating a contract. *)
Lemma create_frame s caller code codeHash gas value address : sane s -> metered s -> 0 <= gas ->
  potential s gas + SelfdestructRefundGas < two64 -> ChainID (chainConfig evm) <> None ->
  exists s' ret addr' gas' err, create evm s caller code codeHash gas value address = Ret (s', ret, addr', gas', err) /\
    runs s s' /\ ran_ok s s' gas gas' /\ 0 <= gas' <= gas /\
    (err <> None -> rule IsHomestead evm = true ->
       sdb_equiv s' s \/ sdb_equiv s' (preCreate s caller address)).
Proof.
  intros Hs M Hg Hp Hch. unfold create. destruct (Z.ltb_spec CallCreateDepth (depth evm)) as [|Hd].
  { eexists _, _, _, _, _. split; [done|]. split_and!; try done; [apply runs_refl|by apply ran_refl|by left]. }
  case_match. { eexists _, _, _, _, _. split; [done|]. split_and!; try done; [apply runs_refl|by apply ran_refl|by left]. }
  fold (preCreate s caller address). destruct (preCreate_ok s caller address gas Hs M) as (Hr0 & M0 & F0 & W0 & Wa & L0 & K0).
  set (s0 := preCreate s caller address) in *. assert (sane s0) as Hs0 by by apply (runs_sane s).
  case_match.
  { eexists _, _, _, _, _. split; [done|]. split_and!; try done; [by apply K0, ran_refl|by right]. }
  rewrite (surjective_pairing (Snapshot s0)). set (s1 := (Snapshot s0).1).
  assert (runs s0 s1) as Hr1 by by eapply (runs_op s0 OSnapshot). assert (sane s1) as Hs1 by by apply (runs_sane s0).
  set (s2 := CreateAccount s1 address). set (s3 := if rule IsEIP158 evm then SetNonce s2 address 1 else s2).
  set (s4 := Transfer s3 caller address value).
  assert (runs s1 s2) as Hr2 by by eapply (runs_op s1 (OCreateAccount address)).
  assert (sane s2) as Hs2 by by apply (runs_sane s1).
  assert (runs s2 s3 /\ calm s2 s3) as [Hr3 C3].
  { unfold s3. case_match; [split; [by eapply (runs_op s2 (OSetNonce address 1))|by apply calm_SetNonce]|].
    split; [apply runs_refl|apply calm_refl]. }
  assert (sane s3) as Hs3 by by apply (runs_sane s2).
  assert (runs s1 s4) as Hr4.
  { apply (runs_trans _ s2); [done..|]. apply (runs_trans _ s3); [done..|]. apply Transfer_runs. }
  pose proof (calm_Transfer s3 caller address value Hs3) as C4. fold s4 in C4.
  assert (calm s0 s4) as C.
  { eapply calm_trans; [apply calm_Snapshot|]. eapply calm_trans; [by apply calm_CreateAccount|]. by eapply calm_trans. }
  assert (sane s4) as Hs4 by by apply (runs_sane s1).
  case_match.
  { eexists _, _, _, _, _. split; [done|]. split_and!; try done.
    - apply (runs_trans _ s0); [done..|]. by apply (runs_trans _ s1).
    - by apply K0, calm_ran. }
  assert (ready evm s4 address gas) as R.
  { split; try done; [by eapply calm_metered|unfold potential; by rewrite (cl_refund _ _ C), F0| |].
    - intros Hb. unfold warm. rewrite (cl_list _ _ C). by apply Wa.
    - apply (cl_exist _ _ C4), (cl_exist _ _ C3). unfold s2.
      rewrite CreateAccount_live, decide_True by (done || by apply sane_ok). by destruct (live_at s1 address). }
  destruct (Hrun Hd s4 (mkContract caller address code codeHash value gas) [] false R)
    as (s5 & ret & gas1 & err & -> & Hr5 & Hg5 & Hne & Hk5). cbn [mbind outcome_bind].
  destruct (createTail_ok s0 s5 address ret gas gas1 err) as (s' & gas' & err' & Ht & Hr' & Hk' & Hg' & He');
    [done|done|by apply (runs_trans _ s4)|intros E; by eapply ran_calm, Hk5|done|done|].
  rewrite Ht. eexists _, _, _, _, _. split; [done|].
  split_and!; try done; try lia; [by apply (runs_trans _ s0)|by apply K0|intros; right; by apply He'].
Qed.

End CallProofs.

(** ** Properties *)

Section CallProperties.
Context `{Crypto} `{Database} `{Interpreter} `{!InterpreterLaws}.

(** C22: in a reachable state whose refund counter covers its cleared slots,
    Call returns, creates no gas and, when it fails,
    leaves a state no getter tells from the one it was called in, whatever
    the called code did before. *)
Theorem Call_reverts evm s caller addr input gas value : reachable s -> metered s -> 0 <= gas ->
  potential s gas + SelfdestructRefundGas < two64 -> (rule IsBerlin evm = true -> warm s addr) ->
  ChainID (chainConfig evm) <> None ->
  exists s' ret gas' err, Call evm s caller addr input gas value = Ret (s', ret, gas', err) /\
    0 <= gas' <= gas /\ (err <> None -> sdb_equiv s' s).
Proof.
  intros Hs%reachable_sane M Hg Hp Hw Hch.
  destruct (Call_frame evm (fun _ => Run_total evm) (RunPrecompiled_total evm) s caller addr input gas value Hs M Hg Hp Hw Hch)
    as (s' & ret & gas' & err & E & []).
  by exists s', ret, gas', err.
Qed.

(** C23: in a reachable state whose refund counter covers its cleared slots,
    Create returns and creates no gas; from
    Homestead on, when it fails the state is the old one, or the old one with
    the nonce of the caller raised and, from Berlin on, the new address in the
    access list. *)
Theorem Create_reverts evm s caller code gas value : reachable s -> metered s -> 0 <= gas ->
  potential s gas + SelfdestructRefundGas < two64 -> ChainID (chainConfig evm) <> None ->
  exists s' ret addr gas' err, Create evm s caller code gas value = Ret (s', ret, addr, gas', err) /\
    0 <= gas' <= gas /\
    (err <> None -> rule IsHomestead evm = true ->
       sdb_equiv s' s \/ sdb_equiv s' (preCreate evm s caller (CreateAddress caller (GetNonce s caller)))).
Proof.
  intros Hs%reachable_sane M Hg Hp Hch.
  destruct (create_frame evm (fun _ => Run_total evm) s caller code 0 gas value (CreateAddress caller (GetNonce s caller))
    Hs M Hg Hp Hch) as (s' & ret & addr & gas' & err & E & _ & _ & ? & ?).
  by exists s', ret, addr, gas', err.
Qed.

End CallProperties.

(** ** Witnesses *)

(** Code that fails after crediting its account. *)
Definition toyInterpreter : Interpreter := {|
  Run evm s c input ro :=
    Ret (@AddBalance toyCrypto s (c_self c) 5, [], c_Gas c, Some VErrExecutionReverted);
  RunPrecompiled evm a input gas := Ret ([], gas, None)
|}.

#[local] Existing Instances toyCrypto toyDatabase toyInterpreter.

Lemma toyInterpreter_laws : InterpreterLaws.
Proof.
  split.
  - intros evm s c input ro [Hs _ Hg _ _ _ _]. eexists _, _, _, _. split; [done|]. split_and!; try done; try lia.
    by eapply (runs_op s (OAddBalance (c_self c) 5)).
  - intros evm a input gas Hg. eexists _, _, _. split; [done|]. lia.
Qed.
#[local] Existing Instance toyInterpreter_laws.

Definition config_ex : ChainConfig :=
  mkChainConfig (Some 1) (Some 0) None false (Some 0) 0 (Some 0) (Some 0) (Some 0) (Some 0) (Some 0) (Some 0)
    None None None None 0.
Definition evm_ex : EVM := mkEVM 0 8000000 1 0 1 (fun _ => 0) 7 1 config_ex false 0 false.

(** Account 50 has code. *)
Definition coded_ex : StateDB :=
  SetCode (New {[ 7 := mkAccount 0 100 emptyRoot 0 ]}) 50 [1].

Lemma coded_ex_reachable : reachable coded_ex.
Proof.
  apply (reach_exec (New {[ 7 := mkAccount 0 100 emptyRoot 0 ]}) (OSetCode 50 [1])); [apply reach_new|reflexivity].
Qed.

Lemma coded_ex_metered : metered coded_ex.
Proof.
  eapply calm_metered; [apply calm_SetCode|apply metered_New]. apply reachable_sane, reach_new.
Qed.

Lemma Call_reverts_witness :
  exists s' ret gas', Call evm_ex coded_ex 7 50 [] 1000 10 = Ret (s', ret, gas', Some VErrExecutionReverted) /\
    GetBalance s' 50 = 0.
Proof.
  destruct (Call_reverts evm_ex coded_ex 7 50 [] 1000 10) as (s' & ret & gas' & err & E & _ & Heq).
  - apply coded_ex_reachable.
  - apply coded_ex_metered.
  - lia.
  - vm_compute. reflexivity.
  - discriminate.
  - discriminate.
  - exists s', ret, gas'. assert (err = Some VErrExecutionReverted) as Herr.
    { vm_compute in E. injection E as _ _ _ <-. reflexivity. }
    subst err. split; [exact E|]. rewrite (GetBalance_equiv _ _ 50 (Heq ltac:(discriminate))).
    vm_compute. reflexivity.
Defined.

Lemma Create_reverts_witness :
  exists s' ret addr gas', Create evm_ex coded_ex 7 [1] 1000 10 = Ret (s', ret, addr, gas', Some VErrExecutionReverted) /\
    0 <= gas' <= 1000.
Proof.
  destruct (Create_reverts evm_ex coded_ex 7 [1] 1000 10) as (s' & ret & addr & gas' & err & E & Hg & _).
  - apply coded_ex_reachable.
  - apply coded_ex_metered.
  - lia.
  - vm_compute. reflexivity.
  - discriminate.
  - exists s', ret, addr, gas'. split; [|exact Hg].
    assert (err = Some VErrExecutionReverted) as <-; [|exact E].
    vm_compute in E. injection E as _ _ _ _ <-. reflexivity.
Defined.
