(* ===== verification/StateTransition.v ===== *)
(** * Applying a message (core/state_transition.go, core/gaspool.go)

    [TransitionDb] buys gas, checks the intrinsic gas and the balance, runs
    the call or creation and refunds what is left.  A Go error is a value next
    to the transition, whose state and gas pool keep what happened before the
    error. *)

From S2P Require Import Prelude Rlp Params Transaction AccessList StateDB Journal Accounts VmCommon Metering Evm.

(** ** GasPool *)

Definition AddGas (gp amount : Z) : outcome Z :=
  if MaxUint64 - amount <? gp then Panic else Ret (gp + amount).

Definition SubGas (gp amount : Z) : Z * option error :=
  if gp <? amount then (gp, Some ErrGasLimitReached) else (gp - amount, None).

(** ** Intrinsic gas *)

Definition nonZero (data : bytes) : Z := Z.of_nat (length (filter (fun b => b <> 0) data)).

Definition IntrinsicGas (data : bytes) (accessList : AccessList)
    (isContractCreation isHomestead isEIP2028 : bool) : Z + error :=
  let gas := if isContractCreation && isHomestead then TxGasContractCreation else TxGas in
  let dataGas :=
    match data with
    | [] => inl gas
    | _ =>
        let nz := nonZero data in
        let nonZeroGas := if isEIP2028 then TxDataNonZeroGasEIP2028 else TxDataNonZeroGasFrontier in
        if (MaxUint64 - gas) / nonZeroGas <? nz then inr ErrGasUintOverflow
        else
          let gas := gas + nz * nonZeroGas in
          let z := Z.of_nat (length data) - nz in
          if (MaxUint64 - gas) / TxDataZeroGas <? z then inr ErrGasUintOverflow
          else inl (gas + z * TxDataZeroGas)
    end in
  match dataGas with
  | inr e => inr e
  | inl gas =>
      let gas := u64 (gas + u64 (Z.of_nat (length accessList) * TxAccessListAddressGas)) in
      inl (u64 (gas + u64 (StorageKeys accessList * TxAccessListStorageKeyGas)))
  end.

(** ** The transition *)

Record StateTransition := mkST {
  gp : Z;
  msg : Message;
  gas : Z;
  initialGas : Z;
  state : StateDB;
  evm : EVM
}.
#[export] Instance eta_ST : Eta StateTransition :=
  fun r => mkST (gp r) (msg r) (gas r) (initialGas r) (state r) (evm r).

Record ExecutionResult := mkResult {
  UsedGas : Z;
  Err : option vmerror;
  ReturnData : bytes
}.

Definition Failed (r : ExecutionResult) : bool := bool_decide (is_Some (Err r)).
Definition Return_ (r : ExecutionResult) : bytes :=
  match Err r with Some _ => [] | None => ReturnData r end.
Definition Revert (r : ExecutionResult) : bytes :=
  if decide (Err r = Some VErrExecutionReverted) then ReturnData r else [].

Definition NewStateTransition (evm : EVM) (s : StateDB) (msg : Message) (gp : Z) : StateTransition :=
  mkST gp msg 0 0 s evm.

Definition st_to (st : StateTransition) : Address := default 0 (m_to (msg st)).

(** gasUsed returns the amount of gas used up by the transition. *)
Definition gasUsed (st : StateTransition) : Z := u64 (initialGas st - gas st).

Section Transition.
Context `{Crypto} `{Database} `{Interpreter}.

Definition buyGas (st : StateTransition) : StateTransition * option error :=
  let mgval := m_gasLimit (msg st) * m_gasPrice (msg st) in
  if GetBalance (state st) (m_from (msg st)) <? mgval then (st, Some ErrInsufficientFunds)
  else
    match SubGas (gp st) (m_gasLimit (msg st)) with
    | (gp', Some e) => (st <| gp := gp' |>, Some e)
    | (gp', None) =>
        (st <| gp := gp' |> <| gas := u64 (gas st + m_gasLimit (msg st)) |>
            <| initialGas := m_gasLimit (msg st) |>
            <| state := SubBalance (state st) (m_from (msg st)) mgval |>, None)
    end.

Definition preCheck (st : StateTransition) : StateTransition * option error :=
  if m_checkNonce (msg st) then
    let stNonce := GetNonce (state st) (m_from (msg st)) in
    if stNonce <? m_nonce (msg st) then (st, Some ErrNonceTooHigh)
    else if m_nonce (msg st) <? stNonce then (st, Some ErrNonceTooLow)
    else buyGas st
  else buyGas st.

Definition refundGas (st : StateTransition) : outcome StateTransition :=
  let refund := gasUsed st / 2 in
  let refund := if GetRefund (state st) <? refund then GetRefund (state st) else refund in
  let st := st <| gas := u64 (gas st + refund) |> in
  let remaining := gas st * m_gasPrice (msg st) in
  let st := st <| state := AddBalance (state st) (m_from (msg st)) remaining |> in
  gp' ← AddGas (gp st) (gas st);
  Ret (st <| gp := gp' |>).

Definition TransitionDb (st : StateTransition) : outcome (StateTransition * (ExecutionResult + error)) :=
  match preCheck st with
  | (st, Some e) => Ret (st, inr e)
  | (st, None) =>
      let m := msg st in
      let homestead := rule IsHomestead (evm st) in
      let istanbul := rule IsIstanbul (evm st) in
      let contractCreation := bool_decide (m_to m = None) in
      match IntrinsicGas (m_data m) (m_accessList m) contractCreation homestead istanbul with
      | inr e => Ret (st, inr e)
      | inl igas =>
          if gas st <? igas then Ret (st, inr ErrIntrinsicGas)
          else
            let st := st <| gas := gas st - igas |> in
            if (0 <? m_amount m) && negb (CanTransfer (state st) (m_from m) (m_amount m))
            then Ret (st, inr ErrInsufficientFundsForTransfer)
            else
              s ← (if rule IsBerlin (evm st)
                   then PrepareAccessList (state st) (m_from m) (m_to m) (ActivePrecompiles (evm st))
                          (m_accessList m)
                   else Ret (state st));
              '(s, ret, gas', vmerr) ←
                (if contractCreation then
                   '(s, ret, _, gas', vmerr) ← Create (evm st) s (m_from m) (m_data m) (gas st) (m_amount m);
                   Ret (s, ret, gas', vmerr)
                 else
                   let s := SetNonce s (m_from m) (u64 (GetNonce s (m_from m) + 1)) in
                   Call (evm st) s (m_from m) (st_to st) (m_data m) (gas st) (m_amount m));
              st ← refundGas (st <| state := s |> <| gas := gas' |>);
              Ret (st, inl (mkResult (gasUsed st) vmerr ret))
      end
  end.

Definition ApplyMessage (evm : EVM) (s : StateDB) (msg : Message) (gp : Z)
  : outcome (StateTransition * (ExecutionResult + error)) :=
  TransitionDb (NewStateTransition evm s msg gp).

End Transition.

(** ** Intrinsic gas in the integers *)

Definition dataGas (data : bytes) (create istanbul : bool) : Z :=
  (if create then TxGasContractCreation else TxGas)
  + nonZero data * (if istanbul then TxDataNonZeroGasEIP2028 else TxDataNonZeroGasFrontier)
  + (Z.of_nat (length data) - nonZero data) * TxDataZeroGas.

Lemma nonZero_bound data : 0 <= nonZero data <= Z.of_nat (length data).
Proof. unfold nonZero. pose proof (length_filter (fun b => b <> 0) data). lia. Qed.

Lemma div_overflow M g c n : 0 < c -> ((M - g) / c <? n) = (M <? g + n * c).
Proof.
  intros Hc. apply eq_bool_prop_intro. rewrite !Is_true_true, !Z.ltb_lt. split.
  - intros Hd. assert (M - g < n * c); [|lia].
    destruct (decide (M - g < n * c)); [done|].
    pose proof (Z.div_le_lower_bound (M - g) c n Hc ltac:(lia)). lia.
  - intros Hd. apply Z.div_lt_upper_bound; lia.
Qed.

Lemma u64_add_l a b : u64 (u64 a + b) = u64 (a + b).
Proof. unfold u64. by rewrite Zplus_mod_idemp_l. Qed.
Lemma u64_add_r a b : u64 (a + u64 b) = u64 (a + b).
Proof. unfold u64. by rewrite Zplus_mod_idemp_r. Qed.

Lemma IntrinsicGas_eq data al create homestead istanbul :
  IntrinsicGas data al create homestead istanbul =
    if dataGas data (create && homestead) istanbul <=? MaxUint64
    then inl (u64 (dataGas data (create && homestead) istanbul
                   + Z.of_nat (length al) * TxAccessListAddressGas
                   + StorageKeys al * TxAccessListStorageKeyGas))
    else inr ErrGasUintOverflow.
Proof.
  unfold IntrinsicGas, dataGas. pose proof (nonZero_bound data) as Hnz.
  set (g := if create && homestead then TxGasContractCreation else TxGas).
  set (c := if istanbul then TxDataNonZeroGasEIP2028 else TxDataNonZeroGasFrontier).
  assert (0 < c) as Hc by (unfold c; by destruct istanbul).
  assert (0 < g <= MaxUint64) as Hg by (unfold g; by destruct (create && homestead)).
  assert (forall x, u64 (u64 (x + u64 (Z.of_nat (length al) * TxAccessListAddressGas))
      + u64 (StorageKeys al * TxAccessListStorageKeyGas)) =
    u64 (x + Z.of_nat (length al) * TxAccessListAddressGas + StorageKeys al * TxAccessListStorageKeyGas)) as Hal.
  { intros x. by rewrite u64_add_l, u64_add_r, <- Z.add_assoc, (Z.add_comm (u64 _)), Z.add_assoc, u64_add_r,
      <- !Z.add_assoc, (Z.add_comm (StorageKeys al * _)). }
  destruct data as [|b data'] eqn:Ed.
  - cbn [length]. rewrite Hal. replace (nonZero []) with 0 by done.
    replace (g + 0 * c + (Z.of_nat 0 - 0) * TxDataZeroGas) with g by lia.
    by destruct (Z.leb_spec g MaxUint64); [|lia].
  - rewrite <- Ed in *. rewrite !div_overflow by (done || unfold TxDataZeroGas; lia).
    set (n := nonZero data) in *. set (k := Z.of_nat (length data) - n) in *.
    assert (0 <= k * TxDataZeroGas) by (unfold TxDataZeroGas, k; lia).
    destruct (Z.ltb_spec MaxUint64 (g + n * c)); [destruct (Z.leb_spec (g + n * c + k * TxDataZeroGas) MaxUint64); [lia|done]|].
    destruct (Z.ltb_spec MaxUint64 (g + n * c + k * TxDataZeroGas)),
      (Z.leb_spec (g + n * c + k * TxDataZeroGas) MaxUint64); try lia; [done|]. by rewrite Hal.
Qed.

(** ** Access lists leave accounts alone *)

Section TransitionProofs.
Context `{Crypto} `{Database}.

(** An operation that touches neither the accounts nor the refund. *)
Definition quiet (s s' : StateDB) : Prop :=
  runs s s' /\ tallied s s' /\ refund s' = refund s /\ (forall a, warm s a -> warm s' a).

Lemma quiet_refl s : quiet s s.
Proof. by split; [apply runs_refl|split; [apply tallied_refl|]]. Qed.
Lemma quiet_trans s1 s2 s3 : sane s1 -> quiet s1 s2 -> quiet s2 s3 -> quiet s1 s3.
Proof.
  intros Hs (R1 & T1 & F1 & W1) (R2 & T2 & F2 & W2).
  split_and!; [by eapply runs_trans|by eapply tallied_trans|congruence|auto].
Qed.
Lemma quiet_sane s s' : sane s -> quiet s s' -> sane s'.
Proof. intros Hs (R & _). by eapply runs_sane. Qed.

Lemma AddAddress_quiet s a : quiet s (AddAddressToAccessList s a).
Proof.
  destruct (AddAddress_tallied s a) as [T F].
  split_and!; [by eapply (runs_op s (OAddAddress a))|done|done|]. intros b. apply warm_add.
Qed.

Lemma AddSlot_quiet s a slot : sane s ->
  exists s', AddSlotToAccessList s a slot = Ret s' /\ quiet s s'.
Proof.
  intros Hs. destruct (AddSlot_tallied s a slot Hs) as (s' & E & T & F & W). exists s'. split; [done|].
  split_and!; [by eapply (runs_op s (OAddSlot a slot))|done..].
Qed.

Lemma foldM_quiet {A} (f : StateDB -> A -> outcome StateDB) l s :
  (forall s x, sane s -> exists s', f s x = Ret s' /\ quiet s s') -> sane s ->
  exists s', foldM f s l = Ret s' /\ quiet s s'.
Proof.
  intros Hf. revert s. induction l as [|x l IH]; intros s Hs; simpl.
  { eexists. split; [done|]. apply quiet_refl. }
  destruct (Hf s x Hs) as (s1 & -> & Q1).
  destruct (IH s1) as (s2 & -> & Q2); [by eapply quiet_sane|].
  eexists. split; [done|]. by eapply quiet_trans.
Qed.

Lemma PrepareAccessList_quiet s sender dst precompiles al : sane s ->
  exists s', PrepareAccessList s sender dst precompiles al = Ret s' /\ quiet s s' /\
    forall d, dst = Some d -> warm s' d.
Proof.
  intros Hs. unfold PrepareAccessList. set (s1 := AddAddressToAccessList s sender).
  assert (quiet s s1) as Q1 by apply AddAddress_quiet.
  assert (sane s1) as Hs1 by by eapply quiet_sane.
  set (s2 := match dst with Some d => AddAddressToAccessList s1 d | None => s1 end).
  assert (quiet s1 s2) as Q2 by (unfold s2; destruct dst; [apply AddAddress_quiet|apply quiet_refl]).
  assert (forall d, dst = Some d -> warm s2 d) as W2 by (intros d Ed; unfold s2; rewrite Ed; apply warm_added).
  assert (sane s2) as Hs2 by by apply (quiet_sane s1).
  assert (quiet s2 (fold_left AddAddressToAccessList precompiles s2)) as Q3.
  { clearbody s2. clear Q2 W2. revert s2 Hs2. induction precompiles as [|a l IH]; intros x Hx; simpl; [apply quiet_refl|].
    eapply quiet_trans; [done|apply AddAddress_quiet|]. apply IH. eapply quiet_sane, AddAddress_quiet. done. }
  set (s3 := fold_left AddAddressToAccessList precompiles s2) in *.
  assert (sane s3) as Hs3 by by apply (quiet_sane s2).
  edestruct (foldM_quiet (fun s el => foldM (fun s key => AddSlotToAccessList s (at_Address el) key)
     (AddAddressToAccessList s (at_Address el)) (at_StorageKeys el)) al s3) as (s4 & -> & Q4); [|done|].
  { intros x el Hx. pose proof (AddAddress_quiet x (at_Address el)) as Qx.
    destruct (foldM_quiet (fun s key => AddSlotToAccessList s (at_Address el) key) (at_StorageKeys el)
      (AddAddressToAccessList x (at_Address el))) as (y & -> & Qy).
    - intros; by apply AddSlot_quiet.
    - by eapply quiet_sane.
    - eexists. split; [done|]. by eapply quiet_trans. }
  eexists. split; [done|]. split.
  - eapply quiet_trans; [done|exact Q1|]. eapply quiet_trans; [done|exact Q2|]. by eapply quiet_trans.
  - intros d Hd. apply Q4, Q3. by apply W2.
Qed.

End TransitionProofs.

(** ** The transition *)

Record msg_ok (m : Message) : Prop := {
  mo_gas : is_u64 (m_gasLimit m);
  mo_price : 0 <= m_gasPrice m;
  mo_amount : 0 <= m_amount m
}.

Section Apply.
Context `{Crypto} `{Database} `{Interpreter}.

(** The checks before the message runs, and the state after buying gas. *)
Definition bought (evm : EVM) (s : StateDB) (m : Message) (p : Z) : StateTransition :=
  mkST (p - m_gasLimit m) m (m_gasLimit m) (m_gasLimit m)
    (SubBalance s (m_from m) (m_gasLimit m * m_gasPrice m)) evm.

Definition precheck_error (s : StateDB) (m : Message) (p : Z) : option error :=
  if m_checkNonce m && (GetNonce s (m_from m) <? m_nonce m) then Some ErrNonceTooHigh
  else if m_checkNonce m && (m_nonce m <? GetNonce s (m_from m)) then Some ErrNonceTooLow
  else if GetBalance s (m_from m) <? m_gasLimit m * m_gasPrice m then Some ErrInsufficientFunds
  else if p <? m_gasLimit m then Some ErrGasLimitReached
  else None.

Lemma preCheck_eq evm s m p : is_u64 (m_gasLimit m) ->
  preCheck (NewStateTransition evm s m p) =
    match precheck_error s m p with
    | Some e => (NewStateTransition evm s m p, Some e)
    | None => (bought evm s m p, None)
    end.
Proof.
  intros Hg. unfold preCheck, precheck_error, buyGas, SubGas, NewStateTransition, bought. simpl.
  destruct (m_checkNonce m); simpl; repeat case_match; simplify_eq/=; try done;
    rewrite u64_small by done; done.
Qed.

(** The intrinsic gas of a message under the rules of the block. *)
Definition messageGas (evm : EVM) (m : Message) : Z + error :=
  IntrinsicGas (m_data m) (m_accessList m) (bool_decide (m_to m = None))
    (rule IsHomestead evm) (rule IsIstanbul evm).

Definition intrinsic_error (evm : EVM) (s : StateDB) (m : Message) : option error :=
  match messageGas evm m with
  | inr e => Some e
  | inl igas =>
      if m_gasLimit m <? igas then Some ErrIntrinsicGas
      else if (0 <? m_amount m)
              && (GetBalance s (m_from m) - m_gasLimit m * m_gasPrice m <? m_amount m)
      then Some ErrInsufficientFundsForTransfer
      else None
  end.

(** Leftover gas [g] after the run: what refundGas gives back. *)
Definition refund_of (m : Message) (s : StateDB) (g : Z) : Z :=
  Z.min ((m_gasLimit m - g) / 2) (refund s).

Lemma refundGas_eq st m p g s ev : st = mkST (p - m_gasLimit m) m g (m_gasLimit m) s ev ->
  is_u64 (m_gasLimit m) -> is_u64 p -> m_gasLimit m <= p -> 0 <= g <= m_gasLimit m -> 0 <= refund s ->
  let g' := g + refund_of m s g in
  refundGas st = Ret (mkST (p - m_gasLimit m + g') m g' (m_gasLimit m)
                        (AddBalance s (m_from m) (g' * m_gasPrice m)) ev) /\ g <= g' <= m_gasLimit m /\
  gasUsed (mkST (p - m_gasLimit m + g') m g' (m_gasLimit m)
                        (AddBalance s (m_from m) (g' * m_gasPrice m)) ev) = m_gasLimit m - g'.
Proof.
  intros -> HL Hp HLp Hg Hr g'. unfold is_u64 in *.
  assert (0 <= refund_of m s g <= m_gasLimit m - g) as Hb.
  { unfold refund_of. assert (0 <= (m_gasLimit m - g) / 2 <= m_gasLimit m - g); [|lia].
    split; [apply Z.div_pos; lia|]. apply Z.div_le_upper_bound; lia. }
  unfold refundGas, gasUsed. simpl. rewrite (u64_small (m_gasLimit m - g)) by (unfold is_u64; lia).
  replace (if GetRefund s <? (m_gasLimit m - g) / 2 then GetRefund s else (m_gasLimit m - g) / 2)
    with (refund_of m s g) by (unfold refund_of, GetRefund; destruct (Z.ltb_spec (refund s) ((m_gasLimit m - g) / 2)); lia).
  fold g'. rewrite (u64_small g') by (unfold is_u64, g'; lia). unfold AddGas.
  destruct (Z.ltb_spec (MaxUint64 - g') (p - m_gasLimit m)); [unfold MaxUint64, g' in *; lia|].
  simpl. split_and!; [done|unfold g'; lia..|]. apply u64_small. unfold is_u64, g'. lia.
Qed.

(** The state after the checks: gas bought, intrinsic gas taken. *)
Definition started (evm : EVM) (s : StateDB) (m : Message) (p igas : Z) : StateTransition :=
  (bought evm s m p) <| gas := m_gasLimit m - igas |>.

(** The run between the checks and the refund. *)
Definition runMessage (evm : EVM) (s : StateDB) (m : Message) (g : Z)
  : outcome (StateDB * bytes * Z * option vmerror) :=
  s ← (if rule IsBerlin evm
       then PrepareAccessList s (m_from m) (m_to m) (ActivePrecompiles evm) (m_accessList m)
       else Ret s);
  if bool_decide (m_to m = None) then
    '(s, ret, _, gas', vmerr) ← Create evm s (m_from m) (m_data m) g (m_amount m);
    Ret (s, ret, gas', vmerr)
  else
    Call evm (SetNonce s (m_from m) (u64 (GetNonce s (m_from m) + 1))) (m_from m)
      (default 0 (m_to m)) (m_data m) g (m_amount m).

Lemma ApplyMessage_eq evm s m p : is_u64 (m_gasLimit m) -> core_ok s ->
  ApplyMessage evm s m p =
    match precheck_error s m p, intrinsic_error evm s m with
    | Some e, _ => Ret (NewStateTransition evm s m p, inr e)
    | None, Some e =>
        Ret (match messageGas evm m with
             | inl igas => if m_gasLimit m <? igas then bought evm s m p else started evm s m p igas
             | inr _ => bought evm s m p end, inr e)
    | None, None =>
        match messageGas evm m with
        | inr _ => Panic
        | inl igas =>
            '(s', ret, gas', vmerr) ←
              runMessage evm (state (bought evm s m p)) m (m_gasLimit m - igas);
            st ← refundGas ((started evm s m p igas) <| state := s' |> <| gas := gas' |>);
            Ret (st, inl (mkResult (gasUsed st) vmerr ret))
        end
    end.
Proof.
  intros HL C. unfold ApplyMessage, TransitionDb. rewrite preCheck_eq by done.
  destruct (precheck_error s m p) as [e|]; [done|]. unfold intrinsic_error, messageGas. simpl.
  destruct (IntrinsicGas _ _ _ _ _) as [igas|e]; [|done].
  destruct (m_gasLimit m <? igas) eqn:Eg; [done|]. unfold CanTransfer. simpl.
  destruct (SubBalance_getters s (m_from m) (m_gasLimit m * m_gasPrice m) (m_from m) C) as [Hb _].
  rewrite Hb, decide_True by done. rewrite <- Z.ltb_antisym. unfold runMessage.
  destruct ((0 <? m_amount m) && _); [done|].
  destruct (if rule IsBerlin evm then _ else _) as [s1|]; [|done]. cbn [mbind outcome_bind].
  destruct (bool_decide (m_to m = None)); [|done].
  destruct (Create evm s1 _ _ _ _) as [[[[[s2 ret] ?] g2] ve]|]; done.
Qed.

Context `{!InterpreterLaws}.

(** Enough room in the refund counter for the gas. *)
Definition room (s : StateDB) (gas : Z) : Prop := potential s gas + SelfdestructRefundGas < two64.

(** A gas limit the refund counter cannot overflow under. *)
Definition MaxGas : Z := 2 ^ 54.
Definition gas_ok (gas : Z) : Prop := 0 <= gas <= MaxGas.

Lemma gas_ok_u64 gas : gas_ok gas -> is_u64 gas.
Proof. unfold gas_ok, is_u64, MaxGas, two64. lia. Qed.

Lemma rested_room s gas : rested s -> gas_ok gas -> room s gas.
Proof.
  intros [_ Hr _] Hg. unfold room, potential, RefundRatio, SelfdestructRefundGas, gas_ok, MaxGas, two64 in *. lia.
Qed.

Lemma runMessage_ok evm s m g : sane s -> metered s -> 0 <= g -> room s g -> ChainID (chainConfig evm) <> None ->
  exists s' ret g' err, runMessage evm s m g = Ret (s', ret, g', err) /\ runs s s' /\
    ran_ok s s' g g' /\ 0 <= g' <= g.
Proof.
  intros Hs M Hg Hrm Hch. unfold runMessage.
  assert (exists s1, (if rule IsBerlin evm then PrepareAccessList s (m_from m) (m_to m) (ActivePrecompiles evm)
     (m_accessList m) else Ret s) = Ret s1 /\ quiet s s1 /\ (rule IsBerlin evm = true -> forall d, m_to m = Some d -> warm s1 d))
    as (s1 & -> & Q & W).
  { case_match; [|eexists; split; [done|]; split; [apply quiet_refl|done]].
    destruct (PrepareAccessList_quiet s (m_from m) (m_to m) (ActivePrecompiles evm) (m_accessList m) Hs) as (s1 & E & Q & W).
    by exists s1. }
  cbn [mbind outcome_bind]. assert (sane s1) as Hs1 by by eapply quiet_sane. destruct Q as (R1 & T1 & F1 & W1).
  assert (metered s1) as M1 by (eapply metered_tallied; [done|lia|done]).
  assert (room s1 g) as Hrm1 by (unfold room, potential in *; by rewrite F1).
  assert (forall s' g', ran_ok s1 s' g g' -> ran_ok s s' g g') as K.
  { intros s' g' [K1 K2 K3 K4]. split; [done|unfold potential in *; by rewrite <- F1|by intros a Ha; apply K3, W1|].
    intros a Ha. apply K4. by rewrite (ta_live _ _ T1). }
  case_bool_decide as Hto.
  - destruct (create_frame evm (fun _ => Run_total evm) s1 (m_from m) (m_data m) 0 g (m_amount m)
      (CreateAddress (m_from m) (GetNonce s1 (m_from m))) Hs1 M1 Hg Hrm1 Hch)
      as (s2 & ret & ad & g' & err & E & R2 & K2 & G2 & _). unfold Create. rewrite E. cbn [mbind outcome_bind].
    eexists _, _, _, _. split; [done|]. split_and!; try lia; [by eapply runs_trans|by apply K].
  - set (s2 := SetNonce s1 _ _). pose proof (calm_SetNonce s1 (m_from m) (u64 (GetNonce s1 (m_from m) + 1)) Hs1) as C2. fold s2 in C2.
    assert (runs s1 s2) as R2 by by eapply (runs_op s1 (OSetNonce (m_from m) (u64 (GetNonce s1 (m_from m) + 1)))).
    assert (sane s2) as Hs2 by by apply (runs_sane s1).
    destruct (Call_frame evm (fun _ => Run_total evm) (RunPrecompiled_total evm) s2 (m_from m) (default 0 (m_to m)) (m_data m) g (m_amount m))
      as (s3 & ret & g' & err & -> & [R3 F3 G3 _]); try done.
    + by eapply calm_metered.
    + unfold room, potential in *. by rewrite (cl_refund _ _ C2).
    + intros Hb. unfold warm. rewrite (cl_list _ _ C2). apply W; [done|]. by destruct (m_to m).
    + eexists _, _, _, _. split; [done|]. split_and!; try lia; [|by eapply K, ran_calm].
      apply (runs_trans _ s1); [done..|]. by apply (runs_trans _ s2).
Qed.

Lemma ApplyMessage_ok evm s m p : sane s -> metered s -> room s p -> ChainID (chainConfig evm) <> None ->
  is_u64 p -> msg_ok m ->
  exists st res, ApplyMessage evm s m p = Ret (st, res) /\ runs s (state st) /\
    metered (state st) /\
    match precheck_error s m p, intrinsic_error evm s m with
    | Some e, _ => state st = s /\ gp st = p /\ res = inr e
    | None, Some e => gp st = p - m_gasLimit m /\ res = inr e
    | None, None => exists r igas, res = inl r /\ messageGas evm m = inl igas /\
        gp st = p - UsedGas r /\ 0 <= UsedGas r <= m_gasLimit m /\ igas <= 2 * UsedGas r
    end.
Proof.
  intros Hs M Hrm Hch Hp [HL Hpr Ha]. destruct (sane_ok s Hs) as (C & _ & _).
  rewrite (ApplyMessage_eq evm s m p HL C). unfold precheck_error.
  destruct (m_checkNonce m && _); [eexists _, _; split; [done|]; split; [apply runs_refl|by split]|].
  destruct (m_checkNonce m && _); [eexists _, _; split; [done|]; split; [apply runs_refl|by split]|].
  destruct (_ <? _) in |- *; [eexists _, _; split; [done|]; split; [apply runs_refl|by split]|].
  destruct (Z.ltb_spec p (m_gasLimit m)) as [|Hlp]; [eexists _, _; split; [done|]; split; [apply runs_refl|by split]|].
  set (s1 := SubBalance s (m_from m) (m_gasLimit m * m_gasPrice m)).
  assert (runs s s1) as R1 by by eapply (runs_op s (OSubBalance (m_from m) (m_gasLimit m * m_gasPrice m))).
  assert (sane s1) as Hs1 by by eapply runs_sane.
  pose proof (calm_SubBalance s (m_from m) (m_gasLimit m * m_gasPrice m) Hs) as C1. fold s1 in C1.
  assert (metered s1) as M1 by by eapply calm_metered.
  unfold intrinsic_error. destruct (messageGas evm m) as [igas|e] eqn:Em.
  2:{ eexists _, _. split; [done|]. split; [done|]. by split. }
  destruct (Z.ltb_spec (m_gasLimit m) igas).
  { eexists _, _. split; [done|]. split; [done|]. by split. }
  destruct ((0 <? m_amount m) && _).
  { eexists _, _. split; [done|]. split; [done|]. by split. }
  assert (0 <= igas) as Hig.
  { unfold messageGas in Em. rewrite IntrinsicGas_eq in Em. case_match; simplify_eq. apply u64_range. }
  change (state (bought evm s m p)) with s1. unfold is_u64 in HL.
  destruct (runMessage_ok evm s1 m (m_gasLimit m - igas) Hs1 M1 ltac:(lia)) as (s2 & ret & g & err & -> & R2 & K2 & G2);
    [unfold room, potential, RefundRatio in *; rewrite (cl_refund _ _ C1); lia|done|].
  cbn [mbind outcome_bind]. assert (metered s2) as M2 by apply K2.
  assert (sane s2) as Hs2 by by apply (runs_sane s1).
  destruct (refundGas_eq ((started evm s m p igas) <| state := s2 |> <| gas := g |>) m p g s2 evm) as (-> & Hg' & Hu);
    try done; [lia|apply M2|]. cbn [mbind outcome_bind].
  set (g' := g + refund_of m s2 g) in *. rewrite Hu. eexists _, _. split; [done|]. split.
  { cbn [state]. apply (runs_trans _ s1); [done..|]. apply (runs_trans _ s2); [done..|].
    by eapply (runs_op s2 (OAddBalance (m_from m) (g' * m_gasPrice m))). }
  split; [cbn [state]; by eapply calm_metered; [apply calm_AddBalance|]|].
  eexists _, _. split; [done|]. cbn [UsedGas gp]. split_and!; try done; try lia.
  assert (refund_of m s2 g <= (m_gasLimit m - g) / 2) by (unfold refund_of; lia).
  pose proof (Z.mul_div_le (m_gasLimit m - g) 2). unfold g'. lia.
Qed.

End Apply.

(** ** Transfers to accounts without code *)

Section PlainTransfer.
Context `{Crypto} `{Database} `{Interpreter}.

(** The three getters agree on every account. *)
Definition same_accounts (s s' : StateDB) : Prop :=
  forall a, GetBalance s' a = GetBalance s a /\ GetNonce s' a = GetNonce s a /\ GetCode s' a = GetCode s a.

Lemma live_same_accounts s s' : (forall a, live_at s' a = live_at s a) -> same_accounts s s'.
Proof. intros L a. by rewrite !GetBalance_live, !GetNonce_live, !GetCode_live, !L. Qed.

Definition transfer_balance (s : StateDB) (from to : Address) (v : Z) (a : Address) : Z :=
  GetBalance s a - (if decide (a = from) then v else 0) + (if decide (a = to) then v else 0).

Lemma sane_core s : sane s -> core_ok s.
Proof. by intros (? & _ & _)%sane_ok. Qed.

Lemma Transfer_getters s from to v a : sane s ->
  GetBalance (Transfer s from to v) a = transfer_balance s from to v a /\
  GetNonce (Transfer s from to v) a = GetNonce s a /\ GetCode (Transfer s from to v) a = GetCode s a.
Proof.
  intros Hs. unfold Transfer, transfer_balance.
  assert (sane (SubBalance s from v)) as Hs1.
  { apply (runs_sane s); [done|]. by eapply (runs_op s (OSubBalance from v)). }
  destruct (AddBalance_getters (SubBalance s from v) to v a (sane_core _ Hs1)) as (-> & -> & ->).
  destruct (SubBalance_getters s from v a (sane_core _ Hs)) as (-> & -> & ->). done.
Qed.

Lemma Call_plain evm s from to input g v : sane s -> depth evm = 0 -> precompile evm to = false ->
  default [] (GetCode s to) = [] -> (v <> 0 -> v <= GetBalance s from) ->
  exists s', Call evm s from to input g v = Ret (s', [], g, None) /\ sane s' /\ refund s' = refund s /\
    forall a, GetBalance s' a = transfer_balance s from to v a /\
      GetNonce s' a = GetNonce s a /\ GetCode s' a = GetCode s a.
Proof.
  intros Hs Hd Hp Hc Hv. unfold Call, CanTransfer. rewrite Hd, Hp. simpl. rewrite andb_false_r.
  assert (negb (v =? 0) && negb (v <=? GetBalance s from) = false) as ->.
  { destruct (Z.eqb_spec v 0); simpl; [done|]. specialize (Hv n). lia. }
  set (s0 := s <| nextRevisionId := _ |> <| validRevisions := _ |>).
  assert (sane s0) as Hs0.
  { apply (runs_sane s); [done|]. by eapply (runs_op s OSnapshot). }
  assert (same_accounts s s0) as S0 by by apply live_same_accounts.
  destruct (negb (Exist s0 to) && true && rule IsEIP158 evm && (v =? 0)) eqn:Ee.
  { eexists. split; [done|]. split_and!; [done..|]. intros a. destruct (S0 a) as (-> & -> & ->).
    assert (v = 0) as -> by lia. unfold transfer_balance. split_and!; [|done..]. repeat case_decide; lia. }
  set (s1 := if Exist s0 to then s0 else CreateAccount s0 to).
  assert (sane s1 /\ same_accounts s s1 /\ refund s1 = refund s) as (Hs1 & S1 & F1).
  { unfold s1. destruct (Exist s0 to) eqn:Ex; [done|]. split_and!.
    - apply (runs_sane s0); [done|]. by eapply (runs_op s0 (OCreateAccount to)).
    - intros a. rewrite Exist_live in Ex. apply bool_decide_eq_false in Ex.
      assert (live_at s0 to = None) as Hn by (destruct (live_at s0 to); [by destruct Ex|done]).
      destruct (CreateAccount_getters s0 to a (sane_core _ Hs0) Hn) as (-> & -> & ->). apply S0.
    - by rewrite (cl_refund _ _ (calm_CreateAccount s0 to Hs0)). }
  set (s2 := Transfer s1 from to v).
  assert (forall a, GetBalance s2 a = transfer_balance s from to v a /\ GetNonce s2 a = GetNonce s a /\
    GetCode s2 a = GetCode s a) as S2.
  { intros a. destruct (Transfer_getters s1 from to v a Hs1) as (E1 & E2 & E3).
    destruct (S1 a) as (B & N & K). unfold s2. rewrite E1, E2, E3. unfold transfer_balance. by rewrite B, N, K. }
  assert (default [] (GetCode s2 to) = []) as -> by (by rewrite (proj2 (proj2 (S2 to)))).
  rewrite bool_decide_eq_true_2 by done. eexists. split; [done|]. split_and!.
  - apply (runs_sane s1); [done|]. apply Transfer_runs.
  - unfold s2. by rewrite (cl_refund _ _ (calm_Transfer s1 from to v Hs1)).
  - done.
Qed.

(** A message to an account without code, in numbers. *)
Lemma ApplyMessage_plain evm s m p to igas :
  sane s -> refund s = 0 -> is_u64 p -> msg_ok m -> m_to m = Some to -> depth evm = 0 ->
  precompile evm to = false -> default [] (GetCode s to) = [] ->
  precheck_error s m p = None -> intrinsic_error evm s m = None -> messageGas evm m = inl igas ->
  exists st, ApplyMessage evm s m p = Ret (st, inl (mkResult igas None [])) /\ gp st = p - igas /\
    sane (state st) /\
    forall a, GetBalance (state st) a =
        transfer_balance s (m_from m) to (m_amount m) a
        - (if decide (a = m_from m) then igas * m_gasPrice m else 0) /\
      GetNonce (state st) a =
        (if decide (a = m_from m) then u64 (GetNonce s (m_from m) + 1) else GetNonce s a) /\
      GetCode (state st) a = GetCode s a.
Proof.
  intros Hs Hr Hp [HL Hpr Ha] Hto Hd Hpc Hcode Hpre Hint Hig.
  rewrite (ApplyMessage_eq evm s m p HL (sane_core _ Hs)), Hpre, Hint, Hig.
  set (f := m_from m) in *. set (L := m_gasLimit m) in *. set (v := m_amount m) in *.
  set (s1 := SubBalance s f (L * m_gasPrice m)).
  change (state (bought evm s m p)) with s1. unfold is_u64 in HL.
  assert (igas <= L /\ (v <> 0 -> v <= GetBalance s f - L * m_gasPrice m)) as [HiL Hv].
  { unfold intrinsic_error in Hint. rewrite Hig in Hint. fold f L v in Hint.
    destruct (Z.ltb_spec L igas); [done|]. split; [done|]. intros Hv0.
    destruct ((0 <? v) && _) eqn:E in Hint; [done|]. lia. }
  assert (L <= p) as HLp.
  { unfold precheck_error in Hpre. fold f L in Hpre. repeat case_match; done || lia. }
  assert (0 <= igas) as Hig0.
  { unfold messageGas in Hig. rewrite IntrinsicGas_eq in Hig. case_match; simplify_eq. apply u64_range. }
  assert (sane s1) as Hs1.
  { apply (runs_sane s); [done|]. by eapply (runs_op s (OSubBalance f (L * m_gasPrice m))). }
  unfold runMessage. rewrite Hto. fold f v.
  assert (exists s2, (if rule IsBerlin evm then PrepareAccessList s1 f (Some to) (ActivePrecompiles evm)
     (m_accessList m) else Ret s1) = Ret s2 /\ quiet s1 s2) as (s2 & -> & Q).
  { case_match; [|eexists; split; [done|]; apply quiet_refl].
    destruct (PrepareAccessList_quiet s1 f (Some to) (ActivePrecompiles evm) (m_accessList m) Hs1) as (s2 & E & Q & _).
    by exists s2. }
  cbn [mbind outcome_bind]. assert (sane s2) as Hs2 by by apply (quiet_sane s1).
  destruct Q as (_ & T2 & F2 & _). pose proof (live_same_accounts s1 s2 (ta_live _ _ T2)) as S2.
  rewrite bool_decide_eq_false_2 by done. cbn [default from_option id].
  set (s3 := SetNonce s2 f (u64 (GetNonce s2 f + 1))).
  assert (sane s3) as Hs3.
  { apply (runs_sane s2); [done|]. by eapply (runs_op s2 (OSetNonce f (u64 (GetNonce s2 f + 1)))). }
  assert (forall a, GetBalance s3 a = GetBalance s a - (if decide (a = f) then L * m_gasPrice m else 0) /\
    GetNonce s3 a = (if decide (a = f) then u64 (GetNonce s f + 1) else GetNonce s a) /\
    GetCode s3 a = GetCode s a) as S3.
  { intros a. unfold s3. destruct (SetNonce_getters s2 f (u64 (GetNonce s2 f + 1)) a (sane_core _ Hs2)) as (-> & -> & ->).
    destruct (S2 a) as (-> & -> & ->). rewrite (proj1 (proj2 (S2 f))). unfold s1.
    destruct (SubBalance_getters s f (L * m_gasPrice m) a (sane_core _ Hs)) as (-> & -> & ->).
    destruct (SubBalance_getters s f (L * m_gasPrice m) f (sane_core _ Hs)) as (_ & -> & _). done. }
  destruct (Call_plain evm s3 f to (m_data m) (L - igas) v) as (s4 & -> & Hs4 & F4 & S4); try done.
  { by rewrite (proj2 (proj2 (S3 to))). }
  { intros Hv0. rewrite (proj1 (S3 f)), decide_True by done. auto. }
  cbn [mbind outcome_bind].
  assert (refund s4 = 0) as F4'.
  { rewrite F4. unfold s3. rewrite (cl_refund _ _ (calm_SetNonce s2 _ _ Hs2)), F2. unfold s1.
    by rewrite (cl_refund _ _ (calm_SubBalance s _ _ Hs)). }
  destruct (refundGas_eq ((started evm s m p igas) <| state := s4 |> <| gas := L - igas |>) m p (L - igas) s4 evm)
    as (-> & Hg' & Hu); try done; [fold L; lia..|]. cbn [mbind outcome_bind].
  assert (refund_of m s4 (L - igas) = 0) as Hz.
  { unfold refund_of. fold L. rewrite F4'. assert (0 <= (L - (L - igas)) / 2) by (apply Z.div_pos; lia). lia. }
  rewrite Hu, Hz. fold L f. eexists. split; [do 3 f_equal; f_equal; lia|]. cbn [gp state].
  split_and!; [lia| |].
  - apply (runs_sane s4); [done|]. by eapply (runs_op s4 (OAddBalance f ((L - igas + 0) * m_gasPrice m))).
  - intros a. destruct (AddBalance_getters s4 f ((L - igas + 0) * m_gasPrice m) a (sane_core _ Hs4)) as (-> & -> & ->).
    destruct (S4 a) as (-> & -> & ->). unfold transfer_balance. destruct (S3 a) as (-> & -> & ->).
    split_and!; [|done..]. repeat case_decide; lia.
Qed.

(** A plain transfer moves the amount and burns the fee: over any accounts
    that include the two parties the balances lose exactly the fee. *)
Lemma transfer_sum s s' from to v fee (l : list Address) : NoDup l -> from ∈ l -> to ∈ l ->
  (forall a, GetBalance s' a = transfer_balance s from to v a - (if decide (a = from) then fee else 0)) ->
  sumList (GetBalance s') l = sumList (GetBalance s) l - fee.
Proof.
  intros Hnd Hf Ht E.
  rewrite (sumList_ext _ (fun a => GetBalance s a + ((if decide (a = from) then - v else 0) +
    ((if decide (a = to) then v else 0) + (if decide (a = from) then - fee else 0))))).
  - rewrite !sumList_add, !sumList_single by done. lia.
  - intros a _. rewrite E. unfold transfer_balance. repeat case_decide; lia.
Qed.

End PlainTransfer.

(** ** Properties *)

Section MessageProperties.
Context `{Crypto} `{Database} `{Interpreter}.

(** The intrinsic gas is the integer sum of its parts when the part for
    the data fits into 64 bits, and an error when it does not; the part for
    the access list is added modulo 2^64. *)
Theorem IntrinsicGas_exact data al create homestead istanbul :
  IntrinsicGas data al create homestead istanbul =
    if dataGas data (create && homestead) istanbul <=? MaxUint64
    then inl (u64 (dataGas data (create && homestead) istanbul
                   + Z.of_nat (length al) * TxAccessListAddressGas
                   + StorageKeys al * TxAccessListStorageKeyGas))
    else inr ErrGasUintOverflow.
Proof. apply IntrinsicGas_eq. Qed.

(** C21: in a reachable state whose refund counter covers the cleared slots and
    has room for the gas of the block, ApplyMessage returns.  A message with a wrong
    nonce, without the funds for its gas or above the gas left in the block
    changes neither the state nor the gas pool; one that fails later has used
    its whole gas limit.  Otherwise the pool loses exactly the gas used, which
    is at most the gas limit and, the refund being at most half of it, at
    least half of the intrinsic gas. *)
Theorem ApplyMessage_gas `{!InterpreterLaws} evm s m p : reachable s -> metered s -> room s p ->
  ChainID (chainConfig evm) <> None -> is_u64 p -> msg_ok m ->
  exists st res, ApplyMessage evm s m p = Ret (st, res) /\
    match precheck_error s m p, intrinsic_error evm s m with
    | Some e, _ => state st = s /\ gp st = p /\ res = inr e
    | None, Some e => gp st = p - m_gasLimit m /\ res = inr e
    | None, None => exists r igas, res = inl r /\ messageGas evm m = inl igas /\
        gp st = p - UsedGas r /\ 0 <= UsedGas r <= m_gasLimit m /\ igas <= 2 * UsedGas r
    end.
Proof.
  intros Hs%reachable_sane M Hr Hch Hp Hm. destruct (ApplyMessage_ok evm s m p Hs M Hr Hch Hp Hm) as (st & res & E & _ & _ & Hc).
  by exists st, res.
Qed.


End MessageProperties.

(** ** Witnesses *)

#[local] Existing Instances toyCrypto toyDatabase toyInterpreter toyInterpreter_laws.

Definition bank_ex : StateDB := New {[ 7 := mkAccount 3 1000000 emptyRoot 0 ]}.
Definition msg_ex : Message := mkMessage (Some 80) 7 3 500 30000 2 [] [] true.

Lemma msg_ex_ok : msg_ok msg_ex.
Proof. split; vm_compute; intuition discriminate. Qed.

Lemma ApplyMessage_gas_witness :
  exists st r, ApplyMessage evm_ex bank_ex msg_ex 8000000 = Ret (st, inl r) /\ gp st = 8000000 - UsedGas r.
Proof.
  destruct (ApplyMessage_gas evm_ex bank_ex msg_ex 8000000) as (st & res & E & Hc).
  - apply reach_new.
  - apply metered_New.
  - vm_compute; reflexivity.
  - discriminate.
  - split; vm_compute; discriminate || reflexivity.
  - apply msg_ex_ok.
  - assert (precheck_error bank_ex msg_ex 8000000 = None) as E1 by (vm_compute; reflexivity).
    assert (intrinsic_error evm_ex bank_ex msg_ex = None) as E2 by (vm_compute; reflexivity).
    rewrite E1, E2 in Hc. destruct Hc as (r & igas & -> & _ & Hg & _). exists st, r. split; [exact E|exact Hg].
Defined.

