(* ===== verification/Heap.v ===== *)
(** * Binary heaps (Go's container/heap)

    The transaction lists index nonces and prices with Go's [container/heap].
    [up] and [down] are its two sifting loops on a slice with the client's
    [Less]; the theorems show that every operation keeps the elements and the
    heap order, so that [Pop] returns a minimum, for any [Less] that is a
    strict weak order (class [StrictWeak]). *)

From S2P Require Import Prelude.
#[local] Open Scope nat_scope.

Section Code.
Context {A : Type} (less : A -> A -> bool).

Definition Less (h : list A) (i j : nat) : bool :=
  match h !! i, h !! j with Some x, Some y => less x y | _, _ => false end.

Definition Swap (h : list A) (i j : nat) : list A :=
  match h !! i, h !! j with
  | Some x, Some y => <[j := x]> (<[i := y]> h)
  | _, _ => h
  end.

Definition parent (j : nat) : nat := (j - 1) / 2.

Fixpoint up (fuel : nat) (h : list A) (j : nat) : list A :=
  match fuel with
  | O => h
  | S fuel =>
      let i := parent j in
      if (i =? j) || negb (Less h j i) then h else up fuel (Swap h i j) i
  end.

(** down returns the slice and the final position; Go reports whether it
    moved. *)
Fixpoint down (fuel : nat) (h : list A) (i n : nat) : list A * nat :=
  match fuel with
  | O => (h, i)
  | S fuel =>
      let j1 := 2 * i + 1 in
      if n <=? j1 then (h, i)
      else
        let j2 := j1 + 1 in
        let j := if (j2 <? n) && Less h j2 j1 then j2 else j1 in
        if negb (Less h j i) then (h, i) else down fuel (Swap h i j) j n
  end.

Definition siftUp (h : list A) (j : nat) : list A := up (S j) h j.
Definition siftDown (h : list A) (i n : nat) : list A * nat := down (S n - i) h i n.

(** Init sifts the inner nodes down, the last one first. *)
Fixpoint initLoop (h : list A) (i : nat) : list A :=
  match i with O => h | S i => initLoop (siftDown h i (length h)).1 i end.
Definition Init (h : list A) : list A := initLoop h (length h / 2).

Definition Push (h : list A) (x : A) : list A := siftUp (h ++ [x]) (length h).

(** Pop and Remove on an index out of range panic ([None]). *)
Definition Pop (h : list A) : option (A * list A) :=
  let n := length h - 1 in
  let h := (siftDown (Swap h 0 n) 0 n).1 in
  x ← h !! n; Some (x, take n h).

Definition Remove (h : list A) (i : nat) : option (A * list A) :=
  let n := length h - 1 in
  let h := if n =? i then h
           else let '(h, i') := siftDown (Swap h i n) i n in
                if i <? i' then h else siftUp h i in
  x ← h !! n; Some (x, take n h).

(** Fix restores the order after the element at [i] changed. *)
Definition Fix (h : list A) (i : nat) : list A :=
  let '(h, i') := siftDown h i (length h) in if i <? i' then h else siftUp h i.

End Code.

(** ** Orders *)

Class StrictWeak {A} (less : A -> A -> bool) : Prop := {
  less_asym x y : less x y = true -> less y x = false;
  ge_trans x y z : less y x = false -> less z y = false -> less z x = false
}.

Section Proofs.
Context {A : Type} `{!Inhabited A} (less : A -> A -> bool) `{!StrictWeak less}.

Definition le (x y : A) : Prop := less y x = false.

Lemma le_refl x : le x x.
Proof. unfold le. destruct (less x x) eqn:E; [|done]. by rewrite (less_asym x x E) in E. Qed.
Lemma le_trans x y z : le x y -> le y z -> le x z.
Proof. unfold le. apply ge_trans. Qed.
Lemma less_le x y : less x y = true -> le x y.
Proof. apply less_asym. Qed.

(** ** Slices *)

Lemma lookup_total_Some (h : list A) i : i < length h -> h !! i = Some (h !!! i).
Proof. intros Hi. by apply list_lookup_lookup_total_lt. Qed.

Lemma Less_spec h i j : i < length h -> j < length h ->
  Less less h i j = less (h !!! i) (h !!! j).
Proof. intros Hi Hj. unfold Less. by rewrite !lookup_total_Some. Qed.

Lemma length_Swap (h : list A) i j : length (Swap h i j) = length h.
Proof. unfold Swap. repeat case_match; by rewrite ?length_insert. Qed.

Lemma Swap_perm (h : list A) i j : Swap h i j ≡ₚ h.
Proof. unfold Swap. repeat case_match; [by apply Permutation_insert_swap|done..]. Qed.

Lemma Swap_lookup (h : list A) i j k : i < length h -> j < length h ->
  Swap h i j !!! k = if decide (k = j) then h !!! i else if decide (k = i) then h !!! j else h !!! k.
Proof.
  intros Hi Hj. unfold Swap. rewrite !lookup_total_Some by done.
  case_decide; [subst; by rewrite list_lookup_total_insert_eq by (rewrite length_insert; lia)|].
  rewrite list_lookup_total_insert_ne by lia. case_decide; [subst|].
  - by rewrite list_lookup_total_insert_eq.
  - by rewrite list_lookup_total_insert_ne by lia.
Qed.

Lemma parent_lt j : 0 < j -> parent j < j.
Proof. intros. unfold parent. apply Nat.Div0.div_lt_upper_bound. lia. Qed.

Lemma parent_child i k : 0 < k -> parent k = i <-> k = 2 * i + 1 \/ k = 2 * i + 2.
Proof.
  intros. unfold parent. pose proof (Nat.div_mod_eq (k - 1) 2).
  pose proof (Nat.mod_upper_bound (k - 1) 2). lia.
Qed.

(** ** Heap order *)

(** The first [n] elements are ordered below every node from [lo] on. *)
Definition heap_from (lo n : nat) (h : list A) : Prop :=
  forall k, 0 < k < n -> lo <= parent k -> le (h !!! parent k) (h !!! k).
Definition heap (h : list A) : Prop := heap_from 0 (length h) h.

(** Ordered but for node [j], which may be smaller than its parent. *)
Definition up_inv (h : list A) (n j : nat) : Prop :=
  (forall k, 0 < k < n -> k <> j -> le (h !!! parent k) (h !!! k)) /\
  (forall k, 0 < k < n -> parent k = j -> 0 < j -> le (h !!! parent j) (h !!! k)).

(** Ordered but for node [i], which may be larger than its children. *)
Definition down_inv (h : list A) (lo n i : nat) : Prop :=
  (forall k, 0 < k < n -> lo <= parent k -> parent k <> i -> le (h !!! parent k) (h !!! k)) /\
  (forall k, 0 < k < n -> parent k = i -> 0 < i -> lo <= parent i -> le (h !!! parent i) (h !!! k)).

Lemma up_step (h : list A) n j : n <= length h -> j < n -> 0 < j ->
  less (h !!! j) (h !!! parent j) = true -> up_inv h n j -> up_inv (Swap h (parent j) j) n (parent j).
Proof.
  intros Hn Hj H0 Hless [H1 H2]. pose proof (parent_lt j H0) as Hp.
  assert (le (h !!! j) (h !!! parent j)) as Hle by by apply less_le.
  split.
  - intros k Hk Hne. rewrite !Swap_lookup by lia. pose proof (parent_lt k ltac:(lia)).
    destruct (decide (k = j)) as [->|Hkj].
    { rewrite decide_False by lia. by rewrite decide_True. }
    rewrite (decide_False (P := k = parent j)) by lia.
    destruct (decide (parent k = j)) as [Hpk|]; [by apply H2|].
    case_decide as Hpk; [|by apply H1].
    apply (le_trans _ (h !!! parent j)); [done|]. rewrite <- Hpk. by apply H1.
  - intros k Hk Hpk Hpos. rewrite !Swap_lookup by lia. pose proof (parent_lt _ Hpos).
    rewrite (decide_False (P := parent (parent j) = j)), (decide_False (P := parent (parent j) = parent j)) by lia.
    assert (le (h !!! parent (parent j)) (h !!! parent j)) by (apply H1; lia).
    case_decide; [done|]. case_decide; [pose proof (parent_lt k); lia|].
    eapply le_trans; [done|]. rewrite <- Hpk. by apply H1.
Qed.

Lemma up_heap fuel (h : list A) n j : j < fuel -> n <= length h -> j < n -> up_inv h n j ->
  heap_from 0 n (up less fuel h j).
Proof.
  revert h j. induction fuel as [|fuel IH]; intros h j Hf Hn Hj [H1 H2]; [lia|]. simpl.
  destruct (Nat.eqb_spec (parent j) j) as [Hpj|Hpj]; simpl.
  - assert (j = 0) as -> by (destruct j; [done|pose proof (parent_lt (S j)); lia]).
    intros k Hk _. apply H1; lia.
  - assert (0 < j) as H0 by (destruct j; [done|lia]). pose proof (parent_lt j H0).
    rewrite Less_spec by lia. destruct (less (h !!! j) (h !!! parent j)) eqn:E; simpl.
    + apply IH; [lia|by rewrite length_Swap|lia|]. by apply up_step.
    + intros k Hk _. destruct (decide (k = j)) as [->|]; [done|]. by apply H1.
Qed.

Lemma up_above fuel (h : list A) j k : j < length h -> j < k -> up less fuel h j !! k = h !! k.
Proof.
  revert h j. induction fuel as [|fuel IH]; intros h j Hj Hk; simpl; [done|].
  destruct (Nat.eqb_spec (parent j) j) as [Hpj|Hpj]; simpl; [done|].
  assert (0 < j) as H0 by (destruct j; [done|lia]). pose proof (parent_lt j H0).
  case_match; [done|]. rewrite IH by (rewrite ?length_Swap; lia). unfold Swap.
  rewrite (lookup_total_Some h j), (lookup_total_Some h (parent j)) by lia.
  by rewrite !list_lookup_insert_ne by lia.
Qed.

Lemma up_perm fuel h j : up less fuel h j ≡ₚ h.
Proof.
  revert h j. induction fuel as [|fuel IH]; intros h j; simpl; [done|].
  case_match; [done|]. by rewrite IH, Swap_perm.
Qed.

Lemma down_step (h : list A) lo n i j : n <= length h -> i < n -> j < n -> lo <= i ->
  j = 2 * i + 1 \/ j = 2 * i + 2 ->
  (forall k, 0 < k < n -> parent k = i -> le (h !!! j) (h !!! k)) ->
  less (h !!! j) (h !!! i) = true -> down_inv h lo n i -> down_inv (Swap h i j) lo n j.
Proof.
  intros Hn Hi Hj Hlo Hc Hmin Hless [H1 H2].
  assert (parent j = i) as Hpj by (apply parent_child; lia).
  assert (le (h !!! j) (h !!! i)) as Hle by by apply less_le.
  split.
  - intros k Hk Hlk Hne. rewrite !Swap_lookup by lia. pose proof (parent_lt k ltac:(lia)).
    rewrite (decide_False (P := parent k = j)) by done.
    destruct (decide (k = j)) as [->|Hkj].
    { rewrite decide_True by done. done. }
    destruct (decide (parent k = i)) as [Hpk|Hpk].
    { rewrite decide_False by lia. by apply Hmin. }
    destruct (decide (k = i)) as [->|]; [|by apply H1].
    apply H2; [lia|done|lia|done].
  - intros k Hk Hpk Hpos _. rewrite Hpj, !Swap_lookup by lia. pose proof (parent_lt k ltac:(lia)).
    rewrite (decide_False (P := i = j)), (decide_True (P := i = i)) by lia.
    rewrite (decide_False (P := k = j)), (decide_False (P := k = i)) by lia.
    rewrite <- Hpk. apply H1; lia.
Qed.

(** The smaller child is below both children. *)
Lemma smaller_child (h : list A) n i : n <= length h -> 2 * i + 1 < n ->
  let j := if (2 * i + 1 + 1 <? n) && Less less h (2 * i + 1 + 1) (2 * i + 1)
           then 2 * i + 1 + 1 else 2 * i + 1 in
  (j = 2 * i + 1 \/ j = 2 * i + 2) /\ j < n /\
  (forall k, 0 < k < n -> parent k = i -> le (h !!! j) (h !!! k)).
Proof.
  intros Hn Hj. destruct (Nat.ltb_spec (2 * i + 1 + 1) n) as [H2|H2]; cbn [andb].
  - rewrite Less_spec by lia. destruct (less _ _) eqn:E; (split_and!; [lia|lia|]);
      intros k Hk [-> | ->]%parent_child; try lia; try apply le_refl.
    + apply less_le. exact E.
    + by replace (2 * i + 2) with (2 * i + 1 + 1) by lia; apply le_refl.
    + by replace (2 * i + 2) with (2 * i + 1 + 1) by lia.
  - split_and!; [lia|lia|]. intros k Hk [-> | ->]%parent_child; try lia. apply le_refl.
Qed.

Lemma down_heap fuel (h : list A) lo n i : n < fuel + i -> n <= length h -> lo <= i -> i < n \/ i = lo ->
  down_inv h lo n i -> heap_from lo n (down less fuel h i n).1.
Proof.
  revert h i. induction fuel as [|fuel IH]; intros h i Hf Hn Hlo Hi [H1 H2].
  { intros k Hk Hlk. simpl. apply H1; [done..|]. pose proof (parent_lt k). lia. }
  cbn [down]. destruct (Nat.leb_spec n (2 * i + 1)) as [Hj1|Hj1].
  { intros k Hk Hlk. simpl. apply H1; [done..|]. intros Hpk%parent_child; lia. }
  pose proof (smaller_child h n i Hn Hj1) as Hs.
  set (j := if _ && _ then _ else _) in *. destruct Hs as (Hj & Hjn & Hmin).
  rewrite Less_spec by lia. destruct (less (h !!! j) (h !!! i)) eqn:E; simpl.
  - apply IH; [lia|by rewrite length_Swap|lia|lia|]. apply down_step; try done; lia.
  - intros k Hk Hlk. destruct (decide (parent k = i)) as [Hpk|]; [|by apply H1].
    rewrite Hpk. by apply (le_trans _ (h !!! j)); [|apply Hmin].
Qed.

Lemma down_perm fuel h i n : (down less fuel h i n).1 ≡ₚ h.
Proof.
  revert h i. induction fuel as [|fuel IH]; intros h i; cbn [down]; [done|].
  repeat case_match; try done; by rewrite IH, Swap_perm.
Qed.

(** Positions from [n] on are left alone. *)
Lemma down_above fuel (h : list A) i n k : n <= length h -> i < n -> n <= k ->
  (down less fuel h i n).1 !! k = h !! k.
Proof.
  revert h i. induction fuel as [|fuel IH]; intros h i Hn Hi Hk; cbn [down]; [done|].
  destruct (Nat.leb_spec n (2 * i + 1)) as [Hj1|Hj1]; [done|].
  destruct (smaller_child h n i Hn Hj1) as (_ & Hjn & _).
  set (j := if _ && _ then _ else _) in *. case_match; [done|].
  rewrite IH by (rewrite ?length_Swap; lia). unfold Swap.
  rewrite (lookup_total_Some h i), (lookup_total_Some h j) by lia.
  by rewrite !list_lookup_insert_ne by lia.
Qed.

Lemma heap_min h k : heap h -> k < length h -> le (h !!! 0) (h !!! k).
Proof.
  intros Hh. induction (lt_wf k) as [k _ IH]. intros Hk.
  destruct (decide (k = 0)) as [->|]; [apply le_refl|].
  pose proof (parent_lt k). eapply le_trans; [apply (IH (parent k)); lia|]. apply Hh; lia.
Qed.

(** ** The operations *)

Lemma siftDown_heap h lo n : n <= length h -> lo < n -> heap_from (S lo) n h ->
  heap_from lo n (siftDown less h lo n).1.
Proof.
  intros Hn Hlo Hh. apply down_heap; [lia|done|done|by left|]. split.
  - intros k Hk Hlk Hne. apply Hh; lia.
  - intros k _ _ Hpos Hp. pose proof (parent_lt lo Hpos). lia.
Qed.

Lemma initLoop_heap i h : i <= length h / 2 -> heap_from i (length h) h ->
  heap (initLoop less h i) /\ initLoop less h i ≡ₚ h.
Proof.
  revert h. induction i as [|i IH]; intros h Hi Hh; [by split|]. cbn [initLoop].
  assert (length (siftDown less h i (length h)).1 = length h) as Hl by apply Permutation_length, down_perm.
  assert (2 * (length h / 2) <= length h) by (apply Nat.Div0.mul_div_le).
  destruct (IH (siftDown less h i (length h)).1) as [H1 H2].
  - rewrite Hl. lia.
  - rewrite Hl. apply siftDown_heap; [lia|lia|done].
  - split; [done|]. rewrite H2. apply down_perm.
Qed.

Lemma Init_heap h : heap (Init less h) /\ Init less h ≡ₚ h.
Proof.
  apply initLoop_heap; [lia|]. intros k Hk Hlk. exfalso.
  pose proof (proj1 (parent_child (parent k) k ltac:(lia)) eq_refl).
  pose proof (Nat.div_mod_eq (length h) 2). pose proof (Nat.mod_upper_bound (length h) 2). lia.
Qed.

Lemma heap_app h x : heap h -> up_inv (h ++ [x]) (length (h ++ [x])) (length h).
Proof.
  intros Hh. rewrite length_app. simpl. split; intros k Hk.
  - intros Hne. pose proof (parent_lt k ltac:(lia)).
    rewrite !lookup_total_app_l by lia. apply Hh; lia.
  - intros Hp. pose proof (parent_lt k ltac:(lia)). lia.
Qed.

Lemma Push_heap h x : heap h -> heap (Push less h x) /\ Push less h x ≡ₚ x :: h.
Proof.
  intros Hh. unfold Push, siftUp. split.
  - unfold heap. rewrite up_perm at 1.
    apply up_heap; [lia|done|rewrite length_app; simpl; lia|by apply heap_app].
  - rewrite up_perm. by rewrite Permutation_app_comm.
Qed.

Lemma heap_take h n : n <= length h -> heap_from 0 n h -> heap (take n h).
Proof.
  intros Hn Hh k. rewrite length_take, Nat.min_l by done. intros Hk _.
  pose proof (parent_lt k ltac:(lia)). rewrite !lookup_total_take.
  rewrite !decide_True by lia. apply Hh; lia.
Qed.

(** The slice a removal leaves once the removed element is at the end. *)
Lemma cut_last (h : list A) x n : length h = S n -> h !! n = Some x -> take n h ++ [x] = h.
Proof. intros Hl Hx. rewrite <- take_S_r by done. by rewrite firstn_all2 by lia. Qed.

Lemma Pop_heap h : heap h -> h <> [] ->
  exists x h', Pop less h = Some (x, h') /\ heap h' /\ h ≡ₚ x :: h' /\
    h !! 0 = Some x /\ Forall (le x) h'.
Proof.
  intros Hh Hne. assert (0 < length h) as Hl by (destruct h; [done|simpl; lia]).
  unfold Pop. set (n := length h - 1). set (s := Swap h 0 n). set (d := (siftDown less s 0 n).1).
  assert (length s = length h) as Hls by apply length_Swap.
  assert (d ≡ₚ h) as Hperm by (unfold d, siftDown; rewrite (down_perm _ s); apply Swap_perm).
  assert (length d = S n) as Hld by (rewrite Hperm; lia).
  assert (h !! 0 = Some (h !!! 0)) as Hx by (by apply lookup_total_Some).
  assert (d !! n = Some (h !!! 0)) as Hdn.
  { destruct (decide (n = 0)) as [E|E].
    - unfold d, s, siftDown. rewrite E. simpl. unfold Swap. rewrite Hx. simpl.
      rewrite !list_lookup_insert_eq by (rewrite ?length_insert; lia). done.
    - unfold d, siftDown. rewrite down_above by lia.
      rewrite lookup_total_Some by lia. unfold s. rewrite Swap_lookup by lia. by rewrite decide_True. }
  rewrite Hdn. simpl. eexists _, _. split; [done|].
  assert (h ≡ₚ (h !!! 0) :: take n d) as Hp.
  { rewrite <- Hperm, <- (cut_last d _ n Hld Hdn) at 1. by rewrite Permutation_app_comm. }
  split_and!; [|done|done|].
  - destruct (decide (n = 0)) as [E|E].
    { intros k. rewrite length_take. lia. }
    apply heap_take; [lia|]. unfold d. apply siftDown_heap; [lia|lia|].
    intros k Hk Hlk. pose proof (parent_lt k ltac:(lia)). unfold s. rewrite !Swap_lookup by lia.
    rewrite !decide_False by lia. apply Hh; lia.
  - apply Forall_forall. intros y Hy.
    assert (y ∈ h) as [k Hk]%list_elem_of_lookup by (rewrite Hp; by right).
    pose proof (lookup_lt_Some _ _ _ Hk). apply list_lookup_total_correct in Hk as <-.
    by apply heap_min.
Qed.

Lemma Fix_root h x : heap h -> 0 < length h ->
  heap (Fix less (<[0 := x]> h) 0) /\ Fix less (<[0 := x]> h) 0 ≡ₚ <[0 := x]> h.
Proof.
  intros Hh Hl. set (h1 := <[0 := x]> h). assert (length h1 = length h) as El by apply length_insert. unfold Fix.
  pose proof (siftDown_heap h1 0 (length h1) ltac:(lia) ltac:(lia)) as Hd.
  assert ((siftDown less h1 0 (length h1)).1 ≡ₚ h1) as Hp by apply down_perm.
  destruct (siftDown less h1 0 (length h1)) as [h2 i] eqn:E. cbn [fst] in *.
  assert (heap h2) as H2.
  { unfold heap. rewrite (Permutation_length Hp). apply Hd. intros k Hk Hpk. pose proof (parent_lt k ltac:(lia)).
    unfold h1. rewrite !list_lookup_total_insert_ne by lia. apply Hh; lia. }
  assert (siftUp less h2 0 = h2) as -> by reflexivity. destruct (0 <? i); by split.
Qed.

Lemma down_pos fuel (h : list A) i n : i <= (down less fuel h i n).2.
Proof.
  revert h i. induction fuel as [|fuel IH]; intros h i; cbn [down]; [done|].
  repeat case_match; simpl; try lia; (etrans; [|apply IH]); lia.
Qed.

(** The last element moved to a hole at [i]: it sinks, or it rises. *)
Lemma fill_hole h i n : heap h -> length h = S n -> i < n ->
  let d := siftDown less (Swap h i n) i n in
  heap_from 0 n (if i <? d.2 then d.1 else siftUp less d.1 i).
Proof.
  intros Hh Hl Hi. set (s := Swap h i n). unfold siftDown.
  assert (length s = S n) as Hls by (by unfold s; rewrite length_Swap).
  assert (forall k, k < n -> k <> i -> s !!! k = h !!! k) as Hs.
  { intros k Hk Hki. unfold s. rewrite Swap_lookup by lia. by rewrite !decide_False by lia. }
  assert (forall k, 0 < k < n -> k <> i -> parent k <> i -> le (s !!! parent k) (s !!! k)) as Hin.
  { intros k Hk Hki Hp. pose proof (parent_lt k ltac:(lia)). rewrite !Hs by lia. apply Hh; lia. }
  assert (forall k, 0 < k < n -> parent k = i -> 0 < i -> le (s !!! parent i) (s !!! k)) as Hgp.
  { intros k Hk Hp Hpos. pose proof (parent_lt k ltac:(lia)). pose proof (parent_lt i Hpos).
    rewrite !Hs by lia. apply (le_trans _ (h !!! i)); [apply Hh; lia|].
    rewrite <- Hp. apply Hh; lia. }
  assert (up_inv s n i -> heap_from 0 n (siftUp less s i)) as Hup.
  { apply up_heap; lia. }
  pose proof (down_heap (S n - i) s 0 n i ltac:(lia) ltac:(lia) ltac:(lia) ltac:(lia)) as Hdown.
  replace (S n - i) with (S (n - i)) in * by lia. cbn [down] in *.
  destruct (Nat.leb_spec n (2 * i + 1)) as [Hj1|Hj1].
  - simpl. rewrite (proj2 (Nat.ltb_ge i i)) by lia. apply Hup. split; [|done].
    intros k Hk Hki. apply Hin; [done..|]. intros ?%parent_child; lia.
  - destruct (smaller_child s n i ltac:(lia) Hj1) as (Hj & Hjn & Hmin).
    set (j := if _ && _ then _ else _) in *. rewrite Less_spec in * by lia.
    destruct (less (s !!! j) (s !!! i)) eqn:E; simpl.
    + assert (i < (down less (n - i) (Swap s i j) j n).2) as Hmv.
      { pose proof (down_pos (n - i) (Swap s i j) j n). lia. }
      apply Nat.ltb_lt in Hmv as ->. apply Hdown. split; [|by intros; apply Hgp].
      intros k Hk _ Hp. destruct (decide (k = i)) as [->|]; [|by apply Hin].
      apply (le_trans _ (s !!! j)); [|by apply less_le].
      apply Hgp; [lia|apply parent_child; lia|lia].
    + rewrite (proj2 (Nat.ltb_ge i i)) by lia. apply Hup. split; [|done].
      intros k Hk Hki. destruct (decide (parent k = i)) as [Hp|]; [|by apply Hin].
      rewrite Hp. apply (le_trans _ (s !!! j)); [done|by apply Hmin].
Qed.

Lemma Remove_heap h i y : heap h -> h !! i = Some y ->
  exists h', Remove less h i = Some (y, h') /\ heap h' /\ h ≡ₚ y :: h'.
Proof.
  intros Hh Hy. pose proof (lookup_lt_Some _ _ _ Hy) as Hi. unfold Remove.
  set (n := length h - 1). assert (length h = S n) as Hl by lia.
  destruct (Nat.eqb_spec n i) as [<-|Hni].
  - rewrite Hy. simpl. eexists. split_and!; [done| |].
    + apply heap_take; [lia|]. intros k Hk _. apply Hh; lia.
    + rewrite <- (cut_last h y n Hl Hy) at 1. by rewrite Permutation_app_comm.
  - pose proof (fill_hole h i n Hh Hl ltac:(lia)) as Hf.
    set (s := Swap h i n) in *. assert (length s = S n) as Hls by (by unfold s; rewrite length_Swap).
    assert (s !! n = Some y) as Hsn.
    { rewrite lookup_total_Some by lia. unfold s. rewrite Swap_lookup by lia.
      rewrite decide_True by done. by rewrite <- (lookup_total_Some h i) by lia. }
    pose proof (down_perm (S n - i) s i n) as Hdp.
    pose proof (down_above (S n - i) s i n n ltac:(lia) ltac:(lia) ltac:(lia)) as Hda.
    unfold siftDown in *. destruct (down less (S n - i) s i n) as [d i']. simpl in *.
    assert (length d = S n) as Hld by (rewrite Hdp; done).
    set (r := if i <? i' then d else siftUp less d i) in *.
    assert (r ≡ₚ h) as Hr.
    { transitivity s; [|apply Swap_perm]. unfold r, siftUp. case_match; [done|]. by rewrite up_perm. }
    assert (r !! n = Some y) as Hrn.
    { unfold r. case_match; [congruence|]. unfold siftUp. rewrite up_above by lia. congruence. }
    assert (length r = S n) as Hlr by (rewrite Hr; done).
    rewrite Hrn. simpl. eexists. split_and!; [done| |].
    + by apply heap_take; [lia|].
    + rewrite <- Hr, <- (cut_last r y n Hlr Hrn) at 1. by rewrite Permutation_app_comm.
Qed.

End Proofs.
