(* ===== verification/TxList.v ===== *)
(** * Per-account transaction lists (core/tx_list.go)

    [txSortedMap] keeps the transactions of an account in a hash map, the
    nonces in a binary heap and, sometimes, the sorted slice in a cache;
    [txList] adds the cost and gas caps and the strict mode.  The theorems
    relate both to the nonce-sorted list of the transactions ([rep]): every
    operation of the three-part structure is the obvious operation on that
    list.  A nonce of the heap without a transaction would append nil; that
    case is a [Panic] here, and [rep] excludes it. *)

From stdpp Require Import sorting.
From S2P Require Import Prelude Transaction Heap.

(** ** txSortedMap *)

Record txSortedMap := mkSortedMap {
  items : gmap Z Transaction;
  index : list Z;                       (* nonceHeap *)
  cache : option (list Transaction)     (* nil when not sorted yet *)
}.
#[export] Instance eta_txSortedMap : Eta txSortedMap :=
  fun r => mkSortedMap (items r) (index r) (cache r).

Definition newTxSortedMap : txSortedMap := mkSortedMap ∅ [] None.

Definition sm_Get (m : txSortedMap) (nonce : Z) : option Transaction := items m !! nonce.

Definition sm_Put (m : txSortedMap) (tx : Transaction) : txSortedMap :=
  let nonce := Nonce tx in
  let m := match items m !! nonce with
           | None => m <| index := Push Z.ltb (index m) nonce |>
           | Some _ => m
           end in
  m <| items := <[nonce := tx]> (items m) |> <| cache := None |>.

(** heap.Pop of the nonce index and the transaction it stands for. *)
Definition popItem (m : txSortedMap) : outcome (txSortedMap * Transaction) :=
  match Pop Z.ltb (index m) with
  | None => Panic
  | Some (nonce, idx) =>
      match items m !! nonce with
      | None => Panic
      | Some tx => Ret (m <| index := idx |> <| items := delete nonce (items m) |>, tx)
      end
  end.

Fixpoint sm_Forward_loop (fuel : nat) (m : txSortedMap) (threshold : Z) (removed : list Transaction)
  : outcome (txSortedMap * list Transaction) :=
  match fuel with
  | O => Ret (m, removed)
  | S fuel =>
      match index m with
      | n0 :: _ =>
          if n0 <? threshold
          then '(m, tx) ← popItem m; sm_Forward_loop fuel m threshold (removed ++ [tx])
          else Ret (m, removed)
      | [] => Ret (m, removed)
      end
  end.

Definition sm_Forward (m : txSortedMap) (threshold : Z) : outcome (txSortedMap * list Transaction) :=
  '(m, removed) ← sm_Forward_loop (S (length (index m))) m threshold [];
  match cache m with
  | None => Ret (m, removed)
  | Some c => if decide (length removed <= length c)%nat
              then Ret (m <| cache := Some (drop (length removed) c) |>, removed)
              else Panic
  end.

Definition sm_reheap (m : txSortedMap) : txSortedMap :=
  m <| index := Init Z.ltb (map_to_list (items m)).*1 |> <| cache := None |>.

(** filter, in the iteration order of the map. *)
Definition sm_filter (m : txSortedMap) (f : Transaction -> bool) : txSortedMap * list Transaction :=
  let removed := filter (fun tx => f tx = true) (map_to_list (items m)).*2 in
  let m := m <| items := filter (fun kv => f kv.2 = false) (items m) |> in
  (match removed with [] => m | _ => m <| cache := None |> end, removed).

Definition sm_Filter (m : txSortedMap) (f : Transaction -> bool) : txSortedMap * list Transaction :=
  let '(m, removed) := sm_filter m f in
  (match removed with [] => m | _ => sm_reheap m end, removed).

(** The loop of Cap: [size] counts down to the threshold. *)
Fixpoint sm_Cap_loop (idx : list Z) (m : gmap Z Transaction) (drops : list Transaction) (n size : nat)
  : outcome (gmap Z Transaction * list Transaction) :=
  match n with
  | O => Ret (m, drops)
  | S n =>
      match idx !! (size - 1)%nat with
      | None => Panic
      | Some nonce =>
          match m !! nonce with
          | None => Panic
          | Some tx => sm_Cap_loop idx (delete nonce m) (drops ++ [tx]) n (size - 1)
          end
      end
  end.

Definition sm_Cap (m : txSortedMap) (threshold : nat) : outcome (txSortedMap * list Transaction) :=
  let len := base.size (items m) in
  if decide (len <= threshold)%nat then Ret (m, [])
  else
    let idx := merge_sort Z.le (index m) in
    '(its, drops) ← sm_Cap_loop idx (items m) [] (len - threshold) len;
    Ret (mkSortedMap its (Init Z.ltb (take threshold idx))
           ((fun c => take (length c - length drops) c) <$> cache m), drops).

(** The position of a nonce in the heap. *)
Definition findIndex (nonce : Z) (idx : list Z) : option nat :=
  fst <$> list_find (fun n => n = nonce) idx.

Definition sm_Remove (m : txSortedMap) (nonce : Z) : outcome (txSortedMap * bool) :=
  match items m !! nonce with
  | None => Ret (m, false)
  | Some _ =>
      idx ← match findIndex nonce (index m) with
            | None => Ret (index m)
            | Some i => from_option' (snd <$> Remove Z.ltb (index m) i)
            end;
      Ret (mkSortedMap (delete nonce (items m)) idx None, true)
  end.

(** Ready: [next] is a uint64 and wraps around. *)
Fixpoint sm_Ready_loop (fuel : nat) (m : txSortedMap) (next : Z) (ready : list Transaction)
  : outcome (txSortedMap * list Transaction) :=
  match fuel with
  | O => Ret (m, ready)
  | S fuel =>
      match index m with
      | n0 :: _ =>
          if n0 =? next
          then '(m, tx) ← popItem m; sm_Ready_loop fuel m (u64 (next + 1)) (ready ++ [tx])
          else Ret (m, ready)
      | [] => Ret (m, ready)
      end
  end.

Definition sm_Ready (m : txSortedMap) (start : Z) : outcome (txSortedMap * list Transaction) :=
  match index m with
  | [] => Ret (m, [])
  | n0 :: _ =>
      if start <? n0 then Ret (m, [])
      else '(m, ready) ← sm_Ready_loop (S (length (index m))) m n0 [];
           Ret (m <| cache := None |>, ready)
  end.

Definition sm_Len (m : txSortedMap) : nat := base.size (items m).

Definition TxByNonce (t1 t2 : Transaction) : Prop := Nonce t1 <= Nonce t2.
#[export] Instance TxByNonce_dec t1 t2 : Decision (TxByNonce t1 t2).
Proof. unfold TxByNonce. apply _. Defined.

Definition sm_flatten (m : txSortedMap) : txSortedMap * list Transaction :=
  match cache m with
  | Some c => (m, c)
  | None => let c := merge_sort TxByNonce (map_to_list (items m)).*2 in
            (m <| cache := Some c |>, c)
  end.

Definition sm_Flatten (m : txSortedMap) : txSortedMap * list Transaction := sm_flatten m.

Definition sm_LastElement (m : txSortedMap) : outcome (txSortedMap * Transaction) :=
  let '(m, c) := sm_flatten m in
  match last c with Some tx => Ret (m, tx) | None => Panic end.

(** ** txList *)

Record txList := mkTxList {
  strict : bool;
  txs : txSortedMap;
  costcap : Z;
  gascap : Z
}.
#[export] Instance eta_txList : Eta txList :=
  fun r => mkTxList (strict r) (txs r) (costcap r) (gascap r).

Definition newTxList (strict : bool) : txList := mkTxList strict newTxSortedMap 0 0.

Definition tl_Overlaps (l : txList) (tx : Transaction) : bool :=
  bool_decide (is_Some (sm_Get (txs l) (Nonce tx))).

(** A 64-bit word read as a signed integer. *)
Definition int64 (z : Z) : Z := if u64 z <? 2 ^ 63 then u64 z else u64 z - two64.

(** Add returns whether the transaction was accepted and what it replaced;
    big.Int's [Div] rounds like Rocq's for a positive divisor. *)
Definition tl_Add (l : txList) (tx : Transaction) (priceBump : Z)
  : txList * bool * option Transaction :=
  let old := sm_Get (txs l) (Nonce tx) in
  let accept := match old with
    | None => true
    | Some o =>
        let threshold := (int64 (100 + int64 priceBump) * GasPrice o) / 100 in
        negb (match GasPriceCmp o tx with Lt => false | _ => true end
              || match GasPriceIntCmp tx threshold with Lt => true | _ => false end)
    end in
  if accept then
    (mkTxList (strict l) (sm_Put (txs l) tx)
       (if costcap l <? Cost tx then Cost tx else costcap l)
       (if gascap l <? Gas tx then Gas tx else gascap l), true, old)
  else (l, false, None).

Definition tl_Forward (l : txList) (threshold : Z) : outcome (txList * list Transaction) :=
  '(m, removed) ← sm_Forward (txs l) threshold; Ret (l <| txs := m |>, removed).

(** Filter returns the transactions above the limits and, in strict mode, the
    ones above the lowest removed nonce. *)
Definition tl_Filter (l : txList) (costLimit gasLimit : Z)
  : txList * list Transaction * list Transaction :=
  if (costcap l <=? costLimit) && (gascap l <=? gasLimit) then (l, [], [])
  else
    let l := l <| costcap := costLimit |> <| gascap := gasLimit |> in
    let '(m, removed) := sm_Filter (txs l) (fun tx => (gasLimit <? Gas tx) || (costLimit <? Cost tx)) in
    match removed with
    | [] => (l <| txs := m |>, [], [])
    | _ =>
        let '(m, invalids) :=
          if strict l then
            let lowest := fold_left (fun low tx => if Nonce tx <? low then Nonce tx else low)
                                    removed MaxUint64 in
            sm_filter m (fun tx => lowest <? Nonce tx)
          else (m, []) in
        (l <| txs := sm_reheap m |>, removed, invalids)
    end.

Definition tl_Cap (l : txList) (threshold : nat) : outcome (txList * list Transaction) :=
  '(m, drops) ← sm_Cap (txs l) threshold; Ret (l <| txs := m |>, drops).

Definition tl_Remove (l : txList) (tx : Transaction) : outcome (txList * bool * list Transaction) :=
  let nonce := Nonce tx in
  '(m, removed) ← sm_Remove (txs l) nonce;
  let l := l <| txs := m |> in
  if negb removed then Ret (l, false, [])
  else if strict l then
    let '(m, invalids) := sm_Filter m (fun tx => nonce <? Nonce tx) in
    Ret (l <| txs := m |>, true, invalids)
  else Ret (l, true, []).

Definition tl_Ready (l : txList) (start : Z) : outcome (txList * list Transaction) :=
  '(m, ready) ← sm_Ready (txs l) start; Ret (l <| txs := m |>, ready).

Definition tl_Len (l : txList) : nat := sm_Len (txs l).
Definition tl_Empty (l : txList) : bool := bool_decide (tl_Len l = 0%nat).

Definition tl_Flatten (l : txList) : txList * list Transaction :=
  let '(m, c) := sm_Flatten (txs l) in (l <| txs := m |>, c).

Definition tl_LastElement (l : txList) : outcome (txList * Transaction) :=
  '(m, tx) ← sm_LastElement (txs l); Ret (l <| txs := m |>, tx).

(** ** The sorted list a map represents *)

#[export] Instance ltb_weak : StrictWeak Z.ltb.
Proof. split; intros; lia. Qed.

Definition before (t1 t2 : Transaction) : Prop := Nonce t1 < Nonce t2.
Definition sorted (l : list Transaction) : Prop := StronglySorted before l.
Definition keyed (l : list Transaction) : list (Z * Transaction) := (fun tx => (Nonce tx, tx)) <$> l.

Record holds (its : gmap Z Transaction) (l : list Transaction) : Prop := {
  h_sorted : sorted l;
  h_items : its = list_to_map (keyed l);
  h_range : Forall (fun tx => is_u64 (Nonce tx)) l
}.

(** The map and the heap index agree on [l]. *)
Record indexed (m : txSortedMap) (l : list Transaction) : Prop := {
  i_holds : holds (items m) l;
  i_index : index m ≡ₚ Nonce <$> l;
  i_heap : heap Z.ltb (index m)
}.

Record rep (m : txSortedMap) (l : list Transaction) : Prop := {
  r_indexed : indexed m l;
  r_cache : cache m = None \/ cache m = Some l
}.

Lemma keyed_fst l : (keyed l).*1 = Nonce <$> l.
Proof. unfold keyed. rewrite <- list_fmap_compose. done. Qed.
Lemma keyed_snd l : (keyed l).*2 = l.
Proof. unfold keyed. rewrite <- list_fmap_compose. apply list_fmap_id. Qed.

Lemma sorted_cons tx l : sorted (tx :: l) <-> sorted l /\ Forall (before tx) l.
Proof. split; [by inversion 1|intros []; by constructor]. Qed.

Lemma sorted_NoDup l : sorted l -> NoDup (Nonce <$> l).
Proof.
  induction l as [|tx l IH]; [constructor|]. intros [Hs Hf]%sorted_cons. simpl.
  constructor; [|by apply IH]. intros (t & E & Ht)%list_elem_of_fmap.
  rewrite Forall_forall in Hf. specialize (Hf t Ht). unfold before in Hf. lia.
Qed.

Lemma sorted_inj l t1 t2 : sorted l -> t1 ∈ l -> t2 ∈ l -> Nonce t1 = Nonce t2 -> t1 = t2.
Proof.
  induction l as [|tx l IH]; [set_solver|]. intros [Hs Hf]%sorted_cons. rewrite Forall_forall in Hf.
  intros [->|H1]%elem_of_cons [->|H2]%elem_of_cons E; auto.
  - specialize (Hf t2 H2). unfold before in Hf. lia.
  - specialize (Hf t1 H1). unfold before in Hf. lia.
Qed.

Lemma keyed_NoDup l : sorted l -> NoDup (keyed l).*1.
Proof. rewrite keyed_fst. apply sorted_NoDup. Qed.

Lemma holds_lookup its l n tx : holds its l -> its !! n = Some tx <-> tx ∈ l /\ Nonce tx = n.
Proof.
  intros [Hs -> _]. rewrite <- elem_of_list_to_map by by apply keyed_NoDup.
  unfold keyed. rewrite list_elem_of_fmap. naive_solver.
Qed.

Lemma holds_to_list its l : holds its l -> map_to_list its ≡ₚ keyed l.
Proof. intros [Hs -> _]. apply map_to_list_to_map. by apply keyed_NoDup. Qed.

Lemma holds_values its l : holds its l -> (map_to_list its).*2 ≡ₚ l.
Proof. intros Hh. rewrite (holds_to_list its l Hh). by rewrite keyed_snd. Qed.

Lemma holds_keys its l : holds its l -> (map_to_list its).*1 ≡ₚ Nonce <$> l.
Proof. intros Hh. rewrite (holds_to_list its l Hh). by rewrite keyed_fst. Qed.

Lemma holds_size its l : holds its l -> base.size its = length l.
Proof.
  intros Hh. rewrite <- length_map_to_list, (holds_to_list its l Hh). apply length_fmap.
Qed.

Lemma holds_cons its tx l : holds its (tx :: l) -> holds (delete (Nonce tx) its) l.
Proof.
  intros [[Hs Hf]%sorted_cons -> [Hr1 Hr2]%Forall_cons]. split; [done| |done].
  simpl. rewrite delete_insert_id; [done|]. apply not_elem_of_list_to_map. rewrite keyed_fst.
  intros (t & E & Ht)%list_elem_of_fmap. rewrite Forall_forall in Hf. specialize (Hf t Ht).
  unfold before in Hf. lia.
Qed.

Lemma sorted_filter (P : Transaction -> Prop) `{!forall x, Decision (P x)} l :
  sorted l -> sorted (filter P l).
Proof.
  induction l as [|tx l IH]; [done|]. intros [Hs Hf]%sorted_cons. rewrite filter_cons.
  case_decide; [|by apply IH]. apply sorted_cons. split; [by apply IH|].
  apply Forall_forall. intros t [_ Ht]%list_elem_of_filter. rewrite Forall_forall in Hf. auto.
Qed.

(** Two maps with the same entries on the same list. *)
Lemma holds_intro its l : sorted l -> Forall (fun tx => is_u64 (Nonce tx)) l ->
  (forall n tx, its !! n = Some tx <-> tx ∈ l /\ Nonce tx = n) -> holds its l.
Proof.
  intros Hs Hr Hl. split; [done| |done]. apply map_eq. intros n. apply option_eq. intros tx.
  rewrite Hl, <- elem_of_list_to_map by by apply keyed_NoDup.
  unfold keyed. rewrite list_elem_of_fmap. naive_solver.
Qed.

Lemma holds_filter its l (f : Transaction -> bool) : holds its l ->
  holds (filter (fun kv => f kv.2 = false) its) (filter (fun tx => f tx = false) l).
Proof.
  intros Hh. apply holds_intro.
  - apply sorted_filter, Hh.
  - apply Forall_forall. intros t [_ Ht]%list_elem_of_filter.
    by apply (proj1 (Forall_forall _ _) (h_range _ _ Hh)).
  - intros n tx. rewrite map_lookup_filter_Some, (holds_lookup _ _ _ _ Hh). simpl.
    rewrite list_elem_of_filter. naive_solver.
Qed.

(** ** Reference operations on sorted lists *)

Definition put_ref (tx : Transaction) (l : list Transaction) : list Transaction :=
  filter (fun t => Nonce t < Nonce tx) l ++ tx :: filter (fun t => Nonce tx < Nonce t) l.

(** The run of consecutive nonces from [next] on, and the rest. *)
Fixpoint run_ref (next : Z) (l : list Transaction) : list Transaction * list Transaction :=
  match l with
  | tx :: l' => if Nonce tx =? next
                then let '(a, b) := run_ref (next + 1) l' in (tx :: a, b)
                else ([], l)
  | [] => ([], [])
  end.

Definition ready_ref (start : Z) (l : list Transaction) : list Transaction * list Transaction :=
  match l with
  | tx :: _ => if start <? Nonce tx then ([], l) else run_ref (Nonce tx) l
  | [] => ([], [])
  end.

Lemma sorted_app l1 l2 : sorted (l1 ++ l2) <->
  sorted l1 /\ sorted l2 /\ (forall t1 t2, t1 ∈ l1 -> t2 ∈ l2 -> before t1 t2).
Proof.
  induction l1 as [|tx l1 IH]; simpl.
  { split; [intros; split_and!; [constructor|done|set_solver]|by intros (_ & ? & _)]. }
  rewrite !sorted_cons, IH, Forall_app, !Forall_forall. setoid_rewrite elem_of_cons. naive_solver.
Qed.

Lemma put_ref_sorted tx l : sorted l -> sorted (put_ref tx l).
Proof.
  intros Hs. unfold put_ref. apply sorted_app. split_and!; [by apply sorted_filter| |].
  - apply sorted_cons. split; [by apply sorted_filter|].
    apply Forall_forall. by intros t [? _]%list_elem_of_filter.
  - intros t1 t2 [H1 _]%list_elem_of_filter [->|[H2 _]%list_elem_of_filter]%elem_of_cons;
      unfold before; lia.
Qed.

Lemma put_ref_elem tx l t : t ∈ put_ref tx l <-> t = tx \/ (t ∈ l /\ Nonce t <> Nonce tx).
Proof.
  unfold put_ref. rewrite elem_of_app, elem_of_cons, !list_elem_of_filter. split; [|intros [->|[]]]; auto.
  - intros [[]|[->|[]]]; auto; right; split; auto; lia.
  - destruct (decide (Nonce t < Nonce tx)); [auto|]. right. right. split; [lia|done].
Qed.

Lemma put_ref_perm tx l : Nonce tx ∉ Nonce <$> l -> put_ref tx l ≡ₚ tx :: l.
Proof.
  intros Hn. unfold put_ref. rewrite Permutation_app_comm. simpl. constructor.
  rewrite Permutation_app_comm. induction l as [|t l IH]; [done|]. rewrite !filter_cons.
  simpl in Hn. apply not_elem_of_cons in Hn as [Hne Hn]. specialize (IH Hn).
  repeat case_decide; try lia; simpl; [by constructor|].
  rewrite <- Permutation_middle. by constructor.
Qed.

Lemma put_ref_nonces tx l : sorted l -> Nonce tx ∈ Nonce <$> l ->
  Nonce <$> put_ref tx l ≡ₚ Nonce <$> l.
Proof.
  intros Hs (t & E & Ht)%list_elem_of_fmap. apply NoDup_Permutation.
  - by apply sorted_NoDup, put_ref_sorted.
  - by apply sorted_NoDup.
  - intros n. rewrite !list_elem_of_fmap. setoid_rewrite put_ref_elem. split.
    + intros (t' & -> & [->|[]]); eauto.
    + intros (t' & -> & Ht'). destruct (decide (Nonce t' = Nonce tx)) as [E'|]; eauto.
Qed.

(** ** The heap index *)

Lemma indexed_head m l : indexed m l ->
  match index m, l with
  | [], [] => True
  | n0 :: _, tx :: _ => n0 = Nonce tx
  | _, _ => False
  end.
Proof.
  intros [[Hs _ _] Hp Hh]. destruct l as [|tx l]; simpl in Hp.
  { by apply Permutation_nil_r in Hp as ->. }
  destruct (index m) as [|n0 idx] eqn:E; [by apply Permutation_nil_l in Hp|].
  apply sorted_cons in Hs as [_ Hf]. rewrite Forall_forall in Hf.
  assert (n0 ∈ Nonce tx :: (Nonce <$> l)) as Hn by (rewrite <- Hp; left).
  apply elem_of_cons in Hn as [->|(t & -> & Ht)%list_elem_of_fmap]; [done|].
  specialize (Hf t Ht). unfold before in Hf.
  assert (Nonce tx ∈ Nonce t :: idx) as [k Hk]%list_elem_of_lookup by (rewrite Hp; left).
  pose proof (heap_min Z.ltb _ k Hh (lookup_lt_Some _ _ _ Hk)) as Hm.
  apply list_lookup_total_correct in Hk. rewrite Hk in Hm. unfold le in Hm. simpl in Hm. lia.
Qed.

Lemma popItem_spec m tx l : indexed m (tx :: l) ->
  exists m', popItem m = Ret (m', tx) /\ indexed m' l /\ cache m' = cache m.
Proof.
  intros Hi. pose proof (indexed_head _ _ Hi) as Hhd. destruct Hi as [Hh Hp Hheap].
  destruct (index m) as [|n0 idx0] eqn:E; [done|]. subst n0.
  destruct (Pop_heap Z.ltb (index m)) as (n & idx & HP & Hheap' & Hperm & Hn & _); [by rewrite E..|].
  rewrite E in Hn. simpl in Hn. injection Hn as <-. unfold popItem. rewrite HP.
  assert (items m !! Nonce tx = Some tx) as ->.
  { apply (holds_lookup _ _ _ _ Hh). split; [left|done]. }
  eexists. split_and!; [done| |done]. split; simpl; [by apply holds_cons| |done].
  apply (Permutation_cons_inv (a := Nonce tx)). rewrite <- Hperm, E. by rewrite Hp.
Qed.

(** ** The operations of txSortedMap *)

Lemma new_rep : rep newTxSortedMap [].
Proof.
  split; [|by left]. split; simpl; [|done|intros k; simpl; lia].
  split; [constructor|done|constructor].
Qed.

Lemma Get_rep m l n : rep m l ->
  sm_Get m n = snd <$> list_find (fun tx => Nonce tx = n) l.
Proof.
  intros [[Hh _ _] _]. unfold sm_Get. apply option_eq. intros tx. rewrite (holds_lookup _ _ _ _ Hh).
  destruct (list_find (fun tx => Nonce tx = n) l) as [[i t]|] eqn:E; simpl.
  - apply list_find_Some in E as (Hi & Hn & _). apply list_elem_of_lookup_2 in Hi. split.
    + intros [Ht <-]. f_equal. by apply (sorted_inj l); [apply Hh|..].
    + intros [= ->]. by split.
  - split; [|done]. intros [Ht Hn]. apply list_find_None in E. rewrite Forall_forall in E.
    by destruct (E tx Ht).
Qed.

Lemma Put_rep m l tx : rep m l -> is_u64 (Nonce tx) -> rep (sm_Put m tx) (put_ref tx l).
Proof.
  intros [[Hh Hp Hheap] _] Hr. split; [|by left]. unfold sm_Put.
  assert (holds (<[Nonce tx := tx]> (items m)) (put_ref tx l)) as Hh'.
  { apply holds_intro; [by apply put_ref_sorted, Hh| |].
    - apply Forall_forall. intros t [->|[Ht _]]%put_ref_elem; [done|].
      by apply (proj1 (Forall_forall _ _) (h_range _ _ Hh)).
    - intros n t. rewrite lookup_insert_Some, (holds_lookup _ _ _ _ Hh), put_ref_elem. naive_solver. }
  destruct (items m !! Nonce tx) as [old|] eqn:E; split; simpl; try done.
  - rewrite Hp, put_ref_nonces; [done|apply Hh|].
    apply (holds_lookup _ _ _ _ Hh) in E as [Ho <-]. by apply list_elem_of_fmap_2.
  - rewrite (proj2 (Push_heap Z.ltb _ (Nonce tx) Hheap)), put_ref_perm; [by rewrite Hp|].
    intros (t & Et & Ht)%list_elem_of_fmap.
    assert (items m !! Nonce tx = Some t) by (apply (holds_lookup _ _ _ _ Hh); auto). congruence.
  - apply (proj1 (Push_heap Z.ltb _ (Nonce tx) Hheap)).
Qed.

Lemma Forward_loop_spec fuel m l th rem : indexed m l -> (length l < fuel)%nat ->
  exists m', sm_Forward_loop fuel m th rem = Ret (m', rem ++ filter (fun t => Nonce t < th) l) /\
    indexed m' (filter (fun t => th <= Nonce t) l) /\ cache m' = cache m.
Proof.
  revert m l rem. induction fuel as [|fuel IH]; intros m l rem Hi Hf; [lia|]. cbn [sm_Forward_loop].
  pose proof (indexed_head _ _ Hi) as Hhd. destruct l as [|tx l].
  { destruct (index m); [|done]. simpl. exists m. by rewrite app_nil_r. }
  destruct (index m) as [|n0 idx]; [done|]. subst n0. rewrite !filter_cons.
  destruct (Z.ltb_spec (Nonce tx) th) as [Hlt|Hge].
  - destruct (popItem_spec m tx l Hi) as (m1 & -> & Hi1 & Hc1). simpl in *.
    destruct (IH m1 l (rem ++ [tx]) Hi1 ltac:(lia)) as (m' & E & Hi' & Hc'). exists m'.
    rewrite decide_True, (decide_False (P := th <= Nonce tx)) by lia.
    rewrite E, <- app_assoc. simpl. split_and!; congruence.
  - destruct (proj1 (sorted_cons _ _) (h_sorted _ _ (i_holds _ _ Hi))) as [_ Hb].
    rewrite decide_False, decide_True by lia.
    rewrite filter_none, filter_all by (eapply Forall_impl; [exact Hb|]; unfold before; simpl; lia).
    rewrite app_nil_r. eauto.
Qed.

Lemma filter_split (th : Z) l : sorted l ->
  l = filter (fun t => Nonce t < th) l ++ filter (fun t => th <= Nonce t) l.
Proof.
  induction l as [|tx l IH]; [done|]. intros [Hs Hb]%sorted_cons. rewrite !filter_cons.
  destruct (decide (Nonce tx < th)).
  - rewrite (decide_False (P := th <= Nonce tx)) by lia. simpl. by rewrite <- IH.
  - rewrite (decide_True (P := th <= Nonce tx)) by lia.
    rewrite filter_none, filter_all by (eapply Forall_impl; [exact Hb|]; unfold before; simpl; lia). done.
Qed.

Lemma Forward_rep m l th : rep m l ->
  exists m', sm_Forward m th = Ret (m', filter (fun t => Nonce t < th) l) /\
    rep m' (filter (fun t => th <= Nonce t) l).
Proof.
  intros [Hi Hc]. unfold sm_Forward.
  assert (length (index m) = length l) as Hlen by (rewrite (i_index _ _ Hi); apply length_fmap).
  destruct (Forward_loop_spec (S (length (index m))) m l th []) as (m1 & -> & Hi1 & Hc1); [done|lia|].
  simpl. rewrite Hc1. destruct Hc as [Hc|Hc]; rewrite Hc.
  - exists m1. split; [done|]. split; [done|left; congruence].
  - pose proof (filter_split th l (h_sorted _ _ (i_holds _ _ Hi))) as Hsp.
    rewrite decide_True by (rewrite Hsp at 2; rewrite length_app; lia).
    eexists. split; [done|]. split; [by destruct Hi1|]. right. simpl. f_equal.
    rewrite Hsp at 2. by rewrite drop_app_length.
Qed.

Lemma reheap_rep m l : holds (items m) l -> rep (sm_reheap m) l.
Proof.
  intros Hh. split; [|by left]. destruct (Init_heap Z.ltb (map_to_list (items m)).*1) as [H1 H2].
  split; simpl; [done| |done]. rewrite H2. by apply holds_keys.
Qed.

Lemma filter_nil_all (f : Transaction -> bool) l :
  filter (fun tx => f tx = true) l = [] -> filter (fun tx => f tx = false) l = l.
Proof.
  intros E. apply filter_all. apply Forall_forall. intros t Ht.
  destruct (f t) eqn:Ef; [|done]. assert (t ∈ filter (fun tx => f tx = true) l) as Hin
    by (by apply list_elem_of_filter). rewrite E in Hin. by apply elem_of_nil in Hin.
Qed.

Lemma sm_filter_spec m l f : holds (items m) l ->
  let '(m', removed) := sm_filter m f in
  removed ≡ₚ filter (fun tx => f tx = true) l /\
  holds (items m') (filter (fun tx => f tx = false) l) /\ index m' = index m.
Proof.
  intros Hh. unfold sm_filter.
  assert (filter (fun tx => f tx = true) (map_to_list (items m)).*2 ≡ₚ filter (fun tx => f tx = true) l) as Hp
    by by rewrite (holds_values _ _ Hh).
  split_and!; [done|case_match; simpl; by apply holds_filter|by case_match].
Qed.

Lemma Filter_rep m l f : rep m l ->
  let '(m', removed) := sm_Filter m f in
  removed ≡ₚ filter (fun tx => f tx = true) l /\ rep m' (filter (fun tx => f tx = false) l).
Proof.
  intros [[Hh Hp Hheap] Hc]. unfold sm_Filter. pose proof (sm_filter_spec m l f Hh) as Hf.
  assert (forall c, (sm_filter m f).2 = [] -> cache (sm_filter m f).1 = c -> cache m = c) as Hcache.
  { unfold sm_filter. simpl. intros c ->. done. }
  destruct (sm_filter m f) as [m1 removed]. destruct Hf as (Hr & Hh1 & Hix). simpl in Hcache.
  destruct removed as [|r removed]; (split; [done|]).
  - assert (filter (fun tx => f tx = false) l = l) as El.
    { apply filter_nil_all. by apply Permutation_nil_l in Hr. }
    rewrite El in *. split; [split; [done|by rewrite Hix|by rewrite Hix]|].
    specialize (Hcache _ eq_refl eq_refl). by rewrite <- Hcache.
  - by apply reheap_rep.
Qed.

Lemma merge_sort_nonces (l : list Transaction) idx :
  sorted l -> idx ≡ₚ Nonce <$> l -> merge_sort Z.le idx = Nonce <$> l.
Proof.
  intros Hs Hp. apply (StronglySorted_unique Z.le).
  - apply StronglySorted_merge_sort; intros ?; lia.
  - clear Hp. induction l as [|tx l IH]; simpl; [constructor|].
    apply sorted_cons in Hs as [Hs Hb]. constructor; [by apply IH|].
    apply Forall_fmap. eapply Forall_impl; [exact Hb|]. unfold before. simpl. lia.
  - by rewrite merge_sort_Permutation.
Qed.

Lemma holds_snoc its l tx : holds its (l ++ [tx]) -> holds (delete (Nonce tx) its) l.
Proof.
  intros Hh. pose proof (h_sorted _ _ Hh) as (Hs & _ & Hb)%sorted_app.
  pose proof (h_range _ _ Hh) as [Hr _]%Forall_app.
  apply holds_intro; [done..|]. intros n t.
  rewrite lookup_delete_Some, (holds_lookup _ _ _ _ Hh), elem_of_app, list_elem_of_singleton.
  split; [intros (Hn & [Ht | ->] & <-); auto; done|]. intros [Ht <-]. split_and!; auto.
  specialize (Hb t tx Ht ltac:(by apply list_elem_of_singleton)). unfold before in Hb. lia.
Qed.

Lemma Cap_loop_spec l n size its drops : holds its (take size l) -> (n <= size <= length l)%nat ->
  exists its', sm_Cap_loop (Nonce <$> l) its drops n size =
      Ret (its', drops ++ reverse (drop (size - n) (take size l))) /\ holds its' (take (size - n) l).
Proof.
  revert size its drops. induction n as [|n IH]; intros size its drops Hh Hn; cbn [sm_Cap_loop].
  - exists its. rewrite Nat.sub_0_r, drop_ge, reverse_nil, app_nil_r by (rewrite length_take; lia). done.
  - destruct size as [|size]; [lia|]. replace (S size - 1)%nat with size by lia.
    destruct (lookup_lt_is_Some_2 l size) as [tx Htx]; [lia|].
    rewrite list_lookup_fmap, Htx. simpl. rewrite (take_S_r _ _ _ Htx) in *.
    assert (its !! Nonce tx = Some tx) as ->.
    { apply (holds_lookup _ _ _ _ Hh). split; [|done]. apply elem_of_app. right. left. }
    destruct (IH size (delete (Nonce tx) its) (drops ++ [tx])) as (its' & -> & Hh'); [by apply holds_snoc|lia|].
    exists its'. split; [|done]. f_equal. f_equal. rewrite <- app_assoc. f_equal.
    rewrite (drop_app_le (take size l)) by (rewrite length_take; lia). by rewrite reverse_app.
Qed.

Lemma Cap_rep m l n : rep m l ->
  exists m', sm_Cap m n = Ret (m', reverse (drop n l)) /\ rep m' (take n l).
Proof.
  intros [[Hh Hp Hheap] Hc]. unfold sm_Cap. rewrite (holds_size _ _ Hh).
  case_decide as Hn.
  { exists m. rewrite drop_ge, take_ge by done. done. }
  rewrite (merge_sort_nonces l) by (done || apply Hh).
  destruct (Cap_loop_spec l (length l - n) (length l) (items m) []) as (its & -> & Hh'); [by rewrite take_ge|lia|].
  replace (length l - (length l - n))%nat with n in * by lia. rewrite (take_ge l (length l)) by done. simpl.
  eexists. split; [done|]. rewrite <- fmap_take. destruct (Init_heap Z.ltb (Nonce <$> take n l)) as [H1 H2].
  split; [done|]. simpl. destruct Hc as [-> | ->]; [by left|right]. simpl. do 2 f_equal.
  rewrite length_reverse, length_drop. lia.
Qed.

Lemma Remove_rep m l n : rep m l ->
  exists m', sm_Remove m n = Ret (m', bool_decide (n ∈ Nonce <$> l)) /\
    rep m' (filter (fun t => Nonce t <> n) l).
Proof.
  intros [[Hh Hp Hheap] Hc]. unfold sm_Remove. destruct (items m !! n) as [tx|] eqn:E.
  - apply (holds_lookup _ _ _ _ Hh) in E as [Htx <-].
    rewrite bool_decide_eq_true_2 by by apply list_elem_of_fmap_2.
    assert (Nonce tx ∈ index m) as Hin by (rewrite Hp; by apply list_elem_of_fmap_2).
    unfold findIndex. destruct (list_find_elem_of (fun n => n = Nonce tx) _ _ Hin eq_refl) as [[i y] Hf].
    rewrite Hf. simpl. apply list_find_Some in Hf as (Hi & -> & _).
    destruct (Remove_heap Z.ltb (index m) i (Nonce tx) Hheap Hi) as (idx & -> & Hheap' & Hperm). simpl.
    eexists. split; [done|]. split; [|by left].
    assert (holds (delete (Nonce tx) (items m)) (filter (fun t => Nonce t <> Nonce tx) l)) as Hh'.
    { apply holds_intro; [apply sorted_filter, Hh| |].
      - apply Forall_forall. intros t [_ Ht]%list_elem_of_filter.
        by apply (proj1 (Forall_forall _ _) (h_range _ _ Hh)).
      - intros k t. rewrite lookup_delete_Some, (holds_lookup _ _ _ _ Hh), list_elem_of_filter. naive_solver. }
    split; simpl; [done| |done]. apply (Permutation_cons_inv (a := Nonce tx)). rewrite <- Hperm, Hp.
    apply NoDup_Permutation.
    + apply sorted_NoDup, Hh.
    + constructor; [|apply sorted_NoDup, Hh'].
      intros (t & Et & [? _]%list_elem_of_filter)%list_elem_of_fmap. done.
    + intros k. rewrite elem_of_cons, !list_elem_of_fmap. setoid_rewrite list_elem_of_filter. split.
      * intros (t & -> & Ht). destruct (decide (Nonce t = Nonce tx)); eauto.
      * intros [->|(t & -> & _ & Ht)]; eauto.
  - assert (forall t, t ∈ l -> Nonce t <> n) as Hn.
    { intros t Ht Et. assert (items m !! n = Some t) by (apply (holds_lookup _ _ _ _ Hh); auto). congruence. }
    exists m. rewrite filter_all by (by apply Forall_forall). split; [|by split].
    rewrite bool_decide_eq_false_2; [done|]. intros (t & -> & Ht)%list_elem_of_fmap. by destruct (Hn t).
Qed.

Lemma Ready_loop_spec fuel m l next ready : indexed m l -> (length l < fuel)%nat -> is_u64 next ->
  exists m', sm_Ready_loop fuel m next ready = Ret (m', ready ++ (run_ref next l).1) /\
    indexed m' (run_ref next l).2.
Proof.
  revert m l next ready. induction fuel as [|fuel IH]; intros m l next ready Hi Hf Hr; [lia|].
  cbn [sm_Ready_loop]. pose proof (indexed_head _ _ Hi) as Hhd. destruct l as [|tx l].
  { destruct (index m); [|done]. simpl. rewrite app_nil_r. eauto. }
  destruct (index m) as [|n0 idx]; [done|]. subst n0. cbn [run_ref].
  destruct (Z.eqb_spec (Nonce tx) next) as [Hn|Hn].
  - destruct (popItem_spec m tx l Hi) as (m1 & -> & Hi1 & _). simpl in *.
    assert (run_ref (u64 (next + 1)) l = run_ref (next + 1) l) as Hwrap.
    { destruct (decide (next + 1 < two64)); [by rewrite u64_small by (unfold is_u64 in *; lia)|].
      destruct (proj1 (sorted_cons _ _) (h_sorted _ _ (i_holds _ _ Hi))) as [_ Hb].
      pose proof (h_range _ _ (i_holds _ _ Hi1)) as Hrg.
      destruct l as [|t l]; [done|]. apply Forall_cons_1 in Hb as [Hb _].
      apply Forall_cons_1 in Hrg as [Hrg _]. unfold before, is_u64 in *. lia. }
    destruct (IH m1 l (u64 (next + 1)) (ready ++ [tx]) Hi1 ltac:(lia) (u64_range _)) as (m' & E & Hi').
    rewrite Hwrap in *. destruct (run_ref (next + 1) l) as [a b]. simpl in *.
    exists m'. by rewrite E, <- app_assoc.
  - rewrite app_nil_r. eauto.
Qed.

Lemma Ready_rep m l start : rep m l ->
  exists m', sm_Ready m start = Ret (m', (ready_ref start l).1) /\ rep m' (ready_ref start l).2.
Proof.
  intros [Hi Hc]. unfold sm_Ready. pose proof (indexed_head _ _ Hi) as Hhd.
  assert (length (index m) = length l) as Hlen by (rewrite (i_index _ _ Hi); apply length_fmap).
  destruct l as [|tx l], (index m) as [|n0 idx] eqn:Ei; try done; cbn [ready_ref].
  { exists m. by split. }
  subst n0. destruct (Z.ltb_spec start (Nonce tx)); [exists m; by split|].
  assert (is_u64 (Nonce tx)) as Hr by (by apply (Forall_cons_1 _ _ _ (h_range _ _ (i_holds _ _ Hi)))).
  destruct (Ready_loop_spec (S (length (Nonce tx :: idx))) m (tx :: l) (Nonce tx) []) as (m' & E & Hi'); [done|lia|done|].
  rewrite E. cbn [mbind outcome_bind]. eexists. split; [done|]. split; [|by left]. by destruct Hi'.
Qed.

Lemma sorted_le l : sorted l -> StronglySorted TxByNonce l.
Proof.
  induction 1 as [|t l _ IH Hb]; constructor; [done|].
  eapply Forall_impl; [exact Hb|]. unfold before, TxByNonce. lia.
Qed.

Lemma Flatten_rep m l : rep m l ->
  exists m', sm_Flatten m = (m', l) /\ rep m' l.
Proof.
  intros [Hi Hc]. unfold sm_Flatten, sm_flatten. destruct Hc as [Hc|Hc]; rewrite Hc.
  - assert (merge_sort TxByNonce (map_to_list (items m)).*2 = l) as ->.
    { apply (StronglySorted_unique_strong TxByNonce).
      - intros t1 t2 H1 H2 H12 H21. rewrite merge_sort_Permutation, (holds_values _ _ (i_holds _ _ Hi)) in H1.
        apply (sorted_inj l); [apply Hi|done..|]. unfold TxByNonce in *. lia.
      - apply StronglySorted_merge_sort; unfold TxByNonce; intros ?; lia.
      - apply sorted_le, Hi.
      - rewrite merge_sort_Permutation. apply holds_values, Hi. }
    eexists. split; [done|]. split; [by destruct Hi|by right].
  - exists m. split; [done|]. by split; [|right].
Qed.

(** ** txSortedMap refines the sorted list *)

Inductive smOp :=
| SPut (tx : Transaction)
| SForward (threshold : Z)
| SFilter (f : Transaction -> bool)
| SCap (threshold : nat)
| SRemove (nonce : Z)
| SReady (start : Z)
| SFlatten.

(** Run an operation; the output is the transactions it returns (for Remove,
    nothing). *)
Definition sm_exec (m : txSortedMap) (op : smOp) : outcome (txSortedMap * list Transaction) :=
  match op with
  | SPut tx => Ret (sm_Put m tx, [])
  | SForward th => sm_Forward m th
  | SFilter f => Ret (sm_Filter m f)
  | SCap n => sm_Cap m n
  | SRemove n => '(m, _) ← sm_Remove m n; Ret (m, [])
  | SReady st => sm_Ready m st
  | SFlatten => Ret (sm_Flatten m)
  end.

Definition ref_exec (l : list Transaction) (op : smOp) : list Transaction * list Transaction :=
  match op with
  | SPut tx => (put_ref tx l, [])
  | SForward th => (filter (fun t => th <= Nonce t) l, filter (fun t => Nonce t < th) l)
  | SFilter f => (filter (fun t => f t = false) l, filter (fun t => f t = true) l)
  | SCap n => (take n l, reverse (drop n l))
  | SRemove n => (filter (fun t => Nonce t <> n) l, [])
  | SReady st => let '(a, b) := ready_ref st l in (b, a)
  | SFlatten => (l, l)
  end.

Definition op_ok (op : smOp) : Prop := match op with SPut tx => is_u64 (Nonce tx) | _ => True end.

(** Filter walks a Go map: its output has no order. *)
Definition same_out (op : smOp) (o1 o2 : list Transaction) : Prop :=
  match op with SFilter _ => o1 ≡ₚ o2 | _ => o1 = o2 end.

Lemma sm_exec_rep m l op : rep m l -> op_ok op ->
  exists m' out, sm_exec m op = Ret (m', out) /\ rep m' (ref_exec l op).1 /\
    same_out op out (ref_exec l op).2.
Proof.
  intros Hr Hok. destruct op as [tx|th|f|n|n|st|]; simpl.
  - eexists _, _. split_and!; [done|by apply Put_rep|done].
  - destruct (Forward_rep m l th Hr) as (m' & -> & Hr'). eauto.
  - pose proof (Filter_rep m l f Hr) as Hf. destruct (sm_Filter m f) as [m' out].
    destruct Hf. eauto.
  - destruct (Cap_rep m l n Hr) as (m' & -> & Hr'). eauto.
  - destruct (Remove_rep m l n Hr) as (m' & -> & Hr'). simpl. eauto.
  - destruct (Ready_rep m l st Hr) as (m' & -> & Hr'). destruct (ready_ref st l). simpl in *. eauto.
  - destruct (Flatten_rep m l Hr) as (m' & -> & Hr'). eauto.
Qed.

Fixpoint sm_run (m : txSortedMap) (ops : list smOp) : outcome (txSortedMap * list (list Transaction)) :=
  match ops with
  | [] => Ret (m, [])
  | op :: ops =>
      '(m, out) ← sm_exec m op; '(m, outs) ← sm_run m ops; Ret (m, out :: outs)
  end.

Fixpoint ref_run (l : list Transaction) (ops : list smOp) : list Transaction * list (list Transaction) :=
  match ops with
  | [] => (l, [])
  | op :: ops => let '(l, out) := ref_exec l op in
                 let '(l, outs) := ref_run l ops in (l, out :: outs)
  end.

Lemma sm_run_rep ops m l : rep m l -> Forall op_ok ops ->
  exists m' outs, sm_run m ops = Ret (m', outs) /\ rep m' (ref_run l ops).1 /\
    Forall2 (fun op p => same_out op p.1 p.2) ops (zip outs (ref_run l ops).2) /\
    length outs = length ops.
Proof.
  revert m l. induction ops as [|op ops IH]; intros m l Hr Hok; cbn [sm_run ref_run].
  { exists m, []. split_and!; [done|done|constructor|done]. }
  apply Forall_cons_1 in Hok as [Hop Hok].
  destruct (sm_exec_rep m l op Hr Hop) as (m1 & out & -> & Hr1 & Hs). cbn [mbind outcome_bind].
  destruct (ref_exec l op) as [l1 out1]. simpl in Hr1, Hs.
  destruct (IH m1 l1 Hr1 Hok) as (m2 & outs & -> & Hr2 & Hs2 & Hlen). cbn [mbind outcome_bind].
  destruct (ref_run l1 ops) as [l2 outs2]. simpl in *.
  eexists _, _. split_and!; [done|done|by constructor|simpl; lia].
Qed.

(** ** txList *)

(** The list represents [l], and the caps bound its costs and gas limits. *)
Record tl_ok (t : txList) (l : list Transaction) : Prop := {
  tl_rep : rep (txs t) l;
  tl_caps : Forall (fun tx => Cost tx <= costcap t /\ Gas tx <= gascap t) l
}.

Lemma newTxList_ok b : tl_ok (newTxList b) [].
Proof. split; [apply new_rep|constructor]. Qed.

(** When a transaction may take the place of [old]: its price is higher, and
    by the price bump. *)
Definition replaces (old tx : Transaction) (priceBump : Z) : Prop :=
  GasPrice old < GasPrice tx /\ (int64 (100 + int64 priceBump) * GasPrice old) / 100 <= GasPrice tx.

Lemma tl_Add_ok t l tx bump : tl_ok t l -> is_u64 (Nonce tx) ->
  let '(t', added, old) := tl_Add t tx bump in
  (if added then tl_ok t' (put_ref tx l) /\ old = sm_Get (txs t) (Nonce tx)
   else t' = t /\ old = None) /\
  (added = true <-> forall o, sm_Get (txs t) (Nonce tx) = Some o -> replaces o tx bump).
Proof.
  intros [Hr Hc] Hn. unfold tl_Add. set (acc := match sm_Get _ _ with None => true | _ => _ end).
  assert (acc = true <-> forall o, sm_Get (txs t) (Nonce tx) = Some o -> replaces o tx bump) as Hacc.
  { unfold acc, replaces, GasPriceCmp, GasPriceIntCmp.
    destruct (sm_Get (txs t) (Nonce tx)) as [o|]; [|naive_solver].
    split; [intros E o' [= <-]|intros E; specialize (E o eq_refl)].
    - destruct (Z.compare_spec (GasPrice o) (GasPrice tx)), (Z.compare_spec (GasPrice tx)
        (int64 (100 + int64 bump) * GasPrice o / 100)); simpl in E; done || lia.
    - destruct (Z.compare_spec (GasPrice o) (GasPrice tx)), (Z.compare_spec (GasPrice tx)
        (int64 (100 + int64 bump) * GasPrice o / 100)); simpl; done || lia. }
  destruct acc; (split; [|done]); [|done]. split; [|done].
  split; simpl; [by apply Put_rep|]. apply Forall_forall. rewrite Forall_forall in Hc.
  intros x [->|[Hx _]]%put_ref_elem; [|specialize (Hc x Hx)];
    destruct (Z.ltb_spec (costcap t) (Cost tx)), (Z.ltb_spec (gascap t) (Gas tx)); lia.
Qed.

Definition valid_tx (costLimit gasLimit : Z) (tx : Transaction) : bool :=
  negb ((gasLimit <? Gas tx) || (costLimit <? Cost tx)).

(** The prefix before the first transaction that fails the test. *)
Fixpoint while_ref (f : Transaction -> bool) (l : list Transaction) : list Transaction :=
  match l with tx :: l => if f tx then tx :: while_ref f l else [] | [] => [] end.

Definition lowest_of (removed : list Transaction) (low : Z) : Z :=
  fold_left (fun low tx => if Nonce tx <? low then Nonce tx else low) removed low.

Lemma lowest_spec removed low : lowest_of removed low <= low /\
  (forall tx, tx ∈ removed -> lowest_of removed low <= Nonce tx) /\
  (lowest_of removed low = low \/ exists tx, tx ∈ removed /\ lowest_of removed low = Nonce tx).
Proof.
  unfold lowest_of. revert low. induction removed as [|t removed IH]; intros low; simpl.
  { split_and!; [lia|set_solver|by left]. }
  destruct (Z.ltb_spec (Nonce t) low); [destruct (IH (Nonce t)) as (H1 & H2 & H3)
                                       |destruct (IH low) as (H1 & H2 & H3)].
  - split_and!; [lia| |].
    + intros tx [->|Htx]%elem_of_cons; [done|by apply H2].
    + right. destruct H3 as [E|(tx & Htx & E)]; [exists t; split; [left|done]|].
      exists tx. split; [by right|done].
  - split_and!; [lia| |].
    + intros tx [->|Htx]%elem_of_cons; [lia|by apply H2].
    + destruct H3 as [E|(tx & Htx & E)]; [by left|right]. exists tx. split; [by right|done].
Qed.

(** Filtering the valid ones and cutting above the lowest invalid nonce keeps
    the valid prefix. *)
Lemma while_filter f l low : sorted l ->
  (forall tx, tx ∈ l -> f tx = false -> low <= Nonce tx) ->
  (exists tx, tx ∈ l /\ f tx = false /\ Nonce tx = low) ->
  filter (fun tx => (low <? Nonce tx) = false) (filter (fun tx => f tx = true) l) = while_ref f l.
Proof.
  induction l as [|t l IH]; intros Hs Hlow (x & Hx & Hfx & Hnx); [set_solver|].
  apply sorted_cons in Hs as [Hs Hb]. rewrite Forall_forall in Hb. simpl. rewrite filter_cons.
  destruct (f t) eqn:Ef.
  - rewrite decide_True by done. apply elem_of_cons in Hx as [->|Hx]; [congruence|].
    rewrite filter_cons, decide_True by (pose proof (Hb x Hx) as Hbx; unfold before in Hbx; lia).
    f_equal. apply IH; [done| |by eauto]. intros; apply Hlow; [by right|done].
  - rewrite decide_False by done. apply filter_none, Forall_forall.
    intros y [_ Hy]%list_elem_of_filter. specialize (Hb y Hy). unfold before in Hb.
    pose proof (Hlow t ltac:(left) Ef). lia.
Qed.

Lemma while_all f l : Forall (fun tx => f tx = true) l -> while_ref f l = l.
Proof. induction 1 as [|t l E _ IH]; simpl; [done|]. by rewrite E, IH. Qed.

Lemma while_sub f l tx : tx ∈ while_ref f l -> tx ∈ l /\ f tx = true.
Proof.
  induction l as [|t l IH]; simpl; [by intros ?%elem_of_nil|]. destruct (f t) eqn:E; [|by intros ?%elem_of_nil].
  rewrite elem_of_cons. intros [->|Hx]; [split; [left|done]|].
  destruct (IH Hx). split; [by right|done].
Qed.

(** What Filter leaves, in terms of the list. *)
Definition kept_ref (strict : bool) (f : Transaction -> bool) (l : list Transaction) :=
  if strict then while_ref f l else filter (fun tx => f tx = true) l.

Lemma kept_all b f l : Forall (fun tx => f tx = true) l -> kept_ref b f l = l.
Proof. intros Hl. unfold kept_ref. destruct b; [by apply while_all|by apply filter_all]. Qed.

Lemma kept_sub b f l tx : tx ∈ kept_ref b f l -> tx ∈ l /\ f tx = true.
Proof. unfold kept_ref. destruct b; [apply while_sub|]. intros []%list_elem_of_filter. done. Qed.

Lemma valid_caps t l cl gl b :
  rep (txs t) (kept_ref b (valid_tx cl gl) l) -> costcap t = cl -> gascap t = gl ->
  tl_ok t (kept_ref b (valid_tx cl gl) l).
Proof.
  intros Hr <- <-. split; [done|]. apply Forall_forall. intros tx [_ Hv]%kept_sub.
  unfold valid_tx in Hv. lia.
Qed.

(** The strict cut: everything above the lowest removed nonce goes too. *)
Lemma strict_cut l f removed m : sorted l -> Forall (fun tx => is_u64 (Nonce tx)) l ->
  removed ≡ₚ filter (fun tx => f tx = false) l -> removed <> [] ->
  rep m (filter (fun tx => f tx = true) l) ->
  let '(m', invalids) := sm_filter m (fun tx => lowest_of removed MaxUint64 <? Nonce tx) in
  rep (sm_reheap m') (while_ref f l) /\
  (forall tx, tx ∈ invalids <-> tx ∈ l /\ f tx = true /\ tx ∉ while_ref f l).
Proof.
  intros Hs Hrg Hp Hne Hr. set (low := lowest_of removed MaxUint64).
  destruct (lowest_spec removed MaxUint64) as (Hl1 & Hl2 & Hl3). fold low in Hl1, Hl2, Hl3.
  assert (forall tx, tx ∈ removed <-> tx ∈ l /\ f tx = false) as Hrem.
  { intros tx. rewrite Hp, list_elem_of_filter. naive_solver. }
  assert (filter (fun tx => (low <? Nonce tx) = false) (filter (fun tx => f tx = true) l) = while_ref f l) as Hw.
  { apply while_filter; [done|intros tx Hx Hf; apply Hl2, Hrem; done|].
    destruct Hl3 as [E|(tx & Htx & E)]; [|exists tx; apply Hrem in Htx as []; done].
    destruct removed as [|r rs]; [done|]. exists r.
    assert (r ∈ r :: rs) as Hr0 by left. pose proof (Hl2 r Hr0) as Hlr.
    apply Hrem in Hr0 as [Hrl Hfr]. split_and!; [done..|].
    rewrite Forall_forall in Hrg. specialize (Hrg r Hrl). unfold is_u64, MaxUint64 in *. lia. }
  pose proof (sm_filter_spec m _ (fun tx => low <? Nonce tx) (i_holds _ _ (r_indexed _ _ Hr))) as Hf.
  destruct (sm_filter m _) as [m' invalids]. destruct Hf as (Hi & Hh & _). rewrite Hw in Hh.
  split; [by apply reheap_rep|]. intros tx. rewrite Hi, <- Hw, !list_elem_of_filter.
  destruct (low <? Nonce tx); naive_solver.
Qed.

Lemma tl_Filter_ok t l cl gl : tl_ok t l ->
  let kept := kept_ref (strict t) (valid_tx cl gl) l in
  let '(t', removed, invalids) := tl_Filter t cl gl in
  tl_ok t' kept /\ removed ≡ₚ filter (fun tx => valid_tx cl gl tx = false) l /\
  (forall tx, tx ∈ invalids <-> tx ∈ l /\ valid_tx cl gl tx = true /\ tx ∉ kept) /\
  strict t' = strict t.
Proof.
  intros [Hr Hc]. unfold tl_Filter. set (f := valid_tx cl gl).
  assert (Forall (fun tx => f tx = true) l -> forall tx, tx ∈ l /\ f tx = true /\ tx ∉ kept_ref (strict t) f l -> False) as Hno.
  { intros Hall tx. rewrite kept_all by done. naive_solver. }
  destruct ((costcap t <=? cl) && (gascap t <=? gl)) eqn:Ecap.
  { assert (Forall (fun tx => f tx = true) l) as Hall.
    { eapply Forall_impl; [exact Hc|]. unfold f, valid_tx. simpl. lia. }
    split_and!; [by rewrite kept_all| |by set_solver|done].
    rewrite filter_none; [done|]. eapply Forall_impl; [exact Hall|]. simpl. congruence. }
  assert (forall b (l : list Transaction), filter (fun tx => ((gl <? Gas tx) || (cl <? Cost tx)) = b) l = filter (fun tx => f tx = negb b) l) as Hext.
  { intros b l'. apply list_filter_iff. intros tx. unfold f, valid_tx. by destruct ((gl <? Gas tx) || (cl <? Cost tx)), b. }
  match goal with |- context [sm_Filter ?x ?g] => change (sm_Filter x g) with (sm_Filter (txs t) g) end.
  pose proof (Filter_rep (txs t) l (fun tx => (gl <? Gas tx) || (cl <? Cost tx)) Hr) as HF.
  destruct (sm_Filter (txs t) _) as [m removed]. rewrite !Hext in HF. simpl in HF. destruct HF as [Hrem Hrep].
  destruct removed as [|r rs] eqn:Er.
  - assert (Forall (fun tx => f tx = true) l) as Hall.
    { apply Permutation_nil_l in Hrem. apply Forall_forall. intros tx Hx.
      destruct (f tx) eqn:Ef; [done|]. assert (tx ∈ filter (fun tx => f tx = false) l) as Hin
        by (by apply list_elem_of_filter). rewrite <- Hrem in Hin. by apply elem_of_nil in Hin. }
    split_and!; [|done|by set_solver|done]. apply valid_caps; [|done..].
    fold f. rewrite kept_all by done. by rewrite filter_all in Hrep.
  - rewrite <- Er in *. fold (lowest_of removed MaxUint64). cbn [strict setf].
    pose proof (h_sorted _ _ (i_holds _ _ (r_indexed _ _ Hr))) as Hs.
    pose proof (h_range _ _ (i_holds _ _ (r_indexed _ _ Hr))) as Hrg.
    pose proof (strict_cut l f removed m Hs Hrg Hrem ltac:(by rewrite Er) Hrep) as Hcut.
    destruct (strict t) eqn:Est.
    + destruct (sm_filter m _) as [m' invalids]. destruct Hcut as [Hr' Hinv].
      split_and!; try done. by apply (valid_caps _ l cl gl true).
    + split_and!; try done; [apply (valid_caps _ l cl gl false); [apply reheap_rep, Hrep|done..]|].
      unfold kept_ref. intros tx. rewrite elem_of_nil, list_elem_of_filter. naive_solver.
Qed.

Lemma tl_Remove_ok t l tx : tl_ok t l ->
  let n := Nonce tx in
  exists t' invalids, tl_Remove t tx = Ret (t', bool_decide (n ∈ Nonce <$> l), invalids) /\
    strict t' = strict t /\
    if bool_decide (n ∈ Nonce <$> l) && strict t
    then tl_ok t' (filter (fun x => Nonce x < n) l) /\ invalids ≡ₚ filter (fun x => n < Nonce x) l
    else tl_ok t' (filter (fun x => Nonce x <> n) l) /\ invalids = [].
Proof.
  intros [Hr Hc] n. unfold tl_Remove. cbv zeta. fold n. destruct (Remove_rep (txs t) l n Hr) as (m & -> & Hm).
  cbn [mbind outcome_bind]. rewrite Forall_forall in Hc.
  destruct (bool_decide (n ∈ Nonce <$> l)) eqn:En; cbn [negb andb].
  2:{ eexists _, _. split; [done|]. split; [done|]. split; [|done]. split; [done|].
      apply Forall_forall. intros x [_ Hx]%list_elem_of_filter. by apply Hc. }
  change (strict (t <| txs := m |>)) with (strict t). destruct (strict t) eqn:Es.
  - pose proof (Filter_rep m _ (fun x => n <? Nonce x) Hm) as HF.
    destruct (sm_Filter m (fun x => n <? Nonce x)) as [m' invalids]. destruct HF as [Hi Hm'].
    assert (forall l' : list Transaction, filter (fun x => (n <? Nonce x) = false) (filter (fun x => Nonce x <> n) l')
      = filter (fun x => Nonce x < n) l') as E1.
    { intros l'. rewrite list_filter_filter. apply list_filter_iff. intros x. lia. }
    assert (forall l' : list Transaction, filter (fun x => (n <? Nonce x) = true) (filter (fun x => Nonce x <> n) l')
      = filter (fun x => n < Nonce x) l') as E2.
    { intros l'. rewrite list_filter_filter. apply list_filter_iff. intros x. lia. }
    rewrite E1 in Hm'. rewrite E2 in Hi. eexists _, _. split; [done|]. split; [done|]. split; [|done].
    split; [done|]. apply Forall_forall. intros x [_ Hx]%list_elem_of_filter. by apply Hc.
  - eexists _, _. split; [done|]. split; [done|]. split; [|done]. split; [done|].
    apply Forall_forall. intros x [_ Hx]%list_elem_of_filter. by apply Hc.
Qed.

Lemma tl_ok_sub t t' l l' : tl_ok t l -> rep (txs t') l' -> costcap t' = costcap t ->
  gascap t' = gascap t -> (forall x, x ∈ l' -> x ∈ l) -> tl_ok t' l'.
Proof.
  intros [_ Hc] Hr E1 E2 Hs. split; [done|]. rewrite E1, E2. rewrite Forall_forall in *. auto.
Qed.

Lemma tl_Forward_ok t l th : tl_ok t l ->
  exists t', tl_Forward t th = Ret (t', filter (fun x => Nonce x < th) l) /\
    tl_ok t' (filter (fun x => th <= Nonce x) l) /\ strict t' = strict t.
Proof.
  intros Ht. unfold tl_Forward. destruct (Forward_rep (txs t) l th (tl_rep _ _ Ht)) as (m & -> & Hm).
  cbn [mbind outcome_bind]. eexists. split_and!; [done| |done].
  eapply tl_ok_sub; [exact Ht|done..|]. by intros x []%list_elem_of_filter.
Qed.

Lemma tl_Cap_ok t l n : tl_ok t l ->
  exists t', tl_Cap t n = Ret (t', reverse (drop n l)) /\ tl_ok t' (take n l) /\ strict t' = strict t.
Proof.
  intros Ht. unfold tl_Cap. destruct (Cap_rep (txs t) l n (tl_rep _ _ Ht)) as (m & -> & Hm).
  cbn [mbind outcome_bind]. eexists. split_and!; [done| |done].
  eapply tl_ok_sub; [exact Ht|done..|]. intros x (i & Hi & _)%elem_of_take. by eapply list_elem_of_lookup_2.
Qed.

Lemma run_ref_app n l : (run_ref n l).1 ++ (run_ref n l).2 = l.
Proof.
  revert n. induction l as [|x l IH]; intros n; simpl; [done|]. case_match; [|done].
  specialize (IH (n + 1)). destruct (run_ref (n + 1) l). simpl in *. congruence.
Qed.

Lemma ready_ref_app start l : (ready_ref start l).1 ++ (ready_ref start l).2 = l.
Proof. unfold ready_ref. destruct l as [|x l]; [done|]. case_match; [done|]. apply run_ref_app. Qed.

Lemma tl_Ready_ok t l start : tl_ok t l ->
  exists t', tl_Ready t start = Ret (t', (ready_ref start l).1) /\ tl_ok t' (ready_ref start l).2 /\
    strict t' = strict t.
Proof.
  intros Ht. unfold tl_Ready. destruct (Ready_rep (txs t) l start (tl_rep _ _ Ht)) as (m & -> & Hm).
  cbn [mbind outcome_bind]. eexists. split_and!; [done| |done].
  eapply tl_ok_sub; [exact Ht|done..|]. intros x Hx. rewrite <- (ready_ref_app start l). set_solver.
Qed.

Lemma tl_Flatten_ok t l : tl_ok t l ->
  exists t', tl_Flatten t = (t', l) /\ tl_ok t' l /\ strict t' = strict t.
Proof.
  intros Ht. unfold tl_Flatten. destruct (Flatten_rep (txs t) l (tl_rep _ _ Ht)) as (m & -> & Hm).
  eexists. split_and!; [done| |done]. by eapply tl_ok_sub.
Qed.

Lemma tl_Len_ok t l : tl_ok t l -> tl_Len t = length l.
Proof. intros [[[Hh _ _] _] _]. unfold tl_Len, sm_Len. by apply holds_size. Qed.

Lemma tl_Empty_ok t l : tl_ok t l -> tl_Empty t = true <-> l = [].
Proof. intros Ht. unfold tl_Empty. rewrite (tl_Len_ok t l Ht), bool_decide_eq_true. by destruct l. Qed.

Lemma tl_LastElement_ok t l : tl_ok t l -> l <> [] ->
  exists t' tx, tl_LastElement t = Ret (t', tx) /\ last l = Some tx /\ tl_ok t' l /\ strict t' = strict t.
Proof.
  intros Ht Hn. unfold tl_LastElement, sm_LastElement. fold (sm_Flatten (txs t)).
  destruct (Flatten_rep (txs t) l (tl_rep _ _ Ht)) as (m & -> & Hm).
  destruct (last l) as [tx|] eqn:El; [|by apply last_None in El].
  cbn [mbind outcome_bind]. eexists _, _. split_and!; [done|done| |done]. by eapply tl_ok_sub.
Qed.

Lemma tl_ok_range t l : tl_ok t l -> Forall (fun tx => is_u64 (Nonce tx)) l.
Proof. intros [[[[_ _ Hr] _ _] _] _]. done. Qed.

Lemma tl_Add_strict t tx bump : strict (tl_Add t tx bump).1.1 = strict t.
Proof. unfold tl_Add. by destruct (match sm_Get _ _ with None => true | _ => _ end). Qed.

(** ** Properties *)

(** C31: from an empty map, any sequence of operations returns, and returns
    what the same operations on a list sorted by nonce return (for Filter up
    to the order of Go's map iteration); Flatten then gives that list.  The
    heap of nonces and the cached slice are not visible. *)
Theorem sortedMap_refines ops : Forall op_ok ops ->
  exists m outs, sm_run newTxSortedMap ops = Ret (m, outs) /\
    (sm_Flatten m).2 = (ref_run [] ops).1 /\ length outs = length ops /\
    Forall2 (fun op p => same_out op p.1 p.2) ops (zip outs (ref_run [] ops).2).
Proof.
  intros Hok. destruct (sm_run_rep ops newTxSortedMap [] new_rep Hok) as (m & outs & E & Hr & Hs & Hl).
  exists m, outs. split_and!; try done. by destruct (Flatten_rep m _ Hr) as (m' & -> & _).
Qed.

(** Add puts the transaction in place of the one with its nonce exactly
    when there is none or when the new price exceeds the old one and reaches
    it raised by the price bump; otherwise the list is unchanged.  The
    replaced transaction is returned and the caps stay upper bounds. *)
Theorem Add_replaces t l tx bump : tl_ok t l -> is_u64 (Nonce tx) ->
  let '(t', added, old) := tl_Add t tx bump in
  (added = true <-> forall o, sm_Get (txs t) (Nonce tx) = Some o -> replaces o tx bump) /\
  (if added then tl_ok t' (put_ref tx l) /\ old = sm_Get (txs t) (Nonce tx) else t' = t /\ old = None).
Proof.
  intros Ht Hn. pose proof (tl_Add_ok t l tx bump Ht Hn) as H. destruct (tl_Add t tx bump) as [[t' added] old].
  by destruct H.
Qed.

(** Filter removes exactly the transactions above the cost or the gas
    limit.  A strict list keeps the transactions before the first removed one
    and returns the others, now gapped, as invalid; a list that is not strict
    keeps all that remain. *)
Theorem Filter_keeps t l cl gl : tl_ok t l ->
  let '(t', removed, invalids) := tl_Filter t cl gl in
  let ok tx := Gas tx <= gl /\ Cost tx <= cl in
  (forall tx, tx ∈ removed <-> tx ∈ l /\ ~ ok tx) /\
  exists kept, tl_ok t' kept /\ (forall tx, tx ∈ invalids <-> tx ∈ l /\ ok tx /\ tx ∉ kept) /\
    (if strict t then kept = while_ref (valid_tx cl gl) l else forall tx, tx ∈ kept <-> tx ∈ l /\ ok tx).
Proof.
  intros Ht. pose proof (tl_Filter_ok t l cl gl Ht) as H. destruct (tl_Filter t cl gl) as [[t' removed] invalids].
  destruct H as (Hk & Hrem & Hinv & _). cbv zeta.
  assert (forall tx, valid_tx cl gl tx = true <-> Gas tx <= gl /\ Cost tx <= cl) as Hv.
  { intros tx. unfold valid_tx. rewrite negb_true_iff, orb_false_iff, !Z.ltb_ge. done. }
  split.
  - intros tx. rewrite Hrem, list_elem_of_filter, <- Hv, not_true_iff_false. naive_solver.
  - exists (kept_ref (strict t) (valid_tx cl gl) l). split; [done|]. split.
    + intros tx. by rewrite Hinv, Hv.
    + unfold kept_ref. destruct (strict t); [done|]. intros tx. rewrite list_elem_of_filter, Hv. naive_solver.
Qed.

(** ** Witnesses *)

Lemma sortedMap_refines_witness :
  exists m, sm_run newTxSortedMap [SPut (tx_at 3 1); SPut (tx_at 1 1); SForward 2] = Ret (m, [[]; []; [tx_at 1 1]]).
Proof.
  destruct (sortedMap_refines [SPut (tx_at 3 1); SPut (tx_at 1 1); SForward 2]) as (m & outs & E & _).
  - apply Forall_cons; split; [|apply Forall_cons; split; [|by repeat constructor]];
      split; vm_compute; discriminate || reflexivity.
  - exists m. rewrite E. vm_compute in E. injection E as _ <-. reflexivity.
Defined.

Lemma tx_at_ok : tl_ok (tl_Add (newTxList true) (tx_at 1 10) 10).1.1 [tx_at 1 10].
Proof.
  pose proof (tl_Add_ok (newTxList true) [] (tx_at 1 10) 10 (newTxList_ok true)) as H.
  by destruct H as [[Hok _] _]; [split; vm_compute; discriminate || reflexivity|].
Qed.

Lemma Add_replaces_witness : (tl_Add (tl_Add (newTxList true) (tx_at 1 10) 10).1.1 (tx_at 1 11) 10).1.2 = true.
Proof.
  pose proof (Add_replaces _ _ (tx_at 1 11) 10 tx_at_ok) as H.
  destruct (tl_Add (tl_Add (newTxList true) (tx_at 1 10) 10).1.1 (tx_at 1 11) 10) as [[t' added] old].
  destruct H as [Hadd _]; [split; vm_compute; discriminate || reflexivity|].
  apply Hadd. intros o E. vm_compute in E. injection E as <-. split; vm_compute; [reflexivity|discriminate].
Defined.

Lemma Filter_keeps_witness : tx_at 1 10 ∈ (tl_Filter (tl_Add (newTxList true) (tx_at 1 10) 10).1.1 5 100000).1.2.
Proof.
  pose proof (Filter_keeps _ _ 5 100000 tx_at_ok) as H.
  destruct (tl_Filter (tl_Add (newTxList true) (tx_at 1 10) 10).1.1 5 100000) as [[t' removed] invalids].
  destruct H as [Hrem _]. apply Hrem. split; [left|]. intros [_ Hc]. vm_compute in Hc. by apply Hc.
Defined.
