(* ===== verification/TxLookup.v ===== *)
(** * Account sets, the transaction lookup and the price heap
      (core/tx_pool.go, core/tx_list.go)

    [accountSet] holds the local accounts, [txLookup] all transactions of the
    pool by hash, split into local and remote ones, and [txPricedList] the
    remote ones in a heap ordered by price, where removed transactions stay
    as stale entries until they surface or the heap is rebuilt.  The priced
    list points to the lookup of the pool: here its operations take it as an
    argument. *)

From S2P Require Import Prelude Rlp Transaction Heap.

(** ** accountSet *)

Record accountSet := mkAccountSet {
  accounts : gset Address;
  as_signer : Signer;
  as_cache : option (list Address)
}.
#[export] Instance eta_accountSet : Eta accountSet :=
  fun r => mkAccountSet (accounts r) (as_signer r) (as_cache r).

Definition as_add (s : accountSet) (a : Address) : accountSet :=
  s <| accounts := {[ a ]} ∪ accounts s |> <| as_cache := None |>.

Definition newAccountSet (signer : Signer) (addrs : list Address) : accountSet :=
  fold_left as_add addrs (mkAccountSet ∅ signer None).

Definition as_contains (s : accountSet) (a : Address) : bool := bool_decide (a ∈ accounts s).
Definition as_empty (s : accountSet) : bool := bool_decide (accounts s = ∅).

Definition as_flatten (s : accountSet) : accountSet * list Address :=
  match as_cache s with
  | Some c => (s, c)
  | None => let c := elements (accounts s) in (s <| as_cache := Some c |>, c)
  end.

Definition as_merge (s other : accountSet) : accountSet :=
  s <| accounts := accounts other ∪ accounts s |> <| as_cache := None |>.

(** ** txLookup *)

Definition txSlotSize : Z := 32 * 1024.
Definition txMaxSize : Z := 4 * txSlotSize.

(** The slots of a transaction; its size is at least one byte. *)
Definition numSlots (tx : Transaction) : Z := (Size tx + txSlotSize - 1) / txSlotSize.

Record txLookup := mkTxLookup {
  lk_slots : Z;
  locals : gmap Hash Transaction;
  remotes : gmap Hash Transaction
}.
#[export] Instance eta_txLookup : Eta txLookup :=
  fun r => mkTxLookup (lk_slots r) (locals r) (remotes r).

Definition newTxLookup : txLookup := mkTxLookup 0 ∅ ∅.

Definition lk_Get (t : txLookup) (h : Hash) : option Transaction :=
  match locals t !! h with Some tx => Some tx | None => remotes t !! h end.
Definition lk_GetLocal (t : txLookup) (h : Hash) : option Transaction := locals t !! h.
Definition lk_GetRemote (t : txLookup) (h : Hash) : option Transaction := remotes t !! h.
Definition lk_Count (t : txLookup) : nat := (base.size (locals t) + base.size (remotes t))%nat.
Definition lk_LocalCount (t : txLookup) : nat := base.size (locals t).
Definition lk_RemoteCount (t : txLookup) : nat := base.size (remotes t).
Definition lk_Slots (t : txLookup) : Z := lk_slots t.

(** Range calls [f] until it returns false. *)
Fixpoint rangeLoop {S} (f : S -> Hash -> Transaction -> bool -> S * bool) (s : S) (local : bool)
    (l : list (Hash * Transaction)) : S * bool :=
  match l with
  | [] => (s, true)
  | (h, tx) :: l => let '(s, go) := f s h tx local in if go then rangeLoop f s local l else (s, false)
  end.

Definition lk_Range {S} (t : txLookup) (f : S -> Hash -> Transaction -> bool -> S * bool) (s : S)
    (local remote : bool) : S :=
  let '(s, go) := if local then rangeLoop f s true (map_to_list (locals t)) else (s, true) in
  if go && remote then (rangeLoop f s false (map_to_list (remotes t))).1 else s.

Section WithCrypto.
Context `{Crypto}.

Definition as_containsTx (s : accountSet) (tx : Transaction) : bool :=
  match Sender (as_signer s) tx with inl a => as_contains s a | inr _ => false end.
Definition as_addTx (s : accountSet) (tx : Transaction) : accountSet :=
  match Sender (as_signer s) tx with inl a => as_add s a | inr _ => s end.

Definition lk_Add (t : txLookup) (tx : Transaction) (local : bool) : txLookup :=
  let t := t <| lk_slots := lk_slots t + numSlots tx |> in
  if local then t <| locals := <[TxHash tx := tx]> (locals t) |>
  else t <| remotes := <[TxHash tx := tx]> (remotes t) |>.

Definition lk_Remove (t : txLookup) (h : Hash) : txLookup :=
  match lk_Get t h with
  | None => t
  | Some tx => mkTxLookup (lk_slots t - numSlots tx) (delete h (locals t)) (delete h (remotes t))
  end.

Definition lk_RemoteToLocals (t : txLookup) (ls : accountSet) : txLookup * Z :=
  fold_left (fun '(t, migrated) '(h, tx) =>
      if as_containsTx ls tx
      then (t <| locals := <[h := tx]> (locals t) |> <| remotes := delete h (remotes t) |>, migrated + 1)
      else (t, migrated))
    (map_to_list (remotes t)) (t, 0).

(** ** txPricedList *)

Definition priceLess (a b : Transaction) : bool :=
  match GasPriceCmp a b with Lt => true | Gt => false | Eq => Nonce b <? Nonce a end.

Record txPricedList := mkPriced {
  pheap : list Transaction;
  stales : Z
}.

Definition newTxPricedList : txPricedList := mkPriced [] 0.

Definition pl_Put (l : txPricedList) (tx : Transaction) (local : bool) : txPricedList :=
  if local then l else mkPriced (Push priceLess (pheap l) tx) (stales l).

Definition pl_Reheap (all : txLookup) : txPricedList :=
  mkPriced (Init priceLess (map_to_list (remotes all)).*2) 0.

Definition pl_Removed (all : txLookup) (l : txPricedList) (count : Z) : txPricedList :=
  let l := mkPriced (pheap l) (stales l + count) in
  if stales l <=? Z.of_nat (length (pheap l)) / 4 then l else pl_Reheap all.

Definition stale (all : txLookup) (tx : Transaction) : bool :=
  bool_decide (lk_GetRemote all (TxHash tx) = None).

(** The price index loops pop one entry per round. *)
Fixpoint pl_Cap_loop (fuel : nat) (all : txLookup) (l : txPricedList) (threshold : Z)
    (drop : list Transaction) : outcome (txPricedList * list Transaction) :=
  match fuel, pheap l with
  | S fuel, cheapest :: _ =>
      if stale all cheapest then
        '(_, h) ← from_option' (Pop priceLess (pheap l));
        pl_Cap_loop fuel all (mkPriced h (stales l - 1)) threshold drop
      else if match GasPriceIntCmp cheapest threshold with Lt => false | _ => true end then Ret (l, drop)
      else '(_, h) ← from_option' (Pop priceLess (pheap l));
           pl_Cap_loop fuel all (mkPriced h (stales l)) threshold (drop ++ [cheapest])
  | _, _ => Ret (l, drop)
  end.

Definition pl_Cap (all : txLookup) (l : txPricedList) (threshold : Z)
  : outcome (txPricedList * list Transaction) :=
  pl_Cap_loop (length (pheap l)) all l threshold [].

(** Underpriced drops the stale entries at the top of the heap. *)
Fixpoint pl_clean (fuel : nat) (all : txLookup) (l : txPricedList) : outcome txPricedList :=
  match fuel, pheap l with
  | S fuel, head :: _ =>
      if stale all head then
        '(_, h) ← from_option' (Pop priceLess (pheap l));
        pl_clean fuel all (mkPriced h (stales l - 1))
      else Ret l
  | _, _ => Ret l
  end.

Definition pl_Underpriced (all : txLookup) (l : txPricedList) (tx : Transaction)
  : outcome (txPricedList * bool) :=
  l ← pl_clean (length (pheap l)) all l;
  match pheap l with
  | [] => Ret (l, false)
  | cheapest :: _ => Ret (l, match GasPriceCmp cheapest tx with Lt => false | _ => true end)
  end.

Fixpoint pl_Discard_loop (fuel : nat) (all : txLookup) (l : txPricedList) (slots : Z)
    (drop : list Transaction) : outcome (txPricedList * Z * list Transaction) :=
  match fuel, pheap l with
  | S fuel, _ :: _ =>
      if 0 <? slots then
        '(tx, h) ← from_option' (Pop priceLess (pheap l));
        if stale all tx then pl_Discard_loop fuel all (mkPriced h (stales l - 1)) slots drop
        else pl_Discard_loop fuel all (mkPriced h (stales l)) (slots - numSlots tx) (drop ++ [tx])
      else Ret (l, slots, drop)
  | _, _ => Ret (l, slots, drop)
  end.

Definition pl_Discard (all : txLookup) (l : txPricedList) (slots : Z) (force : bool)
  : outcome (txPricedList * list Transaction * bool) :=
  '(l, slots, drop) ← pl_Discard_loop (length (pheap l)) all l slots [];
  if (0 <? slots) && negb force then
    Ret (mkPriced (fold_left (Push priceLess) drop (pheap l)) (stales l), [], false)
  else Ret (l, drop, true).

End WithCrypto.

(** ** The lookup counts its slots *)

Definition slots_of (m : gmap Hash Transaction) : Z := map_fold (fun _ tx n => numSlots tx + n) 0 m.

Lemma slots_of_insert m h tx : m !! h = None -> slots_of (<[h := tx]> m) = numSlots tx + slots_of m.
Proof. intros Hm. unfold slots_of. rewrite map_fold_insert_L; [done|intros; lia|done]. Qed.

Lemma slots_of_delete m h tx : m !! h = Some tx -> slots_of m = numSlots tx + slots_of (delete h m).
Proof. intros Hm. rewrite <- (insert_delete_id m h tx Hm) at 1. apply slots_of_insert, lookup_delete_eq. Qed.

Section Lookup.
Context `{Crypto}.

Record lk_ok (t : txLookup) : Prop := {
  lo_slots : lk_slots t = slots_of (locals t) + slots_of (remotes t);
  lo_locals h tx : locals t !! h = Some tx -> TxHash tx = h;
  lo_remotes h tx : remotes t !! h = Some tx -> TxHash tx = h;
  lo_disj : locals t ##ₘ remotes t
}.

Lemma newTxLookup_ok : lk_ok newTxLookup.
Proof. split; simpl; [done|intros ??..|]; by rewrite ?lookup_empty. Qed.

Lemma lk_Get_None t h : lk_Get t h = None <-> locals t !! h = None /\ remotes t !! h = None.
Proof. unfold lk_Get. destruct (locals t !! h); naive_solver. Qed.

Lemma lk_Get_hash t h tx : lk_ok t -> lk_Get t h = Some tx -> TxHash tx = h.
Proof.
  intros [_ Hl Hr _]. unfold lk_Get. destruct (locals t !! h) eqn:E; [intros [= <-]|]; eauto.
Qed.

Lemma lk_Add_ok t tx local : lk_ok t -> lk_Get t (TxHash tx) = None -> lk_ok (lk_Add t tx local).
Proof.
  intros [H1 H2 H3 H4] [Hl Hr]%lk_Get_None. unfold lk_Add. destruct local; split; simpl.
  - rewrite slots_of_insert by done. lia.
  - intros h x. rewrite lookup_insert. case_decide; [by intros [= <-]|apply H2].
  - done.
  - by apply map_disjoint_insert_l_2.
  - rewrite slots_of_insert by done. lia.
  - done.
  - intros h x. rewrite lookup_insert. case_decide; [by intros [= <-]|apply H3].
  - by apply map_disjoint_insert_r_2.
Qed.

Lemma lk_Get_Add t tx local h : lk_Get t (TxHash tx) = None ->
  lk_Get (lk_Add t tx local) h = if decide (TxHash tx = h) then Some tx else lk_Get t h.
Proof.
  intros [Hl Hr]%lk_Get_None. unfold lk_Add, lk_Get. destruct local; simpl; rewrite lookup_insert;
    case_decide; subst; rewrite ?Hl; done.
Qed.

Lemma lk_Remove_ok t h : lk_ok t -> lk_ok (lk_Remove t h).
Proof.
  intros [H1 H2 H3 H4]. unfold lk_Remove. destruct (lk_Get t h) as [tx|] eqn:E; [|done].
  split; simpl.
  - unfold lk_Get in E. destruct (locals t !! h) as [x|] eqn:El; simplify_eq.
    + rewrite (slots_of_delete _ _ _ El) in H1.
      rewrite (delete_id (remotes t)) by (by eapply map_disjoint_Some_l). lia.
    + rewrite (slots_of_delete _ _ _ E) in H1. rewrite (delete_id (locals t)) by done. lia.
  - intros k x [_ Hk]%lookup_delete_Some. by apply H2.
  - intros k x [_ Hk]%lookup_delete_Some. by apply H3.
  - by apply map_disjoint_delete_l, map_disjoint_delete_r.
Qed.

Lemma lk_Get_Remove t h k : lk_Get (lk_Remove t h) k = if decide (h = k) then None else lk_Get t k.
Proof.
  unfold lk_Remove. destruct (lk_Get t h) as [tx|] eqn:E.
  - unfold lk_Get. simpl. rewrite !lookup_delete. by case_decide.
  - case_decide; [by subst|done].
Qed.

Lemma lk_RemoteToLocals_ok t ls : lk_ok t ->
  let t' := (lk_RemoteToLocals t ls).1 in
  lk_ok t' /\ (forall h, lk_Get t' h = lk_Get t h).
Proof.
  intros Ht. unfold lk_RemoteToLocals.
  set (step := fun '(t, migrated) '(h, tx) => _).
  assert (forall l u n, lk_ok u -> NoDup l.*1 -> (forall h tx, (h, tx) ∈ l -> remotes u !! h = Some tx) ->
    lk_ok (fold_left step l (u, n)).1 /\
    forall h, lk_Get (fold_left step l (u, n)).1 h = lk_Get u h) as Hgen.
  { induction l as [|[h tx] l IH]; intros u n Hu Hnd Hin; simpl; [done|].
    inversion Hnd as [|?? Hnotin Hnd']; subst. simpl in *.
    destruct (as_containsTx ls tx); [|apply IH; [done..|]; intros; apply Hin; by right].
    assert (remotes u !! h = Some tx) as Hr by (apply Hin; left).
    assert (locals u !! h = None) as Hl.
    { destruct Hu as [_ _ _ Hd]. by eapply map_disjoint_Some_r. }
    destruct (IH (u <| locals := <[h := tx]> (locals u) |> <| remotes := delete h (remotes u) |>) (n + 1)) as [IH1 IH2].
    - destruct Hu as [H1 H2 H3 H4]. split; simpl.
      + rewrite slots_of_insert by done. rewrite (slots_of_delete _ _ _ Hr) in H1. lia.
      + intros k x. rewrite lookup_insert. case_decide; [intros [= <-]; subst; by apply H3|apply H2].
      + intros k x [_ Hk]%lookup_delete_Some. by apply H3.
      + apply map_disjoint_insert_l_2; [apply lookup_delete_eq|by apply map_disjoint_delete_r].
    - done.
    - intros k x Hk. simpl. rewrite lookup_delete_ne; [apply Hin; by right|].
      intros ->. apply Hnotin. by apply (list_elem_of_fmap_2 fst) in Hk.
    - split; [done|]. intros k. rewrite IH2. unfold lk_Get. simpl.
      rewrite lookup_insert, lookup_delete. case_decide; subst; [by rewrite Hl|done]. }
  apply Hgen; [done|apply NoDup_fst_map_to_list|]. intros h tx. apply elem_of_map_to_list.
Qed.

End Lookup.

(** ** The price heap yields the cheapest tracked transactions *)

#[export] Instance priceLess_weak : StrictWeak priceLess.
Proof.
  split; unfold priceLess, GasPriceCmp; intros.
  - destruct (Z.compare_spec (GasPrice x) (GasPrice y)), (Z.compare_spec (GasPrice y) (GasPrice x)); lia.
  - destruct (Z.compare_spec (GasPrice y) (GasPrice x)), (Z.compare_spec (GasPrice z) (GasPrice y)),
      (Z.compare_spec (GasPrice z) (GasPrice x)); lia || done.
Qed.

#[export] Instance Transaction_inhabited : Inhabited Transaction :=
  populate (mkTransaction (TxLegacy (mkLegacyTx 0 0 0 None 0 [] 0 0 0)) 0 None).

Section Priced.
Context `{Crypto}.
Abbreviation pheap_ok l := (heap priceLess (pheap l)).
Abbreviation cheaper := (le priceLess).

Definition live (all : txLookup) (l : list Transaction) : list Transaction :=
  filter (fun tx => stale all tx = false) l.
Definition sumSlots (l : list Transaction) : Z := foldr (fun tx n => numSlots tx + n) 0 l.

Lemma sumSlots_app l1 l2 : sumSlots (l1 ++ l2) = sumSlots l1 + sumSlots l2.
Proof. induction l1; simpl; lia. Qed.

Lemma sumSlots_perm l1 l2 : l1 ≡ₚ l2 -> sumSlots l1 = sumSlots l2.
Proof. induction 1; simpl; lia. Qed.

Lemma live_perm all l1 l2 : l1 ≡ₚ l2 -> live all l1 ≡ₚ live all l2.
Proof. intros E. unfold live. by rewrite E. Qed.

Lemma live_cons all x l : live all (x :: l) = if stale all x then live all l else x :: live all l.
Proof. unfold live. rewrite filter_cons. destruct (stale all x); by repeat case_decide. Qed.

Lemma pop_cons x h : heap priceLess (x :: h) ->
  exists h', Pop priceLess (x :: h) = Some (x, h') /\ heap priceLess h' /\ x :: h ≡ₚ x :: h' /\
    Forall (cheaper x) h' /\ length h' = length h.
Proof.
  intros Hh. destruct (Pop_heap priceLess (x :: h) Hh) as (y & h' & E & Hh' & Hp & Hy & Hf); [done|].
  simpl in Hy. injection Hy as <-. exists h'. split_and!; try done.
  apply Permutation_length in Hp. simpl in Hp. lia.
Qed.

Lemma Discard_loop_spec fuel all l slots drop : pheap_ok l -> length (pheap l) = fuel ->
  exists l' slots' d, pl_Discard_loop fuel all l slots drop = Ret (l', slots', drop ++ d) /\
    pheap_ok l' /\ live all (pheap l) ≡ₚ d ++ live all (pheap l') /\
    (forall y, y ∈ pheap l' -> y ∈ pheap l) /\
    (forall x y, x ∈ d -> y ∈ pheap l' -> cheaper x y) /\ slots' = slots - sumSlots d /\
    (slots' <= 0 \/ pheap l' = []).
Proof.
  revert l slots drop. induction fuel as [|fuel IH]; intros l slots drop Hh Hf; cbn [pl_Discard_loop].
  { exists l, slots, []. rewrite app_nil_r. apply nil_length_inv in Hf.
    split_and!; try done; [by intros ?? ?%elem_of_nil|simpl; lia|by right]. }
  destruct l as [[|x h] st]; simpl in Hf, Hh; [done|]. cbn [pheap stales].
  destruct (Z.ltb_spec 0 slots) as [Hs|Hs].
  2:{ eexists _, _, []. rewrite app_nil_r. split_and!; try done; [by intros ?? ?%elem_of_nil|simpl; lia|left; lia]. }
  destruct (pop_cons x h Hh) as (h' & -> & Hh' & Hp & Hcheap & Hlen). cbn [from_option' mbind outcome_bind].
  assert (forall y, y ∈ h' -> y ∈ x :: h) as Hsub by (intros y Hy; rewrite Hp; by right).
  apply live_perm with (all := all) in Hp. rewrite (live_cons all x h') in Hp.
  destruct (stale all x) eqn:Est.
  - destruct (IH (mkPriced h' (st - 1)) slots drop Hh' ltac:(simpl; lia))
      as (l' & slots' & d & -> & H1 & H2 & H3 & H4 & H5 & H6). exists l', slots', d.
    simpl in H2, H3. split_and!; auto. by rewrite Hp.
  - destruct (IH (mkPriced h' st) (slots - numSlots x) (drop ++ [x]) Hh' ltac:(simpl; lia))
      as (l' & slots' & d & -> & H1 & H2 & H3 & H4 & H5 & H6). simpl in H2, H3.
    exists l', slots', (x :: d). rewrite <- app_assoc. simpl. split_and!; try done.
    + by rewrite Hp, H2.
    + auto.
    + intros a b [->|Ha]%elem_of_cons Hb; [|by apply H4]. rewrite Forall_forall in Hcheap. auto.
    + lia.
Qed.

Lemma Push_all_ok drop h : heap priceLess h ->
  heap priceLess (fold_left (Push priceLess) drop h) /\ fold_left (Push priceLess) drop h ≡ₚ drop ++ h.
Proof.
  revert h. induction drop as [|x drop IH]; intros h Hh; simpl; [done|].
  destruct (Push_heap priceLess h x Hh) as [H1 H2]. destruct (IH _ H1) as [H3 H4].
  split; [done|]. rewrite H4, H2. by rewrite Permutation_middle.
Qed.

Lemma Discard_ok all l slots force : pheap_ok l ->
  exists l' drop ok, pl_Discard all l slots force = Ret (l', drop, ok) /\ pheap_ok l' /\
    live all (pheap l) ≡ₚ drop ++ live all (pheap l') /\
    (forall x y, x ∈ drop -> y ∈ pheap l' -> cheaper x y) /\
    (if ok then slots <= sumSlots drop \/ pheap l' = [] /\ force = true
     else drop = [] /\ force = false /\ sumSlots (live all (pheap l)) < slots).
Proof.
  intros Hh. unfold pl_Discard.
  destruct (Discard_loop_spec (length (pheap l)) all l slots [] Hh eq_refl)
    as (l' & slots' & d & -> & H1 & H2 & H3 & H4 & H5 & H6). cbn [mbind outcome_bind app].
  destruct (Z.ltb_spec 0 slots') as [Hs|Hs]; cbn [andb].
  - destruct H6 as [H6|H6]; [lia|]. rewrite H6 in H2. simpl in H2. rewrite app_nil_r in H2.
    destruct force; cbn [negb].
    + eexists _, _, _. split_and!; [done|done|by rewrite H6, app_nil_r|done|by right].
    + rewrite H6 in *. destruct (Push_all_ok d [] H1) as [Hp1 Hp2]. rewrite app_nil_r in Hp2.
      eexists _, _, _. split_and!; [done|done| |by intros ?? ?%elem_of_nil|split_and!; [done|done|]].
      * simpl. rewrite (live_perm all _ _ Hp2), H2. unfold live at 1. rewrite filter_all; [done|].
        apply Forall_forall. intros x Hx. rewrite <- H2 in Hx. by apply list_elem_of_filter in Hx as [].
      * rewrite (sumSlots_perm _ _ H2). lia.
  - eexists _, _, _. split_and!; [done|done|done|done|left; lia].
Qed.

Lemma clean_spec fuel all l : pheap_ok l -> length (pheap l) = fuel ->
  exists l', pl_clean fuel all l = Ret l' /\ pheap_ok l' /\ live all (pheap l') ≡ₚ live all (pheap l) /\
    match pheap l' with [] => True | x :: _ => stale all x = false end.
Proof.
  revert l. induction fuel as [|fuel IH]; intros l Hh Hf; cbn [pl_clean].
  { apply nil_length_inv in Hf. exists l. by rewrite Hf. }
  destruct l as [[|x h] st]; simpl in Hf, Hh; [done|]. cbn [pheap stales].
  destruct (stale all x) eqn:Est; [|by eexists].
  destruct (pop_cons x h Hh) as (h' & -> & Hh' & Hp & _ & Hlen). cbn [from_option' mbind outcome_bind].
  destruct (IH (mkPriced h' (st - 1)) Hh' ltac:(simpl; lia)) as (l' & -> & H1 & H2 & H3).
  exists l'. split_and!; try done. simpl in H2. rewrite H2.
  apply live_perm with (all := all) in Hp. rewrite !live_cons, Est in Hp. by rewrite live_cons, Est.
Qed.

Lemma cheaper_price x y : cheaper x y -> GasPrice x <= GasPrice y.
Proof.
  unfold le, priceLess, GasPriceCmp. destruct (Z.compare_spec (GasPrice y) (GasPrice x)); done || lia.
Qed.

Lemma top_price x h y : heap priceLess (x :: h) -> y ∈ x :: h -> GasPrice x <= GasPrice y.
Proof.
  intros Hh [k Hk]%list_elem_of_lookup. apply cheaper_price.
  pose proof (heap_min priceLess _ k Hh (lookup_lt_Some _ _ _ Hk)) as Hm.
  by rewrite (list_lookup_total_correct _ _ _ Hk) in Hm.
Qed.

Lemma live_sub all l x : x ∈ live all l -> x ∈ l.
Proof. by intros [_ ?]%list_elem_of_filter. Qed.

(** Cap takes out exactly the live remote transactions below the price. *)
Lemma pl_Cap_loop_spec fuel all l th drop : pheap_ok l -> length (pheap l) = fuel ->
  exists l' d, pl_Cap_loop fuel all l th drop = Ret (l', drop ++ d) /\ pheap_ok l' /\
    d ≡ₚ filter (fun tx => GasPrice tx < th) (live all (pheap l)) /\
    live all (pheap l') ≡ₚ filter (fun tx => ~ GasPrice tx < th) (live all (pheap l)).
Proof.
  revert l drop. induction fuel as [|fuel IH]; intros l drop Hh Hf; cbn [pl_Cap_loop].
  { apply nil_length_inv in Hf. exists l, []. by rewrite app_nil_r, Hf. }
  destruct l as [[|x h] st]; simpl in Hf, Hh; [done|]. cbn [pheap stales].
  destruct (pop_cons x h Hh) as (h' & -> & Hh' & Hp & _ & Hlen). cbn [from_option' mbind outcome_bind].
  apply live_perm with (all := all) in Hp. rewrite (live_cons all x h') in Hp.
  destruct (stale all x) eqn:Est.
  - destruct (IH (mkPriced h' (st - 1)) drop Hh' ltac:(simpl; lia)) as (l' & d & -> & H1 & H2 & H3).
    exists l', d. simpl in H2, H3. by rewrite Hp.
  - assert (match GasPriceIntCmp x th with Lt => false | _ => true end = bool_decide (th <= GasPrice x)) as ->.
    { unfold GasPriceIntCmp. destruct (Z.compare_spec (GasPrice x) th); symmetry;
        (apply bool_decide_eq_true || apply bool_decide_eq_false); lia. }
    case_bool_decide as Hth.
    + assert (Forall (fun tx => ~ GasPrice tx < th) (live all (x :: h))) as Hall.
      { apply Forall_forall. intros y Hy%live_sub. pose proof (top_price x h y Hh Hy). lia. }
      eexists _, []. rewrite app_nil_r, filter_none, (filter_all (fun tx => ~ GasPrice tx < th)) by done. done.
    + destruct (IH (mkPriced h' st) (drop ++ [x]) Hh' ltac:(simpl; lia)) as (l' & d & -> & H1 & H2 & H3).
      exists l', (x :: d). rewrite <- app_assoc. split_and!; [done|done|..]; rewrite Hp, filter_cons.
      * rewrite decide_True by lia. by f_equiv.
      * rewrite decide_False by lia. done.
Qed.

Lemma Cap_ok all l th : pheap_ok l ->
  exists l' drop, pl_Cap all l th = Ret (l', drop) /\ pheap_ok l' /\
    drop ≡ₚ filter (fun tx => GasPrice tx < th) (live all (pheap l)) /\
    live all (pheap l') ≡ₚ filter (fun tx => ~ GasPrice tx < th) (live all (pheap l)).
Proof. intros Hh. exact (pl_Cap_loop_spec _ all l th [] Hh eq_refl). Qed.

Lemma Underpriced_ok all l tx : pheap_ok l ->
  exists l' b, pl_Underpriced all l tx = Ret (l', b) /\ pheap_ok l' /\
    live all (pheap l') ≡ₚ live all (pheap l) /\
    (b = true <-> (exists x, x ∈ live all (pheap l)) /\
       Forall (fun x => GasPrice tx <= GasPrice x) (live all (pheap l))).
Proof.
  intros Hh. unfold pl_Underpriced.
  destruct (clean_spec _ all l Hh eq_refl) as (l' & -> & H1 & H2 & H3). cbn [mbind outcome_bind].
  setoid_rewrite <- H2 at 2. setoid_rewrite <- H2 at 2. destruct (pheap l') as [|x h] eqn:E.
  - eexists _, _. split_and!; [done|by rewrite E|by rewrite E|]. split; [done|].
    by intros [[x Hx%elem_of_nil] _].
  - eexists _, _. split_and!; [done|by rewrite E|by rewrite E|]. rewrite live_cons, H3.
    assert (forall y, y ∈ x :: live all h -> GasPrice x <= GasPrice y) as Hmin.
    { intros y Hy. apply (top_price x h); [done|].
      apply elem_of_cons in Hy as [->|Hy%live_sub]; [left|by right]. }
    unfold GasPriceCmp. rewrite Forall_forall.
    destruct (Z.compare_spec (GasPrice x) (GasPrice tx)); (split; [intros E'; try done|intros [_ Hall]; try done]).
    + split; [exists x; left|]. intros y Hy. specialize (Hmin y Hy). lia.
    + specialize (Hall x ltac:(left)). lia.
    + split; [exists x; left|]. intros y Hy. specialize (Hmin y Hy). lia.
Qed.

End Priced.

(** ** Properties *)

Section Properties.
Context `{Crypto}.

(** The operations of the lookup; [add] of the pool looks a transaction up
    before it adds it. *)
Inductive lkOp := LAdd (tx : Transaction) (local : bool) | LRemove (h : Hash) | LMigrate (ls : accountSet).

Definition lk_exec (t : txLookup) (op : lkOp) : txLookup :=
  match op with
  | LAdd tx local => match lk_Get t (TxHash tx) with None => lk_Add t tx local | Some _ => t end
  | LRemove h => lk_Remove t h
  | LMigrate ls => (lk_RemoteToLocals t ls).1
  end.

Lemma lk_exec_ok t op : lk_ok t -> lk_ok (lk_exec t op).
Proof.
  intros Ht. destruct op as [tx local|h|ls]; simpl.
  - destruct (lk_Get t (TxHash tx)) eqn:E; [done|by apply lk_Add_ok].
  - by apply lk_Remove_ok.
  - by apply lk_RemoteToLocals_ok.
Qed.

Lemma slots_of_union m1 m2 : m1 ##ₘ m2 -> slots_of (m1 ∪ m2) = slots_of m1 + slots_of m2.
Proof.
  induction m1 as [|h tx m1 Hh IH] using map_ind; intros D.
  - rewrite (left_id_L ∅ (∪)). unfold slots_of at 2. by rewrite map_fold_empty.
  - apply map_disjoint_insert_l in D as [D1 D2]. rewrite <- insert_union_l, !slots_of_insert, IH; [lia|done..|].
    by apply lookup_union_None.
Qed.

(** After any operations from the empty lookup the slot counter is the
    sum of the slots of the transactions held, no transaction is both local
    and remote, and every transaction is found under its hash only. *)
Theorem lookup_slots ops :
  let t := fold_left lk_exec ops newTxLookup in
  lk_Slots t = slots_of (locals t ∪ remotes t) /\ locals t ##ₘ remotes t /\
  forall h tx, lk_Get t h = Some tx -> TxHash tx = h.
Proof.
  intros t. assert (lk_ok t) as [H1 H2 H3 H4].
  { unfold t. pose proof newTxLookup_ok as H0. revert H0. generalize newTxLookup as u.
    induction ops as [|op ops IH]; intros u Hu; simpl; [done|]. by apply IH, lk_exec_ok. }
  split; [by rewrite slots_of_union|]. split; [done|]. intros h tx. unfold lk_Get.
  destruct (locals t !! h) eqn:E; [intros [= <-]; by apply H2|apply H3].
Qed.

(** Discard takes the cheapest remote transactions, ties broken towards
    the higher nonce, and no more entries than it reports.  It succeeds when
    they free the slots asked for, or when forced and nothing is left;
    otherwise it puts everything back. *)
Theorem Discard_cheapest all l slots force : heap priceLess (pheap l) ->
  exists l' drop ok, pl_Discard all l slots force = Ret (l', drop, ok) /\ heap priceLess (pheap l') /\
    live all (pheap l) ≡ₚ drop ++ live all (pheap l') /\
    (forall x y, x ∈ drop -> y ∈ pheap l' -> priceLess y x = false) /\
    (if ok then slots <= sumSlots drop \/ pheap l' = [] /\ force = true
     else drop = [] /\ force = false /\ sumSlots (live all (pheap l)) < slots).
Proof. apply Discard_ok. Qed.

(** Cap takes out exactly the live remote transactions below the price,
    and leaves exactly the others. *)
Theorem Cap_exact all l threshold : heap priceLess (pheap l) ->
  exists l' drop, pl_Cap all l threshold = Ret (l', drop) /\ heap priceLess (pheap l') /\
    drop ≡ₚ filter (fun tx => GasPrice tx < threshold) (live all (pheap l)) /\
    live all (pheap l') ≡ₚ filter (fun tx => ~ GasPrice tx < threshold) (live all (pheap l)).
Proof. apply Cap_ok. Qed.

End Properties.

(** ** Witnesses *)

#[local] Existing Instance toyCrypto.

Definition priced_ex : txPricedList := pl_Put (pl_Put newTxPricedList (tx_at 1 5) false) (tx_at 2 3) false.
Definition lookup_ex : txLookup := lk_Add (lk_Add newTxLookup (tx_at 1 5) false) (tx_at 2 3) false.

Lemma priced_ex_heap : heap priceLess (pheap priced_ex).
Proof.
  apply (proj1 (Push_heap priceLess _ _ (proj1 (Push_heap priceLess [] (tx_at 1 5) ltac:(intros i Hi; simpl in Hi; lia))))).
Qed.

Lemma Discard_cheapest_witness : exists l' ok, pl_Discard lookup_ex priced_ex 1 false = Ret (l', [tx_at 2 3], ok).
Proof.
  destruct (Discard_cheapest lookup_ex priced_ex 1 false priced_ex_heap) as (l' & drop & ok & E & _).
  exists l', ok. rewrite E. vm_compute in E. injection E as _ <- _. reflexivity.
Defined.

Lemma Cap_exact_witness : exists l', pl_Cap lookup_ex priced_ex 4 = Ret (l', [tx_at 2 3]).
Proof.
  destruct (Cap_exact lookup_ex priced_ex 4 priced_ex_heap) as (l' & drop & E & _).
  exists l'. rewrite E. vm_compute in E. injection E as _ <-. reflexivity.
Defined.
