(* ===== verification/Prque.v ===== *)
(** * The priority queue (common/prque)

    A binary heap of (value, priority) items, highest priority first.  The
    block-wise storage of [sstack] is one list here, and priorities are
    compared by the sign of their wrapped 64-bit difference. *)

From S2P Require Import Prelude Heap TxList.

Section Prque.
Context {A : Type}.

Definition prioLess (a b : A * Z) : bool := 0 <? int64 (a.2 - b.2).

Definition prque_New : list (A * Z) := [].
Definition prque_Push (q : list (A * Z)) (v : A) (priority : Z) : list (A * Z) :=
  Push prioLess q (v, priority).
Definition prque_Pop (q : list (A * Z)) : option (A * Z * list (A * Z)) :=
  match Pop prioLess q with Some (x, q) => Some (x, q) | None => None end.
Definition prque_Empty (q : list (A * Z)) : bool := bool_decide (length q = 0%nat).

End Prque.

(** Adding and taking an item keeps the others, whatever the priorities. *)
Section Perm.
Context {A : Type}.

Lemma prque_Push_perm (q : list (A * Z)) v p : prque_Push q v p ≡ₚ (v, p) :: q.
Proof. unfold prque_Push, Push, siftUp. rewrite up_perm. by rewrite Permutation_app_comm. Qed.

Lemma prque_Pop_perm (q q' : list (A * Z)) x : prque_Pop q = Some (x, q') -> q ≡ₚ x :: q'.
Proof.
  unfold prque_Pop, Pop. set (n := (length q - 1)%nat). set (d := (siftDown _ _ 0 n).1).
  assert (d ≡ₚ q) as Hperm by (unfold d, siftDown; rewrite down_perm; apply Swap_perm).
  destruct (d !! n) as [y|] eqn:Hy; cbn; [|done]. intros [= <- <-].
  assert (length d = S n) as Hl by (rewrite Hperm; apply lookup_lt_Some in Hy; rewrite Hperm in Hy; lia).
  rewrite <- Hperm, <- (cut_last d y n Hl Hy) at 1. by rewrite Permutation_app_comm.
Qed.

End Perm.
