(* ===== verification/TxPool.v ===== *)
(** * The transaction pool (core/tx_pool.go, core/tx_noncer.go)

    The pool holds the pending and queued transactions of go-ethereum and
    what Cascade adds: the acknowledgements of validators, counted by stake,
    that confirm a transaction.  Handlers take and return the pool; a handler
    of Go that returns an error returns it next to the pool.

    The maps of maps ([unconfirmed], [voted], [stakeReceived]) keep the nil
    inner maps [cleanTx] stores as [None]; writing to one, or adding to a nil
    [*big.Int], is a [Panic].  The weights are [*big.Int]s that only their map
    entry holds, so adding in place is updating the entry; the record
    [Unconfirmed] is copied out of its map, so assigning its [potentialTx]
    changes the copy only.  Time is a parameter; the event channel of the
    reorganisation loop and the calls of the consensus contract are appended
    to the lists [events] and [proposals].  Loops over Go maps follow the order of
    [map_to_list]. *)

From stdpp Require Import sorting.
From S2P Require Import Prelude Rlp Params Transaction Block AccessList StateDB StateTransition Heap TxList TxLookup Prque.

(** ** Configuration *)

Record TxPoolConfig := mkTxPoolConfig {
  cfg_Locals : list Address;
  NoLocals : bool;
  JournalFile : bool;              (* whether a journal file is configured *)
  Rejournal : Z;
  PriceLimit : Z;
  PriceBump : Z;
  AccountSlots : Z;
  GlobalSlots : Z;
  AccountQueue : Z;
  GlobalQueue : Z;
  Lifetime : Z;
  QuorumStake : Z;
  APosterioriStake : Z;
  PerformAposterioiriConsensus : bool
}.
#[export] Instance eta_TxPoolConfig : Eta TxPoolConfig := fun r =>
  mkTxPoolConfig (cfg_Locals r) (NoLocals r) (JournalFile r) (Rejournal r) (PriceLimit r)
    (PriceBump r) (AccountSlots r) (GlobalSlots r) (AccountQueue r) (GlobalQueue r) (Lifetime r)
    (QuorumStake r) (APosterioriStake r) (PerformAposterioiriConsensus r).

Definition Second : Z := 1000000000.

Definition DefaultTxPoolConfig : TxPoolConfig :=
  mkTxPoolConfig [] false true (3600 * Second) 1 10 16 4096 64 1024 (3 * 3600 * Second) 0 0 false.

Definition sanitize (c : TxPoolConfig) : TxPoolConfig :=
  let c := if Rejournal c <? Second then c <| Rejournal := Second |> else c in
  let c := if PriceLimit c <? 1 then c <| PriceLimit := PriceLimit DefaultTxPoolConfig |> else c in
  let c := if PriceBump c <? 1 then c <| PriceBump := PriceBump DefaultTxPoolConfig |> else c in
  let c := if AccountSlots c <? 1 then c <| AccountSlots := AccountSlots DefaultTxPoolConfig |> else c in
  let c := if GlobalSlots c <? 1 then c <| GlobalSlots := GlobalSlots DefaultTxPoolConfig |> else c in
  let c := if AccountQueue c <? 1 then c <| AccountQueue := AccountQueue DefaultTxPoolConfig |> else c in
  let c := if GlobalQueue c <? 1 then c <| GlobalQueue := GlobalQueue DefaultTxPoolConfig |> else c in
  if Lifetime c <? 1 then c <| Lifetime := Lifetime DefaultTxPoolConfig |> else c.

(** ** State *)

Record Unconfirmed := mkUnconfirmed { ackWeight : Z; potentialTx : option Transaction }.

Record txNoncer := mkNoncer { fallback : StateDB; nonces : gmap Address Z }.

Abbreviation nested A := (gmap Address (gmap Z (option A))).

Record TxPool := mkTxPool {
  config : TxPoolConfig;
  chainconfig : ChainConfig;
  tp_gasPrice : Z;
  signer : Signer;
  istanbul : bool;
  eip2718 : bool;
  currentState : StateDB;
  expectedAckNonce : gmap Address Z;
  stakeState : option StateDB;
  pendingNonces : txNoncer;
  currentMaxGas : Z;
  tp_locals : accountSet;
  tp_journal : option (list Transaction);
  confirmed : list Transaction;
  unconfirmed : nested (gmap Hash Unconfirmed);
  stakeReceived : nested Z;
  voted : nested (gmap Address bool);
  pending : gmap Address txList;
  queue : gmap Address txList;
  beats : gmap Address Z;
  all : txLookup;
  priced : txPricedList;
  events : list Transaction;
  proposals : list (Address * Z * Hash)
}.
#[export] Instance eta_TxPool : Eta TxPool := fun r =>
  mkTxPool (config r) (chainconfig r) (tp_gasPrice r) (signer r) (istanbul r) (eip2718 r)
    (currentState r) (expectedAckNonce r) (stakeState r) (pendingNonces r) (currentMaxGas r)
    (tp_locals r) (tp_journal r) (confirmed r) (unconfirmed r) (stakeReceived r) (voted r)
    (pending r) (queue r) (beats r) (all r) (priced r) (events r) (proposals r).

Section Pool.
Context `{Crypto} `{Database}.

(** ** txNoncer *)

Definition newTxNoncer (s : StateDB) : outcome txNoncer := s ← Copy s; Ret (mkNoncer s ∅).

Definition noncer_get (n : txNoncer) (a : Address) : txNoncer * Z :=
  match nonces n !! a with
  | Some v => (n, v)
  | None => let v := GetNonce (fallback n) a in (mkNoncer (fallback n) (<[a := v]> (nonces n)), v)
  end.

Definition noncer_set (n : txNoncer) (a : Address) (nonce : Z) : txNoncer :=
  mkNoncer (fallback n) (<[a := nonce]> (nonces n)).

Definition noncer_setIfLower (n : txNoncer) (a : Address) (nonce : Z) : txNoncer :=
  let '(n, cur) := noncer_get n a in
  if cur <=? nonce then n else noncer_set n a nonce.

(** ** Validation *)

(** A sender that cannot be derived is the zero address with an error. *)
Definition senderOr0 (sg : Signer) (tx : Transaction) : Address :=
  match Sender sg tx with inl a => a | inr _ => 0 end.

Definition validateTx (pool : TxPool) (tx : Transaction) (local : bool) : option error :=
  if negb (eip2718 pool) && negb (Type_ tx =? LegacyTxType) then Some ErrTxTypeNotSupported
  else if txMaxSize <? Size tx then Some ErrOversizedData
  else if Value tx <? 0 then Some ErrNegativeValue
  else if currentMaxGas pool <? Gas tx then Some ErrGasLimit
  else match Sender (signer pool) tx with
  | inr _ => Some ErrInvalidSender
  | inl from =>
      if negb local && (GasPrice tx <? tp_gasPrice pool) then Some ErrUnderpriced
      else if Nonce tx <? GetNonce (currentState pool) from then Some ErrNonceTooLow
      else if GetNonce (currentState pool) from <? Nonce tx then Some ErrNonceTooHigh
      else if GetBalance (currentState pool) from <? Cost tx then Some ErrInsufficientFunds
      else match IntrinsicGas (Data tx) (AccessList_ tx) (bool_decide (To tx = None)) true (istanbul pool) with
      | inr e => Some e
      | inl intrGas => if Gas tx <? intrGas then Some ErrIntrinsicGas else None
      end
  end.

Definition validateAck (pool : TxPool) (tx : Transaction) (local : bool) : option error :=
  if negb (eip2718 pool) && negb (Type_ tx =? LegacyTxType) then Some ErrTxTypeNotSupported
  else if txMaxSize <? Size tx then Some ErrOversizedData
  else if Value tx <? 0 then Some ErrNegativeValue
  else if currentMaxGas pool <? Gas tx then Some ErrGasLimit
  else match Sender (signer pool) tx with
  | inr _ => Some ErrInvalidSender
  | inl from =>
      if negb local && (GasPrice tx <? tp_gasPrice pool) then Some ErrUnderpriced
      else if local && negb (default 0 (expectedAckNonce pool !! from) =? Nonce tx)
      then Some ErrUnexpectedNonce
      else if negb local && (Nonce tx <? GetNonce (currentState pool) from) then Some ErrNonceTooLow
      else if local && (GetBalance (currentState pool) from <? Cost tx) then Some ErrInsufficientFunds
      else match IntrinsicGas (Data tx) (AccessList_ tx) (bool_decide (To tx = None)) true (istanbul pool) with
      | inr e => Some e
      | inl intrGas => if Gas tx <? intrGas then Some ErrIntrinsicGas else None
      end
  end.

(** ** Insertion and removal *)

Definition journalTx (pool : TxPool) (from : Address) (tx : Transaction) : TxPool :=
  match tp_journal pool with
  | Some j => if as_contains (tp_locals pool) from then pool <| tp_journal := Some (j ++ [tx]) |> else pool
  | None => pool
  end.

Definition queueTxEvent (pool : TxPool) (tx : Transaction) : TxPool :=
  pool <| events := events pool ++ [tx] |>.

(** pool.all.Remove and pool.priced.Removed *)
Definition allRemove (pool : TxPool) (h : Hash) : TxPool := pool <| all := lk_Remove (all pool) h |>.
Definition pricedRemoved (pool : TxPool) (count : Z) : TxPool :=
  pool <| priced := pl_Removed (all pool) (priced pool) count |>.

Definition enqueueTx (now : Z) (pool : TxPool) (h : Hash) (tx : Transaction) (local addAll : bool)
  : TxPool * bool * option error :=
  let from := senderOr0 (signer pool) tx in
  let '(l, inserted, old) := tl_Add (default (newTxList false) (queue pool !! from)) tx (PriceBump (config pool)) in
  let pool := pool <| queue := <[from := l]> (queue pool) |> in
  if negb inserted then (pool, false, Some ErrReplaceUnderpriced)
  else
    let pool := match old with
                | Some o => pricedRemoved (allRemove pool (TxHash o)) 1
                | None => pool
                end in
    let pool := if addAll
                then pool <| all := lk_Add (all pool) tx local |> <| priced := pl_Put (priced pool) tx local |>
                else pool in
    let pool := match beats pool !! from with
                | Some _ => pool
                | None => pool <| beats := <[from := now]> (beats pool) |>
                end in
    (pool, bool_decide (is_Some old), None).

(** removeTx, the pending list: the transactions above are queued again. *)
Definition removePending (now : Z) (pool : TxPool) (addr : Address) (tx : Transaction)
  : outcome (TxPool * bool) :=
  match pending pool !! addr with
  | None => Ret (pool, false)
  | Some l =>
      '(l, removed, invalids) ← tl_Remove l tx;
      if (removed : bool) then
        let pool := pool <| pending := if tl_Empty l then delete addr (pending pool)
                                       else <[addr := l]> (pending pool) |> in
        let pool := fold_left (fun pool tx => (enqueueTx now pool (TxHash tx) tx false false).1.1)
                              invalids pool in
        Ret (pool <| pendingNonces := noncer_setIfLower (pendingNonces pool) addr (Nonce tx) |>, true)
      else Ret (pool <| pending := <[addr := l]> (pending pool) |>, false)
  end.

(** removeTx, the queued list. *)
Definition removeQueued (pool : TxPool) (addr : Address) (tx : Transaction) : outcome TxPool :=
  match queue pool !! addr with
  | None => Ret pool
  | Some l =>
      '(l, _, _) ← tl_Remove l tx;
      Ret (if tl_Empty l
           then pool <| queue := delete addr (queue pool) |> <| beats := delete addr (beats pool) |>
           else pool <| queue := <[addr := l]> (queue pool) |>)
  end.

Definition removeTx (now : Z) (pool : TxPool) (h : Hash) (outofbound : bool) : outcome TxPool :=
  match lk_Get (all pool) h with
  | None => Ret pool
  | Some tx =>
      let addr := senderOr0 (signer pool) tx in
      let pool := allRemove pool h in
      let pool := if outofbound then pricedRemoved pool 1 else pool in
      '(pool, done) ← removePending now pool addr tx;
      if (done : bool) then Ret pool else removeQueued pool addr tx
  end.

Definition removeTxs (now : Z) (pool : TxPool) (drop : list Transaction) (outofbound : bool) : outcome TxPool :=
  foldM (fun pool tx => removeTx now pool (TxHash tx) outofbound) pool drop.

(** add, the full pool: reject the transaction or make room for it. *)
Definition makeRoom (now : Z) (pool : TxPool) (tx : Transaction) (isLocal : bool)
  : outcome (TxPool * option error) :=
  let limit := u64 (GlobalSlots (config pool) + GlobalQueue (config pool)) in
  if limit <? Z.of_nat (lk_Count (all pool)) + numSlots tx then
    '(pool, under) ←
      (if isLocal then Ret (pool, false)
       else '(pl, b) ← pl_Underpriced (all pool) (priced pool) tx; Ret (pool <| priced := pl |>, b));
    if (under : bool) then Ret (pool, Some ErrUnderpriced)
    else
      '(pl, drop, success) ←
        pl_Discard (all pool) (priced pool) (lk_Slots (all pool) - int64 limit + numSlots tx) isLocal;
      let pool := pool <| priced := pl |> in
      if negb isLocal && negb success then Ret (pool, Some ErrTxPoolOverflow)
      else pool ← removeTxs now pool drop false; Ret (pool, None)
  else Ret (pool, None).

(** add, a nonce that is already pending. *)
Definition replacePending (now : Z) (pool : TxPool) (from : Address) (l : txList) (tx : Transaction)
    (isLocal : bool) : TxPool * bool * option error :=
  let '(l, inserted, old) := tl_Add l tx (PriceBump (config pool)) in
  let pool := pool <| pending := <[from := l]> (pending pool) |> in
  if negb inserted then (pool, false, Some ErrReplaceUnderpriced)
  else
    let pool := match old with
                | Some o => pricedRemoved (allRemove pool (TxHash o)) 1 | None => pool end in
    let pool := pool <| all := lk_Add (all pool) tx isLocal |>
                     <| priced := pl_Put (priced pool) tx isLocal |> in
    let pool := queueTxEvent (journalTx pool from tx) tx in
    (pool <| beats := <[from := now]> (beats pool) |>, bool_decide (is_Some old), None).

(** add, the future queue; a new local account takes its remote transactions
    along. *)
Definition queueNew (now : Z) (pool : TxPool) (from : Address) (tx : Transaction) (local isLocal : bool)
  : TxPool * bool * option error :=
  let '(pool, replaced, err) := enqueueTx now pool (TxHash tx) tx isLocal true in
  match err with
  | Some e => (pool, false, Some e)
  | None =>
      let pool :=
        if local && negb (as_contains (tp_locals pool) from) then
          let pool := pool <| tp_locals := as_add (tp_locals pool) from |> in
          let '(lk, migrated) := lk_RemoteToLocals (all pool) (tp_locals pool) in
          pricedRemoved (pool <| all := lk |>) migrated
        else pool in
      (journalTx pool from tx, replaced, None)
  end.

(** add returns whether a transaction was replaced, and the error. *)
Definition add (now : Z) (pool : TxPool) (tx : Transaction) (local : bool)
  : outcome (TxPool * bool * option error) :=
  if bool_decide (is_Some (lk_Get (all pool) (TxHash tx))) then Ret (pool, false, Some ErrAlreadyKnown)
  else
    let isLocal := local || as_containsTx (tp_locals pool) tx in
    match validateAck pool tx isLocal with
    | Some e => Ret (pool, false, Some e)
    | None =>
        '(pool, err) ← makeRoom now pool tx isLocal;
        match (err : option error) with
        | Some e => Ret (pool, false, Some e)
        | None =>
            let from := senderOr0 (signer pool) tx in
            match pending pool !! from with
            | Some l => if tl_Overlaps l tx then Ret (replacePending now pool from l tx isLocal)
                        else Ret (queueNew now pool from tx local isLocal)
            | None => Ret (queueNew now pool from tx local isLocal)
            end
        end
    end.

Definition addTxsLocked (now : Z) (pool : TxPool) (txs : list Transaction) (local : bool)
  : outcome (TxPool * list (option error) * accountSet) :=
  foldM (fun '(pool, errs, dirty) tx =>
           '(pool, replaced, err) ← add now pool tx local;
           Ret (pool, errs ++ [err],
                if bool_decide (err = None) && negb replaced then as_addTx dirty tx else dirty))
        (pool, [], newAccountSet (signer pool) []) txs.

(** addTxs: known transactions and bad signatures first, the rest under the
    lock; [mergeErrs] fills the error slots left nil. *)
Fixpoint mergeErrs (errs : list (option error)) (new : list (option error)) : list (option error) :=
  match errs with
  | [] => []
  | Some e :: errs => Some e :: mergeErrs errs new
  | None :: errs => match new with
                    | [] => None :: mergeErrs errs []
                    | e :: new => e :: mergeErrs errs new
                    end
  end.

Definition preAdd (pool : TxPool) (tx : Transaction) : option error :=
  if bool_decide (is_Some (lk_Get (all pool) (TxHash tx))) then Some ErrAlreadyKnown
  else match Sender (signer pool) tx with inr _ => Some ErrInvalidSender | inl _ => None end.

(** addTxs returns the errors and the accounts to promote, if a promotion is
    requested. *)
Definition addTxs (now : Z) (pool : TxPool) (txs : list Transaction) (local : bool)
  : outcome (TxPool * list (option error) * option accountSet) :=
  let errs := preAdd pool <$> txs in
  let news := filter (fun tx => preAdd pool tx = None) txs in
  match news with
  | [] => Ret (pool, errs, None)
  | _ =>
      '(pool, newErrs, dirty) ← addTxsLocked now pool news local;
      Ret (pool, mergeErrs errs newErrs, Some dirty)
  end.

Definition AddLocals (now : Z) (pool : TxPool) (txs : list Transaction) :=
  addTxs now pool txs (negb (NoLocals (config pool))).
Definition AddRemotes (now : Z) (pool : TxPool) (txs : list Transaction) := addTxs now pool txs false.

(** ** Acknowledgements *)

(** The inner value of a map of maps, created when missing. *)
Definition getInner {A} (m : nested A) (a : Address) (n : Z) (new : A) : nested A * option A :=
  let inner := default ∅ (m !! a) in
  match inner !! n with
  | Some v => (<[a := inner]> m, v)
  | None => (<[a := <[n := Some new]> inner]> m, Some new)
  end.

Definition setInner {A} (m : nested A) (a : Address) (n : Z) (v : A) : nested A :=
  <[a := <[n := Some v]> (default ∅ (m !! a))]> m.

(** addAck, the books: the stake of [ackOrigin] is counted once per sender
    and nonce; the result says whether the quorum is exceeded. *)
Definition bookAck (pool : TxPool) (txOrigin : Address) (nonce : Z) (h : Hash) (ackOrigin : Address)
  : outcome (TxPool * bool * option error) :=
  let '(us, hashes) := getInner (unconfirmed pool) txOrigin nonce ∅ in
  match hashes with
  | None => Panic
  | Some hashes =>
      let u := default (mkUnconfirmed 0 None) (hashes !! h) in
      let us := setInner us txOrigin nonce (<[h := u]> hashes) in
      let '(vs, votes) := getInner (voted pool) txOrigin nonce ∅ in
      let hasVoted := match votes with Some votes => default false (votes !! ackOrigin) | None => false end in
      let '(ss, received) := getInner (stakeReceived pool) txOrigin nonce 0 in
      let pool := pool <| unconfirmed := us |> <| voted := vs |> <| stakeReceived := ss |> in
      if (hasVoted : bool) then Ret (pool, false, None)
      else
        match stakeState pool, votes, received with
        | Some stake, Some votes, Some received =>
            let ackValue := GetBalance stake ackOrigin in
            let weight := ackWeight u + ackValue in
            let received := received + ackValue in
            let pool :=
              pool <| unconfirmed := setInner us txOrigin nonce (<[h := mkUnconfirmed weight (potentialTx u)]> hashes) |>
                   <| stakeReceived := setInner ss txOrigin nonce received |>
                   <| voted := setInner vs txOrigin nonce (<[ackOrigin := true]> votes) |> in
            if QuorumStake (config pool) <? weight then Ret (pool, true, None)
            else if PerformAposterioiriConsensus (config pool) && (APosterioriStake (config pool) <? received)
            then Ret (pool <| proposals := proposals pool ++ [(txOrigin, int64 nonce, h)] |>, false, None)
            else Ret (pool, false, None)
        | _, _, _ => Panic
        end
  end.

Definition addAck (now : Z) (pool : TxPool) (tx : Transaction) (ackOrigin : Address) (isLocal : bool)
  : outcome (TxPool * bool * option error) :=
  let h := TxHash tx in
  match Sender (signer pool) tx with
  | inr _ => Ret (pool, false, Some ErrInvalidSender)
  | inl txOrigin =>
      pool ← (if bool_decide (lk_Get (all pool) h = None) && bool_decide (validateAck pool tx true = None)
              then '(pool, _, _) ← add now pool tx false; Ret pool
              else Ret pool);
      let pool := if isLocal
                  then pool <| expectedAckNonce := <[txOrigin := u64 (Nonce tx + 1)]> (expectedAckNonce pool) |>
                  else pool in
      bookAck pool txOrigin (Nonce tx) h ackOrigin
  end.

(** cleanTx stores nil inner maps; writing to a missing map panics. *)
Definition clearInner {A} (m : nested A) (a : Address) (n : Z) : outcome (nested A) :=
  match m !! a with
  | None => Panic
  | Some inner => Ret (<[a := <[n := None]> inner]> m)
  end.

Definition cleanTx (pool : TxPool) (txOrigin : Address) (txNonce : Z) : outcome TxPool :=
  vs ← clearInner (voted pool) txOrigin txNonce;
  us ← clearInner (unconfirmed pool) txOrigin txNonce;
  ss ← clearInner (stakeReceived pool) txOrigin txNonce;
  Ret (pool <| voted := vs |> <| unconfirmed := us |> <| stakeReceived := ss |>).

(** The consensus case of [loop]: a decision of the multishot contract. *)
Definition consensusDecision (pool : TxPool) (txOrigin : Address) (txNonce decision : Z) : outcome TxPool :=
  let h := decision mod 2 ^ 256 in
  let nonce := u64 txNonce in
  let found := hs ← unconfirmed pool !! txOrigin ≫= (.!! nonce); hs ← hs; hs !! h in
  match found with
  | None => Panic                                   (* nil ackWeight *)
  | Some u =>
      match potentialTx u with
      | None =>
          match unconfirmed pool !! txOrigin ≫= (.!! nonce) with
          | Some (Some hs) =>
              Ret (pool <| unconfirmed :=
                     setInner (unconfirmed pool) txOrigin nonce
                       (<[h := mkUnconfirmed (ackWeight u + (QuorumStake (config pool) + 1)) None]> hs) |>)
          | _ => Panic
          end
      | Some tx => Ret (pool <| confirmed := confirmed pool ++ [tx] |>)
      end
  end.

(** ** Promotion and demotion *)

Definition promoteTx (now : Z) (pool : TxPool) (addr : Address) (h : Hash) (tx : Transaction)
  : TxPool * bool :=
  let '(l, inserted, old) := tl_Add (default (newTxList true) (pending pool !! addr)) tx (PriceBump (config pool)) in
  let pool := pool <| pending := <[addr := l]> (pending pool) |> in
  if negb inserted then (pricedRemoved (allRemove pool h) 1, false)
  else
    let pool := match old with Some o => pricedRemoved (allRemove pool (TxHash o)) 1 | None => pool end in
    (pool <| pendingNonces := noncer_set (pendingNonces pool) addr (u64 (Nonce tx + 1)) |>
          <| beats := <[addr := now]> (beats pool) |>, true).

Definition removeAll (pool : TxPool) (txs : list Transaction) : TxPool :=
  fold_left (fun pool tx => allRemove pool (TxHash tx)) txs pool.

(** The body of the loop of promoteExecutables for one account. *)
Definition promoteAccount (now : Z) (pool : TxPool) (addr : Address) : outcome (TxPool * list Transaction) :=
  match queue pool !! addr with
  | None => Ret (pool, [])
  | Some l =>
      '(l, forwards) ← tl_Forward l (default 0 (expectedAckNonce pool !! addr));
      let pool := removeAll pool forwards in
      let '(l, drops, _) := tl_Filter l (GetBalance (currentState pool) addr) (currentMaxGas pool) in
      let pool := removeAll pool drops in
      let '(noncer, start) := noncer_get (pendingNonces pool) addr in
      let pool := pool <| pendingNonces := noncer |> in
      '(l, readies) ← tl_Ready l start;
      let '(pool, promoted) :=
        fold_left (fun '(pool, promoted) tx =>
                     let '(pool, ok) := promoteTx now pool addr (TxHash tx) tx in
                     (pool, if ok then promoted ++ [tx] else promoted))
                  readies (pool, []) in
      '(l, caps) ← (if as_contains (tp_locals pool) addr then Ret (l, [])
                    else tl_Cap l (Z.to_nat (AccountQueue (config pool))));
      let pool := removeAll pool caps in
      let pool := pricedRemoved pool (Z.of_nat (length forwards + length drops + length caps)) in
      Ret (if tl_Empty l
           then pool <| queue := delete addr (queue pool) |> <| beats := delete addr (beats pool) |>
           else pool <| queue := <[addr := l]> (queue pool) |>, promoted)
  end.

Definition promoteExecutables (now : Z) (pool : TxPool) (accounts : list Address)
  : outcome (TxPool * list Transaction) :=
  foldM (fun '(pool, promoted) addr =>
           '(pool, new) ← promoteAccount now pool addr; Ret (pool, promoted ++ new))
        (pool, []) accounts.

(** The body of the loop of demoteUnexecutables for one account. *)
Definition demoteAccount (now : Z) (pool : TxPool) (addr : Address) : outcome TxPool :=
  match pending pool !! addr with
  | None => Ret pool
  | Some l =>
      let nonce := default 0 (expectedAckNonce pool !! addr) in
      '(l, olds) ← tl_Forward l nonce;
      let pool := removeAll pool olds in
      let '(l, drops, invalids) := tl_Filter l (GetBalance (currentState pool) addr) (currentMaxGas pool) in
      let pool := removeAll pool drops in
      let pool := pricedRemoved pool (Z.of_nat (length olds + length drops)) in
      let requeue pool txs := fold_left (fun pool tx => (enqueueTx now pool (TxHash tx) tx false false).1.1) txs pool in
      let pool := requeue pool invalids in
      '(l, gapped) ← (if bool_decide (0 < tl_Len l)%nat && bool_decide (sm_Get (txs l) nonce = None)
                      then tl_Cap l 0 else Ret (l, []));
      let pool := requeue pool gapped in
      Ret (pool <| pending := if tl_Empty l then delete addr (pending pool)
                              else <[addr := l]> (pending pool) |>)
  end.

Definition demoteUnexecutables (now : Z) (pool : TxPool) : outcome TxPool :=
  foldM (demoteAccount now) pool (map_to_list (pending pool)).*1.

(** ** Limits *)

Definition sumLen (m : gmap Address txList) : Z :=
  fold_left (fun n kv => n + Z.of_nat (tl_Len kv.2)) (map_to_list m) 0.

Definition stats (pool : TxPool) : Z * Z := (sumLen (pending pool), sumLen (queue pool)).

(** One transaction less for an offender. *)
Definition capOne (pool : TxPool) (addr : Address) : outcome TxPool :=
  match pending pool !! addr with
  | None => Panic
  | Some l =>
      if decide (tl_Len l = 0%nat) then Panic
      else
        '(l, caps) ← tl_Cap l (tl_Len l - 1);
        let pool := pool <| pending := <[addr := l]> (pending pool) |> in
        let pool := fold_left (fun pool tx =>
            (allRemove pool (TxHash tx))
              <| pendingNonces := noncer_setIfLower (pendingNonces pool) addr (Nonce tx) |>) caps pool in
        Ret (pricedRemoved pool (Z.of_nat (length caps)))
  end.

Definition capRound (pool : TxPool) (pend : Z) (offenders : list Address) : outcome (TxPool * Z) :=
  foldM (fun '(pool, pend) addr => pool ← capOne pool addr; Ret (pool, u64 (pend - 1))) (pool, pend) offenders.

Definition pendingLen (pool : TxPool) (addr : Address) : outcome Z :=
  match pending pool !! addr with Some l => Ret (Z.of_nat (tl_Len l)) | None => Panic end.

(** Reduce the offenders while the last one, at [watch], is above [floor]. *)
Fixpoint capLoop (fuel : nat) (pool : TxPool) (pend floor : Z) (watch : Address) (offenders : list Address)
  : outcome (TxPool * Z) :=
  match fuel with
  | O => Ret (pool, pend)
  | S fuel =>
      if GlobalSlots (config pool) <? pend then
        len ← pendingLen pool watch;
        if floor <? len
        then '(pool, pend) ← capRound pool pend offenders; capLoop fuel pool pend floor watch offenders
        else Ret (pool, pend)
      else Ret (pool, pend)
  end.

(** Pop offenders, equalising their lengths down to the newest one's. *)
Fixpoint spamLoop (fuel : nat) (pool : TxPool) (pend : Z) (spammers : list (Address * Z)) (offenders : list Address)
  : outcome (TxPool * Z * list Address) :=
  match fuel with
  | O => Ret (pool, pend, offenders)
  | S fuel' =>
      if (GlobalSlots (config pool) <? pend) && negb (prque_Empty spammers) then
        match prque_Pop spammers with
        | None => Panic
        | Some (offender, _, spammers) =>
            let earlier := offenders in
            let offenders := offenders ++ [offender] in
            '(pool, pend) ←
              match last earlier with
              | None => Ret (pool, pend)
              | Some prev =>
                  threshold ← pendingLen pool offender;
                  capLoop (S (Z.to_nat pend)) pool pend threshold prev earlier
              end;
            spamLoop fuel' pool pend spammers offenders
        end
      else Ret (pool, pend, offenders)
  end.

Definition truncatePending (pool : TxPool) : outcome TxPool :=
  let pend := sumLen (pending pool) in
  if pend <=? GlobalSlots (config pool) then Ret pool
  else
    let spammers := fold_left (fun q kv =>
        if negb (as_contains (tp_locals pool) kv.1) && (AccountSlots (config pool) <? Z.of_nat (tl_Len kv.2))
        then prque_Push q kv.1 (Z.of_nat (tl_Len kv.2)) else q)
      (map_to_list (pending pool)) prque_New in
    '(pool, pend, offenders) ← spamLoop (S (length spammers)) pool pend spammers [];
    match last offenders with
    | None => Ret pool
    | Some l =>
        '(pool, _) ← capLoop (S (Z.to_nat pend)) pool pend (AccountSlots (config pool)) l offenders;
        Ret pool
    end.

Definition olderBeat (a b : Address * Z) : Prop := a.2 <= b.2.
#[export] Instance olderBeat_dec a b : Decision (olderBeat a b).
Proof. unfold olderBeat. apply _. Defined.

(** removeTx for the last transactions, newest nonce first, while [drop] lasts. *)
Fixpoint dropLast (now : Z) (pool : TxPool) (txs : list Transaction) (drop : Z) : outcome (TxPool * Z) :=
  match txs with
  | [] => Ret (pool, drop)
  | tx :: txs =>
      if 0 <? drop then pool ← removeTx now pool (TxHash tx) true; dropLast now pool txs (drop - 1)
      else Ret (pool, drop)
  end.

(** [addrs] holds the accounts with the latest heartbeat first. *)
Fixpoint truncateLoop (now : Z) (pool : TxPool) (addrs : list Address) (drop : Z) : outcome TxPool :=
  match addrs with
  | [] => Ret pool
  | addr :: addrs =>
      if 0 <? drop then
        match queue pool !! addr with
        | None => Panic
        | Some l =>
            let size := Z.of_nat (tl_Len l) in
            let '(l, flat) := tl_Flatten l in
            let pool := pool <| queue := <[addr := l]> (queue pool) |> in
            if size <=? drop then
              pool ← removeTxs now pool flat true;
              truncateLoop now pool addrs (drop - size)
            else
              '(pool, drop) ← dropLast now pool (reverse flat) drop;
              truncateLoop now pool addrs drop
        end
      else Ret pool
  end.

Definition truncateQueue (now : Z) (pool : TxPool) : outcome TxPool :=
  let queued := sumLen (queue pool) in
  if queued <=? GlobalQueue (config pool) then Ret pool
  else
    let addrs := filter (fun a => as_contains (tp_locals pool) a = false) (map_to_list (queue pool)).*1 in
    let beating := (fun a => (a, default 0 (beats pool !! a))) <$> addrs in
    truncateLoop now pool (reverse (merge_sort olderBeat beating)).*1 (queued - GlobalQueue (config pool)).

(** ** Following the chain *)

(** What the pool reads of the block chain. *)
Record blockChain := mkBlockChain {
  CurrentBlock : Block;
  GetBlock : Hash -> Z -> option Block;
  StateAtRoot : option StateDB               (* StateAt(StateRoot()) *)
}.

(** The walks of reset from the old and the new head to their common
    ancestor; [None] is an unrooted chain. *)
Definition parentOf (bc : blockChain) (b : Block) : option Block :=
  GetBlock bc (h_ParentHash (b_header b)) (u64 (NumberU64 b - 1)).

(** Collect the transactions of a chain down to the height [n]. *)
Fixpoint downTo (fuel : nat) (bc : blockChain) (b : Block) (n : Z) (txs : list Transaction)
  : option (Block * list Transaction) :=
  match fuel with
  | O => None
  | S fuel => if n <? NumberU64 b
              then b' ← parentOf bc b; downTo fuel bc b' n (txs ++ b_transactions b)
              else Some (b, txs)
  end.

Fixpoint walkBack (fuel : nat) (bc : blockChain) (rem add : Block) (discarded included : list Transaction)
  : option (list Transaction * list Transaction) :=
  match fuel with
  | O => None
  | S fuel =>
      if BlockHash rem =? BlockHash add then Some (discarded, included)
      else
        rem' ← parentOf bc rem; add' ← parentOf bc add;
        walkBack fuel bc rem' add' (discarded ++ b_transactions rem) (included ++ b_transactions add)
  end.

(** The transactions to reinject, [None] when reset gives up. *)
Definition reorgTxs (bc : blockChain) (oldHead : option Header) (newHead : Header)
  : outcome (option (list Transaction)) :=
  match oldHead with
  | None => Ret (Some [])
  | Some old =>
      if HeaderHash old =? h_ParentHash newHead then Ret (Some [])
      else
        let oldNum := u64 (h_Number old) in
        let newNum := u64 (h_Number newHead) in
        if 64 <? Z.abs (oldNum - newNum) then Ret (Some [])
        else
          match GetBlock bc (HeaderHash old) oldNum with
          | None => if oldNum <=? newNum then Ret None else Ret (Some [])
          | Some rem =>
              match GetBlock bc (HeaderHash newHead) newNum with
              | None => Panic
              | Some add =>
                  let fuel := S (S (Z.to_nat (Z.max oldNum newNum))) in
                  Ret ('(rem, discarded) ← downTo fuel bc rem (NumberU64 add) [];
                       '(add, included) ← downTo fuel bc add (NumberU64 rem) [];
                       '(discarded, included) ← walkBack fuel bc rem add discarded included;
                       Some (TxDifference discarded included))
              end
          end
  end.

Definition reset (now : Z) (bc : blockChain) (pool : TxPool) (oldHead : option Header) (newHead : Header)
  : outcome TxPool :=
  reinject ← reorgTxs bc oldHead newHead;
  match reinject, StateAtRoot bc with
  | None, _ | _, None => Ret pool
  | Some reinject, Some statedb =>
      stake ← match stakeState pool with
              | None => s ← Copy statedb; Ret (Some s)
              | Some s => Ret (Some s)
              end;
      current ← Copy statedb;
      noncer ← newTxNoncer current;
      let pool := pool <| stakeState := stake |> <| currentState := current |>
                       <| pendingNonces := noncer |> <| currentMaxGas := h_GasLimit newHead |> in
      '(pool, _, _) ← addTxsLocked now pool reinject false;
      let next := Some (h_Number newHead + 1) in
      Ret (pool <| istanbul := IsIstanbul (chainconfig pool) next |>
                <| eip2718 := IsBerlin (chainconfig pool) next |>)
  end.

(** The last step of runReorg: the pending nonces follow the pending lists. *)
Definition updateNonces (pool : TxPool) : outcome TxPool :=
  foldM (fun pool addr =>
           match pending pool !! addr with
           | None => Ret pool
           | Some l =>
               '(l, tx) ← tl_LastElement l;
               Ret (pool <| pending := <[addr := l]> (pending pool) |>
                         <| pendingNonces := noncer_set (pendingNonces pool) addr (u64 (Nonce tx + 1)) |>)
           end) pool (map_to_list (pending pool)).*1.

(** runReorg: [req] is the reset request and [dirty] the accounts to promote;
    it returns the promoted transactions, which are announced. *)
Definition runReorg (now : Z) (bc : blockChain) (pool : TxPool) (req : option (option Header * Header))
    (dirty : option accountSet) : outcome (TxPool * list Transaction) :=
  '(pool, addrs) ←
    match req with
    | Some (oldHead, newHead) =>
        pool ← reset now bc pool oldHead newHead;
        Ret (pool, (map_to_list (queue pool)).*1)
    | None => Ret (pool, match dirty with Some d => (as_flatten d).2 | None => [] end)
    end;
  '(pool, promoted) ← promoteExecutables now pool addrs;
  pool ← (if bool_decide (is_Some req) then demoteUnexecutables now pool else Ret pool);
  pool ← truncatePending pool;
  pool ← truncateQueue now pool;
  pool ← updateNonces pool;
  Ret (pool, promoted).

(** ** Other entry points *)

Definition SetGasPrice (now : Z) (pool : TxPool) (price : Z) : outcome TxPool :=
  let pool := pool <| tp_gasPrice := price |> in
  '(pl, drop) ← pl_Cap (all pool) (priced pool) price;
  removeTxs now (pool <| priced := pl |>) drop false.

(** The eviction tick of [loop]. *)
Definition evict (now : Z) (pool : TxPool) : outcome TxPool :=
  foldM (fun pool addr =>
           match queue pool !! addr with
           | None => Ret pool
           | Some l =>
               if as_contains (tp_locals pool) addr then Ret pool
               else if Lifetime (config pool) <? now - default 0 (beats pool !! addr) then
                 let '(l, flat) := tl_Flatten l in
                 removeTxs now (pool <| queue := <[addr := l]> (queue pool) |>) flat true
               else Ret pool
           end) pool (map_to_list (queue pool)).*1.

Definition PoolNonce (pool : TxPool) (a : Address) : TxPool * Z :=
  let '(n, v) := noncer_get (pendingNonces pool) a in (pool <| pendingNonces := n |>, v).

Inductive TxStatus := TxStatusUnknown | TxStatusQueued | TxStatusPending | TxStatusIncluded.

Definition Status (pool : TxPool) (hashes : list Hash) : list TxStatus :=
  (fun h => match lk_Get (all pool) h with
            | None => TxStatusUnknown
            | Some tx =>
                let from := senderOr0 (signer pool) tx in
                let has (l : option txList) := bool_decide (is_Some (l ≫= fun l => sm_Get (txs l) (Nonce tx))) in
                if has (pending pool !! from) then TxStatusPending
                else if has (queue pool !! from) then TxStatusQueued
                else TxStatusUnknown
            end) <$> hashes.

(** Flatten the lists of [m]; each keeps its cache. *)
Definition flattenAll (m : gmap Address txList) : gmap Address txList * list (Address * list Transaction) :=
  ((fun l => (tl_Flatten l).1) <$> m, (fun al => (al.1, (tl_Flatten al.2).2)) <$> map_to_list m).

Definition Pending (pool : TxPool) : TxPool * list (Address * list Transaction) :=
  let '(m, l) := flattenAll (pending pool) in (pool <| pending := m |>, l).

Definition Content (pool : TxPool)
  : TxPool * (list (Address * list Transaction) * list (Address * list Transaction)) :=
  let '(p, pend) := flattenAll (pending pool) in
  let '(q, queued) := flattenAll (queue pool) in
  (pool <| pending := p |> <| queue := q |>, (pend, queued)).

Definition Locals (pool : TxPool) : TxPool * list Address :=
  let '(ls, addrs) := as_flatten (tp_locals pool) in (pool <| tp_locals := ls |>, addrs).

(** NewTxPool up to its first reset, without the journal and the contract;
    [empty] stands for the nil state before the reset. *)
Definition emptyPool (cfg : TxPoolConfig) (cc : ChainConfig) (empty : StateDB) : TxPool :=
  let sg := LatestSigner cc in
  mkTxPool cfg cc (PriceLimit cfg) sg false false empty ∅ None (mkNoncer empty ∅) 0
    (newAccountSet sg (cfg_Locals cfg)) None [] ∅ ∅ ∅ ∅ ∅ ∅ newTxLookup newTxPricedList [] [].

Definition NewTxPool (now : Z) (cfg : TxPoolConfig) (cc : ChainConfig) (bc : blockChain) (empty : StateDB)
  : outcome TxPool :=
  reset now bc (emptyPool (sanitize cfg) cc empty) None (b_header (CurrentBlock bc)).

End Pool.
