(* ===== verification/TxSet.v ===== *)
(** * Transactions by price and nonce (core/types/transaction.go)

    The miner takes transactions from a set that keeps a queue per account and
    a heap of the next transaction of each, ordered by price and then by the
    time it was first seen.  [txset_refines]: on well-formed sets the heap and
    the map behave as one queue per account, from which the best head is taken
    or a whole account is dropped. *)

From S2P Require Import Prelude Rlp Transaction Heap TxList TxLookup Prque TxPool.

(** ** The code *)

(** TxByPriceAndTime.Less *)
Definition priceTimeLess (x y : Transaction) : bool :=
  match GasPriceCmp x y with Eq => time x <? time y | Gt => true | Lt => false end.

Record TransactionsByPriceAndNonce := mkTxSet {
  ts_txs : gmap Address (list Transaction);
  ts_heads : list Transaction;
  ts_signer : Signer
}.
#[export] Instance eta_TxSet : Eta TransactionsByPriceAndNonce := fun r => mkTxSet (ts_txs r) (ts_heads r) (ts_signer r).

Section Code.
Context `{Crypto}.

(** One account of the map; one without transactions panics. *)
Definition addHead (sg : Signer) (mh : gmap Address (list Transaction) * list Transaction) (ft : Address * list Transaction)
  : outcome (gmap Address (list Transaction) * list Transaction) :=
  match ft.2 with
  | [] => Panic
  | tx :: rest => if senderOr0 sg tx =? ft.1 then Ret (<[ft.1 := rest]> mh.1, mh.2 ++ [tx])
                  else Ret (delete ft.1 mh.1, mh.2)
  end.

(** The map is given in the order Go iterates over it. *)
Definition NewTransactionsByPriceAndNonce (sg : Signer) (txs : list (Address * list Transaction))
  : outcome TransactionsByPriceAndNonce :=
  '(m, heads) ← foldM (addHead sg) (list_to_map txs, []) txs;
  Ret (mkTxSet m (Init priceTimeLess heads) sg).

Definition ts_Peek (t : TransactionsByPriceAndNonce) : option Transaction := head (ts_heads t).

Definition ts_Pop (t : TransactionsByPriceAndNonce) : outcome TransactionsByPriceAndNonce :=
  match Pop priceTimeLess (ts_heads t) with Some (_, heads) => Ret (t <| ts_heads := heads |>) | None => Panic end.

Definition ts_Shift (t : TransactionsByPriceAndNonce) : outcome TransactionsByPriceAndNonce :=
  match ts_heads t with
  | [] => Panic
  | h :: _ =>
      let acc := senderOr0 (ts_signer t) h in
      match ts_txs t !! acc with
      | Some (tx :: rest) =>
          Ret (t <| ts_heads := Fix priceTimeLess (<[0%nat := tx]> (ts_heads t)) 0 |> <| ts_txs := <[acc := rest]> (ts_txs t) |>)
      | _ => ts_Pop t
      end
  end.

End Code.

(** ** A queue per account *)

#[export] Instance priceTimeLess_weak : StrictWeak priceTimeLess.
Proof.
  split; unfold priceTimeLess, GasPriceCmp; intros.
  - destruct (Z.compare_spec (GasPrice x) (GasPrice y)), (Z.compare_spec (GasPrice y) (GasPrice x)); lia || done.
  - destruct (Z.compare_spec (GasPrice y) (GasPrice x)), (Z.compare_spec (GasPrice z) (GasPrice y)),
      (Z.compare_spec (GasPrice z) (GasPrice x)); lia || done.
Qed.

Section Facts.
Context `{Crypto}.

Abbreviation sender t := (senderOr0 (ts_signer t)).

Record txset_ok (t : TransactionsByPriceAndNonce) : Prop := {
  tk_heap : heap priceTimeLess (ts_heads t);
  tk_heads : NoDup (sender t <$> ts_heads t);
  tk_txs a l : ts_txs t !! a = Some l -> Forall (fun tx => sender t tx = a) l
}.

(** The transactions of the account [a] that are left, in order. *)
Definition account (t : TransactionsByPriceAndNonce) (a : Address) (l : list Transaction) : Prop :=
  (l = [] /\ a ∉ sender t <$> ts_heads t) \/
  exists h, h ∈ ts_heads t /\ sender t h = a /\ l = h :: default [] (ts_txs t !! a).

(** What is left of all accounts with a head. *)
Definition left_over (t : TransactionsByPriceAndNonce) : nat :=
  sum_list_with (fun h => S (length (default [] (ts_txs t !! sender t h)))) (ts_heads t).

(** All transactions of the set. *)
Definition set_Forall (P : Transaction -> Prop) (t : TransactionsByPriceAndNonce) : Prop :=
  Forall P (ts_heads t) /\ forall a l, ts_txs t !! a = Some l -> Forall P l.

(** *** Dropping the best head *)
Lemma ts_Pop_ok t h hs : txset_ok t -> ts_heads t = h :: hs ->
  exists t', ts_Pop t = Ret t' /\ txset_ok t' /\ ts_txs t' = ts_txs t /\ ts_signer t' = ts_signer t /\ ts_heads t' ≡ₚ hs.
Proof.
  intros [Hh Hn Ht] E. unfold ts_Pop. destruct (Pop_heap _ (ts_heads t) Hh) as (x & l & -> & Hl & Hp & H0 & _); [by rewrite E|].
  rewrite E in H0. injection H0 as <-. rewrite E in Hp. apply Permutation_cons_inv in Hp.
  eexists. split; [done|]. split_and!; try done. split; [done| |done]. cbn.
  rewrite <- Hp. rewrite E in Hn. by apply NoDup_cons in Hn as [].
Qed.

(** *** The next transaction of the account of the best head *)
Lemma ts_Shift_ok t h hs tx rest : txset_ok t -> ts_heads t = h :: hs -> ts_txs t !! sender t h = Some (tx :: rest) ->
  exists t', ts_Shift t = Ret t' /\ txset_ok t' /\ ts_txs t' = <[sender t h := rest]> (ts_txs t) /\
    ts_signer t' = ts_signer t /\ ts_heads t' ≡ₚ tx :: hs.
Proof.
  intros [Hh Hn Ht] E Etx. unfold ts_Shift. rewrite E, Etx. rewrite <- E.
  destruct (Fix_root _ (ts_heads t) tx Hh) as [Hf Hp]; [rewrite E; simpl; lia|]. rewrite E in Hp at 2. simpl in Hp.
  pose proof (Forall_inv (Ht _ _ Etx)) as Hs. cbn in Hs.
  eexists. split; [done|]. split_and!; try done. split; [done| |]; cbn.
  - rewrite Hp. simpl. rewrite Hs. by rewrite E in Hn.
  - intros a l. rewrite lookup_insert. case_decide; [|apply Ht]. intros [= <-]. subst. by apply Ht, Forall_inv_tail in Etx.
Qed.

Lemma ts_Shift_last t h hs : ts_heads t = h :: hs -> default [] (ts_txs t !! sender t h) = [] -> ts_Shift t = ts_Pop t.
Proof. intros E Ed. unfold ts_Shift. rewrite E. by destruct (ts_txs t !! sender t h) as [[|]|]. Qed.

(** *** Accounts *)

Lemma left_pop t t' h hs : ts_heads t = h :: hs -> ts_heads t' ≡ₚ hs -> ts_signer t' = ts_signer t -> ts_txs t' = ts_txs t ->
  left_over t = (S (length (default [] (ts_txs t !! sender t h))) + left_over t')%nat.
Proof. intros E Hp Hs Ht. unfold left_over. rewrite Hs, Ht, Hp, E. done. Qed.

Lemma left_others t t' hs a rest : ts_txs t' = <[a := rest]> (ts_txs t) -> ts_signer t' = ts_signer t ->
  a ∉ sender t <$> hs ->
  sum_list_with (fun h => S (length (default [] (ts_txs t' !! sender t' h)))) hs =
  sum_list_with (fun h => S (length (default [] (ts_txs t !! sender t h)))) hs.
Proof.
  intros Ht Hs. induction hs as [|x hs IH]; intros Ha; [done|]. simpl in *. apply not_elem_of_cons in Ha as [Hx Ha].
  rewrite IH by done. by rewrite Hs, Ht, lookup_insert_ne.
Qed.

Lemma left_shift t t' h hs tx rest : txset_ok t -> ts_heads t = h :: hs -> ts_txs t !! sender t h = Some (tx :: rest) ->
  ts_heads t' ≡ₚ tx :: hs -> ts_signer t' = ts_signer t -> ts_txs t' = <[sender t h := rest]> (ts_txs t) ->
  left_over t = S (left_over t').
Proof.
  intros [_ Hn Hok] E Etx Hp Hs Ht. rewrite E in Hn. simpl in Hn. apply NoDup_cons in Hn as [Hn _]. unfold left_over. rewrite Hp, E. simpl.
  rewrite (left_others t t' hs _ rest Ht Hs Hn), Etx, Hs, Ht.
  rewrite (Forall_inv (Hok _ _ Etx)), lookup_insert_eq. done.
Qed.

Lemma account_pop t t' h hs b l : txset_ok t -> ts_heads t = h :: hs -> ts_heads t' ≡ₚ hs -> ts_signer t' = ts_signer t ->
  ts_txs t' = ts_txs t -> account t b l -> account t' b (if decide (b = sender t h) then [] else l).
Proof.
  intros [_ Hn _] E Hp Hs Ht. unfold account. rewrite Hs, Ht. setoid_rewrite Hp. rewrite E in *. simpl in *. apply NoDup_cons in Hn as [Hn _].
  intros [[-> Hb]|(x & Hx & <- & ->)].
  - left. apply not_elem_of_cons in Hb as [_ Hb]. by case_decide.
  - case_decide as D; [left; by rewrite D|]. right. exists x. apply elem_of_cons in Hx as [->|Hx]; done.
Qed.

Lemma account_shift t t' h hs tx rest b l : txset_ok t -> ts_heads t = h :: hs -> ts_txs t !! sender t h = Some (tx :: rest) ->
  ts_heads t' ≡ₚ tx :: hs -> ts_signer t' = ts_signer t -> ts_txs t' = <[sender t h := rest]> (ts_txs t) ->
  account t b l -> account t' b (if decide (b = sender t h) then tail l else l).
Proof.
  intros [_ Hn Hok] E Etx Hp Hs Ht. unfold account. rewrite Hs, Ht. setoid_rewrite Hp. rewrite E in *. simpl in *. apply NoDup_cons in Hn as [Hn _].
  pose proof (Forall_inv (Hok _ _ Etx)) as Htx. cbn in Htx. rewrite Htx.
  intros [[-> Hb]|(x & Hx & <- & ->)].
  - left. by case_decide.
  - right. case_decide as D.
    + exists tx. split; [left|]. split; [congruence|]. rewrite D, Etx, lookup_insert_eq. done.
    + exists x. apply elem_of_cons in Hx as [->|Hx]; [done|]. split; [by right|]. split; [done|]. by rewrite lookup_insert_ne by done.
Qed.

Lemma all_pop t t' h hs P : ts_heads t = h :: hs -> ts_heads t' ≡ₚ hs -> ts_txs t' = ts_txs t -> set_Forall P t -> set_Forall P t'.
Proof. intros E Hp Ht [HPh HPt]. split; [|by rewrite Ht]. rewrite Hp. rewrite E in HPh. by apply Forall_inv_tail in HPh. Qed.

(** *** Both removals *)

Lemma ts_Pop_spec t tx : txset_ok t -> ts_Peek t = Some tx ->
  exists t', ts_Pop t = Ret t' /\ txset_ok t' /\ (left_over t' < left_over t)%nat /\ ts_signer t' = ts_signer t /\
    (forall b l, account t b l -> account t' b (if decide (b = sender t tx) then [] else l)) /\
    forall P, set_Forall P t -> set_Forall P t'.
Proof.
  intros Hok Hpk. destruct (ts_heads t) as [|h hs] eqn:E; unfold ts_Peek in Hpk; rewrite E in Hpk; [done|]. injection Hpk as ->.
  destruct (ts_Pop_ok t tx hs Hok E) as (t' & Et & Hok' & Ht & Hs & Hp). exists t'. split_and!; try done.
  - rewrite (left_pop t t' tx hs E Hp Hs Ht). lia.
  - intros b l. by apply (account_pop t t' tx hs).
  - intros P. by apply (all_pop t t' tx hs).
Qed.

Lemma ts_Shift_spec t tx : txset_ok t -> ts_Peek t = Some tx ->
  exists t', ts_Shift t = Ret t' /\ txset_ok t' /\ left_over t = S (left_over t') /\ ts_signer t' = ts_signer t /\
    (forall b l, account t b l -> account t' b (if decide (b = sender t tx) then tail l else l)) /\
    forall P, set_Forall P t -> set_Forall P t'.
Proof.
  intros Hok Hpk. destruct (ts_heads t) as [|h hs] eqn:E; unfold ts_Peek in Hpk; rewrite E in Hpk; [done|]. injection Hpk as ->.
  destruct (default [] (ts_txs t !! sender t tx)) as [|x rest] eqn:Ed.
  - rewrite (ts_Shift_last t tx hs E Ed). destruct (ts_Pop_ok t tx hs Hok E) as (t' & Et & Hok' & Ht & Hs & Hp). exists t'. split_and!; try done.
    + rewrite (left_pop t t' tx hs E Hp Hs Ht), Ed. done.
    + intros b l Hl. pose proof (account_pop t t' tx hs b l Hok E Hp Hs Ht Hl) as H'. case_decide as D; [|done]. subst b.
      destruct Hl as [[-> _]|(y & _ & _ & ->)]; [done|]. by rewrite Ed.
    + intros P. by apply (all_pop t t' tx hs).
  - assert (ts_txs t !! sender t tx = Some (x :: rest)) as Etx by (destruct (ts_txs t !! sender t tx); naive_solver).
    destruct (ts_Shift_ok t tx hs x rest Hok E Etx) as (t' & Et & Hok' & Ht & Hs & Hp). exists t'. split_and!; try done.
    + by apply (left_shift t t' tx hs x rest).
    + intros b l. by apply (account_shift t t' tx hs x rest).
    + intros P [HPh HPt]. split; [rewrite Hp, Forall_cons|].
      * rewrite E in HPh. apply Forall_cons_1 in HPh as [_ HPh]. split; [|done]. by apply HPt, Forall_inv in Etx.
      * intros a l. rewrite Ht, lookup_insert. case_decide; [|apply HPt]. intros [= <-]. by apply HPt, Forall_inv_tail in Etx.
Qed.

(** *** Building the set *)

Lemma New_loop sg todo (m : gmap Address (list Transaction)) hs : NoDup todo.*1 -> Forall (fun al => al.2 <> [] /\ Forall (fun tx => senderOr0 sg tx = al.1) al.2) todo ->
  exists m', foldM (addHead sg) (m, hs) todo = Ret (m', hs ++ omap (head ∘ snd) todo) /\
    forall a, m' !! a = match (list_to_map todo : gmap Address (list Transaction)) !! a with Some l => Some (tail l) | None => m !! a end.
Proof.
  revert m hs. induction todo as [|[a l] todo IH]; intros m hs Hnd Hall; [exists m; by rewrite app_nil_r|].
  simpl in Hnd. apply NoDup_cons in Hnd as [Ha Hnd]. apply Forall_cons_1 in Hall as [[Hne Hs] Hall]. cbn [fst snd] in *.
  destruct l as [|tx rest]; [done|]. cbn [foldM]. unfold addHead at 1. cbn [fst snd]. rewrite (Forall_inv Hs), Z.eqb_refl. cbn [mbind outcome_bind].
  destruct (IH (<[a := rest]> m) (hs ++ [tx]) Hnd Hall) as (m' & -> & Hm'). exists m'. split; [by rewrite <- app_assoc|].
  intros b. rewrite Hm'. simpl. rewrite !lookup_insert. case_decide; [subst|done].
  by rewrite (not_elem_of_list_to_map_1 _ _ Ha).
Qed.

Lemma New_senders sg txs : Forall (fun al => al.2 <> [] /\ Forall (fun tx => senderOr0 sg tx = al.1) al.2) txs ->
  senderOr0 sg <$> omap (head ∘ snd) txs = txs.*1.
Proof.
  induction 1 as [|[a [|tx l]] txs [Hne Hs] _ IH]; [done|done|].
  change (omap (head ∘ snd) ((a, tx :: l) :: txs)) with (tx :: omap (head ∘ snd) txs). by rewrite !fmap_cons, IH, (Forall_inv Hs).
Qed.

Lemma New_set_ok sg txs : NoDup txs.*1 -> Forall (fun al => al.2 <> [] /\ Forall (fun tx => senderOr0 sg tx = al.1) al.2) txs ->
  exists t, NewTransactionsByPriceAndNonce sg txs = Ret t /\ txset_ok t /\ ts_signer t = sg /\
    (forall a l, (a, l) ∈ txs -> account t a l) /\ forall P, Forall (fun al => Forall P al.2) txs -> set_Forall P t.
Proof.
  intros Hnd Hall. unfold NewTransactionsByPriceAndNonce.
  destruct (New_loop sg txs (list_to_map txs) [] Hnd Hall) as (m & -> & Hm). cbn [mbind outcome_bind app]. eexists. split; [done|].
  destruct (Init_heap priceTimeLess (omap (head ∘ snd) txs)) as [Hh Hp].
  assert (forall a, m !! a = tail <$> (list_to_map txs : gmap Address (list Transaction)) !! a) as Hlook.
  { intros a. rewrite Hm. by destruct ((list_to_map txs : gmap Address (list Transaction)) !! a) eqn:El; rewrite ?El. }
  rewrite Forall_forall in Hall. split; [split; cbn [ts_heads ts_txs ts_signer]; [done| |]|split_and!; [done| |]].
  - rewrite Hp, (New_senders sg) by (by rewrite Forall_forall). done.
  - intros a l. rewrite Hlook. intros (l' & El & ->)%fmap_Some. apply elem_of_list_to_map in El; [|done].
    destruct (Hall _ El) as [_ Hs]. cbn [fst snd] in Hs. destruct l'; [done|]. by apply Forall_inv_tail in Hs.
  - intros a l Hal. destruct (Hall _ Hal) as [Hne Hs]. cbn [fst snd] in *. destruct l as [|tx l]; [done|]. right. exists tx. cbn.
    split_and!; [rewrite Hp; apply list_elem_of_omap; by exists (a, tx :: l)|by apply Forall_inv in Hs|].
    apply (elem_of_list_to_map (M := gmap Address)) in Hal; [|done]. by rewrite Hlook, Hal.
  - intros P HP. rewrite Forall_forall in HP. split; cbn [ts_heads ts_txs].
    + rewrite Hp. apply Forall_forall. intros x ([a l] & Hal & Hx)%list_elem_of_omap. cbn in Hx. apply HP in Hal. destruct l; [done|].
      injection Hx as <-. by apply Forall_inv in Hal.
    + intros a l. rewrite Hlook. intros (l' & El & ->)%fmap_Some. apply elem_of_list_to_map in El; [|done]. apply HP in El.
      destruct l'; [done|]. by apply Forall_inv_tail in El.
Qed.

(** ** The refinement *)

(** C40: a well-formed set of transactions behaves as one queue per account.
    Peek returns the first transaction of an account that is best by price and
    time among all accounts; Shift removes just that transaction, so that the
    nonce order of every account is kept, and Pop all of that account.  Both
    shrink the set. *)
Theorem txset_refines t tx : txset_ok t -> ts_Peek t = Some tx ->
  let a := sender t tx in
  (exists rest, account t a (tx :: rest)) /\
  (forall b h l, account t b (h :: l) -> le priceTimeLess tx h) /\
  (exists t', ts_Shift t = Ret t' /\ txset_ok t' /\ left_over t = S (left_over t') /\
     forall b l, account t b l -> account t' b (if decide (b = a) then tail l else l)) /\
  (exists t', ts_Pop t = Ret t' /\ txset_ok t' /\ (left_over t' < left_over t)%nat /\
     forall b l, account t b l -> account t' b (if decide (b = a) then [] else l)).
Proof.
  intros Hok Hpk a. split_and!.
  - eexists. right. exists tx. split_and!; [|done|done]. unfold ts_Peek in Hpk. destruct (ts_heads t); simplify_eq/=. left.
  - intros b h l [[? _]|(x & Hx & _ & [= -> ->])]; [done|]. apply list_elem_of_lookup in Hx as [k Hk].
    pose proof (lookup_lt_Some _ _ _ Hk). apply list_lookup_total_correct in Hk as <-.
    assert (tx = ts_heads t !!! 0%nat) as -> by (unfold ts_Peek in Hpk; destruct (ts_heads t); by simplify_eq/=).
    apply heap_min; [apply _|apply Hok|done].
  - destruct (ts_Shift_spec t tx Hok Hpk) as (t' & ? & ? & ? & _ & ? & _). by exists t'.
  - destruct (ts_Pop_spec t tx Hok Hpk) as (t' & ? & ? & ? & _ & ? & _). by exists t'.
Qed.

End Facts.

(** Two accounts: the cheaper one comes second, in its own order. *)
#[local] Existing Instance toyCrypto.
Definition txOf (from nonce price seen : Z) : Transaction :=
  mkTransaction (TxLegacy (mkLegacyTx nonce price 21000 (Some 50) 0 [] 27 1 from)) seen None.
Definition twoAccounts : list (Address * list Transaction) :=
  [(77, [txOf 77 0 1 0; txOf 77 1 9 0]); (78, [txOf 78 0 1 1])].
Definition set2 : TransactionsByPriceAndNonce :=
  match NewTransactionsByPriceAndNonce HomesteadSigner twoAccounts with Ret t => t | Panic => mkTxSet ∅ [] HomesteadSigner end.

Lemma txset_refines_witness :
  exists t', ts_Shift set2 = Ret t' /\ txset_ok t' /\ ts_Peek t' = Some (txOf 77 1 9 0) /\ account t' 77 [txOf 77 1 9 0].
Proof.
  destruct (New_set_ok HomesteadSigner twoAccounts) as (t & E & Hok & _ & Hacc & _).
  { apply (bool_decide_unpack _). vm_compute. exact I. }
  { apply (bool_decide_unpack _). vm_compute. exact I. }
  assert (t = set2) as -> by (unfold set2; by rewrite E).
  destruct (txset_refines set2 (txOf 77 0 1 0) Hok) as (_ & _ & (t' & Es & Hok' & _ & Ha) & _); [vm_compute; reflexivity|].
  exists t'. split_and!; [exact Es|exact Hok'| |].
  - assert (t' = match ts_Shift set2 with Ret t => t | Panic => set2 end) as -> by (by rewrite Es). vm_compute. reflexivity.
  - specialize (Ha 77 _ (Hacc 77 [txOf 77 0 1 0; txOf 77 1 9 0] ltac:(left))).
    rewrite decide_True in Ha by (vm_compute; reflexivity). exact Ha.
Defined.
