(* ===== verification/StateProcessor.v ===== *)
(** * Processing blocks (core/state_processor.go, core/evm.go)

    [Process] runs the transactions of a block of another validator: each is
    an acknowledgement by the author of the block, and is executed once the
    pool has counted a quorum for it.  [ApplyTransaction] is the path of the
    miner, which acknowledges the transactions it puts into its own block.

    A Go function that returns an error returns it with the state it leaves
    behind; the pool, the state and the gas pool are passed along.  The
    arguments of log calls are evaluated, so the calls of [IntermediateRoot]
    they contain are part of the model.  The consensus engine is the interface
    [Engine]; the headers of the chain are a parameter. *)

From S2P Require Import Prelude Rlp Params Transaction Block AccessList StateDB Journal Receipt Clique Evm StateTransition Heap TxList TxLookup Prque TxPool.

(** What the EVM reads of the chain (ChainContext.GetHeader). *)
Abbreviation headerChain := (Hash -> Z -> option Header).

Section Processor.
Context `{Crypto} `{Database} `{Interpreter} `{Engine}.

(** ** Contexts *)

(** GetHashFn without its cache; a chain is not longer than its number. *)
Fixpoint getHash_loop (fuel : nat) (chain : headerChain) (n : Z) (hash : Hash) (number : Z) : Hash :=
  match fuel with
  | O => 0
  | S fuel =>
      match chain hash number with
      | None => 0
      | Some h =>
          let number := u64 (u64 (h_Number h) - 1) in
          if n =? number then h_ParentHash h else getHash_loop fuel chain n (h_ParentHash h) number
      end
  end.

Definition GetHashFn (chain : headerChain) (ref : Header) (n : Z) : Hash :=
  let number := u64 (h_Number ref) in
  if u64 (number - n - 1) <? 1 then h_ParentHash ref
  else getHash_loop (S (Z.to_nat number)) chain n (h_ParentHash ref) (u64 (number - 1)).

(** NewEVMBlockContext and NewEVM; [noRecursion] is the flag of vm.Config. *)
Definition NewEVM (chain : headerChain) (cc : ChainConfig) (noRecursion : bool) (header : Header)
    (author : option Address) : outcome EVM :=
  beneficiary ← match author with
                | Some a => Ret a
                | None => r ← Author header; Ret match r with inl a => a | inr _ => 0 end
                end;
  Ret (mkEVM beneficiary (h_GasLimit header) (h_Number header) (h_Time header) (h_Difficulty header)
         (GetHashFn chain header) 0 0 cc noRecursion 0 false).

(** evm.Reset with the context of a message. *)
Definition resetEVM (evm : EVM) (m : Message) : EVM :=
  evm <| Origin := m_from m |> <| evm_GasPrice := m_gasPrice m |>.

(** ** Executing a transaction *)

(** The state, the gas left in the block and the gas used so far. *)
Record execState := mkExec { x_state : StateDB; x_gp : Z; x_usedGas : Z }.

Definition applyTransaction (cc : ChainConfig) (header : Header) (evm : EVM) (m : Message) (tx : Transaction)
    (x : execState) : outcome (execState * (Receipt + error)) :=
  let evm := resetEVM evm m in
  '(st, res) ← ApplyMessage evm (x_state x) m (x_gp x);
  match (res : ExecutionResult + error) with
  | inr e => Ret (mkExec (state st) (gp st) (x_usedGas x), inr e)
  | inl result =>
      '(s, root) ←
        (if IsByzantium cc (Some (h_Number header)) then Ret (Finalise (state st) true, [])
         else '(s, r) ← IntermediateRoot (state st) (IsEIP158 cc (Some (h_Number header)));
              Ret (s, be_bytes HashLength r));
      let used := u64 (x_usedGas x + UsedGas result) in
      let logs := GetLogs s (TxHash tx) in
      let receipt := mkReceipt (Type_ tx) root
        (if Failed result then ReceiptStatusFailed else ReceiptStatusSuccessful) used [] logs (TxHash tx)
        (if bool_decide (m_to m = None) then CreateAddress (Origin evm) (Nonce tx) else 0)
        (UsedGas result) (bhash s) (Some (h_Number header)) (txIndex s) in
      Ret (mkExec s (gp st) used, inl (receipt <| r_Bloom := CreateBloom [receipt] |>))
  end.

(** ** Process *)

(** What Process has changed so far. *)
Record procState := mkProc {
  pr_pool : TxPool;
  pr_exec : execState;
  pr_receipts : list Receipt;
  pr_logs : list Log
}.
#[export] Instance eta_procState : Eta procState := fun r =>
  mkProc (pr_pool r) (pr_exec r) (pr_receipts r) (pr_logs r).

(** A loop whose body may return from the function with an error. *)
Fixpoint loopE {S A} (f : S -> A -> outcome (S * option error)) (s : S) (l : list A)
  : outcome (S * option error) :=
  match l with
  | [] => Ret (s, None)
  | x :: l => '(s, e) ← f s x; match (e : option error) with Some e => Ret (s, Some e) | None => loopE f s l end
  end.

(** Prepare, applyTransaction and the receipt, in both loops of Process. *)
Definition execute (cc : ChainConfig) (block : Block) (evm : EVM) (m : Message) (i : nat) (tx : Transaction)
    (p : procState) : outcome (procState * option error) :=
  let x := pr_exec p in
  let x := mkExec (Prepare (x_state x) (TxHash tx) (BlockHash block) (Z.of_nat i)) (x_gp x) (x_usedGas x) in
  '(x, r) ← applyTransaction cc (b_header block) evm m tx x;
  match (r : Receipt + error) with
  | inr e => Ret (p <| pr_exec := x |>, Some e)
  | inl receipt => Ret (p <| pr_exec := x |> <| pr_receipts := pr_receipts p ++ [receipt] |>
                          <| pr_logs := pr_logs p ++ r_Logs receipt |>, None)
  end.

(** One transaction of the block: an acknowledgement by [author]. *)
Definition processTx (now : Z) (cc : ChainConfig) (block : Block) (author : Address) (evm : EVM) (p : procState)
    (itx : nat * Transaction) : outcome (procState * option error) :=
  let '(i, tx) := itx in
  match AsMessage tx (MakeSigner cc (Some (h_Number (b_header block)))) with
  | inr e => Ret (p, Some e)
  | inl m =>
      if bool_decide (validateAck (pr_pool p) tx false = None) then
        '(pool, confirmed', _) ← addAck now (pr_pool p) tx author false;
        let p := p <| pr_pool := pool |> in
        if (confirmed' : bool) then
          if bool_decide (validateTx pool tx false = None) then execute cc block evm m i tx p
          else Ret (p <| pr_pool := pool <| confirmed := confirmed pool ++ [tx] |> |>, None)
        else Ret (p, None)
      else Ret (p, None)
  end.

(** One confirmed transaction; those to keep are moved to the front, in place,
    and [n] counts them. *)
Definition processConfirmed (cc : ChainConfig) (block : Block) (evm : EVM) (pn : procState * nat)
    (itx : nat * Transaction) : outcome (procState * nat * option error) :=
  let '(p, n) := pn in
  let '(i, tx) := itx in
  match AsMessage tx (MakeSigner cc (Some (h_Number (b_header block)))) with
  | inr e => Ret (p, n, Some e)
  | inl m =>
      match validateTx (pr_pool p) tx false with
      | Some ErrInsufficientFunds | Some ErrNonceTooHigh =>
          Ret (p <| pr_pool := (pr_pool p) <| confirmed := <[n := tx]> (confirmed (pr_pool p)) |> |>, S n, None)
      | Some _ => Ret (p, n, None)
      | None => '(p, e) ← execute cc block evm m i tx p; Ret (p, n, e)
      end
  end.

(** The receipts, the logs and the gas used, or the error; the pool and the
    state are those Process leaves behind either way. *)
Definition Process (now : Z) (chain : headerChain) (cc : ChainConfig) (noRecursion : bool) (pool : TxPool)
    (block : Block) (s : StateDB) : outcome (TxPool * StateDB * ((list Receipt * list Log * Z) + error)) :=
  let header := b_header block in
  '(s, _) ← IntermediateRoot s false;
  current ← Copy s;
  '(current, _) ← IntermediateRoot current false;
  let pool := pool <| currentState := current |> in
  gp0 ← AddGas 0 (h_GasLimit header);
  let s := if DAOForkSupport cc && bool_decide (DAOForkBlock cc = Some (h_Number header))
           then ApplyDAOHardFork s else s in
  author ← Author header;
  match (author : Address + error) with
  | inr e => Ret (pool, s, inr e)
  | inl author =>
      evm ← NewEVM chain cc noRecursion header None;
      let p := mkProc pool (mkExec s gp0 0) [] [] in
      '(p, e) ← loopE (processTx now cc block author evm) p (imap pair (b_transactions block));
      match (e : option error) with
      | Some e => Ret (pr_pool p, x_state (pr_exec p), inr e)
      | None =>
          '(p, n, e) ← loopE (processConfirmed cc block evm) (p, 0%nat) (imap pair (confirmed (pr_pool p)));
          match (e : option error) with
          | Some e => Ret (pr_pool p, x_state (pr_exec p), inr e)
          | None =>
              let pool := pr_pool p in
              let pool := pool <| confirmed := take n (confirmed pool) |> in
              s ← Finalize cc header (x_state (pr_exec p)) (b_transactions block) (b_uncles block);
              Ret (pool, s, inl (pr_receipts p, pr_logs p, x_usedGas (pr_exec p)))
          end
      end
  end.

(** ** ApplyTransaction *)

(** The miner's path; [pool] is absent in the legacy mode.  The last two
    components are the receipt and the error Go returns. *)
Definition ApplyTransaction (now : Z) (chain : headerChain) (cc : ChainConfig) (noRecursion : bool)
    (pool : option TxPool) (author : Address) (header : Header) (tx : Transaction) (x : execState)
  : outcome (option TxPool * execState * option Receipt * option error) :=
  match AsMessage tx (MakeSigner cc (Some (h_Number header))) with
  | inr e => Ret (pool, x, None, Some e)
  | inl m =>
      let run pool :=
        evm ← NewEVM chain cc noRecursion header (Some author);
        '(x, r) ← applyTransaction cc header evm m tx x;
        match (r : Receipt + error) with
        | inl receipt => Ret (pool, x, Some receipt, None)
        | inr e => Ret (pool, x, None, Some e)
        end in
      match pool with
      | None => run None
      | Some p =>
          match validateAck p tx true with
          | Some e => Ret (Some p, x, None, Some e)
          | None =>
              '(p, confirmed', _) ← addAck now p tx author true;
              if (confirmed' : bool) then run (Some (p <| confirmed := confirmed p ++ [tx] |>))
              else
                '(s, root) ← IntermediateRoot (x_state x) false;
                Ret (Some p, mkExec s (x_gp x) (x_usedGas x),
                     Some (mkReceipt (Type_ tx) (be_bytes HashLength root) 0 (x_usedGas x) emptyBloom [] 0 0 0 0 None 0),
                     Some ErrInsufficientAcks)
          end
      end
  end.

End Processor.
