(* ===== verification/Chain.v ===== *)
(** * The block chain (core/blockchain.go, core/blockchain_insert.go,
    core/block_validator.go, core/state_prefetcher.go)

    Cascadeth keeps the account state apart from the chain of blocks: the
    state root of the node is [bc_stateRoot], a block of any validator is run
    on top of it, and the head block moves only with the blocks of the node
    itself ([bc_etherbase]).  The blocks of the database are found by their
    hash, which determines the number they are stored under; the caches in
    front of the database, the transaction index, the bad block list, metrics
    and log lines are left out, but the arguments of log calls are evaluated.

    What the import does not compute is in [importEnv]: the time, the verdict
    of the engine on each header, whether the import is told to stop, the coin
    that splits ties, the account tries that [Cap] wrote in full, processing
    times and when a prefetch is interrupted.  The cache of future blocks is a
    library: what an addition evicts is a parameter. *)

From S2P Require Import Prelude Rlp Params Transaction Block AccessList StateDB Journal StateStore Receipt DeriveSha Clique Evm StateTransition Heap TxList TxLookup Prque TxPool StateProcessor.

(** ** Data *)

Inductive WriteStatus := NonStatTy | CanonStatTy | SideStatTy.

Inductive chainEvent :=
| ChainEvent (h : Hash) | ChainSideEvent (h : Hash) | ChainHeadEvent (h : Hash) | LogsEvent (l : list Log).

Record chainOptions := mkOptions {
  co_config : ChainConfig;
  co_noRecursion : bool;               (* vm.Config.NoRecursion *)
  TrieDirtyDisabled : bool;            (* an archive node *)
  TrieCleanNoPrefetch : bool;
  TrieTimeLimit : Z;
  shouldPreserve : Block -> bool       (* constantly false when nil *)
}.

Record BlockChain := mkBC {
  bc_etherbase : option Address;
  bc_genesisBlock : Block;
  bc_stateRoot : Hash;
  bc_currentBlock : Block;
  bc_currentHeader : Header;
  bc_currentFastBlock : Block;
  bc_headHash : Hash;                  (* the marker of the head in the database *)
  bc_blocks : gmap Hash Block;
  bc_td : gmap Hash Z;
  bc_canon : gmap Z Hash;              (* canonical hashes by number *)
  bc_receipts : gmap Hash (list Receipt);
  bc_store : stateStore;
  bc_triegc : list (Hash * Z);
  bc_gcproc : Z;
  bc_futureBlocks : gmap Hash Block;
  bc_txPool : TxPool;
  bc_events : list chainEvent
}.
#[export] Instance eta_BlockChain : Eta BlockChain := fun r =>
  mkBC (bc_etherbase r) (bc_genesisBlock r) (bc_stateRoot r) (bc_currentBlock r) (bc_currentHeader r)
    (bc_currentFastBlock r) (bc_headHash r) (bc_blocks r) (bc_td r) (bc_canon r) (bc_receipts r) (bc_store r)
    (bc_triegc r) (bc_gcproc r) (bc_futureBlocks r) (bc_txPool r) (bc_events r).

Record importEnv := mkEnv {
  ie_now : Z;
  ie_header : Block -> option error;
  ie_stopped : Z -> bool;              (* by the index of the iterator, -1 on entry *)
  ie_coin : Block -> bool;             (* mrand.Float64() < 0.5 *)
  ie_capped : Block -> gset Hash;
  ie_proctime : Block -> Z;
  ie_interrupted : Block -> nat -> bool
}.

Class FutureCache := { evictFuture : gmap Hash Block -> gmap Hash Block }.

Definition TriesInMemory : Z := 128.
Definition maxTimeFutureBlocks : Z := 30.

Definition GasLimitBoundDivisor : Z := 1024.
Definition MinGasLimit : Z := 5000.

Definition BadHashes : list Hash :=
  [0x05bef30ef572270f654746da22639a7a0c97dd97a7050b9e252391996aaeb689;
   0x7d05d08cbc596a2e5e4f13b80a743e53e09221b5323c3a61946b20873e58583f].

Section Chain.
Context `{Crypto} `{Database} `{Interpreter} `{Engine} `{FutureCache}.

(** ** Reading the chain *)

Definition bc_GetBlock (bc : BlockChain) (hash : Hash) : option Block := bc_blocks bc !! hash.
Definition bc_GetHeader (bc : BlockChain) : headerChain := fun hash _ => b_header <$> bc_blocks bc !! hash.
Definition bc_GetTd (bc : BlockChain) (hash : Hash) : option Z := bc_td bc !! hash.
Definition bc_GetBlockByNumber (bc : BlockChain) (number : Z) : option Block :=
  h ← bc_canon bc !! number; bc_GetBlock bc h.
Definition HasBlock (bc : BlockChain) (hash : Hash) : bool := bool_decide (is_Some (bc_blocks bc !! hash)).
Definition HasState (bc : BlockChain) (root : Hash) : bool := bool_decide (is_Some (OpenTrie (bc_store bc) root)).
Definition HasBlockAndState (bc : BlockChain) (hash : Hash) : bool :=
  match bc_GetBlock bc hash with Some b => HasState bc (h_Root (b_header b)) | None => false end.

(** GetBlocksFromHash: a block and up to [n - 1] ancestors. *)
Fixpoint GetBlocksFromHash (bc : BlockChain) (hash : Hash) (n : nat) : list Block :=
  match n with
  | O => []
  | S n => match bc_GetBlock bc hash with
           | Some b => b :: GetBlocksFromHash bc (h_ParentHash (b_header b)) n
           | None => []
           end
  end.

(** state.New; a root without a trie is a missing node. *)
Definition StateAt (bc : BlockChain) (root : Hash) : StateDB + error :=
  match OpenTrie (bc_store bc) root with Some t => inl (New t) | None => inr errMissingNode end.
Definition State (bc : BlockChain) : StateDB + error := StateAt bc (bc_stateRoot bc).

(** What the transaction pool reads of the chain. *)
Definition poolView (bc : BlockChain) : blockChain :=
  mkBlockChain (bc_currentBlock bc) (fun hash _ => bc_GetBlock bc hash)
    (match State bc with inl s => Some s | inr _ => None end).

(** ** Writing blocks *)

Definition writeHeadBlock (bc : BlockChain) (block : Block) : BlockChain :=
  let updateHeads := negb (bool_decide (bc_canon bc !! NumberU64 block = Some (BlockHash block))) in
  let bc := bc <| bc_canon := <[NumberU64 block := BlockHash block]> (bc_canon bc) |>
               <| bc_headHash := BlockHash block |> in
  let bc := if updateHeads then bc <| bc_currentHeader := b_header block |> <| bc_currentFastBlock := block |> else bc in
  bc <| bc_currentBlock := block |>.

(** Both functions panic by their first statement. *)
Definition writeKnownBlock (bc : BlockChain) (block : Block) : outcome (BlockChain * option error) := Panic.
Definition insertSideChain (bc : BlockChain) (block : Block) : outcome (BlockChain * (Z * option error)) := Panic.

(** Dereference the tries of the blocks up to [chosen]. *)
Fixpoint gcLoop (fuel : nat) (chosen : Z) (st : stateStore) (q : list (Hash * Z)) : stateStore * list (Hash * Z) :=
  match fuel with
  | O => (st, q)
  | S fuel =>
      match prque_Pop q with
      | None => (st, q)
      | Some (root, number, q) =>
          if chosen <? u64 (- number) then (st, prque_Push q root number)
          else gcLoop fuel chosen (DereferenceRoot st root) q
      end
  end.

(** The retention policy of a node that is not an archive. *)
Definition collectTries (opts : chainOptions) (capped : gset Hash) (bc : BlockChain) (block : Block) (root : Hash) : BlockChain :=
  let current := NumberU64 block in
  let bc := bc <| bc_store := ReferenceRoot (bc_store bc) root |>
               <| bc_triegc := prque_Push (bc_triegc bc) root (int64 (- int64 current)) |> in
  if TriesInMemory <? current then
    let bc := bc <| bc_store := FlushRoots (bc_store bc) capped |> in
    let chosen := current - TriesInMemory in
    let bc :=
      if TrieTimeLimit opts <? bc_gcproc bc then
        match bc_GetBlockByNumber bc chosen with
        | Some b => bc <| bc_store := FlushRoots (bc_store bc) {[ h_Root (b_header b) ]} |> <| bc_gcproc := 0 |>
        | None => bc
        end
      else bc in
    let '(st, q) := gcLoop (length (bc_triegc bc)) chosen (bc_store bc) (bc_triegc bc) in
    bc <| bc_store := st |> <| bc_triegc := q |>
  else bc.

(** Whether a block of total difficulty [externTd] is canonical. *)
Definition preferBlock (opts : chainOptions) (coin : bool) (current block : Block) (localTd externTd : Z) : bool :=
  if localTd <? externTd then true
  else if localTd =? externTd then
    if NumberU64 block <? NumberU64 current then true
    else if NumberU64 block =? NumberU64 current
    then negb (shouldPreserve opts current) && (shouldPreserve opts block || coin)
    else false
  else false.

(** writeBlockWithState: [mining] is set for the blocks of the miner, whose
    state is not adopted.  The address behind [etherbase] is an argument of a
    log call, so a nil pointer panics. *)
Definition writeBlockWithState (env : importEnv) (opts : chainOptions) (bc : BlockChain) (block : Block)
    (receipts : list Receipt) (lgs : list Log) (s : StateDB) (emitHeadEvent mining : bool)
  : outcome (BlockChain * (WriteStatus + error)) :=
  '(bc, s) ← (if mining then Ret (bc, s)
              else '(s, root) ← IntermediateRoot s false; Ret (bc <| bc_stateRoot := root |>, s));
  match bc_GetTd bc (h_ParentHash (b_header block)) with
  | None => Ret (bc, inr ErrUnknownAncestor)
  | Some ptd =>
      let hash := BlockHash block in
      let localTd := bc_GetTd bc (BlockHash (bc_currentBlock bc)) in
      let externTd := h_Difficulty (b_header block) + ptd in
      let bc := bc <| bc_td := <[hash := externTd]> (bc_td bc) |>
                   <| bc_blocks := <[hash := block]> (bc_blocks bc) |>
                   <| bc_receipts := <[hash := receipts]> (bc_receipts bc) |> in
      '(st, s, root) ← Commit (bc_store bc) s (IsEIP158 (co_config opts) (Some (h_Number (b_header block))));
      let bc := bc <| bc_store := st |> in
      let bc := if TrieDirtyDisabled opts then bc <| bc_store := FlushRoots st {[ root ]} |>
                else collectTries opts (ie_capped env block) bc block root in
      localTd ← match localTd with Some td => Ret td | None => Panic end;
      let canonical := preferBlock opts (ie_coin env block) (bc_currentBlock bc) block localTd externTd in
      let bc := if canonical && bool_decide (bc_etherbase bc = None) then writeHeadBlock bc block else bc in
      author ← Author (b_header block);
      etherbase ← match bc_etherbase bc with Some a => Ret a | None => Panic end;
      let bc := match (author : Address + error) with
                | inl author => if canonical && (etherbase =? author) then writeHeadBlock bc block else bc
                | inr _ => bc
                end in
      let bc := bc <| bc_futureBlocks := delete hash (bc_futureBlocks bc) |> in
      if canonical then
        Ret (bc <| bc_events := bc_events bc ++ [ChainEvent hash] ++ (if decide (lgs = []) then [] else [LogsEvent lgs])
                                ++ (if emitHeadEvent then [ChainHeadEvent hash] else []) |>, inl CanonStatTy)
      else Ret (bc <| bc_events := bc_events bc ++ [ChainSideEvent hash] |>, inl SideStatTy)
  end.

(** The entry of the miner. *)
Definition WriteBlockWithState (env : importEnv) (opts : chainOptions) (bc : BlockChain) (block : Block)
    (receipts : list Receipt) (lgs : list Log) (s : StateDB) (emitHeadEvent : bool) :=
  writeBlockWithState env opts bc block receipts lgs s emitHeadEvent true.

(** [None] when the block is in the future queue. *)
Definition addFutureBlock (now : Z) (bc : BlockChain) (block : Block) : BlockChain * option error :=
  if u64 (now + maxTimeFutureBlocks) <? h_Time (b_header block) then (bc, Some errFutureTime)
  else (bc <| bc_futureBlocks := <[BlockHash block := block]> (evictFuture (bc_futureBlocks bc)) |>, None).

(** ** Validation *)

Definition ValidateBody (verifyUncles : Block -> option error) (bc : BlockChain) (block : Block) : outcome (option error) :=
  let header := b_header block in
  if HasBlockAndState bc (BlockHash block) then Ret (Some ErrKnownBlock)
  else
    match verifyUncles block with
    | Some e => Ret (Some e)
    | None =>
        if negb (CalcUncleHash (b_uncles block) =? h_UncleHash header) then Ret (Some errUncleRoot)
        else
          hash ← DeriveSha (encodeTx <$> b_transactions block);
          if negb (hash =? h_TxHash header) then Ret (Some errTxRoot)
          else if negb (HasBlockAndState bc (h_ParentHash header)) && negb (HasBlock bc (h_ParentHash header))
          then Ret (Some ErrUnknownAncestor)
          else Ret None
    end.

(** ValidateState, whose call insertChain no longer makes. *)
Definition ValidateState (cc : ChainConfig) (block : Block) (s : StateDB) (receipts : list Receipt) (usedGas : Z)
  : outcome (StateDB * option error) :=
  let header := b_header block in
  if negb (h_GasUsed header =? usedGas) then Ret (s, Some errGasUsed)
  else if negb (bool_decide (CreateBloom receipts = h_Bloom header)) then Ret (s, Some errBloom)
  else
    receiptSha ← DeriveSha (encodeReceipt <$> receipts);
    if negb (receiptSha =? h_ReceiptHash header) then Ret (s, Some errReceiptRoot)
    else
      '(s, root) ← IntermediateRoot s (IsEIP158 cc (Some (h_Number header)));
      Ret (s, if h_Root header =? root then None else Some errMerkleRoot).

(** The arithmetic is that of uint64. *)
Definition CalcGasLimit (parent : Block) (gasFloor gasCeil : Z) : Z :=
  let used := h_GasUsed (b_header parent) in
  let parentLimit := h_GasLimit (b_header parent) in
  let contrib := u64 (used + used / 2) / GasLimitBoundDivisor in
  let decay := u64 (parentLimit / GasLimitBoundDivisor - 1) in
  let limit := u64 (parentLimit - decay + contrib) in
  let limit := if limit <? MinGasLimit then MinGasLimit else limit in
  if limit <? gasFloor then
    let limit := u64 (parentLimit + decay) in if gasFloor <? limit then gasFloor else limit
  else if gasCeil <? limit then
    let limit := u64 (parentLimit - decay) in if limit <? gasCeil then gasCeil else limit
  else limit.

(** ** Prefetching *)

(** Run the transactions on a state that is thrown away; [None] is a nil
    state.  The result is [None] when the loop returned early. *)
Fixpoint prefetchLoop (cc : ChainConfig) (block : Block) (evm : EVM) (interrupted : nat -> bool) (gp0 : Z)
    (s : option StateDB) (txs : list (nat * Transaction)) : outcome (option (option StateDB)) :=
  match txs with
  | [] => Ret (Some s)
  | (i, tx) :: txs =>
      if interrupted i then Ret None
      else
        match AsMessage tx (MakeSigner cc (Some (h_Number (b_header block)))) with
        | inr _ => Ret None
        | inl m =>
            s ← match s with Some s => Ret s | None => Panic end;
            let s := Prepare s (TxHash tx) (BlockHash block) (Z.of_nat i) in
            '(st, res) ← ApplyMessage (resetEVM evm m) s m gp0;
            match (res : ExecutionResult + error) with
            | inr _ => Ret None
            | inl _ =>
                if IsByzantium cc (Some (h_Number (b_header block)))
                then prefetchLoop cc block evm interrupted (gp st) (Some (state st)) txs
                else '(s, _) ← IntermediateRoot (state st) true;
                     prefetchLoop cc block evm interrupted (gp st) (Some s) txs
            end
        end
  end.

Definition Prefetch (cc : ChainConfig) (noRecursion : bool) (chain : headerChain) (block : Block) (s : option StateDB)
    (interrupted : nat -> bool) : outcome unit :=
  gp0 ← AddGas 0 (h_GasLimit (b_header block));
  evm ← NewEVM chain cc noRecursion (b_header block) None;
  r ← prefetchLoop cc block evm interrupted gp0 s (imap pair (b_transactions block));
  match (r : option (option StateDB)) with
  | None => Ret tt
  | Some s =>
      if IsByzantium cc (Some (h_Number (b_header block)))
      then s ← match s with Some s => Ret s | None => Panic end; _ ← IntermediateRoot s true; Ret tt
      else Ret tt
  end.

(** ** Importing blocks *)

Section Importing.
Context (env : importEnv) (opts : chainOptions) (verifyUncles : Block -> option error).

(** The prefetch of the block after the one that is processed, on the state of
    [parent]; a panic of that goroutine ends the node. *)
Definition prefetchNext (bc : BlockChain) (parent : option Header) (todo : list Block) : outcome unit :=
  if TrieCleanNoPrefetch opts then Ret tt
  else
    match todo with
    | [] => Ret tt
    | followup :: _ =>
        match ie_header env followup with
        | Some _ => Ret tt
        | None =>
            parent ← match parent with Some h => Ret h | None => Panic end;
            Prefetch (co_config opts) (co_noRecursion opts) (bc_GetHeader bc) followup
              (New <$> OpenTrie (bc_store bc) (h_Root parent)) (ie_interrupted env followup)
        end
    end.

(** One block of the main loop of insertChain; the status, or the error it
    returns with. *)
Definition importBlock (bc : BlockChain) (previous : option Block) (block : Block) (todo : list Block)
  : outcome (BlockChain * (WriteStatus + error)) :=
  let parent := match previous with
                | Some b => Some (b_header b)
                | None => bc_GetHeader bc (h_ParentHash (b_header block)) (u64 (NumberU64 block - 1))
                end in
  match State bc with
  | inr e => Ret (bc, inr e)
  | inl s =>
      _ ← prefetchNext bc parent todo;
      '(pool, s, r) ← Process (ie_now env) (bc_GetHeader bc) (co_config opts) (co_noRecursion opts) (bc_txPool bc) block s;
      let bc := bc <| bc_txPool := pool |> in
      match (r : (list Receipt * list Log * Z) + error) with
      | inr e => Ret (bc, inr e)
      | inl (receipts, lgs, _) =>
          '(bc, status) ← writeBlockWithState env opts bc block receipts lgs s false false;
          Ret (match (status : WriteStatus + error) with
               | inl CanonStatTy => bc <| bc_gcproc := bc_gcproc bc + ie_proctime env block |>
               | _ => bc
               end, status)
      end
  end.

(** What the iterator returns for a block: the verdict on its header, else
    that on its body. *)
Definition bodyError (bc : BlockChain) (block : Block) : outcome (option error) :=
  match ie_header env block with Some e => Ret (Some e) | None => ValidateBody verifyUncles bc block end.

(** The iterator after [next]: its index, the block with its error, and the
    blocks that are left. *)
Record iterator := mkIter { it_index : Z; it_block : option (Block * option error); it_todo : list Block }.

Definition next (bc : BlockChain) (index : Z) (todo : list Block) : outcome iterator :=
  match todo with
  | [] => Ret (mkIter (index + 1) None [])
  | b :: todo => e ← bodyError bc b; Ret (mkIter (index + 1) (Some (b, e)) todo)
  end.

(** The error next to the block; the end of the chain has none. *)
Definition it_err (it : iterator) : option error := be ← it_block it; be.2.

(** Skip the known blocks that are behind the head. *)
Fixpoint skipKnown (bc : BlockChain) (localTd externTd index : Z) (block : Block) (todo : list Block) : outcome iterator :=
  let externTd := externTd + h_Difficulty (b_header block) in
  if localTd <? externTd then Ret (mkIter index (Some (block, Some ErrKnownBlock)) todo)
  else
    match todo with
    | [] => Ret (mkIter (index + 1) None [])
    | b :: todo =>
        e ← bodyError bc b;
        if bool_decide (e = Some ErrKnownBlock) then skipKnown bc localTd externTd (index + 1) b todo
        else Ret (mkIter (index + 1) (Some (b, e)) todo)
    end.

(** Queue a block and the ones after it as long as [more] holds of the index
    and the error. *)
Fixpoint queueFuture (more : Z -> option error -> bool) (bc : BlockChain) (index : Z) (block : Block) (err : option error)
    (todo : list Block) : outcome (BlockChain * (Z * option error)) :=
  if more index err then
    match addFutureBlock (ie_now env) bc block with
    | (bc, Some e) => Ret (bc, (index, Some e))
    | (bc, None) =>
        match todo with
        | [] => Ret (bc, (index + 1, None))
        | b :: todo => e ← bodyError bc b; queueFuture more bc (index + 1) b e todo
        end
    end
  else Ret (bc, (index, err)).

Definition unknownAncestor (err : option error) : bool := bool_decide (err = Some ErrUnknownAncestor).

(** The main loop.  The result is the iterator where the loop ended, or the
    index and the error of a return. *)
Fixpoint importLoop (bc : BlockChain) (lastCanon previous : option Block) (index : Z) (block : Block) (err : option error)
    (todo : list Block) : outcome (BlockChain * option Block * (iterator + (Z * option error))) :=
  if bool_decide (err = None) || bool_decide (err = Some ErrKnownBlock) then
    if ie_stopped env index then Ret (bc, lastCanon, inl (mkIter index (Some (block, err)) todo))
    else if bool_decide (BlockHash block ∈ BadHashes) then Ret (bc, lastCanon, inr (index, Some ErrBlacklistedHash))
    else if bool_decide (err = Some ErrKnownBlock) then
      '(bc, _) ← writeKnownBlock bc block; Ret (bc, lastCanon, inr (index, None))
    else
      '(bc, status) ← importBlock bc previous block todo;
      match (status : WriteStatus + error) with
      | inr e => Ret (bc, lastCanon, inr (index, Some e))
      | inl status =>
          let lastCanon := match status with CanonStatTy => Some block | _ => lastCanon end in
          match todo with
          | [] => Ret (bc, lastCanon, inl (mkIter (index + 1) None []))
          | b :: todo => e ← bodyError bc b; importLoop bc lastCanon (Some block) (index + 1) b e todo
          end
      end
  else Ret (bc, lastCanon, inl (mkIter index (Some (block, err)) todo)).

(** The single head event of an import. *)
Definition headEvent (bc : BlockChain) (lastCanon : option Block) : BlockChain :=
  match lastCanon with
  | Some b => if BlockHash (bc_currentBlock bc) =? BlockHash b
              then bc <| bc_events := bc_events bc ++ [ChainHeadEvent (BlockHash b)] |> else bc
  | None => bc
  end.

(** The blocks after the ones that are known; [previous] is the block before. *)
Definition importFrom (bc : BlockChain) (first : Block) (chain : list Block) (it : iterator)
  : outcome (BlockChain * (Z * option error)) :=
  match it_block it with
  | None => Ret (bc, (it_index it, None))
  | Some (block, err) =>
      if bool_decide (err = Some ErrPrunedAncestor) then insertSideChain bc block
      else if bool_decide (err = Some ErrFutureBlock)
              || unknownAncestor err && bool_decide (is_Some (bc_futureBlocks bc !! h_ParentHash (b_header first)))
      then queueFuture (fun index err => (index =? 0) || unknownAncestor err) bc (it_index it) block err (it_todo it)
      else if negb (bool_decide (err = None)) then
        Ret (bc <| bc_futureBlocks := delete (BlockHash block) (bc_futureBlocks bc) |>, (it_index it, err))
      else
        '(bc, lastCanon, r) ← importLoop bc None (chain !! Z.to_nat (it_index it - 1)) (it_index it) block err (it_todo it);
        '(bc, res) ←
          match (r : iterator + (Z * option error)) with
          | inr res => Ret (bc, res)
          | inl it =>
              match it_block it with
              | Some (block, Some ErrFutureBlock) =>
                  match addFutureBlock (ie_now env) bc block with
                  | (bc, Some e) => Ret (bc, (it_index it, Some e))
                  | (bc, None) =>
                      match it_todo it with
                      | [] => Ret (bc, (it_index it + 1, None))
                      | b :: todo => e ← bodyError bc b;
                                     queueFuture (fun _ => unknownAncestor) bc (it_index it + 1) b e todo
                      end
                  end
              | _ => Ret (bc, (it_index it, it_err it))
              end
          end;
        Ret (headEvent bc lastCanon, res)
  end.

Definition insertChain (bc : BlockChain) (chain : list Block) : outcome (BlockChain * (Z * option error)) :=
  if ie_stopped env (-1) then Ret (bc, (0, None))
  else
    match chain with
    | [] => Panic
    | first :: _ =>
        it ← next bc (-1) chain;
        match it_block it with
        | Some (block, Some ErrKnownBlock) =>
            match bc_GetTd bc (BlockHash (bc_currentBlock bc)), bc_GetTd bc (h_ParentHash (b_header block)) with
            | Some localTd, Some externTd =>
                it ← skipKnown bc localTd externTd (it_index it) block (it_todo it);
                match it_block it with
                | Some (block, Some ErrKnownBlock) => '(bc, e) ← writeKnownBlock bc block; Ret (bc, (it_index it, e))
                | _ => importFrom bc first chain it
                end
            | _, _ => Panic
            end
        | _ => importFrom bc first chain it
        end
    end.

(** Whether a chain is ordered and linked. *)
Fixpoint contiguous (chain : list Block) : bool :=
  match chain with
  | prev :: (block :: _) as rest =>
      (NumberU64 block =? u64 (NumberU64 prev + 1)) && (h_ParentHash (b_header block) =? BlockHash prev) && contiguous rest
  | _ => true
  end.

Definition InsertChain (bc : BlockChain) (chain : list Block) : outcome (BlockChain * (Z * option error)) :=
  if decide (chain = []) then Ret (bc, (0, None))
  else if negb (contiguous chain) then Ret (bc, (0, Some errNonContiguous))
  else insertChain bc chain.

(** The future blocks by number, one import for each. *)
Definition procFutureBlocks (bc : BlockChain) : outcome BlockChain :=
  foldM (fun bc b => '(bc, _) ← InsertChain bc [b]; Ret bc) bc
    (merge_sort (fun a b => NumberU64 a <= NumberU64 b) ((map_to_list (bc_futureBlocks bc)).*2)).

End Importing.

(** ** Stopping and starting the node *)

(** Stop writes the tries of three recent blocks of the own chain to disk and
    drops every other one; an archive has them on disk. *)
Fixpoint dropTries (fuel : nat) (st : stateStore) (q : list (Hash * Z)) : stateStore * list (Hash * Z) :=
  match fuel with
  | O => (st, q)
  | S fuel => match prque_Pop q with
              | None => (st, q)
              | Some (root, _, q) => dropTries fuel (DereferenceRoot st root) q
              end
  end.

Definition Stop (opts : chainOptions) (bc : BlockChain) : outcome BlockChain :=
  if TrieDirtyDisabled opts then Ret bc
  else
    bc ← foldM (fun bc offset =>
           let number := NumberU64 (bc_currentBlock bc) in
           if offset <? number then
             match bc_GetBlockByNumber bc (number - offset) with
             | None => Panic
             | Some recent => Ret (bc <| bc_store := FlushRoots (bc_store bc) {[ h_Root (b_header recent) ]} |>)
             end
           else Ret bc) bc [0; 1; TriesInMemory - 1];
    let '(st, q) := dropTries (length (bc_triegc bc)) (bc_store bc) (bc_triegc bc) in
    Ret (bc <| bc_store := st |> <| bc_triegc := q |>).

(** NewBlockChain over the database that [db] leaves behind: the tries on
    disk, the blocks and the markers of the heads.  [None] is a database whose
    head is missing or has no state, which the code repairs by a rewind. *)
Definition NewBlockChain (etherbase : option Address) (pool : TxPool) (db : BlockChain) : option BlockChain :=
  head ← bc_blocks db !! bc_headHash db;
  let st := bc_store db in
  let bc := mkBC etherbase (bc_genesisBlock db) (h_Root (b_header head)) head (bc_currentHeader db) (bc_currentFastBlock db)
              (bc_headHash db) (bc_blocks db) (bc_td db) (bc_canon db) (bc_receipts db)
              (mkStore (filter (fun kv : Hash * gmap Address Account => kv.1 ∈ ss_disk st) (ss_tries st)) ∅ (ss_disk st) (ss_code st))
              [] 0 ∅ pool [] in
  if HasState bc (bc_stateRoot bc) then Some bc else None.

(** ** What can happen to a chain: imports, blocks of the miner with the state
    the miner made, and the timer of the future queue.  Between two of them
    the pool may do anything of its own. *)
Inductive chainOp :=
| OpInsert (env : importEnv) (chain : list Block)
| OpMined (env : importEnv) (block : Block) (receipts : list Receipt) (lgs : list Log) (s : StateDB)
| OpFuture (env : importEnv)
| OpPool (pool : TxPool).

Definition chainExec (opts : chainOptions) (verifyUncles : Block -> option error) (bc : BlockChain) (op : chainOp)
  : outcome BlockChain :=
  match op with
  | OpInsert env chain => '(bc, _) ← InsertChain env opts verifyUncles bc chain; Ret bc
  | OpMined env block receipts lgs s => '(bc, _) ← WriteBlockWithState env opts bc block receipts lgs s true; Ret bc
  | OpFuture env => procFutureBlocks env opts verifyUncles bc
  | OpPool pool => Ret (bc <| bc_txPool := pool |>)
  end.

End Chain.
