(* ===== verification/ChainFacts.v ===== *)
(** * Properties of the block chain

    The import loop is treated once and for all: [InsertChain_post] reduces a
    property of a whole import to a property of the import of one block.  The
    first such property is here: the head of the chain is a block of the node
    itself ([head_local]). *)

From S2P Require Import Prelude Rlp Params Transaction Block AccessList StateDB Journal StateStore Accounts Receipt DeriveSha Clique Evm StateTransition Heap TxList TxLookup Prque TxPool StateProcessor Chain.

(** ** The import loop *)

Section Importing.
Context `{Crypto} `{Database} `{Interpreter} `{Engine} `{FutureCache}.
Context (env : importEnv) (opts : chainOptions) (vu : Block -> option error).

(** [P bc todo]: what holds of the chain when the blocks [todo] are left. *)
Context (pc : Prop) (P : BlockChain -> list Block -> Prop).
Hypothesis P_sub : forall bc b todo, P bc (b :: todo) -> P bc todo.
Hypothesis P_future : forall bc todo m, P bc todo -> P (bc <| bc_futureBlocks := m |>) todo.
Hypothesis P_events : forall bc todo l, P bc todo -> P (bc <| bc_events := l |>) todo.
Hypothesis P_body : forall bc b todo, P bc (b :: todo) -> post pc (bodyError env vu bc b)
  (fun e => e = Some ErrKnownBlock \/ e = Some ErrPrunedAncestor -> pc).
Hypothesis P_import : forall bc previous b todo, P bc (b :: todo) -> bodyError env vu bc b = Ret None ->
  post pc (importBlock env opts bc previous b todo) (fun r => P r.1 todo).

Lemma P_nil bc todo : P bc todo -> P bc [].
Proof. induction todo as [|b todo IH]; [done|]. intros Hb%P_sub. by apply IH. Qed.

(** The iterator stands on a block whose verdict is known. *)
Definition itOk (bc : BlockChain) (it : iterator) : Prop :=
  match it_block it with
  | Some (b, e) => P bc (b :: it_todo it) /\ bodyError env vu bc b = Ret e
  | None => P bc []
  end.

Lemma known_pc bc b todo e : P bc (b :: todo) -> bodyError env vu bc b = Ret e ->
  e = Some ErrKnownBlock \/ e = Some ErrPrunedAncestor -> pc.
Proof. intros HP E. pose proof (P_body bc b todo HP) as Hb. by rewrite E in Hb. Qed.

Lemma body_post bc b todo Q : P bc (b :: todo) -> (forall e, bodyError env vu bc b = Ret e -> Q e) ->
  post pc (bodyError env vu bc b) Q.
Proof. intros HP HQ. eapply post_mono; [by apply (P_body bc b todo)|]. auto. Qed.

Lemma skipKnown_post bc localTd : forall todo externTd index b, P bc (b :: todo) ->
  bodyError env vu bc b = Ret (Some ErrKnownBlock) ->
  post pc (skipKnown env vu bc localTd externTd index b todo) (itOk bc).
Proof.
  induction todo as [|b' todo IH]; intros externTd index b HP Hb; cbn [skipKnown]; cbv zeta; case_match; cbn; try done.
  - by eapply P_nil.
  - apply P_sub in HP. apply post_bind, (body_post _ _ todo); [done|]. intros e He.
    destruct (bool_decide_reflect (e = Some ErrKnownBlock)) as [->|]; [by apply IH|done].
Qed.

Lemma queueFuture_post more : forall todo bc index b e, P bc (b :: todo) ->
  post pc (queueFuture env vu more bc index b e todo) (fun r => P r.1 []).
Proof.
  induction todo as [|b' todo IH]; intros bc index b e HP; cbn [queueFuture].
  - destruct (more index e); [|by eapply P_nil]. unfold addFutureBlock. destruct (_ <? _); cbn; [|apply P_future]; by eapply P_nil.
  - destruct (more index e); [|by eapply P_nil]. unfold addFutureBlock. destruct (_ <? _); cbn; [by eapply P_nil|].
    apply P_sub in HP. eapply P_future in HP. apply post_bind, (body_post _ _ todo); [exact HP|]. intros e' _. by apply IH.
Qed.

Lemma importLoop_post : forall todo bc lastCanon previous index b e, P bc (b :: todo) -> bodyError env vu bc b = Ret e ->
  post pc (importLoop env opts vu bc lastCanon previous index b e todo)
    (fun r => match r.2 with inl it => itOk r.1.1 it | inr _ => P r.1.1 [] end).
Proof.
  induction todo as [|b' todo IH]; intros bc lastCanon previous index b e HP Hb; cbn [importLoop];
    (destruct (bool_decide_reflect (e = None)) as [->|Hn]; cbn [orb];
      [|destruct (bool_decide_reflect (e = Some ErrKnownBlock)) as [->|Hk]; [|by cbn]]);
    (destruct (ie_stopped env index); [by cbn|]; case_match; [by eapply P_nil|]); cbn [bool_decide].
  all: try by (apply (known_pc bc b _ _ HP Hb); left).
  - rewrite bool_decide_false by done. apply post_bind. eapply post_mono; [by eapply P_import|].
    intros [bc' [st|err]] _ HP'; cbn in *; done.
  - rewrite bool_decide_false by done. apply post_bind. eapply post_mono; [by eapply P_import|].
    intros [bc' [st|err]] _ HP'; cbn in *; [|by eapply P_nil].
    apply post_bind, (body_post _ _ todo); [done|]. intros e' He'. by apply IH.
Qed.

Lemma headEvent_P bc b : P bc [] -> P (headEvent bc b) [].
Proof. unfold headEvent. intros HP. repeat case_match; [by apply P_events|done..]. Qed.

Lemma importFrom_post bc first chain it : itOk bc it ->
  post pc (importFrom env opts vu bc first chain it) (fun r => P r.1 []).
Proof.
  unfold importFrom, itOk. destruct (it_block it) as [[b e]|]; [|done]. intros [HP Hb].
  destruct (bool_decide_reflect (e = Some ErrPrunedAncestor)) as [->|_]; [apply (known_pc bc b _ _ HP Hb); by right|].
  destruct (_ || _); [by apply queueFuture_post|].
  destruct (bool_decide_reflect (e = None)) as [->|]; cbn [negb]; [|by eapply P_future, P_nil].
  apply post_bind. eapply post_mono; [by apply importLoop_post|]. intros [[bc' last] r] _ Hr. cbn in Hr.
  apply post_bind. eapply (post_mono _ _ (fun r => P r.1 [])); [|intros [bc2 res] _ HP2; by apply headEvent_P].
  destruct r as [it'|res]; [|done]. unfold itOk in Hr. destruct (it_block it') as [[b' e']|]; [|done]. destruct Hr as [HP' _].
  destruct e' as [[]|]; try by eapply P_nil.
  unfold addFutureBlock. destruct (_ <? _); [by eapply P_nil|]. apply P_sub in HP'. eapply P_future in HP'.
  destruct (it_todo it') as [|b2 todo]; [exact HP'|].
  apply post_bind, (body_post _ _ todo); [exact HP'|]. intros e2 _. by apply queueFuture_post.
Qed.

Lemma insertChain_post bc chain : chain <> [] -> P bc chain ->
  post pc (insertChain env opts vu bc chain) (fun r => P r.1 []).
Proof.
  intros Hne HP. unfold insertChain. destruct (ie_stopped env (-1)); [by eapply P_nil|].
  destruct chain as [|b chain]; [done|]. unfold next. apply post_bind, post_bind, (body_post _ _ chain); [done|].
  intros e He. cbn [post it_block]. assert (itOk bc (mkIter (-1 + 1) (Some (b, e)) chain)) as Hit by by split.
  destruct e as [[]|]; try by apply importFrom_post.
  assert pc as Hpc by (apply (known_pc bc b _ _ HP He); by left).
  cbn [it_index it_todo]. destruct (bc_GetTd bc (BlockHash (bc_currentBlock bc))), (bc_GetTd bc (h_ParentHash (b_header b))); try done.
  apply post_bind. eapply post_mono; [by apply skipKnown_post|]. intros it _ Hit'.
  destruct (it_block it) as [[b' [[]|]]|] eqn:Eb; try by apply importFrom_post. done.
Qed.

Lemma InsertChain_post bc chain : P bc chain -> post pc (InsertChain env opts vu bc chain) (fun r => P r.1 []).
Proof.
  intros HP. unfold InsertChain. case_decide; [by eapply P_nil|]. destruct (negb _); [by eapply P_nil|]. by apply insertChain_post.
Qed.

End Importing.

(** ** The head of the chain *)

Section Head.
Context `{Crypto} `{Database} `{Interpreter} `{Engine} `{FutureCache}.
Context (opts : chainOptions) (vu : Block -> option error).

Lemma InsertChain_inv (Inv : BlockChain -> Prop) env bc chain :
  (forall bc m, Inv bc -> Inv (bc <| bc_futureBlocks := m |>)) -> (forall bc l, Inv bc -> Inv (bc <| bc_events := l |>)) ->
  (forall bc previous b todo, Inv bc -> bodyError env vu bc b = Ret None ->
    post True (importBlock env opts bc previous b todo) (fun r => Inv r.1)) ->
  Inv bc -> post True (InsertChain env opts vu bc chain) (fun r => Inv r.1).
Proof.
  intros Hf He Hi. apply (InsertChain_post env opts vu True (fun bc _ => Inv bc)); auto.
  intros ????. apply post_partial. auto.
Qed.

(** An invariant of the steps of a chain is an invariant of its runs. *)
Lemma chainExec_inv (Inv : BlockChain -> Prop) op bc :
  (forall bc m, Inv bc -> Inv (bc <| bc_futureBlocks := m |>)) -> (forall bc l, Inv bc -> Inv (bc <| bc_events := l |>)) ->
  (forall bc p, Inv bc -> Inv (bc <| bc_txPool := p |>)) ->
  (forall env bc previous b todo, Inv bc -> bodyError env vu bc b = Ret None ->
    post True (importBlock env opts bc previous b todo) (fun r => Inv r.1)) ->
  (forall env b rs lgs s, op = OpMined env b rs lgs s -> Inv bc ->
    post True (writeBlockWithState env opts bc b rs lgs s true true) (fun r => Inv r.1)) ->
  Inv bc -> post True (chainExec opts vu bc op) Inv.
Proof.
  intros Hf He Hp Hi Hm HI. destruct op as [env chain|env b rs lgs s|env|p]; cbn [chainExec].
  - apply post_bind. eapply post_mono; [apply (InsertChain_inv Inv); auto|]. by intros [].
  - apply post_bind. eapply post_mono; [by eapply Hm|]. by intros [].
  - apply post_foldM; [|done]. intros b bc' _ HI'. apply post_bind. eapply post_mono; [apply (InsertChain_inv Inv); auto|]. by intros [].
  - by apply Hp.
Qed.

Definition local (e : Address) (g b : Block) : Prop := b = g \/ Author (b_header b) = Ret (inl e).

(** Head and canonical hashes of the chain of validator [e] from genesis [g]. *)
Record own_chain (e : Address) (g : Block) (bc : BlockChain) : Prop := {
  oc_base : bc_etherbase bc = Some e;
  oc_head : local e g (bc_currentBlock bc);
  oc_canon n h : bc_canon bc !! n = Some h -> exists b, BlockHash b = h /\ NumberU64 b = n /\ local e g b
}.

Lemma writeHead_frame bc b : exists h f, writeHeadBlock bc b =
  bc <| bc_canon := <[NumberU64 b := BlockHash b]> (bc_canon bc) |> <| bc_headHash := BlockHash b |>
     <| bc_currentHeader := h |> <| bc_currentFastBlock := f |> <| bc_currentBlock := b |>.
Proof. unfold writeHeadBlock. cbv zeta. destruct (negb _), bc; cbn; eexists _, _; reflexivity. Qed.

Lemma writeHead_own e g bc b : own_chain e g bc -> local e g b -> own_chain e g (writeHeadBlock bc b).
Proof.
  intros [Hb Hh Hc] Hl. destruct (writeHead_frame bc b) as (h & f & ->). split; [done|done|]. cbn.
  intros n x [[<- <-]|[_ Hn']]%lookup_insert_Some; [by exists b|by apply Hc].
Qed.

(** Collecting tries changes the state store, the queue and the clock. *)
Lemma collectTries_frame capped bc b root : exists st q gp,
  collectTries opts capped bc b root = bc <| bc_store := st |> <| bc_triegc := q |> <| bc_gcproc := gp |>.
Proof.
  unfold collectTries. cbv zeta. destruct (TriesInMemory <? NumberU64 b).
  2:{ exists (ReferenceRoot (bc_store bc) root), (prque_Push (bc_triegc bc) root (int64 (- int64 (NumberU64 b)))), (bc_gcproc bc).
      by destruct bc. }
  match goal with |- context [gcLoop ?a ?b ?c ?d] => destruct (gcLoop a b c d) as [st q] end. exists st, q.
  destruct (TrieTimeLimit opts <? _); [destruct (bc_GetBlockByNumber _ _); [by exists 0; destruct bc|]|];
    by exists (bc_gcproc bc); destruct bc.
Qed.

Lemma write_own env e g bc b rs lgs s emit mining : own_chain e g bc ->
  post True (writeBlockWithState env opts bc b rs lgs s emit mining) (fun r => own_chain e g r.1).
Proof.
  intros Hbc. unfold writeBlockWithState. apply post_bind, post_partial. intros [bc1 s1] E1.
  assert (own_chain e g bc1) as H1b.
  { destruct mining; [by simplify_eq|]. destruct (IntermediateRoot s false) as [[s' r]|]; [|done]. cbn in E1. simplify_eq. by destruct Hbc. }
  clear E1 Hbc. destruct (bc_GetTd bc1 _) as [ptd|]; [|done]. apply post_bind, post_partial. intros [[st s2] root] _.
  set (bc2 := if TrieDirtyDisabled opts then _ else _).
  assert (own_chain e g bc2) as H2b.
  { subst bc2. destruct H1b as [Hb Hh Hc]. destruct (TrieDirtyDisabled opts); [by split|].
    match goal with |- context [collectTries opts ?a ?b ?c ?d] => destruct (collectTries_frame a b c d) as (? & ? & ? & ->) end. by split. }
  clearbody bc2. apply post_bind, post_partial. intros localTd _.
  set (canonical := preferBlock _ _ _ _ _ _). rewrite (oc_base _ _ _ H2b), bool_decide_false, andb_false_r by done.
  apply post_bind, post_partial. intros author Ea. rewrite (oc_base _ _ _ H2b). cbn [mbind outcome_bind].
  set (bc3 := match author with inl _ => _ | inr _ => _ end).
  assert (own_chain e g bc3) as H3b.
  { subst bc3. destruct author as [author|]; [|done]. destruct (canonical && (e =? author)) eqn:Ec; [|done].
    apply andb_true_iff in Ec as [_ ->%Z.eqb_eq]. apply writeHead_own; [done|]. by right. }
  clearbody bc3. destruct H3b. destruct canonical; by split.
Qed.

Lemma import_own env e g bc previous b todo : own_chain e g bc ->
  post True (importBlock env opts bc previous b todo) (fun r => own_chain e g r.1).
Proof.
  intros Hbc. unfold importBlock. destruct (State bc) as [s|]; [|done]. apply post_bind, post_partial. intros _ _.
  apply post_bind, post_partial. intros [[pool s'] [[[rs lgs] gas]|err]] _; [|by destruct Hbc]. apply post_bind.
  eapply post_mono; [apply (write_own env e g); by destruct Hbc|].
  intros [bc' [[]|]] _ [Hb Hh Hc]; by split.
Qed.

(** C8: whatever blocks of other validators are imported and whatever the node
    mines, the head of the chain stays the genesis block or a block of the
    node itself, and so does every block of the canonical numbering: the node
    builds its next block on its own chain only. *)
Theorem head_local e g bc ops bc' : own_chain e g bc -> foldM (chainExec opts vu) bc ops = Ret bc' ->
  local e g (bc_currentBlock bc') /\
  forall n h, bc_canon bc' !! n = Some h -> exists b, BlockHash b = h /\ NumberU64 b = n /\ local e g b.
Proof.
  intros Hbc E. assert (own_chain e g bc') as []; [|done]. revert Hbc E. apply foldM_inv. intros op c c' _ Hc Ec.
  pose proof (chainExec_inv (own_chain e g) op c) as Hop. rewrite Ec in Hop. apply Hop; try done.
  - intros ?? []. by split.
  - intros ?? []. by split.
  - intros ?? []. by split.
  - intros. by apply import_own.
  - intros. by apply write_own.
Qed.

End Head.
