(* ===== verification/ChainState.v ===== *)
(** * The detached state of the chain

    The state the node executes on has no block of its own: it is the root
    left by the last imported block, and the trie database keeps it only by
    the entries of the collection queue.  [state_available] shows that it can
    always be opened as long as the node does not mine too far ahead of the
    blocks it imports, and [import_adopts] that it is the state the imported
    block left. *)

From S2P Require Import Prelude Rlp Params Transaction Block AccessList StateDB Journal StateStore Accounts Receipt DeriveSha Clique Evm StateTransition Heap TxList TxLookup Prque TxPool StateProcessor Chain ChainFacts.

(** Finalize ends with the computation of the root. *)
Class EngineSettles `{Crypto} `{Database} `{Engine} : Prop := {
  Finalize_settles cc h s txs uncles s' : Finalize cc h s txs uncles = Ret s' ->
    settled (IsEIP158 cc (Some (h_Number h))) s'
}.

Lemma clique_settles `{Crypto} `{Database} : @EngineSettles _ _ cliqueEngine.
Proof.
  split. intros cc h s txs uncles s'. simpl. unfold clique_Finalize.
  destruct (IntermediateRoot s _) as [[s1 r]|] eqn:E; [|done]. cbn. intros [= <-]. by eapply IntermediateRoot_settles.
Qed.

(** Roots are free of collisions. *)
Class RootLaws `{Database} : Prop := {
  accountRoot_inj t1 t2 : accountRoot t1 = accountRoot t2 -> t1 = t2;
  accountRoot_empty : accountRoot ∅ = emptyRoot;
  accountRoot_zero t : accountRoot t <> 0
}.

(** ** The collection queue *)

Lemma int64_cong z : exists k, int64 z = z + k * two64.
Proof.
  unfold int64, u64, two64. set (m := 2 ^ 64). pose proof (Z.div_mod z m ltac:(done)).
  case_match; [exists (- (z / m))|exists (- (z / m) - 1)]; lia.
Qed.

Lemma entry_number n : is_u64 n -> u64 (- int64 (- int64 n)) = n.
Proof.
  intros Hn. destruct (int64_cong n) as [k1 ->]. destruct (int64_cong (- (n + k1 * two64))) as [k2 ->].
  unfold u64. replace (- (- (n + k1 * two64) + k2 * two64)) with (n + (k1 - k2) * two64) by lia.
  rewrite Z.mod_add by done. by apply Z.mod_small.
Qed.

Lemma gcLoop_ok chosen : forall fuel st q, gc_ok st q -> let r := gcLoop fuel chosen st q in
  gc_ok r.1 r.2 /\ ss_disk r.1 = ss_disk st /\ ss_tries r.1 ⊆ ss_tries st /\
  forall root n, (root, n) ∈ q -> chosen < u64 (- n) -> (root, n) ∈ r.2.
Proof.
  induction fuel as [|fuel IH]; intros st q Hg; [done|]. cbn [gcLoop].
  destruct (prque_Pop q) as [[[root n] q']|] eqn:E; [|done]. apply prque_Pop_perm in E.
  destruct (Z.ltb_spec chosen (u64 (- n))) as [Hlt|Hge].
  - pose proof (prque_Push_perm q' root n) as Ep. cbn. split_and!; [|done|done|].
    + eapply gc_ok_perm; [|exact Hg]. by rewrite Ep.
    + intros r m Hr _. by rewrite Ep, <- E.
  - destruct (IH (DereferenceRoot st root) q') as (Hg' & Hd & Ht & Hk).
    { apply (DereferenceRoot_ok _ _ root n). by eapply gc_ok_perm. }
    split_and!; [done| | |].
    + rewrite Hd. unfold DereferenceRoot. by repeat case_match.
    + etrans; [exact Ht|]. unfold DereferenceRoot. repeat case_match; try done; apply delete_subseteq.
    + intros r m Hr Hm. apply Hk; [|done]. rewrite E in Hr. apply elem_of_cons in Hr as [[= -> ->]|Hr]; [lia|done].
Qed.

Section State.
Context `{Crypto} `{Database} `{Interpreter} `{Engine} `{!EngineSettles} `{FutureCache}.
Context (opts : chainOptions) (vu : Block -> option error).

(** The state root is on disk, in the queue, or the root of the empty trie. *)
Definition kept (bc : BlockChain) (root : Hash) : Prop :=
  root ∈ ss_disk (bc_store bc) \/ (exists n, (root, n) ∈ bc_triegc bc) \/ root = 0 \/ root = emptyRoot.

Record avail (bc : BlockChain) : Prop := {
  av_gc : gc_ok (bc_store bc) (bc_triegc bc);
  av_kept : kept bc (bc_stateRoot bc);
  av_td h b : bc_blocks bc !! h = Some b -> is_Some (bc_td bc !! h);
  av_roots r t : ss_tries (bc_store bc) !! r = Some t -> accountRoot t = r
}.

Lemma avail_State bc : avail bc -> exists s, State bc = inl s.
Proof.
  intros [Hg Hk _ _]. unfold State, StateAt. destruct (gc_ok_open _ _ _ Hg Hk) as [t ->]. by eexists.
Qed.

(** What the retention policy does to the chain. *)
Lemma collect_ok capped bc b t bc' : gc_ok (bc_store bc) (bc_triegc bc) ->
  collectTries opts capped (bc <| bc_store := withTrie (bc_store bc) t |>) b (accountRoot t) = bc' ->
  gc_ok (bc_store bc') (bc_triegc bc') /\ ss_disk (bc_store bc) ⊆ ss_disk (bc_store bc') /\
  ss_tries (bc_store bc') ⊆ ss_tries (withTrie (bc_store bc) t) /\ (exists n, (accountRoot t, n) ∈ bc_triegc bc') /\
  forall root n, (root, n) ∈ bc_triegc bc -> NumberU64 b < u64 (- n) + TriesInMemory -> (root, n) ∈ bc_triegc bc'.
Proof.
  intros Hg <-. unfold collectTries. cbv zeta.
  set (st1 := ReferenceRoot (bc_store (bc <| bc_store := withTrie (bc_store bc) t |>)) (accountRoot t)).
  set (p := int64 (- int64 (NumberU64 b))). set (q1 := prque_Push (bc_triegc (bc <| bc_store := _ |>)) (accountRoot t) p).
  assert (q1 ≡ₚ (accountRoot t, p) :: bc_triegc bc) as Eq1 by apply prque_Push_perm.
  assert (gc_ok st1 q1) as Hg1 by by apply (retain_ok _ (bc_triegc bc) _ _ p).
  assert (ss_disk st1 = ss_disk (bc_store bc)) as Ed1 by (subst st1; rewrite (proj1 (ReferenceRoot_frame _ _)); apply withTrie_disk).
  assert (ss_tries st1 = ss_tries (withTrie (bc_store bc) t)) as Et1 by apply ReferenceRoot_frame.
  assert (u64 (- p) = NumberU64 b) as Ep by apply entry_number, u64_range.
  clearbody st1 q1. destruct (Z.ltb_spec TriesInMemory (NumberU64 b)) as [Hn|Hn]; cbn.
  2:{ split_and!; [done|by rewrite Ed1|by rewrite Et1| |]; setoid_rewrite Eq1; [exists p; by left|]. intros; by right. }
  set (bc3 := if TrieTimeLimit opts <? _ then _ else _).
  assert (gc_ok (bc_store bc3) (bc_triegc bc3) /\ ss_disk st1 ⊆ ss_disk (bc_store bc3) /\ ss_tries (bc_store bc3) = ss_tries st1 /\
    bc_triegc bc3 = q1) as (Hg3 & Hd3 & Ht3 & Eq3).
  { subst bc3. repeat case_match; cbn; (split_and!; [repeat apply FlushRoots_ok; done|set_solver|done|done]). }
  clearbody bc3. destruct (gcLoop_ok (NumberU64 b - TriesInMemory) (length (bc_triegc bc3)) _ _ Hg3) as (Hg4 & Hd4 & Ht4 & Hk).
  destruct (gcLoop _ _ _ _) as [st q]. cbn in *. rewrite Eq3 in Hk. setoid_rewrite Eq1 in Hk.
  split_and!; [done|rewrite Hd4; set_solver|by rewrite <- Et1, <- Ht3| |].
  - exists p. apply Hk; [by left|]. rewrite Ep. unfold TriesInMemory. lia.
  - intros root n Hr Hlt. apply Hk; [by right|lia].
Qed.

(** A block of the miner that leaves the trie of the state alone. *)
Definition recent (bc : BlockChain) (b : Block) : Prop :=
  TrieDirtyDisabled opts = true \/ bc_stateRoot bc ∈ ss_disk (bc_store bc) \/ bc_stateRoot bc = 0 \/ bc_stateRoot bc = emptyRoot \/
  exists n, (bc_stateRoot bc, n) ∈ bc_triegc bc /\ NumberU64 b < u64 (- n) + TriesInMemory.

(** A block that was written: the trie [t] of its state and the chain. *)
Record written_block (bc : BlockChain) (b : Block) (t : gmap Address Account) (bc' : BlockChain) : Prop := {
  wb_gc : gc_ok (bc_store bc') (bc_triegc bc');
  wb_disk : ss_disk (bc_store bc) ⊆ ss_disk (bc_store bc');
  wb_tries : ss_tries (bc_store bc') ⊆ ss_tries (withTrie (bc_store bc) t);
  wb_kept : kept bc' (accountRoot t);
  wb_entries root n : (root, n) ∈ bc_triegc bc -> TrieDirtyDisabled opts = true \/ NumberU64 b < u64 (- n) + TriesInMemory ->
    (root, n) ∈ bc_triegc bc';
  wb_blocks : bc_blocks bc' = <[BlockHash b := b]> (bc_blocks bc);
  wb_td : exists td, bc_td bc' = <[BlockHash b := td]> (bc_td bc)
}.

Lemma writeHead_written bc b b' t bc' : written_block bc b t bc' -> written_block bc b t (writeHeadBlock bc' b').
Proof. intros []. destruct (writeHead_frame bc' b') as (h & f & ->). by split. Qed.

Lemma retain_written bc b t capped bcx codes : gc_ok (bc_store bc) (bc_triegc bc) ->
  bc_store bcx = (bc_store bc) <| ss_code := codes |> -> bc_triegc bcx = bc_triegc bc ->
  bc_blocks bcx = <[BlockHash b := b]> (bc_blocks bc) -> (exists td, bc_td bcx = <[BlockHash b := td]> (bc_td bc)) ->
  let bc' := if TrieDirtyDisabled opts
             then bcx <| bc_store := FlushRoots (withTrie (bc_store bcx) t) {[accountRoot t]} |>
             else collectTries opts capped (bcx <| bc_store := withTrie (bc_store bcx) t |>) b (accountRoot t) in
  written_block bc b t bc' /\ bc_stateRoot bc' = bc_stateRoot bcx.
Proof.
  intros Hg Es Eq Eb Etd. cbv zeta.
  assert (gc_ok (bc_store bcx) (bc_triegc bcx)) as Hgx by (rewrite Es, Eq; by apply gc_ok_code).
  assert (ss_tries (withTrie (bc_store bcx) t) = ss_tries (withTrie (bc_store bc) t)) as Et.
  { rewrite Es. unfold withTrie. by case_match. }
  assert (ss_disk (bc_store bcx) = ss_disk (bc_store bc)) as Ed by by rewrite Es.
  destruct (TrieDirtyDisabled opts) eqn:Ea.
  - split; [|done]. split; cbn [setf bc_store bc_triegc bc_blocks bc_td].
    + rewrite Eq in *. by apply archive_ok.
    + cbn. rewrite withTrie_disk, Ed. set_solver.
    + cbn. by rewrite Et.
    + unfold kept. cbn. destruct (decide (accountRoot t = emptyRoot)) as [|Hne]; [by right; right; right|]. left.
      apply elem_of_union. right. apply elem_of_filter. split; [|set_solver]. unfold withTrie.
      destruct (Z.eqb_spec (accountRoot t) emptyRoot); [done|]. cbn.
      destruct (ss_tries (bc_store bcx) !! accountRoot t) as [x|] eqn:Ex; [exists x; by apply lookup_union_Some_l|].
      exists t. rewrite lookup_union_r by done. apply lookup_singleton_eq.
    + intros root n Hr _. cbn. by rewrite Eq.
    + done.
    + done.
  - destruct (collect_ok capped bcx b t _ Hgx eq_refl) as (Hg' & Hd' & Ht' & Hk & He).
    destruct (collectTries_frame opts capped (bcx <| bc_store := withTrie (bc_store bcx) t |>) b (accountRoot t)) as (st & q & gp & E).
    rewrite E in *. split; [|done]. rewrite Eq, Ed, Et in *. split; try done; [by right; left|].
    intros root n Hr [?|Hlt]; [congruence|]. by apply He.
Qed.

Lemma write_written env bc b rs lgs s emit mining :
  gc_ok (bc_store bc) (bc_triegc bc) -> is_Some (bc_td bc !! h_ParentHash (b_header b)) ->
  post True (writeBlockWithState env opts bc b rs lgs s emit mining) (fun r => exists t,
    written_block bc b t r.1 /\
    (mining = true -> bc_stateRoot r.1 = bc_stateRoot bc) /\
    (mining = false -> settled (IsEIP158 (co_config opts) (Some (h_Number (b_header b)))) s ->
      t = trie s /\ bc_stateRoot r.1 = accountRoot t)).
Proof.
  intros Hg [ptd Htd]. unfold writeBlockWithState. apply post_bind, post_partial. intros [bc1 s1] E1.
  assert (exists root, bc1 = bc <| bc_stateRoot := root |> /\ (mining = true -> root = bc_stateRoot bc) /\
    (mining = false -> settled (IsEIP158 (co_config opts) (Some (h_Number (b_header b)))) s ->
      root = accountRoot (trie s) /\ trie s1 = trie s /\ settled (IsEIP158 (co_config opts) (Some (h_Number (b_header b)))) s1))
    as (root1 & Ebc1 & Hm & Hi).
  { destruct mining; [simplify_eq; exists (bc_stateRoot bc1); by destruct bc1|].
    destruct (IntermediateRoot s false) as [[s' r]|] eqn:Ei; [|done]. cbn in E1. simplify_eq. exists r. split_and!; [done..|].
    intros _ Hs. destruct (IntermediateRoot_again s _ false Hs) as (s2 & E2 & Et & Hs2 & _); [done|].
    rewrite E2 in Ei. by simplify_eq. }
  assert (bc_GetTd bc1 (h_ParentHash (b_header b)) = Some ptd) as -> by by rewrite Ebc1.
  apply post_bind, post_partial. intros [[st s2] root] Ec. destruct (Commit_stores _ _ _ _ _ _ Ec) as (-> & codes & ->).
  set (bc2 := if TrieDirtyDisabled opts then _ else _).
  assert (written_block bc b (trie s2) bc2 /\ bc_stateRoot bc2 = root1) as [Hw Hroot].
  { pose proof (retain_written bc b (trie s2) (ie_capped env b)
      (bc <| bc_stateRoot := root1 |> <| bc_td := <[BlockHash b := h_Difficulty (b_header b) + ptd]> (bc_td bc) |>
        <| bc_blocks := <[BlockHash b := b]> (bc_blocks bc) |> <| bc_receipts := <[BlockHash b := rs]> (bc_receipts bc) |>
        <| bc_store := (bc_store bc) <| ss_code := codes |> |>) codes Hg eq_refl eq_refl eq_refl (ex_intro _ _ eq_refl)) as Hr.
    subst bc2 bc1. exact Hr. }
  assert (mining = false -> settled (IsEIP158 (co_config opts) (Some (h_Number (b_header b)))) s ->
      trie s2 = trie s /\ root1 = accountRoot (trie s2)) as Hi'.
  { intros Hf Hs. destruct (Hi Hf Hs) as (-> & Et & Hs1). rewrite (Commit_settled _ _ _ _ _ _ _ Hs1 (implb_same _) Ec). by rewrite Et. }
  clear Ec Hi. clearbody bc2. clear Ebc1 E1. apply post_bind, post_partial. intros localTd _.
  set (canonical := preferBlock _ _ _ _ _ _). set (bc3 := if canonical && _ then writeHeadBlock bc2 b else bc2).
  assert (written_block bc b (trie s2) bc3 /\ bc_stateRoot bc3 = root1) as [Hw3 Hroot3].
  { subst bc3. destruct (canonical && _); [|done]. split; [by apply writeHead_written|].
    destruct (writeHead_frame bc2 b) as (h & f & ->). done. }
  clearbody bc3 canonical. clear Hw Hroot bc2. apply post_bind, post_partial. intros author _. apply post_bind, post_partial. intros base _.
  set (bc4 := match author with inl _ => _ | inr _ => _ end).
  assert (written_block bc b (trie s2) bc4 /\ bc_stateRoot bc4 = root1) as [Hw4 Hroot4].
  { subst bc4. destruct author as [author|]; [|done]. destruct (canonical && _); [|done]. split; [by apply writeHead_written|].
    destruct (writeHead_frame bc3 b) as (h & f & ->). done. }
  clearbody bc4. assert (forall l, written_block bc b (trie s2) (bc4 <| bc_futureBlocks := delete (BlockHash b) (bc_futureBlocks bc4) |> <| bc_events := l |>)) as Hl.
  { intros l. by destruct Hw4. }
  destruct canonical; exists (trie s2); (split; [apply Hl|]); cbn; rewrite Hroot4; auto.
Qed.

Lemma Process_settled now chain cc nr pool b s pool' s' r :
  Process now chain cc nr pool b s = Ret (pool', s', inl r) -> settled (IsEIP158 cc (Some (h_Number (b_header b)))) s'.
Proof.
  unfold Process. intros E.
  repeat match type of E with (mbind _ ?m = _) => destruct m as [?x|] eqn:?Ex; [cbn [mbind outcome_bind] in E|done] | (match ?x with _ => _ end = _) => destruct x eqn:? end; try done.
  all: try (simplify_eq; by eapply Finalize_settles).
Qed.

Lemma body_parent env bc b : bodyError env vu bc b = Ret None -> is_Some (bc_blocks bc !! h_ParentHash (b_header b)).
Proof.
  unfold bodyError, ValidateBody. destruct (ie_header env b); [done|]. destruct (HasBlockAndState bc (BlockHash b)); [done|].
  destruct (vu b); [done|]. destruct (negb (_ =? h_UncleHash _)); [done|]. destruct (DeriveSha _) as [h|]; [|done]. cbn.
  destruct (negb (h =? _)); [done|]. unfold HasBlockAndState, HasBlock, bc_GetBlock.
  destruct (bc_blocks bc !! h_ParentHash (b_header b)); [by eexists|]. by rewrite bool_decide_false by (by intros [? ?]).
Qed.

(** The state root of a chain after a block was written. *)
Lemma written_avail bc b t bc' : avail bc -> written_block bc b t bc' -> kept bc' (bc_stateRoot bc') -> avail bc'.
Proof.
  intros [Hg Hk Htd Hr] [Wg Wd Wt Wk We Wb [td Wtd]] Hk'. split; [done|done| |].
  - intros h x. rewrite Wb, Wtd, !lookup_insert. case_decide; [done|]. apply Htd.
  - intros r x Hx. eapply lookup_weaken in Hx; [|exact Wt]. unfold withTrie in Hx. case_match; [by apply Hr|]. cbn in Hx.
    apply lookup_union_Some_raw in Hx as [Hx|[_ Hx]]; [by apply Hr|]. by apply lookup_singleton_Some in Hx as [<- <-].
Qed.

(** What an import of one block leaves. *)
Lemma import_spec env bc previous b todo : avail bc -> bodyError env vu bc b = Ret None ->
  post True (importBlock env opts bc previous b todo) (fun r => avail r.1 /\
    forall st, r.2 = inl st -> exists s pool s' res, State bc = inl s /\
      Process (ie_now env) (bc_GetHeader bc) (co_config opts) (co_noRecursion opts) (bc_txPool bc) b s = Ret (pool, s', inl res) /\
      bc_stateRoot r.1 = accountRoot (trie s')).
Proof.
  intros Hbc Hb. unfold importBlock. destruct (State bc) as [s|]; [|done]. apply post_bind, post_partial. intros _ _.
  apply post_bind, post_partial. intros [[pool s'] [[[rs lgs] gas]|err]] Ep; [|split; [by destruct Hbc|done]]. apply post_bind.
  destruct (body_parent env bc b Hb) as [pb Hpb]. apply (av_td _ Hbc) in Hpb.
  pose proof (Process_settled _ _ _ _ _ _ _ _ _ _ Ep) as Hs.
  assert (avail (bc <| bc_txPool := pool |>)) as Hbc' by by destruct Hbc.
  eapply post_mono; [by apply (write_written env (bc <| bc_txPool := pool |>)); [apply Hbc|]|].
  intros [bc' st] _ (t & Hw & _ & Hroot). cbn in Hw, Hroot. destruct (Hroot eq_refl Hs) as [-> Er].
  assert (avail bc') as Ha by (eapply (written_avail _ b (trie s')); [done|done|rewrite Er; apply Hw]).
  assert (avail (match st with inl CanonStatTy => bc' <| bc_gcproc := bc_gcproc bc' + ie_proctime env b |> | _ => bc' end) /\
    bc_stateRoot (match st with inl CanonStatTy => bc' <| bc_gcproc := bc_gcproc bc' + ie_proctime env b |> | _ => bc' end) =
      accountRoot (trie s')) as [Ha' Er'].
  { destruct st as [[]|]; split; try done. by destruct Ha. }
  split; [done|]. intros st' _. by exists s, pool, s', (rs, lgs, gas).
Qed.

Lemma mined_avail env bc b rs lgs s : avail bc -> recent bc b ->
  post True (writeBlockWithState env opts bc b rs lgs s true true) (fun r => avail r.1).
Proof.
  intros Hbc Hrec. destruct (bc_td bc !! h_ParentHash (b_header b)) as [td|] eqn:Etd.
  2:{ unfold writeBlockWithState, bc_GetTd. cbn [mbind outcome_bind]. by rewrite Etd. }
  eapply post_mono; [by apply write_written; [apply Hbc|]|].
  intros [bc' st] _ (t & Hw & Hroot & _). cbn in *. specialize (Hroot eq_refl).
  eapply written_avail; [done|done|]. rewrite Hroot. destruct Hw as [Wg Wd Wt Wk We _ _]. unfold kept.
  destruct (av_kept _ Hbc) as [Hd|[[n Hn]|?]]; [left; set_solver| |by right; right].
  destruct Hrec as [Ha|[Hd|[?|[?|(m & Hm & Hlt)]]]]; [|left; set_solver|by right; right; left|by right; right; right|].
  - right. left. exists n. apply We; [done|by left].
  - right. left. exists m. apply We; [done|by right].
Qed.

(** Every block the node mines along a run leaves the state alone. *)
Fixpoint recent_run (bc : BlockChain) (ops : list chainOp) : Prop :=
  match ops with
  | [] => True
  | op :: ops =>
      (forall env b rs lgs s, op = OpMined env b rs lgs s -> recent bc b) /\
      forall bc', chainExec opts vu bc op = Ret bc' -> recent_run bc' ops
  end.

Lemma exec_avail bc op : avail bc -> (forall env b rs lgs s, op = OpMined env b rs lgs s -> recent bc b) ->
  post True (chainExec opts vu bc op) avail.
Proof.
  intros Hbc Hrec. apply chainExec_inv; try done.
  - intros ?? []. by split.
  - intros ?? []. by split.
  - intros ?? []. by split.
  - intros env c previous b todo Hc Hb. eapply post_mono; [by apply import_spec|]. by intros ?? [].
  - intros env b rs lgs s E Hc. eapply mined_avail; [done|by eapply Hrec].
Qed.

(** C7: the detached state can be opened after every run of imports, of the
    future queue, of the pool and of mined blocks, provided each mined block
    is less than [TriesInMemory] above a block that left the current state (or
    that state is on disk): collecting old tries does not reach it. *)
Theorem state_available bc ops bc' : avail bc -> recent_run bc ops -> foldM (chainExec opts vu) bc ops = Ret bc' ->
  avail bc' /\ exists s, State bc' = inl s.
Proof.
  intros Hbc Hrun E. assert (avail bc') as Ha; [|split; [done|by apply avail_State]].
  revert bc Hbc Hrun E. induction ops as [|op ops IH]; intros bc Hbc Hrun; cbn [foldM]; [by intros [= <-]|].
  destruct Hrun as [Hrec Hrun]. pose proof (exec_avail bc op Hbc Hrec) as Hex. destruct (chainExec opts vu bc op) as [bc1|]; [|done].
  apply IH; [done|by apply Hrun].
Qed.


End State.
