(* ===== verification/Worker.v ===== *)
(** * The miner (miner/worker.go, miner/miner.go)

    The worker builds a block on the head of the chain from the pending
    transactions of the pool: each transaction it takes is acknowledged in the
    name of the node, and executed when that completes a quorum.  Every
    goroutine of the worker is a set of handlers on one state, one per event
    it receives; [newWorkReq] and the tasks and results are the messages
    between them.

    The pool is that of the chain.  The header of the environment is shared
    with the engine, which sets its root, and its gas counter is the one
    ApplyTransaction adds to.  What is not computed here is in [workEnv]: the
    time, the orders in which Go walks its maps and sets, and the engine's
    Prepare and Seal, whose state is that of the engine.  Resubmission
    intervals (floating point), hooks for tests, the ring of unconfirmed
    blocks, which only logs, and closing are left out; logs are values, so the
    block hash that resultLoop writes into them is not seen by earlier
    holders. *)

From S2P Require Import Prelude Rlp Params Transaction Block AccessList StateDB Journal StateStore Receipt DeriveSha Clique Evm StateTransition Heap TxList TxLookup Prque TxPool TxSet StateProcessor Chain.

(** ** Data *)

Record environment := mkEnvironment {
  e_signer : Signer;
  e_state : StateDB;
  e_ancestors : gset Hash;
  e_family : gset Hash;
  e_uncles : gset Hash;
  e_tcount : Z;
  e_gasPool : option Z;
  e_header : Header;
  e_txs : list Transaction;
  e_receipts : list Receipt
}.
#[export] Instance eta_environment : Eta environment := fun r =>
  mkEnvironment (e_signer r) (e_state r) (e_ancestors r) (e_family r) (e_uncles r) (e_tcount r) (e_gasPool r)
    (e_header r) (e_txs r) (e_receipts r).

Record task := mkTask { t_receipts : list Receipt; t_state : StateDB; t_block : Block }.

Definition commitInterruptNone : Z := 0.
Definition commitInterruptNewHead : Z := 1.
Definition commitInterruptResubmit : Z := 2.
Definition staleThreshold : Z := 7.

(** The values loaded from the interrupt cell: in the call for the local or
    the remote transactions, by iteration; [None] is a nil pointer. *)
Abbreviation interruptCell := (option (bool -> nat -> Z)).

Record newWorkReq := mkReq { rq_interrupt : interruptCell; rq_noempty : bool; rq_timestamp : Z }.

Record workerConfig := mkWorkerConfig {
  GasFloor : Z;
  GasCeil : Z;
  wc_clique : option Z;                (* the period of clique, when configured *)
  isLocalBlock : Block -> bool         (* constantly false when nil *)
}.

Record worker := mkWorker {
  w_chain : BlockChain;
  w_current : option environment;
  w_localUncles : gmap Hash Block;
  w_remoteUncles : gmap Hash Block;
  w_coinbase : Address;
  w_extra : bytes;
  w_pendingTasks : gmap Hash task;
  w_snapshotBlock : option Block;
  w_snapshotState : option StateDB;
  w_running : bool;
  w_newTxs : Z;
  w_noempty : bool;
  w_tasks : list task;                 (* taskCh *)
  w_prev : Hash;                       (* the last seal hash of taskLoop *)
  w_sealing : option Block;            (* the block whose seal waits for its slot *)
  w_pendingLogs : list (list Log);     (* pendingLogsFeed *)
  w_adjust : list bool;                (* resubmitAdjustCh, whether to increase *)
  w_mined : list Hash                  (* NewMinedBlockEvent *)
}.
#[export] Instance eta_worker : Eta worker := fun r =>
  mkWorker (w_chain r) (w_current r) (w_localUncles r) (w_remoteUncles r) (w_coinbase r) (w_extra r) (w_pendingTasks r)
    (w_snapshotBlock r) (w_snapshotState r) (w_running r) (w_newTxs r) (w_noempty r) (w_tasks r) (w_prev r) (w_sealing r)
    (w_pendingLogs r) (w_adjust r) (w_mined r).

(** What the worker asks of the consensus engine besides [Engine]. *)
Class MinerEngine `{Crypto} `{Database} := {
  (* the header, with the root of the state, the state and the block *)
  FinalizeAndAssemble : ChainConfig -> Header -> StateDB -> list Transaction -> list Header -> list Receipt ->
    outcome (Header * StateDB * (Block + error));
  EngineSealHash : Header -> outcome Hash
}.

Definition clique_FinalizeAndAssemble `{Crypto} `{Database} (cc : ChainConfig) (header : Header) (s : StateDB)
    (txs : list Transaction) (receipts : list Receipt) : outcome (Header * StateDB * (Block + error)) :=
  '(s, root) ← IntermediateRoot s (IsEIP158 cc (Some (h_Number header)));
  let header := header <| h_Root := root |> <| h_UncleHash := CalcUncleHash [] |> in
  block ← NewBlock header txs [] receipts;
  Ret (header, s, inl block).

Definition cliqueMiner `{Crypto} `{Database} : MinerEngine := {|
  FinalizeAndAssemble cc header s txs _ receipts := clique_FinalizeAndAssemble cc header s txs receipts;
  EngineSealHash := SealHash
|}.

(** What a handler does not compute. *)
Record workEnv := mkWorkEnv {
  we_now : Z;                                               (* the clock of the pool *)
  we_time : Z;                                              (* time.Now().Unix() *)
  we_accounts : list (Address * list Transaction) -> list (Address * list Transaction);
  we_uncles : list Hash -> list Hash;                       (* the order of a mapset *)
  we_blocks : gmap Hash Block -> list (Hash * Block);       (* the order of a map *)
  we_prepare : Header -> outcome (Header * option error);   (* engine.Prepare *)
  we_seal : Block -> outcome (option Block + error);        (* engine.Seal *)
  we_import : importEnv
}.

Definition int32 (z : Z) : Z := (z + 2 ^ 31) mod 2 ^ 32 - 2 ^ 31.

Definition DAOForkExtraRange : Z := 10.
Definition DAOForkBlockExtra : bytes := [0x64; 0x61; 0x6f; 0x2d; 0x68; 0x61; 0x72; 0x64; 0x2d; 0x66; 0x6f; 0x72; 0x6b].

Section Worker.
Context `{Crypto} `{Database} `{Interpreter} `{Engine} `{!MinerEngine}.
Context (we : workEnv) (wc : workerConfig) (opts : chainOptions).

Abbreviation cc := (co_config opts).

(** ** The environment *)

Definition makeCurrent (w : worker) (parent : Block) (header : Header) : worker * option error :=
  match State (w_chain w) with
  | inr e => (w, Some e)
  | inl s =>
      let ancestors := GetBlocksFromHash (w_chain w) (BlockHash parent) 7 in
      let env := mkEnvironment (MakeSigner cc (Some (h_Number header))) s
        (list_to_set (BlockHash <$> ancestors))
        (list_to_set ((ancestors ≫= fun b => HeaderHash <$> b_uncles b) ++ (BlockHash <$> ancestors)))
        ∅ 0 None header [] [] in
      (w <| w_current := Some env |>, None)
  end.

Inductive uncleError := errUncleNotUnique | errUncleSibling | errUncleParent | errUncleIncluded.

Definition commitUncle (env : environment) (uncle : Header) : environment * option uncleError :=
  let hash := HeaderHash uncle in
  if bool_decide (hash ∈ e_uncles env) then (env, Some errUncleNotUnique)
  else if h_ParentHash (e_header env) =? h_ParentHash uncle then (env, Some errUncleSibling)
  else if bool_decide (h_ParentHash uncle ∉ e_ancestors env) then (env, Some errUncleParent)
  else if bool_decide (hash ∈ e_family env) then (env, Some errUncleIncluded)
  else (env <| e_uncles := {[ hash ]} ∪ e_uncles env |>, None).

(** The headers of the uncles that are still known. *)
Definition uncleHeaders (w : worker) (env : environment) : list Header :=
  omap (fun hash => match w_localUncles w !! hash with
                    | Some b => Some (b_header b)
                    | None => b_header <$> w_remoteUncles w !! hash
                    end) (we_uncles we (elements (e_uncles env))).

Definition updateSnapshot (w : worker) : outcome worker :=
  env ← match w_current w with Some e => Ret e | None => Panic end;
  block ← NewBlock (e_header env) (e_txs env) (uncleHeaders w env) (e_receipts env);
  s ← Copy (e_state env);
  Ret (w <| w_snapshotBlock := Some block |> <| w_snapshotState := Some s |>).

(** ** Taking transactions *)

(** The result is the logs or the error.  ApplyTransaction has a receipt
    whenever one is appended; a nil one would panic when it is read. *)
Definition commitTransaction (chain : headerChain) (pool : TxPool) (env : environment) (tx : Transaction)
    (coinbase : Address) : outcome (TxPool * environment * (list Log + error)) :=
  let '(s, snap) := Snapshot (e_state env) in
  gp0 ← match e_gasPool env with Some g => Ret g | None => Panic end;
  '(pool', x, receipt, err) ← ApplyTransaction (we_now we) chain cc (co_noRecursion opts) (Some pool) coinbase
                                (e_header env) tx (mkExec s gp0 (h_GasUsed (e_header env)));
  let pool := default pool pool' in
  let env := env <| e_state := x_state x |> <| e_gasPool := Some (x_gp x) |>
                 <| e_header := (e_header env) <| h_GasUsed := x_usedGas x |> |> in
  let include := match (receipt : option Receipt) with
                 | Some r => Ret (env <| e_txs := e_txs env ++ [tx] |> <| e_receipts := e_receipts env ++ [r] |>, r)
                 | None => Panic
                 end in
  if bool_decide ((err : option error) = Some ErrInsufficientAcks) then '(env, _) ← include; Ret (pool, env, inl [])
  else if bool_decide (err = Some ErrNonceAlreadyAcked) then Ret (pool, env, inr ErrNonceAlreadyAcked)
  else
    match err with
    | Some e => s ← RevertToSnapshot (e_state env) snap; Ret (pool, env <| e_state := s |>, inr e)
    | None => '(env, r) ← include; Ret (pool, env, inl (r_Logs r))
    end.

(** The set after a transaction was tried. *)
Definition advance (txs : TransactionsByPriceAndNonce) (r : list Log + error) : outcome TransactionsByPriceAndNonce :=
  match r with
  | inr ErrGasLimitReached => ts_Pop txs
  | inr ErrNonceTooLow => ts_Shift txs
  | inr ErrNonceTooHigh => ts_Pop txs
  | inr ErrInsufficientFunds => ts_Pop txs
  | inl _ => ts_Shift txs
  | inr ErrTxTypeNotSupported => ts_Pop txs
  | inr _ => ts_Shift txs
  end.

(** The loop of commitTransactions, which ends with the signal it was
    interrupted by, or [None]. *)
Fixpoint commitLoop (fuel : nat) (chain : headerChain) (interrupt : option (nat -> Z)) (i : nat) (coinbase : Address)
    (pool : TxPool) (env : environment) (txs : TransactionsByPriceAndNonce) (lgs : list Log)
  : outcome (TxPool * environment * list Log * option Z) :=
  match fuel with
  | O => Panic
  | S fuel =>
      let signal := match interrupt with Some f => f i | None => commitInterruptNone end in
      if negb (signal =? commitInterruptNone) then Ret (pool, env, lgs, Some signal)
      else
        gp0 ← match e_gasPool env with Some g => Ret g | None => Panic end;
        if gp0 <? TxGas then Ret (pool, env, lgs, None)
        else
          match ts_Peek txs with
          | None => Ret (pool, env, lgs, None)
          | Some tx =>
              if Protected tx && negb (IsEIP155 cc (Some (h_Number (e_header env)))) then
                txs ← ts_Pop txs;
                commitLoop fuel chain interrupt (S i) coinbase pool env txs lgs
              else
                let env := env <| e_state := Prepare (e_state env) (TxHash tx) 0 (e_tcount env) |> in
                '(pool, env, r) ← commitTransaction chain pool env tx coinbase;
                txs ← advance txs r;
                match (r : list Log + error) with
                | inl l => commitLoop fuel chain interrupt (S i) coinbase pool (env <| e_tcount := e_tcount env + 1 |>) txs (lgs ++ l)
                | inr _ => commitLoop fuel chain interrupt (S i) coinbase pool env txs lgs
                end
          end
  end.

(** Whether the work is to be discarded. *)
Definition commitTransactions (w : worker) (txs : TransactionsByPriceAndNonce) (coinbase : Address)
    (interrupt : option (nat -> Z)) : outcome (worker * bool) :=
  match w_current w with
  | None => Ret (w, true)
  | Some env =>
      gp0 ← match e_gasPool env with Some g => Ret g | None => AddGas 0 (h_GasLimit (e_header env)) end;
      '(pool, env, lgs, stopped) ← commitLoop (S (left_over txs)) (bc_GetHeader (w_chain w)) interrupt 0 coinbase
                                     (bc_txPool (w_chain w)) (env <| e_gasPool := Some gp0 |>) txs [];
      let w := w <| w_chain := (w_chain w) <| bc_txPool := pool |> |> <| w_current := Some env |> in
      match (stopped : option Z) with
      | Some signal =>
          Ret (if signal =? commitInterruptResubmit then w <| w_adjust := w_adjust w ++ [true] |> else w,
               signal =? commitInterruptNewHead)
      | None =>
          let w := if negb (w_running w) && bool_decide (lgs <> [])
                   then w <| w_pendingLogs := w_pendingLogs w ++ [lgs] |> else w in
          Ret (match interrupt with Some _ => w <| w_adjust := w_adjust w ++ [false] |> | None => w end, false)
      end
  end.

(** ** Building work *)

(** The fees of a block, for the log: a receipt is read for every
    transaction. *)
Definition totalFees (block : Block) (receipts : list Receipt) : outcome Z :=
  foldM (fun fees itx => match receipts !! itx.1 with
                         | Some r => Ret (fees + r_GasUsed r * GasPrice itx.2)
                         | None => Panic
                         end) 0 (imap pair (b_transactions block)).

(** Assemble the block of the current environment on a copy of its state and
    hand it over for sealing. *)
Definition commit (w : worker) (uncles : list Header) (update : bool) : outcome worker :=
  env ← match w_current w with Some e => Ret e | None => Panic end;
  let receipts := e_receipts env in
  s ← Copy (e_state env);
  '(header, s, r) ← FinalizeAndAssemble cc (e_header env) s (e_txs env) uncles receipts;
  let w := w <| w_current := Some (env <| e_header := header |>) |> in
  match (r : Block + error) with
  | inr _ => Ret w
  | inl block =>
      w ← (if w_running w then
             _ ← EngineSealHash (b_header block);
             _ ← totalFees block receipts;
             Ret (w <| w_tasks := w_tasks w ++ [mkTask receipts s block] |>)
           else Ret w);
      if update then updateSnapshot w else Ret w
  end.

(** The first loop of commitUncles drops the old blocks of the map, the second
    takes up to two uncles in all. *)
Definition freshBlocks (header : Header) (blocks : gmap Hash Block) : gmap Hash Block :=
  filter (fun hb => u64 (h_Number header) < u64 (NumberU64 hb.2 + staleThreshold)) blocks.

Definition commitUncles (blocks : gmap Hash Block) (eu : environment * list Header) : environment * list Header :=
  fold_left (fun eu hb =>
    let '(env, uncles) := eu in
    if decide (length uncles = 2%nat) then (env, uncles)
    else match commitUncle env (b_header hb.2) with
         | (env, None) => (env, uncles ++ [b_header hb.2])
         | (env, Some _) => (env, uncles)
         end) (we_blocks we blocks) eu.

(** The extra data around the DAO fork. *)
Definition daoExtra (header : Header) : Header :=
  match DAOForkBlock cc with
  | Some dao =>
      if (dao <=? h_Number header) && (h_Number header <? dao + DAOForkExtraRange) then
        if DAOForkSupport cc then header <| h_Extra := DAOForkBlockExtra |>
        else if bool_decide (h_Extra header = DAOForkBlockExtra) then header <| h_Extra := [] |> else header
      else header
  | None => header
  end.

(** The header of the next block; [None] without an etherbase. *)
Definition newHeader (w : worker) (timestamp : Z) : option Header :=
  let parent := bc_currentBlock (w_chain w) in
  let timestamp := if u64 timestamp <=? h_Time (b_header parent) then int64 (h_Time (b_header parent) + 1) else timestamp in
  let header := mkHeader (BlockHash parent) 0 0 0 0 0 emptyBloom 0 (h_Number (b_header parent) + 1)
                  (CalcGasLimit parent (GasFloor wc) (GasCeil wc)) 0 (u64 timestamp) (w_extra w) 0 (replicate 8 0) in
  if w_running w then
    if w_coinbase w =? 0 then None else Some (header <| h_Coinbase := w_coinbase w |>)
  else Some header.

(** Take the transactions of some accounts, if there are any. *)
Definition takeFrom (interrupt : interruptCell) (isRemote : bool) (txs : list (Address * list Transaction)) (w : worker)
  : outcome (worker * bool) :=
  match txs with
  | [] => Ret (w, false)
  | _ =>
      env ← match w_current w with Some e => Ret e | None => Panic end;
      set ← NewTransactionsByPriceAndNonce (e_signer env) (we_accounts we txs);
      commitTransactions w set (w_coinbase w) ((fun f => f isRemote) <$> interrupt)
  end.

(** Fill the environment with the transactions of the local accounts, then
    with those of the others, and hand the block over. *)
Definition fillBlock (w : worker) (uncles : list Header) (interrupt : interruptCell) (localTxs remoteTxs : list (Address * list Transaction))
  : outcome worker :=
  '(w, discard) ← takeFrom interrupt false localTxs w;
  if (discard : bool) then Ret w
  else
    '(w, discard) ← takeFrom interrupt true remoteTxs w;
    if (discard : bool) then Ret w else commit w uncles true.

Definition commitNewWork (w : worker) (req : newWorkReq) : outcome worker :=
  let parent := bc_currentBlock (w_chain w) in
  match newHeader w (rq_timestamp req) with
  | None => Ret w
  | Some header =>
      '(header, err) ← we_prepare we header;
      if bool_decide ((err : option error) <> None) then Ret w
      else
        let header := daoExtra header in
        match makeCurrent w parent header with
        | (w, Some _) => Ret w
        | (w, None) =>
            env ← match w_current w with Some e => Ret e | None => Panic end;
            let env := if DAOForkSupport cc && bool_decide (DAOForkBlock cc = Some (h_Number header))
                       then env <| e_state := ApplyDAOHardFork (e_state env) |> else env in
            let locals := freshBlocks header (w_localUncles w) in
            let remotes := freshBlocks header (w_remoteUncles w) in
            let '(env, uncles) := commitUncles remotes (commitUncles locals (env, [])) in
            let w := w <| w_current := Some env |> <| w_localUncles := locals |> <| w_remoteUncles := remotes |> in
            w ← (if negb (rq_noempty req) && negb (w_noempty w) then commit w uncles false else Ret w);
            let '(pool, pend) := Pending (bc_txPool (w_chain w)) in
            let w := w <| w_chain := (w_chain w) <| bc_txPool := pool |> |> in
            if bool_decide (pend = []) && negb (w_noempty w) then updateSnapshot w
            else
              let '(pool, accounts) := Locals (bc_txPool (w_chain w)) in
              let w := w <| w_chain := (w_chain w) <| bc_txPool := pool |> |> in
              let isLocal (al : Address * list Transaction) := al.1 ∈ accounts /\ al.2 <> [] in
              fillBlock w uncles (rq_interrupt req) (filter isLocal pend) (filter (fun al => ~ isLocal al) pend)
        end
  end.

(** ** mainLoop *)

Definition onSideBlock (w : worker) (b : Block) : outcome worker :=
  let hash := BlockHash b in
  if bool_decide (is_Some (w_localUncles w !! hash)) || bool_decide (is_Some (w_remoteUncles w !! hash)) then Ret w
  else
    let w := if isLocalBlock wc b then w <| w_localUncles := <[hash := b]> (w_localUncles w) |>
             else w <| w_remoteUncles := <[hash := b]> (w_remoteUncles w) |> in
    match w_current w with
    | Some env =>
        if w_running w && bool_decide (base.size (e_uncles env) < 2)%nat then
          match commitUncle env (b_header b) with
          | (_, Some _) => Ret w
          | (env, None) => let w := w <| w_current := Some env |> in commit w (uncleHeaders w env) true
          end
        else Ret w
    | None => Ret w
    end.

(** The transactions by sender, in the order they arrived. *)
Definition bySender (sg : Signer) (txs : list Transaction) : list (Address * list Transaction) :=
  map_to_list (fold_left (fun m tx => <[senderOr0 sg tx := default [] (m !! senderOr0 sg tx) ++ [tx]]> m) txs
                 (∅ : gmap Address (list Transaction))).

Definition onNewTxs (w : worker) (txs : list Transaction) : outcome worker :=
  let count w := w <| w_newTxs := int32 (w_newTxs w + Z.of_nat (length txs)) |> in
  match w_current w, w_running w with
  | Some env, false =>
      if match e_gasPool env with Some g => g <? TxGas | None => false end then Ret w
      else
        set ← NewTransactionsByPriceAndNonce (e_signer env) (we_accounts we (bySender (e_signer env) txs));
        '(w, _) ← commitTransactions w set (w_coinbase w) None;
        w ← (if bool_decide (Some (e_tcount env) <> (e_tcount <$> w_current w)) then updateSnapshot w else Ret w);
        Ret (count w)
  | _, _ =>
      w ← (if bool_decide (wc_clique wc = Some 0) then commitNewWork w (mkReq None true (we_time we)) else Ret w);
      Ret (count w)
  end.

(** ** newWorkLoop *)

Definition clearPending (w : worker) (number : Z) : worker :=
  w <| w_pendingTasks := filter (fun ht => number < u64 (NumberU64 (t_block ht.2) + staleThreshold)) (w_pendingTasks w) |>.

(** The requests for the start of the miner, for a new head, and of the timer;
    the signal is stored into the cell of the request before. *)
Definition onStart (w : worker) (cell : bool -> nat -> Z) : worker * newWorkReq :=
  ((clearPending w (NumberU64 (bc_currentBlock (w_chain w)))) <| w_newTxs := 0 |>, mkReq (Some cell) false (we_time we)).
Definition onHead (w : worker) (head : Block) (cell : bool -> nat -> Z) : worker * newWorkReq :=
  ((clearPending w (NumberU64 head)) <| w_newTxs := 0 |>, mkReq (Some cell) false (we_time we)).
Definition onTimer (w : worker) (timestamp : Z) (cell : bool -> nat -> Z) : worker * option newWorkReq :=
  if w_running w && match wc_clique wc with None => true | Some period => 0 <? period end then
    if w_newTxs w =? 0 then (w, None)
    else (w <| w_newTxs := 0 |>, Some (mkReq (Some cell) true timestamp))
  else (w, None).

(** ** taskLoop *)

Definition onTask (w : worker) (t : task) : outcome worker :=
  sealHash ← EngineSealHash (b_header (t_block t));
  if sealHash =? w_prev w then Ret w
  else
    let w := w <| w_sealing := None |> <| w_prev := sealHash |> <| w_pendingTasks := <[sealHash := t]> (w_pendingTasks w) |> in
    r ← we_seal we (t_block t);
    Ret match (r : option Block + error) with inl b => w <| w_sealing := b |> | inr _ => w end.

(** The next task of the channel. *)
Definition taskStep (w : worker) : outcome worker :=
  match w_tasks w with
  | [] => Ret w
  | t :: ts => onTask (w <| w_tasks := ts |>) t
  end.

(** ** resultLoop *)

Definition sealReceipt (block : Block) (i : nat) (r : Receipt) : Receipt :=
  r <| r_BlockHash := BlockHash block |> <| r_BlockNumber := Some (h_Number (b_header block)) |>
    <| r_TransactionIndex := Z.of_nat i |> <| r_Logs := (fun l => l <| l_BlockHash := BlockHash block |>) <$> r_Logs r |>.

(** The state of a task is written once: taskLoop rejects a second task with
    the same seal hash. *)
Definition onResult (w : worker) (block : Block) : outcome worker :=
  if HasBlock (w_chain w) (BlockHash block) then Ret w
  else
    sealhash ← EngineSealHash (b_header block);
    match w_pendingTasks w !! sealhash with
    | None => Ret w
    | Some t =>
        let receipts := imap (sealReceipt block) (t_receipts t) in
        '(bc, r) ← WriteBlockWithState (we_import we) opts (w_chain w) block receipts (receipts ≫= r_Logs) (t_state t) true;
        let w := w <| w_chain := bc |> <| w_pendingTasks := <[sealhash := mkTask receipts (t_state t) (t_block t)]> (w_pendingTasks w) |> in
        Ret match (r : WriteStatus + error) with
            | inr _ => w
            | inl _ => w <| w_mined := w_mined w ++ [BlockHash block] |>
            end
    end.

(** The slot of the block that waits has come. *)
Definition resultStep (w : worker) : outcome worker :=
  match w_sealing w with
  | None => Ret w
  | Some b => onResult (w <| w_sealing := None |>) b
  end.

End Worker.
