(* ===== verification/Miner.v ===== *)
(** * Starting and stopping the miner (miner/miner.go)

    The loop [update] follows the downloader and the commands of the user.
    [miner_follows]: the miner runs exactly when the user wants it to and no
    synchronisation is in progress, where the events of the downloader count
    up to the first one that is done. *)

From S2P Require Import Prelude Rlp Params Transaction Block StateDB Worker.

(** ** The loop *)

Record Miner := mkMiner {
  mn_worker : worker;
  mn_coinbase : Address;
  mn_shouldStart : bool;
  mn_canStart : bool;
  mn_subscribed : bool;
  mn_starts : nat             (* the signals sent to startCh of the worker *)
}.
#[export] Instance eta_Miner : Eta Miner := fun r =>
  mkMiner (mn_worker r) (mn_coinbase r) (mn_shouldStart r) (mn_canStart r) (mn_subscribed r) (mn_starts r).

Inductive minerEvent :=
| DownloaderStart | DownloaderFailed | DownloaderDone   (* of the downloader *)
| StartMiner (coinbase : Address) | StopMiner.          (* of the user *)

Definition setEtherbase (w : worker) (a : Address) : worker := w <| w_coinbase := a |>.
Definition SetEtherbase (m : Miner) (a : Address) : Miner :=
  m <| mn_coinbase := a |> <| mn_worker := setEtherbase (mn_worker m) a |>.

Definition MaximumExtraDataSize : nat := 32.
Definition SetExtra (m : Miner) (extra : bytes) : Miner * bool :=
  if decide (MaximumExtraDataSize < length extra)%nat then (m, false)
  else (m <| mn_worker := (mn_worker m) <| w_extra := extra |> |>, true).

(** worker.start and worker.stop *)
Definition startWorker (m : Miner) : Miner :=
  m <| mn_worker := (mn_worker m) <| w_running := true |> |> <| mn_starts := S (mn_starts m) |>.
Definition stopWorker (m : Miner) : Miner := m <| mn_worker := (mn_worker m) <| w_running := false |> |>.

Definition Mining (m : Miner) : bool := w_running (mn_worker m).

(** The synchronisation is over. *)
Definition resume (m : Miner) : Miner :=
  let m := m <| mn_canStart := true |> in
  if mn_shouldStart m then startWorker (SetEtherbase m (mn_coinbase m)) else m.

Definition update (m : Miner) (ev : minerEvent) : Miner :=
  match ev with
  | DownloaderStart =>
      if mn_subscribed m then
        let wasMining := Mining m in
        let m := (stopWorker m) <| mn_canStart := false |> in
        if wasMining then m <| mn_shouldStart := true |> else m
      else m
  | DownloaderFailed => if mn_subscribed m then resume m else m
  | DownloaderDone => if mn_subscribed m then (resume m) <| mn_subscribed := false |> else m
  | StartMiner a =>
      let m := SetEtherbase m a in
      let m := if mn_canStart m then startWorker m else m in
      m <| mn_shouldStart := true |>
  | StopMiner => stopWorker (m <| mn_shouldStart := false |>)
  end.

Definition newMiner (w : worker) : Miner := mkMiner w 0 false true true 0.

(** ** What it promises *)

(** The last command of the user was to start, with this address. *)
Fixpoint wanted (a : option Address) (evs : list minerEvent) : option Address :=
  match evs with
  | [] => a
  | StartMiner b :: evs => wanted (Some b) evs
  | StopMiner :: evs => wanted None evs
  | _ :: evs => wanted a evs
  end.

(** A synchronisation is in progress; [None] once one was done. *)
Fixpoint syncing (s : option bool) (evs : list minerEvent) : option bool :=
  match evs with
  | [] => s
  | DownloaderStart :: evs => syncing ((fun _ => true) <$> s) evs
  | DownloaderFailed :: evs => syncing ((fun _ => false) <$> s) evs
  | DownloaderDone :: evs => syncing None evs
  | _ :: evs => syncing s evs
  end.

(** The loop is in the state that [a] and [s] describe. *)
Record follows (a : option Address) (s : option bool) (m : Miner) : Prop := {
  fo_should : mn_shouldStart m = bool_decide (is_Some a);
  fo_can : mn_canStart m = negb (default false s);
  fo_subscribed : mn_subscribed m = bool_decide (is_Some s);
  fo_running : Mining m = mn_shouldStart m && mn_canStart m;
  fo_coinbase b : a = Some b -> w_coinbase (mn_worker m) = b /\ mn_coinbase m = b
}.

Lemma update_follows a s m ev : follows a s m -> follows (wanted a [ev]) (syncing s [ev]) (update m ev).
Proof.
  intros [Hs Hc Hsub Hr Hb]. destruct m as [w cb should can sub starts]. unfold Mining in *. cbn in *. subst should can sub.
  destruct ev; cbn; unfold resume, startWorker, stopWorker, SetEtherbase, Mining; cbn.
  - destruct s as [s|]; cbn; [|by split].
    destruct a as [a|]; cbn in *; rewrite Hr; [|by split]. by destruct s; cbn; split.
  - destruct s as [s|]; cbn; [|by split]. destruct a as [a|]; cbn; [|by split].
    destruct (Hb a eq_refl). by split; intros; simplify_eq.
  - destruct s as [s|]; cbn; [|by split]. destruct a as [a|]; cbn; [|by split].
    destruct (Hb a eq_refl). by split; intros; simplify_eq.
  - destruct s as [[]|]; cbn in *; rewrite ?andb_false_r in *; split; cbn; intros; by simplify_eq.
  - split; done.
Qed.

(** After any events the miner runs exactly when the last command was to
    start it and no synchronisation is in progress, and then for the address
    of that command; the downloader is no longer followed once a
    synchronisation was done. *)
Theorem miner_follows w evs : w_running w = false ->
  let m := fold_left update evs (newMiner w) in
  Mining m = bool_decide (is_Some (wanted None evs)) && negb (default false (syncing (Some false) evs)) /\
  forall a, wanted None evs = Some a -> w_coinbase (mn_worker m) = a.
Proof.
  intros Hw.
  assert (forall evs a s m, follows a s m -> follows (wanted a evs) (syncing s evs) (fold_left update evs m)) as Hall.
  { induction evs0 as [|ev evs0 IH]; intros a s m Hm; [done|]. cbn [fold_left].
    pose proof (IH _ _ _ (update_follows a s m ev Hm)) as Hf. by destruct ev. }
  destruct (Hall evs None (Some false) (newMiner w)) as [Hs Hc Hsub Hr Hb]; [by split|].
  cbn zeta. rewrite Hr, Hs, Hc. split; [done|]. intros a Ha. by apply Hb.
Qed.
