(* ===== verification/PoolFacts.v ===== *)
(** * The pool operations keep the pool well formed and the books untouched

    [pool_ok]: the lists, the lookup and the price heap are well formed.
    [same_acks]: the acknowledgement books, the confirmed transactions and the
    configuration are unchanged.  Every operation of the pool but the
    acknowledgement handlers returns, keeps the former and implies the
    latter ([good]). *)

From stdpp Require Import sorting.
From S2P Require Import Prelude Rlp Params Transaction Block AccessList StateDB Journal StateTransition Heap TxList TxLookup Prque TxPool.

Section Facts.
Context `{Crypto} `{Database}.

Record same_acks (p p' : TxPool) : Prop := {
  sa_config : config p' = config p;
  sa_signer : signer p' = signer p;
  sa_expected : expectedAckNonce p' = expectedAckNonce p;
  sa_stake : stakeState p' = stakeState p;
  sa_confirmed : confirmed p' = confirmed p;
  sa_unconfirmed : unconfirmed p' = unconfirmed p;
  sa_received : stakeReceived p' = stakeReceived p;
  sa_voted : voted p' = voted p
}.

#[export] Instance same_acks_preorder : PreOrder same_acks.
Proof. split; [intros p; by split|]. intros p q r [] []. split; congruence. Qed.

(** A map of lists of the given strictness, each representing some sorted
    list. *)
Definition lists_ok (b : bool) (m : gmap Address txList) : Prop :=
  forall a l, m !! a = Some l -> strict l = b /\ exists ts, tl_ok l ts.

Record pool_ok (p : TxPool) : Prop := {
  po_pending : lists_ok true (pending p);
  po_queue : lists_ok false (queue p);
  po_priced : heap priceLess (pheap (priced p));
  po_all : lk_ok (all p)
}.

(** No hash is added to the lookup. *)
Definition shrinks (p p' : TxPool) : Prop :=
  forall h, lk_Get (all p) h = None -> lk_Get (all p') h = None.

#[export] Instance shrinks_preorder : PreOrder shrinks.
Proof. split; [by intros p h|]. intros p q r H1 H2 h Hh. auto. Qed.

Lemma shrinks_all p p' : all p' = all p -> shrinks p p'.
Proof. intros E h. by rewrite E. Qed.
#[local] Hint Resolve shrinks_all : core.

Record good (p p' : TxPool) : Prop := {
  g_acks : same_acks p p';
  g_ok : pool_ok p'
}.

Lemma good_refl p : pool_ok p -> good p p.
Proof. by split. Qed.
Lemma good_trans p q r : good p q -> good q r -> good p r.
Proof. intros [A1 _] [A2 O2]. split; [by etrans|done]. Qed.

Lemma lists_insert b m a l ts : lists_ok b m -> strict l = b -> tl_ok l ts -> lists_ok b (<[a := l]> m).
Proof.
  intros Hm Hs Hl a' l'. rewrite lookup_insert. case_decide; [intros [= <-]; eauto|apply Hm].
Qed.

Lemma lists_delete b m a : lists_ok b m -> lists_ok b (delete a m).
Proof. intros Hm a' l' [_ Hl]%lookup_delete_Some. eauto. Qed.

(** The list of an account, new when there is none. *)
Lemma lists_default b m a : lists_ok b m ->
  strict (default (newTxList b) (m !! a)) = b /\ exists ts, tl_ok (default (newTxList b) (m !! a)) ts.
Proof.
  intros Hm. destruct (m !! a) as [l|] eqn:E; [by apply (Hm a)|]. split; [done|].
  exists []. apply newTxList_ok.
Qed.

Lemma pl_Removed_heap al pl n : heap priceLess (pheap pl) -> heap priceLess (pheap (pl_Removed al pl n)).
Proof. intros Hh. unfold pl_Removed. case_match; [done|]. simpl. apply (proj1 (Init_heap priceLess _)). Qed.

Lemma pl_Put_heap pl tx b : heap priceLess (pheap pl) -> heap priceLess (pheap (pl_Put pl tx b)).
Proof. intros Hh. unfold pl_Put. destruct b; [done|]. apply (proj1 (Push_heap priceLess _ tx Hh)). Qed.

(** *** Simple updates *)

Lemma allRemove_good p h : pool_ok p -> good p (allRemove p h).
Proof. intros [H1 H2 H3 H4]. split; [done|]. split; try done. simpl. by apply lk_Remove_ok. Qed.
Lemma allRemove_shrinks p h : shrinks p (allRemove p h).
Proof. intros k Hk. simpl. rewrite lk_Get_Remove. by case_decide. Qed.

Lemma pricedRemoved_good p n : pool_ok p -> good p (pricedRemoved p n).
Proof. intros [H1 H2 H3 H4]. split; [done|]. split; try done. simpl. by apply pl_Removed_heap. Qed.

(** Updates of the fields [pool_ok] does not read. *)
Lemma good_quiet p p' : same_acks p p' -> pending p' = pending p -> queue p' = queue p ->
  priced p' = priced p -> all p' = all p -> pool_ok p -> good p p'.
Proof. intros A E1 E2 E3 E4 []. split; [done|]. split; by rewrite ?E1, ?E2, ?E3, ?E4. Qed.

Lemma journalTx_good p from tx : pool_ok p -> good p (journalTx p from tx).
Proof. unfold journalTx. intros. repeat case_match; by apply good_quiet. Qed.

(** The replaced transaction leaves the lookup. *)
Definition dropOld (p : TxPool) (old : option Transaction) : TxPool :=
  match old with Some o => pricedRemoved (allRemove p (TxHash o)) 1 | None => p end.

Lemma dropOld_good p old : pool_ok p -> good p (dropOld p old).
Proof.
  intros Hp. destruct old; [|by apply good_refl]. simpl.
  eapply good_trans; [by apply allRemove_good|]. by apply pricedRemoved_good, allRemove_good.
Qed.
Lemma dropOld_shrinks p old : shrinks p (dropOld p old).
Proof. destruct old; [apply (allRemove_shrinks p)|done]. Qed.

Lemma allAdd_good p tx local : pool_ok p -> lk_Get (all p) (TxHash tx) = None ->
  good p (p <| all := lk_Add (all p) tx local |> <| priced := pl_Put (priced p) tx local |>).
Proof.
  intros [H1 H2 H3 H4] Hn. split; [done|]. split; simpl; try done; [by apply pl_Put_heap|by apply lk_Add_ok].
Qed.

(** *** enqueueTx *)

Lemma enqueueTx_good now p h tx local addAll : pool_ok p -> is_u64 (Nonce tx) ->
  (addAll = true -> lk_Get (all p) (TxHash tx) = None) ->
  good p (enqueueTx now p h tx local addAll).1.1 /\
  (addAll = false -> shrinks p (enqueueTx now p h tx local addAll).1.1).
Proof.
  intros Hp Hn Hall. unfold enqueueTx. set (from := senderOr0 (signer p) tx).
  destruct (lists_default false (queue p) from (po_queue _ Hp)) as [Hst [ts Hts]].
  pose proof (tl_Add_ok _ ts tx (PriceBump (config p)) Hts Hn) as Hadd.
  assert (strict (tl_Add (default (newTxList false) (queue p !! from)) tx (PriceBump (config p))).1.1 = false) as Hst'.
  { by rewrite tl_Add_strict. }
  destruct (tl_Add _ _ _) as [[l ins] old]. destruct Hadd as [Hadd _]. simpl in Hst'.
  set (q := p <| queue := <[from := l]> (queue p) |>).
  assert (good p q) as Hq.
  { split; [done|]. destruct (Hp). split; try done. simpl. destruct ins.
    - by apply (lists_insert false _ _ _ (put_ref tx ts)); [|done|apply Hadd].
    - destruct Hadd as [-> _]. by apply (lists_insert false _ _ _ ts). }
  destruct ins; [|split; [exact Hq|by intros _ k]]. cbn [negb]. fold (dropOld q old).
  pose proof (dropOld_good q old (g_ok _ _ Hq)) as Hd. pose proof (dropOld_shrinks q old) as Hsh.
  set (r := dropOld q old) in *.
  set (r' := if addAll then _ else r).
  assert (good r r' /\ (addAll = false -> shrinks r r')) as [Hr' Hs'].
  { unfold r'. destruct addAll; [|split; [apply good_refl, Hd|done]]. split; [|done].
    apply allAdd_good; [apply Hd|]. by apply Hsh, Hall. }
  assert (good p r') as Hpr by (eapply good_trans; [exact Hq|]; by eapply good_trans).
  destruct (beats r' !! from); (split; [|intros Ea]); try done.
  - intros k Hk. apply (Hs' Ea), Hsh. exact Hk.
  - eapply good_trans; [exact Hpr|]. apply good_quiet; try done. apply Hpr.
  - intros k Hk. simpl. apply (Hs' Ea), Hsh. exact Hk.
Qed.

Definition requeue (now : Z) (p : TxPool) (l : list Transaction) : TxPool :=
  fold_left (fun pool tx => (enqueueTx now pool (TxHash tx) tx false false).1.1) l p.

Lemma requeue_good now l p : pool_ok p -> Forall (fun tx => is_u64 (Nonce tx)) l ->
  good p (requeue now p l) /\ shrinks p (requeue now p l).
Proof.
  intros Hp Hl. revert p Hp. unfold requeue.
  induction Hl as [|tx l Htx _ IH]; intros p Hp; simpl; [by split; [apply good_refl|]|].
  destruct (enqueueTx_good now p (TxHash tx) tx false false Hp Htx) as [Hg Hs]; [done|].
  destruct (IH _ (g_ok _ _ Hg)) as [Hg' Hs']. split; [by eapply good_trans|]. etrans; [by apply Hs|done].
Qed.

(** *** removeTx *)

Lemma tl_Remove_inv l tx ts : tl_ok l ts ->
  exists l' b invalids ts', tl_Remove l tx = Ret (l', b, invalids) /\ strict l' = strict l /\ tl_ok l' ts' /\
    Forall (fun x => is_u64 (Nonce x)) invalids.
Proof.
  intros Hl. destruct (tl_Remove_ok l ts tx Hl) as (l' & inv & E & Hs & Hcase).
  pose proof (tl_ok_range l ts Hl) as Hr. rewrite Forall_forall in Hr.
  destruct (_ && _) in Hcase; destruct Hcase as [Hok Hinv]; eexists _, _, _, _; split_and!;
    try done; apply Forall_forall; intros x Hx.
  - rewrite Hinv in Hx. apply list_elem_of_filter in Hx as [_ Hx]. auto.
  - rewrite Hinv in Hx. by apply elem_of_nil in Hx.
Qed.

Lemma removePending_good now p addr tx : pool_ok p ->
  exists p' b, removePending now p addr tx = Ret (p', b) /\ good p p' /\ shrinks p p'.
Proof.
  intros Hp. unfold removePending. destruct (pending p !! addr) as [l|] eqn:E.
  2:{ eexists _, _. split; [done|]. split; [by apply good_refl|done]. }
  destruct (po_pending _ Hp addr l E) as [Hst [ts Hts]].
  destruct (tl_Remove_inv l tx ts Hts) as (l' & b & inv & ts' & -> & Hst' & Hts' & Hinv).
  cbn [mbind outcome_bind].
  assert (forall m, lists_ok true m -> good p (p <| pending := m |>)) as Hg.
  { intros m Hm. split; [done|]. by destruct Hp. }
  assert (lists_ok true (<[addr := l']> (pending p))) as Hins.
  { apply (lists_insert _ _ _ _ ts'); [apply Hp|congruence|done]. }
  destruct b; [|eexists _, _; split; [done|]; split; [by apply Hg|auto]].
  set (q := p <| pending := _ |>).
  assert (good p q) as Hq.
  { apply Hg. destruct (tl_Empty l'); [apply lists_delete, Hp|done]. }
  fold (requeue now q inv).
  destruct (requeue_good now inv q (g_ok _ _ Hq) Hinv) as [Hr Hs].
  eexists _, _. split; [done|]. split.
  - eapply good_trans; [exact Hq|]. eapply good_trans; [exact Hr|]. by apply good_quiet; try done; apply Hr.
  - intros k Hk. simpl. by apply Hs.
Qed.

Lemma removeQueued_good p addr tx : pool_ok p ->
  exists p', removeQueued p addr tx = Ret p' /\ good p p' /\ shrinks p p'.
Proof.
  intros Hp. unfold removeQueued. destruct (queue p !! addr) as [l|] eqn:E.
  2:{ eexists. split; [done|]. split; [by apply good_refl|done]. }
  destruct (po_queue _ Hp addr l E) as [Hst [ts Hts]].
  destruct (tl_Remove_inv l tx ts Hts) as (l' & b & inv & ts' & -> & Hst' & Hts' & _).
  cbn [mbind outcome_bind]. eexists. split; [done|].
  split; [|destruct (tl_Empty l'); auto]. destruct (Hp).
  destruct (tl_Empty l'); (split; [done|]; split; try done); simpl.
  - by apply lists_delete.
  - apply (lists_insert _ _ _ _ ts'); congruence || done.
Qed.

Lemma removeTx_good now p h b : pool_ok p ->
  exists p', removeTx now p h b = Ret p' /\ good p p' /\ shrinks p p'.
Proof.
  intros Hp. unfold removeTx. destruct (lk_Get (all p) h) as [tx|].
  2:{ eexists. split; [done|]. split; [by apply good_refl|done]. }
  set (q := if b then _ else _).
  assert (good p q /\ shrinks p q) as [Hq Hsq].
  { pose proof (allRemove_good p h Hp) as Hg. pose proof (allRemove_shrinks p h) as Hs.
    unfold q. destruct b; [|done]. split; [|done]. eapply good_trans; [exact Hg|]. apply pricedRemoved_good, Hg. }
  cbv zeta.
  destruct (removePending_good now q (senderOr0 (signer p) tx) tx (g_ok _ _ Hq)) as (r & dn & -> & Hr & Hsr).
  cbn [mbind outcome_bind].
  assert (good p r) by by eapply good_trans. assert (shrinks p r) by by etrans.
  destruct dn; [by eauto|].
  destruct (removeQueued_good r (senderOr0 (signer p) tx) tx (g_ok _ _ Hr)) as (r' & -> & Hr' & Hs').
  eexists. split; [done|]. split; [by eapply good_trans|by etrans].
Qed.

Lemma foldM_good {A} (f : TxPool -> A -> outcome TxPool) l p : pool_ok p ->
  (forall p x, x ∈ l -> pool_ok p -> exists p', f p x = Ret p' /\ good p p') ->
  exists p', foldM f p l = Ret p' /\ good p p'.
Proof.
  intros Hp Hf. revert p Hp. induction l as [|x l IH]; intros p Hp; simpl.
  { eexists. split; [done|by apply good_refl]. }
  destruct (Hf p x ltac:(left) Hp) as (q & -> & Hq).
  destruct (IH ltac:(intros; apply Hf; [by right|done]) q (g_ok _ _ Hq)) as (r & -> & Hr).
  eexists. split; [done|by eapply good_trans].
Qed.

Lemma removeTxs_good now p l b : pool_ok p ->
  exists p', removeTxs now p l b = Ret p' /\ good p p' /\ shrinks p p'.
Proof.
  intros Hp. unfold removeTxs. revert p Hp. induction l as [|tx l IH]; intros p Hp; simpl.
  { eexists. split; [done|]. split; [by apply good_refl|done]. }
  destruct (removeTx_good now p (TxHash tx) b Hp) as (q & -> & Hq & Hsq).
  destruct (IH q (g_ok _ _ Hq)) as (r & -> & Hr & Hsr).
  eexists. split; [done|]. split; [by eapply good_trans|by etrans].
Qed.

(** *** add *)

Lemma set_priced_good p pl : pool_ok p -> heap priceLess (pheap pl) -> good p (p <| priced := pl |>).
Proof. intros [] Hh. by split. Qed.

Lemma makeRoom_good now p tx isLocal : pool_ok p ->
  exists p' err, makeRoom now p tx isLocal = Ret (p', err) /\ good p p' /\ shrinks p p'.
Proof.
  intros Hp. unfold makeRoom. cbv zeta. set (limit := u64 _).
  case_match; [|eexists _, _; split; [done|]; split; [by apply good_refl|done]].
  assert (exists q under, (if isLocal then Ret (p, false)
    else '(pl, b) ← pl_Underpriced (all p) (priced p) tx; Ret (p <| priced := pl |>, b)) = Ret (q, under) /\
    good p q /\ all q = all p) as (q & under & -> & Hq & Eq).
  { destruct isLocal; [eexists _, _; split; [done|]; split; [by apply good_refl|done]|].
    destruct (Underpriced_ok (all p) (priced p) tx (po_priced _ Hp)) as (pl & b & -> & Hh & _).
    eexists _, _. split; [done|]. split; [by apply set_priced_good|done]. }
  cbn [mbind outcome_bind]. assert (shrinks p q) as Hsq by (intros k; by rewrite Eq).
  destruct under; [by eauto 10|].
  destruct (Discard_ok (all q) (priced q) (lk_Slots (all q) - int64 limit + numSlots tx) isLocal
    (po_priced _ (g_ok _ _ Hq))) as (pl & drop & ok & -> & Hh & _). cbn [mbind outcome_bind].
  set (r := q <| priced := pl |>).
  assert (good p r) as Hr by (eapply good_trans; [exact Hq|]; apply set_priced_good; [apply Hq|done]).
  case_match; [by eauto 10|].
  destruct (removeTxs_good now r drop false (g_ok _ _ Hr)) as (t & -> & Ht & Hst). cbn [mbind outcome_bind].
  eexists _, _. split; [done|]. split; [by eapply good_trans|]. etrans; [exact Hsq|]. exact Hst.
Qed.

Lemma replacePending_good now p from l ts tx isLocal : pool_ok p -> strict l = true -> tl_ok l ts ->
  is_u64 (Nonce tx) -> lk_Get (all p) (TxHash tx) = None ->
  good p (replacePending now p from l tx isLocal).1.1.
Proof.
  intros Hp Hst Hts Hn Hnone. unfold replacePending.
  pose proof (tl_Add_ok l ts tx (PriceBump (config p)) Hts Hn) as Hadd.
  pose proof (tl_Add_strict l tx (PriceBump (config p))) as Hst'.
  destruct (tl_Add _ _ _) as [[l' ins] old]. destruct Hadd as [Hadd _]. simpl in Hst'.
  set (q := p <| pending := <[from := l']> (pending p) |>).
  assert (good p q) as Hq.
  { split; [done|]. destruct (Hp). split; try done. simpl. destruct ins.
    - by apply (lists_insert true _ _ _ (put_ref tx ts)); [|congruence|apply Hadd].
    - destruct Hadd as [-> _]. by apply (lists_insert true _ _ _ ts). }
  destruct ins; [|exact Hq]. cbn [negb]. fold (dropOld q old).
  pose proof (dropOld_good q old (g_ok _ _ Hq)) as Hd.
  pose proof (allAdd_good (dropOld q old) tx isLocal (g_ok _ _ Hd) (dropOld_shrinks q old _ Hnone)) as Ha.
  set (r := (dropOld q old) <| all := _ |> <| priced := _ |>) in *.
  pose proof (journalTx_good r from tx (g_ok _ _ Ha)) as Hj.
  eapply good_trans; [exact Hq|]. eapply good_trans; [exact Hd|]. eapply good_trans; [exact Ha|].
  eapply good_trans; [exact Hj|]. simpl. apply good_quiet; try done. apply Hj.
Qed.

Lemma queueNew_good now p from tx local isLocal : pool_ok p -> is_u64 (Nonce tx) ->
  lk_Get (all p) (TxHash tx) = None -> good p (queueNew now p from tx local isLocal).1.1.
Proof.
  intros Hp Hn Hnone. unfold queueNew.
  destruct (enqueueTx_good now p (TxHash tx) tx isLocal true Hp Hn) as [Hq _]; [done|].
  destruct (enqueueTx now p (TxHash tx) tx isLocal true) as [[q replaced] err]. simpl in Hq.
  destruct err; [exact Hq|]. set (r := if local && _ then _ else q).
  assert (good q r) as Hr.
  { unfold r. case_match; [|apply good_refl, Hq].
    pose proof (lk_RemoteToLocals_ok (all q) (as_add (tp_locals q) from) (po_all _ (g_ok _ _ Hq))) as Hlk.
    simpl. destruct (lk_RemoteToLocals (all q) (as_add (tp_locals q) from)) as [lk migrated]. simpl in Hlk.
    set (t := q <| tp_locals := _ |> <| all := lk |>).
    assert (good q t) as Ht by (destruct (g_ok _ _ Hq); split; [done|]; split; try done; apply Hlk).
    eapply good_trans; [exact Ht|]. apply pricedRemoved_good, Ht. }
  eapply good_trans; [exact Hq|]. eapply good_trans; [exact Hr|]. apply journalTx_good, Hr.
Qed.

Lemma add_good now p tx local : pool_ok p -> is_u64 (Nonce tx) ->
  exists p' replaced err, add now p tx local = Ret (p', replaced, err) /\ good p p'.
Proof.
  intros Hp Hn. unfold add. case_bool_decide as Hk; [eexists _, _, _; split; [done|by apply good_refl]|].
  assert (lk_Get (all p) (TxHash tx) = None) as Hnone by (destruct (lk_Get _ _); [by destruct Hk|done]).
  cbv zeta. set (isLocal := local || _).
  case_match; [eexists _, _, _; split; [done|by apply good_refl]|].
  destruct (makeRoom_good now p tx isLocal Hp) as (q & err & -> & Hq & Hs). cbn [mbind outcome_bind].
  destruct err as [e|]; [by eauto 10|]. set (from := senderOr0 (signer q) tx).
  pose proof (queueNew_good now q from tx local isLocal (g_ok _ _ Hq) Hn (Hs _ Hnone)) as Hqn.
  assert (exists p' replaced err, Ret (queueNew now q from tx local isLocal) = Ret (p', replaced, err) /\ good p p') as Hnew.
  { destruct (queueNew now q from tx local isLocal) as [[r b] e]. eexists _, _, _. split; [done|].
    by eapply good_trans. }
  destruct (pending q !! from) as [l|] eqn:El; [|done]. destruct (tl_Overlaps l tx); [|done].
  destruct (po_pending _ (g_ok _ _ Hq) from l El) as [Hst [ts Hts]].
  pose proof (replacePending_good now q from l ts tx isLocal (g_ok _ _ Hq) Hst Hts Hn (Hs _ Hnone)) as Hrp.
  destruct (replacePending now q from l tx isLocal) as [[r b] e]. eexists _, _, _. split; [done|].
  by eapply good_trans.
Qed.


Lemma addTxsLocked_good now p l local : pool_ok p -> Forall (fun tx => is_u64 (Nonce tx)) l ->
  exists p' errs dirty, addTxsLocked now p l local = Ret (p', errs, dirty) /\ good p p' /\ length errs = length l.
Proof.
  intros Hp Hl. unfold addTxsLocked.
  set (f := fun '(_, _, _) _ => _).
  enough (forall errs d, exists p' errs' d', foldM f (p, errs, d) l = Ret (p', errs', d') /\ good p p' /\
    length errs' = (length errs + length l)%nat) as Hf by apply (Hf []).
  revert p Hp. induction Hl as [|tx l Htx _ IH]; intros p Hp errs d; simpl.
  { eexists _, _, _. split; [done|]. split; [by apply good_refl|lia]. }
  destruct (add_good now p tx local Hp Htx) as (q & rep & err & -> & Hq). cbn [mbind outcome_bind].
  destruct (IH q (g_ok _ _ Hq) (errs ++ [err])
    (if bool_decide (err = None) && negb rep then as_addTx d tx else d)) as (r & errs' & d' & -> & Hr & Hlen).
  eexists _, _, _. split; [done|]. split; [by eapply good_trans|]. rewrite Hlen, length_app. simpl. lia.
Qed.

(** *** Promotion and demotion *)

Lemma promoteTx_good now p addr h tx : pool_ok p -> is_u64 (Nonce tx) ->
  good p (promoteTx now p addr h tx).1 /\ queue (promoteTx now p addr h tx).1 = queue p.
Proof.
  intros Hp Hn. unfold promoteTx.
  destruct (lists_default true (pending p) addr (po_pending _ Hp)) as [Hst [ts Hts]].
  pose proof (tl_Add_ok _ ts tx (PriceBump (config p)) Hts Hn) as Hadd.
  assert (strict (tl_Add (default (newTxList true) (pending p !! addr)) tx (PriceBump (config p))).1.1 = true) as Hst'.
  { by rewrite tl_Add_strict. }
  destruct (tl_Add _ _ _) as [[l ins] old]. destruct Hadd as [Hadd _]. simpl in Hst'.
  set (q := p <| pending := <[addr := l]> (pending p) |>).
  assert (good p q) as Hq.
  { split; [done|]. destruct (Hp). split; try done. simpl. destruct ins.
    - by apply (lists_insert true _ _ _ (put_ref tx ts)); [|done|apply Hadd].
    - destruct Hadd as [-> _]. by apply (lists_insert true _ _ _ ts). }
  destruct ins; cbn [negb]; (split; [eapply good_trans; [exact Hq|]|]).
  - fold (dropOld q old). pose proof (dropOld_good q old (g_ok _ _ Hq)) as Hd.
    eapply good_trans; [exact Hd|]. apply good_quiet; try done. apply Hd.
  - by destruct old.
  - eapply good_trans; [apply allRemove_good, Hq|]. apply pricedRemoved_good, allRemove_good, Hq.
  - done.
Qed.

Lemma removeAll_good l p : pool_ok p -> good p (removeAll p l).
Proof.
  unfold removeAll. revert p. induction l as [|tx l IH]; intros p Hp; simpl; [by apply good_refl|].
  eapply good_trans; [by apply allRemove_good|]. by apply IH, allRemove_good.
Qed.

(** The promotion of the ready transactions of an account. *)
Definition promoteTxs (now : Z) (addr : Address) (p : TxPool) (l : list Transaction) : TxPool * list Transaction :=
  fold_left (fun '(pool, promoted) tx =>
               let '(pool, ok) := promoteTx now pool addr (TxHash tx) tx in
               (pool, if ok then promoted ++ [tx] else promoted)) l (p, []).

Lemma promoteTxs_good now addr l p : pool_ok p -> Forall (fun tx => is_u64 (Nonce tx)) l ->
  good p (promoteTxs now addr p l).1.
Proof.
  intros Hp Hl. unfold promoteTxs. set (f := fun '(_, _) _ => _).
  enough (forall acc, good p (fold_left f l (p, acc)).1) as Hf by apply Hf.
  revert p Hp. induction Hl as [|tx l Htx _ IH]; intros p Hp acc; simpl; [by apply good_refl|].
  destruct (promoteTx_good now p addr (TxHash tx) tx Hp Htx) as [Hg _].
  destruct (promoteTx now p addr (TxHash tx) tx) as [q ok]. simpl in Hg.
  eapply good_trans; [exact Hg|]. apply IH, Hg.
Qed.

(** Storing the list of an account, or dropping it when it is empty. *)
Lemma set_queue_good p addr l ts bs : pool_ok p -> strict l = false -> tl_ok l ts ->
  good p (if tl_Empty l then p <| queue := delete addr (queue p) |> <| beats := bs |>
          else p <| queue := <[addr := l]> (queue p) |>).
Proof.
  intros [] Hs Hts. destruct (tl_Empty l); (split; [done|]; split; try done; simpl).
  - by apply lists_delete.
  - by apply (lists_insert _ _ _ _ ts).
Qed.

Lemma promoteAccount_good now p addr : pool_ok p ->
  exists p' new, promoteAccount now p addr = Ret (p', new) /\ good p p'.
Proof.
  intros Hp. unfold promoteAccount. destruct (queue p !! addr) as [l|] eqn:E.
  2:{ eexists _, _. split; [done|by apply good_refl]. }
  destruct (po_queue _ Hp addr l E) as [Hst [ts Hts]].
  destruct (tl_Forward_ok l ts (default 0 (expectedAckNonce p !! addr)) Hts) as (l1 & -> & Hl1 & Hs1).
  cbn [mbind outcome_bind]. cbv zeta. set (fw := filter (fun x => Nonce x < _) ts).
  set (q1 := removeAll p fw). assert (good p q1) as G1 by by apply removeAll_good.
  pose proof (tl_Filter_ok l1 _ (GetBalance (currentState q1) addr) (currentMaxGas q1) Hl1) as Hf.
  destruct (tl_Filter l1 _ _) as [[l2 drops] inv]. destruct Hf as (Hl2 & _ & _ & Hs2).
  set (q2 := removeAll q1 drops). assert (good p q2) as G2 by (eapply good_trans; [exact G1|]; apply removeAll_good, G1).
  destruct (noncer_get (pendingNonces q2) addr) as [nc start].
  set (q3 := q2 <| pendingNonces := nc |>).
  assert (good p q3) as G3 by (eapply good_trans; [exact G2|]; apply good_quiet; try done; apply G2).
  destruct (tl_Ready_ok l2 _ start Hl2) as (l3 & -> & Hl3 & Hs3). cbn [mbind outcome_bind].
  set (rd := (ready_ref start _).1) in *. fold (promoteTxs now addr q3 rd).
  assert (good p (promoteTxs now addr q3 rd).1) as G4.
  { eapply good_trans; [exact G3|]. apply promoteTxs_good; [apply G3|].
    pose proof (tl_ok_range _ _ Hl2) as Hr. rewrite <- (ready_ref_app start _) in Hr.
    by apply Forall_app in Hr as [Hr _]. }
  destruct (promoteTxs now addr q3 rd) as [q4 new]. simpl in G4.
  assert (exists l4 caps ts4, (if as_contains (tp_locals q4) addr then Ret (l3, [])
     else tl_Cap l3 (Z.to_nat (AccountQueue (config q4)))) = Ret (l4, caps) /\ tl_ok l4 ts4 /\ strict l4 = strict l3)
    as (l4 & caps & ts4 & -> & Hl4 & Hs4).
  { destruct (as_contains _ _); [by eauto 10|].
    destruct (tl_Cap_ok l3 _ (Z.to_nat (AccountQueue (config q4))) Hl3) as (l4 & -> & ? & ?). by eauto 10. }
  cbn [mbind outcome_bind]. eexists _, _. split; [done|].
  set (q5 := pricedRemoved _ _).
  assert (good p q5) as G5.
  { eapply good_trans; [exact G4|]. pose proof (removeAll_good caps q4 (g_ok _ _ G4)) as G.
    eapply good_trans; [exact G|]. apply pricedRemoved_good, G. }
  eapply good_trans; [exact G5|]. apply (set_queue_good _ _ _ ts4); [apply G5|congruence|done].
Qed.

Lemma promoteExecutables_good now p accounts : pool_ok p ->
  exists p' new, promoteExecutables now p accounts = Ret (p', new) /\ good p p'.
Proof.
  intros Hp. unfold promoteExecutables. set (f := fun '(_, _) _ => _).
  enough (forall acc, exists p' new, foldM f (p, acc) accounts = Ret (p', new) /\ good p p') as Hf by apply Hf.
  revert p Hp.
  induction accounts as [|a l IH]; intros p Hp acc; simpl.
  { eexists _, _. split; [done|by apply good_refl]. }
  destruct (promoteAccount_good now p a Hp) as (q & new & -> & Hq). cbn [mbind outcome_bind].
  destruct (IH q (g_ok _ _ Hq) (acc ++ new)) as (r & new' & -> & Hr).
  eexists _, _. split; [done|by eapply good_trans].
Qed.


Lemma demoteAccount_good now p addr : pool_ok p -> exists p', demoteAccount now p addr = Ret p' /\ good p p'.
Proof.
  intros Hp. unfold demoteAccount. destruct (pending p !! addr) as [l|] eqn:E.
  2:{ eexists. split; [done|by apply good_refl]. }
  destruct (po_pending _ Hp addr l E) as [Hst [ts Hts]]. cbv zeta. set (nonce := default 0 _).
  destruct (tl_Forward_ok l ts nonce Hts) as (l1 & -> & Hl1 & Hs1).
  cbn [mbind outcome_bind]. set (fw := filter (fun x => Nonce x < _) ts).
  set (q1 := removeAll p fw). assert (good p q1) as G1 by by apply removeAll_good.
  pose proof (tl_Filter_ok l1 _ (GetBalance (currentState q1) addr) (currentMaxGas q1) Hl1) as Hf.
  destruct (tl_Filter l1 _ _) as [[l2 drops] inv]. destruct Hf as (Hl2 & _ & Hinv & Hs2).
  set (q2 := pricedRemoved _ _).
  assert (good p q2) as G2.
  { eapply good_trans; [exact G1|]. pose proof (removeAll_good drops q1 (g_ok _ _ G1)) as G.
    eapply good_trans; [exact G|]. apply pricedRemoved_good, G. }
  fold (requeue now q2 inv).
  assert (good p (requeue now q2 inv)) as G3.
  { eapply good_trans; [exact G2|]. apply requeue_good; [apply G2|]. apply Forall_forall.
    intros tx [Htx _]%Hinv. pose proof (tl_ok_range _ _ Hl1) as Hr. rewrite Forall_forall in Hr. auto. }
  set (q3 := requeue now q2 inv) in *.
  set (m := if _ && _ then tl_Cap l2 0 else _).
  assert (exists l3 gapped ts3, m = Ret (l3, gapped) /\ tl_ok l3 ts3 /\ strict l3 = strict l2 /\
    Forall (fun tx => is_u64 (Nonce tx)) gapped) as (l3 & gapped & ts3 & -> & Hl3 & Hs3 & Hgap).
  { unfold m. case_match; [|eexists _, _, _; by split_and!].
    destruct (tl_Cap_ok l2 _ 0 Hl2) as (l3 & -> & ? & ?). eexists _, _, _. split_and!; [done..|].
    apply Forall_reverse. rewrite drop_0. by eapply tl_ok_range. }
  cbn [mbind outcome_bind]. fold (requeue now q3 gapped).
  pose proof (requeue_good now gapped q3 (g_ok _ _ G3) Hgap) as [G4 _].
  eexists. split; [done|]. eapply good_trans; [exact G3|]. eapply good_trans; [exact G4|].
  destruct (g_ok _ _ G4). split; [done|]. split; try done. simpl.
  destruct (tl_Empty l3); [by apply lists_delete|]. apply (lists_insert _ _ _ _ ts3); [done|congruence|done].
Qed.

Lemma demoteUnexecutables_good now p : pool_ok p ->
  exists p', demoteUnexecutables now p = Ret p' /\ good p p'.
Proof. intros Hp. apply foldM_good; [done|]. intros q a _ Hq. by apply demoteAccount_good. Qed.

(** *** Prices and eviction *)

Lemma SetGasPrice_good now p price : pool_ok p -> exists p', SetGasPrice now p price = Ret p' /\ good p p'.
Proof.
  intros Hp. unfold SetGasPrice. cbv zeta. simpl.
  destruct (Cap_ok (all p) (priced p) price (po_priced _ Hp)) as (pl & drop & -> & Hh & _).
  cbn [mbind outcome_bind]. set (q := _ <| priced := pl |>).
  assert (good p q) as Hq by (destruct Hp; by split).
  destruct (removeTxs_good now q drop false (g_ok _ _ Hq)) as (r & -> & Hr & _).
  eexists. split; [done|by eapply good_trans].
Qed.

Lemma evict_good now p : pool_ok p -> exists p', evict now p = Ret p' /\ good p p'.
Proof.
  intros Hp0. apply foldM_good; [done|]. generalize (map_to_list (queue p)).*1 as addrs.
  clear p Hp0. intros addrs p a _ Hp.
  destruct (queue p !! a) as [l|] eqn:E; [|eexists; split; [done|by apply good_refl]].
  case_match; [eexists; split; [done|by apply good_refl]|].
  case_match; [|eexists; split; [done|by apply good_refl]].
  destruct (po_queue _ Hp a l E) as [Hst [ts Hts]].
  destruct (tl_Flatten_ok l ts Hts) as (l' & -> & Hl' & Hs').
  set (q := p <| queue := _ |>).
  assert (good p q) as Hq.
  { destruct Hp. split; [done|]. split; try done. by apply (lists_insert _ _ _ _ ts); [|congruence|]. }
  destruct (removeTxs_good now q ts true (g_ok _ _ Hq)) as (r & -> & Hr & _).
  eexists. split; [done|by eapply good_trans].
Qed.


(** *** Following the chain *)

Lemma emptyPool_ok cfg cc s : pool_ok (emptyPool cfg cc s).
Proof.
  split; simpl; [by intros a l ?%lookup_empty_Some..| |apply newTxLookup_ok].
  intros i Hi. simpl in Hi. lia.
Qed.

(** reset with the transactions to reinject at hand. *)
Lemma reset_good now bc p old new r s :
  pool_ok p -> reorgTxs bc old new = Ret (Some r) -> Forall (fun tx => is_u64 (Nonce tx)) r ->
  StateAtRoot bc = Some s -> sane s ->
  exists p', reset now bc p old new = Ret p' /\ pool_ok p' /\
    (match stakeState p with
     | Some _ => same_acks p p'
     | None => exists c, Copy s = Ret c /\ same_acks (p <| stakeState := Some c |>) p'
     end).
Proof.
  intros Hp Er Hr Es Hs. unfold reset. rewrite Er, Es. cbn [mbind outcome_bind].
  destruct (Copy_sane s Hs) as (c & Ec & Hc & _). rewrite Ec.
  destruct (Copy_sane c Hc) as (d & Ed & _).
  set (m := match stakeState p with Some _ => _ | None => _ end).
  assert (m = Ret (Some (default c (stakeState p)))) as -> by (unfold m; by destruct (stakeState p)).
  cbn [mbind outcome_bind]. unfold newTxNoncer. rewrite Ed. cbn [mbind outcome_bind]. cbv zeta.
  set (q := p <| stakeState := _ |> <| currentState := c |> <| pendingNonces := _ |> <| currentMaxGas := _ |>).
  assert (pool_ok q) as Hq by by destruct Hp.
  destruct (addTxsLocked_good now q r false Hq Hr) as (t & errs & dirty & -> & [Ht Hok] & _).
  cbn [mbind outcome_bind]. eexists. split; [done|]. split; [by destruct Hok|].
  destruct (stakeState p) as [st|] eqn:E; [|exists c; split; [done|]]; destruct Ht; split; simpl in *; congruence.
Qed.

Lemma NewTxPool_good now cfg cc bc empty s : StateAtRoot bc = Some s -> sane s ->
  exists p c, NewTxPool now cfg cc bc empty = Ret p /\ pool_ok p /\ Copy s = Ret c /\
    same_acks ((emptyPool (sanitize cfg) cc empty) <| stakeState := Some c |>) p.
Proof.
  intros Es Hs. unfold NewTxPool.
  destruct (reset_good now bc (emptyPool (sanitize cfg) cc empty) None (b_header (CurrentBlock bc)) [] s)
    as (p & -> & Hp & c & Ec & Hsa); try apply emptyPool_ok; try done. by exists p, c.
Qed.

End Facts.
