(* ===== verification/Acks.v ===== *)
(** * Counting acknowledgements (core/tx_pool.go, addAck)

    What [addAck] does to the books of the pool, read through three views:
    who has voted, the stake behind a transaction hash and the stake received
    for a sender and nonce.  [addAck_views] is its effect on them; [books_ok]
    ties the views to a ballot (who voted for which hash) and [addAck_books]
    shows that every call casts at most one vote per validator, sender and
    nonce and that the weights are the sums of the stakes of the ballot. *)

From S2P Require Import Prelude Rlp Params Transaction Block AccessList StateDB Journal StateTransition Heap TxList TxLookup Prque TxPool PoolFacts.

Section Acks.
Context `{Crypto} `{Database}.

(** ** Maps of maps *)

Definition slot {A} (m : nested A) (o : Address) (n : Z) : option (option A) := m !! o ≫= (.!! n).

Lemma slot_insert {A} (m : nested A) o n v o' n' :
  slot (<[o := <[n := v]> (default ∅ (m !! o))]> m) o' n' =
  if decide (o = o' /\ n = n') then Some v else slot m o' n'.
Proof.
  unfold slot. destruct (decide (o = o')) as [<-|Ho].
  - rewrite lookup_insert_eq. simpl. destruct (decide (n = n')) as [<-|Hn].
    + by rewrite lookup_insert_eq, decide_True.
    + rewrite lookup_insert_ne, decide_False by naive_solver. by destruct (m !! o).
  - by rewrite lookup_insert_ne, decide_False by naive_solver.
Qed.

Lemma slot_setInner {A} (m : nested A) o n v o' n' :
  slot (setInner m o n v) o' n' = if decide (o = o' /\ n = n') then Some (Some v) else slot m o' n'.
Proof. apply slot_insert. Qed.

Definition slot_or {A} (m : nested A) o n (new : A) : option A :=
  match slot m o n with Some v => v | None => Some new end.

Lemma slot_getInner {A} (m : nested A) o n new :
  (getInner m o n new).2 = slot_or m o n new /\
  forall o' n', slot (getInner m o n new).1 o' n' =
    if decide (o = o' /\ n = n') then Some (slot_or m o n new) else slot m o' n'.
Proof.
  unfold getInner. destruct (default ∅ (m !! o) !! n) as [v|] eqn:E.
  - assert (slot_or m o n new = v) as ->.
    { unfold slot_or, slot. destruct (m !! o); simpl in *; [by rewrite E|by rewrite lookup_empty in E]. }
    split; [done|]. intros o' n'. simpl. rewrite <- (insert_id (default ∅ (m !! o)) n v E) at 1. apply slot_insert.
  - assert (slot_or m o n new = Some new) as ->.
    { unfold slot_or, slot. destruct (m !! o); simpl in *; [by rewrite E|done]. }
    split; [done|]. intros o' n'. simpl. apply slot_insert.
Qed.

(** ** The views *)

Definition hasVoted (p : TxPool) (o : Address) (n : Z) (a : Address) : bool :=
  match slot (voted p) o n with Some (Some vs) => default false (vs !! a) | _ => false end.
Definition weightOf (p : TxPool) (o : Address) (n : Z) (h : Hash) : Z :=
  match slot (unconfirmed p) o n with
  | Some (Some hs) => default 0 (ackWeight <$> hs !! h)
  | _ => 0
  end.
Definition receivedOf (p : TxPool) (o : Address) (n : Z) : Z :=
  match slot (stakeReceived p) o n with Some (Some r) => r | _ => 0 end.

Record noNil (p : TxPool) : Prop := {
  nn_voted o n : slot (voted p) o n <> Some None;
  nn_unconfirmed o n : slot (unconfirmed p) o n <> Some None;
  nn_received o n : slot (stakeReceived p) o n <> Some None
}.

Lemma slot_or_some {A} (m : nested A) o n new : slot m o n <> Some None ->
  exists v, slot_or m o n new = Some v.
Proof. unfold slot_or. destruct (slot m o n) as [[v|]|]; naive_solver. Qed.

(** ** addAck *)

(** What addAck leaves alone. *)
Record ack_frame (p p' : TxPool) : Prop := {
  af_config : config p' = config p;
  af_signer : signer p' = signer p;
  af_stake : stakeState p' = stakeState p;
  af_confirmed : confirmed p' = confirmed p
}.

Lemma same_acks_frame p p' : same_acks p p' -> ack_frame p p'.
Proof. intros []. by split. Qed.


(** The effect of one acknowledgement by [a] on the views. *)
Record acked (st : StateDB) (o : Address) (n : Z) (h : Hash) (a : Address) (p p' : TxPool) : Prop := {
  ak_frame : ack_frame p p';
  ak_nil : noNil p';
  ak_voted o' n' a' : hasVoted p' o' n' a' =
    hasVoted p o' n' a' || bool_decide (o = o' /\ n = n' /\ a = a');
  ak_weight o' n' h' : weightOf p' o' n' h' =
    weightOf p o' n' h' +
    if bool_decide (o = o' /\ n = n' /\ h = h') && negb (hasVoted p o n a) then GetBalance st a else 0;
  ak_received o' n' : receivedOf p' o' n' =
    receivedOf p o' n' +
    if bool_decide (o = o' /\ n = n') && negb (hasVoted p o n a) then GetBalance st a else 0
}.

Lemma hasVoted_or p o n a vs : slot_or (voted p) o n ∅ = Some vs -> hasVoted p o n a = default false (vs !! a).
Proof. unfold slot_or, hasVoted. destruct (slot _ _ _) as [v|]; [by intros ->|intros [= <-]]. by rewrite lookup_empty. Qed.
Lemma weightOf_or p o n h hs : slot_or (unconfirmed p) o n ∅ = Some hs ->
  weightOf p o n h = default 0 (ackWeight <$> hs !! h).
Proof. unfold slot_or, weightOf. destruct (slot _ _ _) as [v|]; [by intros ->|intros [= <-]]. by rewrite lookup_empty. Qed.
Lemma receivedOf_or p o n r : slot_or (stakeReceived p) o n 0 = Some r -> receivedOf p o n = r.
Proof. unfold slot_or, receivedOf. destruct (slot _ _ _) as [v|]; [by intros ->|by intros [= <-]]. Qed.

(** The views of a pool whose books differ at one sender and nonce only. *)
Lemma acked_intro st o n h a p p' hs vs r u : ack_frame p p' -> noNil p ->
  slot_or (unconfirmed p) o n ∅ = Some hs -> slot_or (voted p) o n ∅ = Some vs ->
  slot_or (stakeReceived p) o n 0 = Some r ->
  let new := negb (hasVoted p o n a) in
  let v := if new then GetBalance st a else 0 in
  ackWeight u = default 0 (ackWeight <$> hs !! h) + v ->
  (forall o' n', slot (unconfirmed p') o' n' =
     if decide (o = o' /\ n = n') then Some (Some (<[h := u]> hs)) else slot (unconfirmed p) o' n') ->
  (forall o' n', slot (voted p') o' n' =
     if decide (o = o' /\ n = n') then Some (Some (if new then <[a := true]> vs else vs)) else slot (voted p) o' n') ->
  (forall o' n', slot (stakeReceived p') o' n' =
     if decide (o = o' /\ n = n') then Some (Some (r + v)) else slot (stakeReceived p) o' n') ->
  acked st o n h a p p'.
Proof.
  intros Hf [Nv Nu Nr] Ehs Evs Er new v Hu Iu Iv Ir. split; [done|split|..].
  - intros o' n'. rewrite Iv. by case_decide.
  - intros o' n'. rewrite Iu. by case_decide.
  - intros o' n'. rewrite Ir. by case_decide.
  - intros o' n' a'. unfold hasVoted at 1. rewrite Iv. case_decide as D.
    + destruct D as [<- <-]. rewrite (hasVoted_or p o n a' vs Evs). unfold new.
      destruct (decide (a = a')) as [<-|Ha].
      * rewrite bool_decide_true by done. rewrite orb_true_r.
        destruct (hasVoted p o n a) eqn:Eh; cbn [negb]; [by rewrite <- (hasVoted_or p o n a vs Evs)|].
        by rewrite lookup_insert_eq.
      * rewrite bool_decide_false by naive_solver. rewrite orb_false_r.
        destruct (hasVoted p o n a); cbn [negb]; [done|by rewrite lookup_insert_ne].
    + rewrite bool_decide_false by naive_solver. by rewrite orb_false_r.
  - intros o' n' h'. unfold weightOf at 1. rewrite Iu. fold new. case_decide as D.
    + destruct D as [<- <-]. rewrite (weightOf_or p o n h' hs Ehs).
      destruct (decide (h = h')) as [<-|Hh].
      * rewrite lookup_insert_eq, bool_decide_true by done. simpl. rewrite Hu. by destruct new.
      * rewrite lookup_insert_ne, bool_decide_false by naive_solver. simpl. lia.
    + rewrite bool_decide_false by naive_solver. simpl. unfold weightOf. lia.
  - intros o' n'. unfold receivedOf at 1. rewrite Ir. fold new. case_decide as D.
    + destruct D as [<- <-]. rewrite (receivedOf_or p o n r Er), bool_decide_true by done. by destruct new.
    + rewrite bool_decide_false by done. simpl. unfold receivedOf. lia.
Qed.

Lemma set_twice {A} (m m' : nested A) o n v w :
  (forall o' n', slot m' o' n' = if decide (o = o' /\ n = n') then Some w else slot m o' n') ->
  forall o' n', slot (setInner m' o n v) o' n' = if decide (o = o' /\ n = n') then Some (Some v) else slot m o' n'.
Proof. intros Hm o' n'. rewrite slot_setInner, Hm. by case_decide. Qed.

Lemma bookAck_ok p o n h a st : noNil p -> stakeState p = Some st ->
  exists p', bookAck p o n h a =
    Ret (p', negb (hasVoted p o n a) && (QuorumStake (config p) <? weightOf p' o n h), None) /\
    acked st o n h a p p' /\ (pool_ok p -> pool_ok p') /\ expectedAckNonce p' = expectedAckNonce p.
Proof.
  intros Hnn Hst. unfold bookAck.
  destruct (slot_or_some (unconfirmed p) o n ∅ (nn_unconfirmed _ Hnn o n)) as [hs Ehs].
  destruct (slot_or_some (voted p) o n ∅ (nn_voted _ Hnn o n)) as [vs Evs].
  destruct (slot_or_some (stakeReceived p) o n 0 (nn_received _ Hnn o n)) as [r Er].
  destruct (slot_getInner (unconfirmed p) o n ∅) as [E1 F1].
  destruct (slot_getInner (voted p) o n ∅) as [E2 F2].
  destruct (slot_getInner (stakeReceived p) o n 0) as [E3 F3].
  destruct (getInner (unconfirmed p) o n ∅) as [um ?], (getInner (voted p) o n ∅) as [vm ?],
    (getInner (stakeReceived p) o n 0) as [rm ?].
  simpl in E1, F1, E2, F2, E3, F3. subst. rewrite Ehs, Evs, Er in *. cbv zeta.
  rewrite <- (hasVoted_or p o n a vs Evs). set (u := default _ (hs !! h)).
  assert (ackWeight u = default 0 (ackWeight <$> hs !! h)) as Hu by (unfold u; by destruct (hs !! h)).
  destruct (hasVoted p o n a) eqn:Ev; cbn [negb andb].
  - eexists. split; [done|]. split; [|split; [by intros []|done]].
    apply (acked_intro _ _ _ _ _ _ _ hs vs r u); try done; rewrite ?Ev; cbn [negb]; simpl.
    + lia.
    + apply (set_twice _ _ _ _ _ _ F1).
    + done.
    + by rewrite Z.add_0_r.
  - match goal with |- context [stakeState ?x] => change (stakeState x) with (stakeState p) end.
    rewrite Hst. set (v := GetBalance st a). set (q := _ <| voted := setInner vm _ _ _ |>).
    change (config q) with (config p).
    assert (acked st o n h a p q) as Hq.
    { apply (acked_intro _ _ _ _ _ _ _ hs vs r (mkUnconfirmed (ackWeight u + v) (potentialTx u))); try done;
        rewrite ?Ev; cbn [negb]; simpl; fold v.
      - lia.
      - intros o' n'. rewrite !slot_setInner, F1. by case_decide.
      - apply (set_twice _ _ _ _ _ _ F2).
      - apply (set_twice _ _ _ _ _ _ F3). }
    assert (weightOf q o n h = ackWeight u + v) as Hw.
    { rewrite (ak_weight _ _ _ _ _ _ _ Hq), bool_decide_true, Ev by done. simpl.
      rewrite (weightOf_or p o n h hs Ehs). fold v. lia. }
    destruct (QuorumStake (config p) <? ackWeight u + v) eqn:EQ.
    { exists q. rewrite Hw, EQ. split_and!; try done. by intros []. }
    destruct (_ && _).
    + set (q' := q <| proposals := _ |>). exists q'.
      change (weightOf q' o n h) with (weightOf q o n h). rewrite Hw, EQ. split; [done|].
      split; [|split; [by intros []|done]].
      destruct Hq as [[] [] Q1 Q2 Q3]; split; [by split|by split|exact Q1|exact Q2|exact Q3].
    + exists q. rewrite Hw, EQ. split_and!; try done. by intros [].
Qed.


(** Writes outside the books before an acknowledgement. *)
Lemma acked_pre st o n h a p q p' : ack_frame p q -> voted q = voted p -> unconfirmed q = unconfirmed p ->
  stakeReceived q = stakeReceived p -> acked st o n h a q p' -> acked st o n h a p p'.
Proof.
  intros [F1 F2 F3 F4] Ev Eu Er [[G1 G2 G3 G4] N V W R].
  assert (hasVoted q = hasVoted p) as E1 by (unfold hasVoted; by rewrite Ev).
  assert (weightOf q = weightOf p) as E2 by (unfold weightOf; by rewrite Eu).
  assert (receivedOf q = receivedOf p) as E3 by (unfold receivedOf; by rewrite Er).
  rewrite E1 in V, W, R. rewrite E2 in W. rewrite E3 in R.
  split; [split; congruence|done|done|done|done].
Qed.

Lemma noNil_same p q : voted q = voted p -> unconfirmed q = unconfirmed p ->
  stakeReceived q = stakeReceived p -> noNil p -> noNil q.
Proof. intros Ev Eu Er []. split; by rewrite ?Ev, ?Eu, ?Er. Qed.

(** The first part of addAck: the transaction enters the pool when it is new
    and could be acknowledged here. *)
Lemma learn_good now p tx : pool_ok p -> is_u64 (Nonce tx) ->
  exists q, (if bool_decide (lk_Get (all p) (TxHash tx) = None) && bool_decide (validateAck p tx true = None)
             then '(pool, _, _) ← add now p tx false; Ret pool else Ret p) = Ret q /\ good p q.
Proof.
  intros Hp Hn. case_match; [|eexists; split; [done|by apply good_refl]].
  destruct (add_good now p tx false Hp Hn) as (q & ? & ? & -> & Hq). by eexists.
Qed.

Lemma addAck_views now p tx a isLocal o st : pool_ok p -> noNil p -> stakeState p = Some st ->
  Sender (signer p) tx = inl o -> is_u64 (Nonce tx) ->
  let n := Nonce tx in
  let h := TxHash tx in
  exists p', addAck now p tx a isLocal =
    Ret (p', negb (hasVoted p o n a) && (QuorumStake (config p) <? weightOf p' o n h), None) /\
    pool_ok p' /\ acked st o n h a p p' /\
    expectedAckNonce p' =
      if isLocal then <[o := u64 (n + 1)]> (expectedAckNonce p) else expectedAckNonce p.
Proof.
  intros Hp Hnn Hst Ho Hn. cbv zeta. unfold addAck. rewrite Ho.
  destruct (learn_good now p tx Hp Hn) as (q & -> & [Hs Hq]). cbn [mbind outcome_bind]. cbv zeta.
  set (r := if isLocal then _ else q).
  assert (voted r = voted p /\ unconfirmed r = unconfirmed p /\ stakeReceived r = stakeReceived p /\
    ack_frame p r /\ pool_ok r /\ expectedAckNonce r =
      if isLocal then <[o := u64 (Nonce tx + 1)]> (expectedAckNonce p) else expectedAckNonce p)
    as (Ev & Eu & Er & Hf & Hr & Ee).
  { destruct Hs, Hq. unfold r. destruct isLocal; split_and!; try done; simpl; congruence. }
  destruct (bookAck_ok r o (Nonce tx) (TxHash tx) a st) as (p' & E & Hk & Hok & Ex).
  { by apply (noNil_same p). } { destruct Hf. congruence. }
  exists p'. assert (hasVoted r = hasVoted p) as Ehv by (unfold hasVoted; by rewrite Ev).
  rewrite E, Ehv. replace (config r) with (config p) by (destruct Hf; congruence).
  split_and!; [done|auto|by apply (acked_pre _ _ _ _ _ _ r)|congruence].
Qed.

(** ** Ballots *)

(** Who voted for which hash, by sender and nonce. *)
Definition ballots := Address -> Z -> gmap Address Hash.

(** A vote counts once. *)
Definition cast (B : ballots) (o : Address) (n : Z) (a : Address) (h : Hash) : ballots := fun o' n' =>
  if decide (o = o' /\ n = n') then
    match B o n !! a with Some _ => B o n | None => <[a := h]> (B o n) end
  else B o' n'.

Definition voters (h : Hash) (m : gmap Address Hash) : gset Address :=
  dom (filter (fun ah => ah.2 = h) m).

Record books_ok (st : StateDB) (B : ballots) (p : TxPool) : Prop := {
  bo_stake : stakeState p = Some st;
  bo_nil : noNil p;
  bo_voted o n a : hasVoted p o n a = bool_decide (is_Some (B o n !! a));
  bo_weight o n h : weightOf p o n h = sumSet (GetBalance st) (voters h (B o n));
  bo_received o n : receivedOf p o n = sumSet (GetBalance st) (dom (B o n))
}.

Lemma elem_of_voters h m a : a ∈ voters h m <-> m !! a = Some h.
Proof.
  unfold voters. rewrite elem_of_dom. split.
  - intros [h' [Hl Hh]%map_lookup_filter_Some]. simpl in Hh. by subst.
  - intros Hl. exists h. by apply map_lookup_filter_Some.
Qed.

Lemma voters_cast h h' m a : m !! a = None ->
  voters h (<[a := h']> m) = if decide (h' = h) then {[a]} ∪ voters h m else voters h m.
Proof.
  intros Hm. apply set_eq. intros b. rewrite elem_of_voters.
  destruct (decide (a = b)) as [<-|Hab].
  - rewrite lookup_insert_eq. case_decide; [set_solver|]. rewrite elem_of_voters, Hm. naive_solver.
  - rewrite lookup_insert_ne by done. case_decide; rewrite ?elem_of_union, ?elem_of_voters; set_solver.
Qed.

Lemma acked_books st B o n h a p p' : books_ok st B p -> acked st o n h a p p' ->
  books_ok st (cast B o n a h) p'.
Proof.
  intros [Bs Bn Bv Bw Br] [[_ _ Fs _] N V W R]. rewrite Bv in W, R. split; [congruence|done|..].
  - intros o' n' a'. rewrite V, Bv. unfold cast. case_decide as D.
    + destruct D as [<- <-]. destruct (B o n !! a) as [h0|] eqn:E.
      * destruct (decide (a = a')) as [<-|Ha]; [rewrite E; by rewrite !bool_decide_true by eauto|].
        rewrite (bool_decide_false (_ /\ _)) by naive_solver. by rewrite orb_false_r.
      * destruct (decide (a = a')) as [<-|Ha].
        { rewrite lookup_insert_eq, (bool_decide_true (o = o /\ _)) by done. rewrite orb_true_r.
          symmetry. by apply bool_decide_true. }
        rewrite lookup_insert_ne, (bool_decide_false (o = o /\ _)) by naive_solver. by rewrite orb_false_r.
    + rewrite (bool_decide_false (_ /\ _)) by naive_solver. by rewrite orb_false_r.
  - intros o' n' h'. rewrite W, Bw. unfold cast. case_decide as D.
    + destruct D as [<- <-]. destruct (B o n !! a) as [h0|] eqn:E.
      { rewrite (bool_decide_true (is_Some (Some _))) by eauto. rewrite andb_false_r. lia. }
      rewrite (bool_decide_false (is_Some None)), andb_true_r, (voters_cast _ _ _ _ E) by (by intros []).
      destruct (decide (h = h')) as [<-|Hh].
      * rewrite bool_decide_true, sumSet_insert; [lia| |done]. by rewrite elem_of_voters, E.
      * rewrite bool_decide_false by naive_solver. lia.
    + rewrite bool_decide_false by naive_solver. simpl. lia.
  - intros o' n'. rewrite R, Br. unfold cast. case_decide as D.
    + destruct D as [<- <-]. rewrite (bool_decide_true (o = o /\ _)) by done.
      destruct (B o n !! a) as [h0|] eqn:E.
      { rewrite (bool_decide_true (is_Some (Some _))) by eauto. simpl. lia. }
      rewrite (bool_decide_false (is_Some None)) by (by intros []). simpl.
      rewrite dom_insert_L, sumSet_insert; [lia|]. by apply not_elem_of_dom.
    + rewrite bool_decide_false by done. simpl. lia.
Qed.


(** The books of a new pool, and of a pool whose books did not change. *)
Record same_books (p p' : TxPool) : Prop := {
  sb_quorum : QuorumStake (config p') = QuorumStake (config p);
  sb_signer : signer p' = signer p;
  sb_expected : expectedAckNonce p' = expectedAckNonce p;
  sb_stake : stakeState p' = stakeState p;
  sb_unconfirmed : unconfirmed p' = unconfirmed p;
  sb_received : stakeReceived p' = stakeReceived p;
  sb_voted : voted p' = voted p
}.

#[export] Instance same_books_preorder : PreOrder same_books.
Proof. split; [intros p; by split|]. intros p q r [] []. split; congruence. Qed.

Lemma same_acks_books p p' : same_acks p p' -> same_books p p'.
Proof. intros []. split; congruence. Qed.

Lemma books_same st B p p' : books_ok st B p -> same_books p p' -> books_ok st B p'.
Proof.
  intros [Bs Bn Bv Bw Br] [_ _ _ Es Eu Er Ev]. split.
  - congruence.
  - by apply (noNil_same p).
  - unfold hasVoted. by rewrite Ev.
  - unfold weightOf. by rewrite Eu.
  - unfold receivedOf. by rewrite Er.
Qed.

Lemma books_new st p : stakeState p = Some st -> voted p = ∅ -> unconfirmed p = ∅ -> stakeReceived p = ∅ ->
  books_ok st (fun _ _ => ∅) p.
Proof.
  intros Es Ev Eu Er.
  assert (forall A o n, slot (∅ : nested A) o n = None) as He by (intros; unfold slot; by rewrite lookup_empty).
  split; [done| |intros; unfold hasVoted, weightOf, receivedOf..].
  - split; intros o n; by rewrite ?Ev, ?Eu, ?Er, He.
  - rewrite Ev, He, lookup_empty. by rewrite bool_decide_false by (by intros []).
  - rewrite Eu, He. replace (voters h ∅) with (∅ : gset Address); [by rewrite sumSet_empty|].
    symmetry. apply elem_of_equiv_empty_L. intros a. by rewrite elem_of_voters, lookup_empty.
  - by rewrite Er, He, dom_empty_L, sumSet_empty.
Qed.

(** C15: addAck returns on every transaction with a sender; the new books are
    those of the ballot with the validator's vote added, unless it already
    voted for this sender and nonce.  In particular the weight of a hash is
    always the stake of the validators that voted for it first.  The call
    confirms exactly when the vote is new and takes the hash above the
    quorum; only a local acknowledgement moves the expected nonce. *)
Theorem addAck_counts now p tx a isLocal o st B :
  pool_ok p -> books_ok st B p -> Sender (signer p) tx = inl o -> is_u64 (Nonce tx) ->
  let B' := cast B o (Nonce tx) a (TxHash tx) in
  exists p' c, addAck now p tx a isLocal = Ret (p', c, None) /\ pool_ok p' /\ books_ok st B' p' /\
    (c = true <-> B o (Nonce tx) !! a = None /\
       QuorumStake (config p) < sumSet (GetBalance st) (voters (TxHash tx) (B' o (Nonce tx)))) /\
    expectedAckNonce p' =
      if isLocal then <[o := u64 (Nonce tx + 1)]> (expectedAckNonce p) else expectedAckNonce p.
Proof.
  intros Hp Hb Ho Hn B'.
  destruct (addAck_views now p tx a isLocal o st Hp (bo_nil _ _ _ Hb) (bo_stake _ _ _ Hb) Ho Hn)
    as (p' & E & Hp' & Hk & Ex).
  pose proof (acked_books _ _ _ _ _ _ _ _ Hb Hk) as Hb'. fold B' in Hb'.
  eexists p', _. split_and!; [exact E|done..| |done].
  rewrite (bo_voted _ _ _ Hb), (bo_weight _ _ _ Hb'), andb_true_iff, negb_true_iff, Z.ltb_lt, bool_decide_eq_false.
  by rewrite <- eq_None_not_Some.
Qed.

(** Acknowledgements of several validators for one transaction. *)
Definition addAcks (now : Z) (p : TxPool) (tx : Transaction) (l : list Address) : outcome TxPool :=
  foldM (fun p a => '(p, _, _) ← addAck now p tx a false; Ret p) p l.


(** ** Runs of the pool *)

Inductive poolOp :=
| PAddTxs (txs : list Transaction) (local : bool)
| PRemoveTx (h : Hash) (outofbound : bool)
| PPromote (accounts : list Address)
| PDemote
| PSetGasPrice (price : Z)
| PEvict
| PAddAck (tx : Transaction) (a : Address) (isLocal : bool).

Definition op_nonces (op : poolOp) : Prop :=
  match op with
  | PAddTxs txs _ => Forall (fun tx => is_u64 (Nonce tx)) txs
  | PAddAck tx _ _ => is_u64 (Nonce tx)
  | _ => True
  end.

Definition poolExec (p : TxPool) (nowOp : Z * poolOp) : outcome TxPool :=
  let '(now, op) := nowOp in
  match op with
  | PAddTxs txs local => '(p, _, _) ← addTxs now p txs local; Ret p
  | PRemoveTx h b => removeTx now p h b
  | PPromote accounts => '(p, _) ← promoteExecutables now p accounts; Ret p
  | PDemote => demoteUnexecutables now p
  | PSetGasPrice price => SetGasPrice now p price
  | PEvict => evict now p
  | PAddAck tx a isLocal => '(p, _, _) ← addAck now p tx a isLocal; Ret p
  end.

(** What every operation keeps. *)
Record pool_inv (st : StateDB) (p : TxPool) : Prop := {
  pi_ok : pool_ok p;
  pi_books : exists B, books_ok st B p
}.

Lemma addTxs_good now p txs local : pool_ok p -> Forall (fun tx => is_u64 (Nonce tx)) txs ->
  exists p' errs dirty, addTxs now p txs local = Ret (p', errs, dirty) /\ good p p'.
Proof.
  intros Hp Htx. unfold addTxs. set (news := filter _ txs).
  assert (Forall (fun tx => is_u64 (Nonce tx)) news) as Hn.
  { apply Forall_forall. intros tx [_ Hin]%list_elem_of_filter. rewrite Forall_forall in Htx. auto. }
  destruct news as [|tx news]; [eexists _, _, _; split; [done|by apply good_refl]|].
  destruct (addTxsLocked_good now p (tx :: news) local Hp Hn) as (q & errs & d & -> & Hg & _). by eauto.
Qed.

Lemma good_inv st p p' : pool_inv st p -> good p p' -> pool_inv st p'.
Proof.
  intros [Hp [B HB]] [Ha Hp']. split; [done|]. exists B. by apply (books_same _ _ p), same_acks_books.
Qed.

Lemma addAck_inv st now p tx a isLocal : pool_inv st p -> is_u64 (Nonce tx) ->
  exists p' c e, addAck now p tx a isLocal = Ret (p', c, e) /\ pool_inv st p'.
Proof.
  intros [Hp [B HB]] Hn. destruct (Sender (signer p) tx) as [o|e] eqn:Ho.
  - destruct (addAck_views now p tx a isLocal o st Hp (bo_nil _ _ _ HB) (bo_stake _ _ _ HB) Ho Hn)
      as (q & -> & Hq & Hk & _). eexists _, _, _. split; [done|]. split; [done|].
    exists (cast B o (Nonce tx) a (TxHash tx)). by apply (acked_books _ _ _ _ _ _ p).
  - unfold addAck. rewrite Ho. eexists _, _, _. split; [done|]. split; [done|by exists B].
Qed.

Lemma poolExec_inv st p nop : pool_inv st p -> op_nonces nop.2 -> exists p', poolExec p nop = Ret p' /\ pool_inv st p'.
Proof.
  intros Hi Hn. destruct nop as [now [txs local|h b|accounts| |price| |tx a isLocal]]; simpl in *.
  - destruct (addTxs_good now p txs local (pi_ok _ _ Hi) Hn) as (q & ? & ? & -> & Hg). eauto using good_inv.
  - destruct (removeTx_good now p h b (pi_ok _ _ Hi)) as (q & -> & Hg & _). eauto using good_inv.
  - destruct (promoteExecutables_good now p accounts (pi_ok _ _ Hi)) as (q & ? & -> & Hg). eauto using good_inv.
  - destruct (demoteUnexecutables_good now p (pi_ok _ _ Hi)) as (q & -> & Hg). eauto using good_inv.
  - destruct (SetGasPrice_good now p price (pi_ok _ _ Hi)) as (q & -> & Hg). eauto using good_inv.
  - destruct (evict_good now p (pi_ok _ _ Hi)) as (q & -> & Hg). eauto using good_inv.
  - destruct (addAck_inv st now p tx a isLocal Hi Hn) as (q & ? & ? & -> & Hq). eauto.
Qed.


End Acks.

(** ** A pool at work *)

#[local] Existing Instances toyCrypto toyDatabase.

(** Validators 1 and 2 with a stake of 10 each; 77 holds a balance. *)
Definition accounts_ex : gmap Address Account :=
  {[ 1 := mkAccount 0 10 emptyRoot 0; 2 := mkAccount 0 10 emptyRoot 0; 77 := mkAccount 0 1000000 emptyRoot 0 ]}.

Definition cc_ex : ChainConfig :=
  mkChainConfig (Some 1) (Some 0) None false None 0 None None None None None None None None None None 20.
Definition cfg_ex : TxPoolConfig := DefaultTxPoolConfig <| QuorumStake := 16 |>.
Definition header_ex : Header := mkHeader 0 0 0 0 0 0 [] 1 0 8000000 0 0 [] 0 [].
Definition bc_ex : blockChain :=
  mkBlockChain (mkBlock header_ex [] []) (fun _ _ => None) (Some (New accounts_ex)).

Definition pool_ex : TxPool :=
  match NewTxPool 0 cfg_ex cc_ex bc_ex (New ∅) with Ret p => p | Panic => emptyPool cfg_ex cc_ex (New ∅) end.

(** A transfer signed by 77. *)
Definition tx_ex : Transaction := mkTransaction (TxLegacy (mkLegacyTx 0 1 21000 (Some 50) 5 [] 27 1 77)) 0 None.


Lemma pool_ex_ok : pool_ok pool_ex.
Proof.
  destruct (NewTxPool_good 0 cfg_ex cc_ex bc_ex (New ∅) (New accounts_ex)) as (p & c & E & Hp & _);
    [done|apply reachable_sane, reach_new|]. unfold pool_ex. by rewrite E.
Qed.

Lemma pool_ex_books : books_ok (New accounts_ex) (fun _ _ => ∅) pool_ex.
Proof. apply books_new; vm_compute; reflexivity. Qed.

Lemma addAck_counts_witness :
  exists p' c, addAck 0 pool_ex tx_ex 1 true = Ret (p', c, None) /\ c = false /\
    expectedAckNonce p' = {[ 77 := 1 ]}.
Proof.
  destruct (addAck_counts 0 pool_ex tx_ex 1 true 77 (New accounts_ex) (fun _ _ => ∅))
    as (p' & c & E & _ & _ & Hc & He).
  - apply pool_ex_ok.
  - apply pool_ex_books.
  - vm_compute. reflexivity.
  - split; vm_compute; [discriminate|reflexivity].
  - exists p', c. split; [exact E|]. split; [|rewrite He; vm_compute; reflexivity].
    destruct c; [|reflexivity]. destruct (proj1 Hc eq_refl) as [_ Hq]. vm_compute in Hq. discriminate.
Defined.


