(* ===== verification/Cascade.v ===== *)
(** * Agreement of the validators (core/tx_pool.go, core/state_processor.go,
    eth/backend.go)

    A network of honest nodes, each with its pool, and a log of the
    acknowledgements validators put into their blocks.  An honest validator
    acknowledges as [ApplyTransaction] does while it builds a block: after
    [validateAck] accepted the transaction, by [addAck] with its own address.
    A node counts the acknowledgements of the blocks it processes as [Process]
    does: by [addAck] with the author of the block, who signed it.  The
    validators without a node are Byzantine and acknowledge anything; all other
    operations of a pool leave its books alone.  Decisions of the a posteriori
    consensus contract are not part of this network.

    [honest_acks_once]: an honest validator acknowledges one transaction per
    sender and nonce.  [agreement]: two honest nodes never see a quorum for
    different transactions of one sender and nonce. *)

From S2P Require Import Prelude Rlp Params Transaction Block AccessList StateDB Journal StateTransition Accounts Heap TxList TxLookup Prque TxPool PoolFacts Acks.

(** The quorum eth/backend.go configures. *)
Definition majorityStake (totalStake : Z) : Z := totalStake * 4 / 5.

Record net := mkNet {
  nodes : gmap Address TxPool;
  acks : list (Address * Transaction)
}.

Section Cascade.
Context `{Crypto} `{Database}.
Context (sg : Signer) (stake : StateDB) (Q : Z) (validators : gset Address).

(** A node that has not acknowledged or counted anything. *)
Record node_init (p : TxPool) : Prop := {
  ni_ok : pool_ok p;
  ni_signer : signer p = sg;
  ni_quorum : QuorumStake (config p) = Q;
  ni_expected : expectedAckNonce p = ∅;
  ni_stake : stakeState p = Some stake;
  ni_voted : voted p = ∅;
  ni_unconfirmed : unconfirmed p = ∅;
  ni_received : stakeReceived p = ∅
}.

(** NewTxPool returns such a node. *)
Lemma NewTxPool_init now cfg cc bc empty s : StateAtRoot bc = Some s -> sane s ->
  LatestSigner cc = sg -> Copy s = Ret stake -> QuorumStake cfg = Q ->
  exists p, NewTxPool now cfg cc bc empty = Ret p /\ node_init p.
Proof.
  intros Es Hs Hg Hc HQ. destruct (NewTxPool_good now cfg cc bc empty s Es Hs) as (p & c & E & Hp & Ec & Hsa).
  exists p. split; [done|]. destruct Hsa as [A1 A2 A3 A4 _ A6 A7 A8]. simpl in *.
  split; [done|congruence| |congruence..]. rewrite A1, <- HQ. unfold sanitize. repeat case_match; done.
Qed.

Inductive net_step : net -> net -> Prop :=
| step_local now N L v p tx p' c e :
    v ∈ validators -> N !! v = Some p -> is_u64 (Nonce tx) ->
    validateAck p tx true = None -> addAck now p tx v true = Ret (p', c, e) ->
    net_step (mkNet N L) (mkNet (<[v := p']> N) (L ++ [(v, tx)]))
| step_byzantine N L a tx :
    a ∈ validators -> N !! a = None -> net_step (mkNet N L) (mkNet N (L ++ [(a, tx)]))
| step_receive now N L v p a tx p' c e :
    N !! v = Some p -> (a, tx) ∈ L -> is_u64 (Nonce tx) -> addAck now p tx a false = Ret (p', c, e) ->
    net_step (mkNet N L) (mkNet (<[v := p']> N) L)
| step_other N L v p p' :
    N !! v = Some p -> same_books p p' -> pool_ok p' ->
    net_step (mkNet N L) (mkNet (<[v := p']> N) L).

Inductive net_reachable : net -> Prop :=
| net_init N : (forall v p, N !! v = Some p -> node_init p) -> net_reachable (mkNet N [])
| net_next n n' : net_reachable n -> net_step n n' -> net_reachable n'.

(** ** The invariant of a node *)

(** The acknowledgements of [v] for the sender [o], in order. *)
Definition acksOf (L : list (Address * Transaction)) (v o : Address) : list Transaction :=
  (filter (fun at' => at'.1 = v /\ Sender sg at'.2 = inl o) L).*2.

Lemma acksOf_app L L' v o : acksOf (L ++ L') v o = acksOf L v o ++ acksOf L' v o.
Proof. unfold acksOf. by rewrite filter_app, fmap_app. Qed.

Lemma acksOf_one a tx v o :
  acksOf [(a, tx)] v o = if decide (a = v /\ Sender sg tx = inl o) then [tx] else [].
Proof. unfold acksOf. rewrite filter_cons. simpl. by case_decide. Qed.

Lemma length_acksOf L v o : (length (acksOf L v o) <= length L)%nat.
Proof. unfold acksOf. rewrite length_fmap. apply length_filter. Qed.

Lemma elem_of_acksOf L v o tx : tx ∈ acksOf L v o <-> (v, tx) ∈ L /\ Sender sg tx = inl o.
Proof.
  unfold acksOf. rewrite list_elem_of_fmap. split.
  - intros ([a t] & -> & [[Ha Hs] Hl]%list_elem_of_filter). simpl in *. by subst.
  - intros [Hl Hs]. exists (v, tx). split; [done|]. by apply list_elem_of_filter.
Qed.

(** The votes of a ballot are acknowledgements of the log. *)
Definition justified (L : list (Address * Transaction)) (B : ballots) : Prop :=
  forall o n a h, B o n !! a = Some h ->
    exists tx, (a, tx) ∈ L /\ Sender sg tx = inl o /\ Nonce tx = n /\ TxHash tx = h.

(** The acknowledgements of a node carry the nonces 0, 1, 2, ... *)
Definition in_order (L : list (Address * Transaction)) (v : Address) (p : TxPool) : Prop :=
  forall o, let l := acksOf L v o in
    Nonce <$> l = seqZ 0 (Z.of_nat (length l)) /\
    default 0 (expectedAckNonce p !! o) = Z.of_nat (length l).

Record node_ok (L : list (Address * Transaction)) (p : TxPool) (B : ballots) : Prop := {
  no_ok : pool_ok p;
  no_signer : signer p = sg;
  no_quorum : QuorumStake (config p) = Q;
  no_books : books_ok stake B p;
  no_votes : justified L B
}.

Record net_ok (n : net) : Prop := {
  nk_nodes v p : nodes n !! v = Some p ->
    (exists B, node_ok (acks n) p B) /\ (Z.of_nat (length (acks n)) <= MaxUint64 -> in_order (acks n) v p);
  nk_acks a tx : (a, tx) ∈ acks n -> a ∈ validators
}.

Lemma justified_app L L' B : justified L B -> justified (L ++ L') B.
Proof.
  intros HB o n a h E. destruct (HB o n a h E) as (tx & Ht & ?). exists tx. split; [|done].
  apply elem_of_app. by left.
Qed.

Lemma justified_cast L B o n a h tx : justified L B -> (a, tx) ∈ L -> Sender sg tx = inl o ->
  Nonce tx = n -> TxHash tx = h -> justified L (cast B o n a h).
Proof.
  intros HB Ht Hs Hn Hh o' n' a' h'. unfold cast. case_decide as D; [|apply HB]. destruct D as [<- <-].
  destruct (B o n !! a) eqn:E; [apply HB|]. rewrite lookup_insert. case_decide; [|apply HB].
  intros [= <-]. subst. by exists tx.
Qed.

(** An acknowledgement by someone else. *)
Lemma in_order_other L v p p' a tx : a <> v -> expectedAckNonce p' = expectedAckNonce p ->
  in_order L v p -> in_order (L ++ [(a, tx)]) v p'.
Proof.
  intros Ha Ee HL o. cbv zeta. rewrite acksOf_app, acksOf_one, decide_False by naive_solver.
  rewrite app_nil_r, Ee. apply HL.
Qed.

Lemma in_order_own L v p p' tx o : Z.of_nat (length L) < MaxUint64 -> in_order L v p ->
  Sender sg tx = inl o -> default 0 (expectedAckNonce p !! o) = Nonce tx ->
  expectedAckNonce p' = <[o := u64 (Nonce tx + 1)]> (expectedAckNonce p) ->
  in_order (L ++ [(v, tx)]) v p'.
Proof.
  intros Hlen HL Hs He Ee o'. cbv zeta. rewrite acksOf_app, acksOf_one, Ee, lookup_insert.
  destruct (HL o') as [E1 E2]. pose proof (length_acksOf L v o') as Hl.
  destruct (decide (o = o')) as [<-|Ho].
  - rewrite decide_True by done. rewrite fmap_app, length_app, E1. simpl. rewrite E2 in He.
    rewrite Nat2Z.inj_add, seqZ_app by lia. simpl. rewrite Z.add_0_l, He. split; [done|].
    rewrite u64_small; [lia|]. unfold MaxUint64 in *. unfold is_u64. lia.
  - rewrite decide_False by (intros [_ E]; congruence). by rewrite app_nil_r.
Qed.


(** What validateAck checks of a local acknowledgement. *)
Lemma validateAck_local p tx : validateAck p tx true = None ->
  exists o, Sender (signer p) tx = inl o /\ default 0 (expectedAckNonce p !! o) = Nonce tx /\
    Cost tx <= GetBalance (currentState p) o.
Proof.
  unfold validateAck. intros E. do 4 (case_match; [done|]). destruct (Sender (signer p) tx) as [o|]; [|done].
  cbn [negb andb] in E. exists o. split; [done|].
  destruct (Z.eqb_spec (default 0 (expectedAckNonce p !! o)) (Nonce tx)); [|done].
  split; [done|]. cbn [negb] in E. destruct (Z.ltb_spec (GetBalance (currentState p) o) (Cost tx)); [done|lia].
Qed.

Lemma node_ok_app L L' p B : node_ok L p B -> node_ok (L ++ L') p B.
Proof. intros []. split; try done. by apply justified_app. Qed.

Lemma in_order_ext L v p p' : expectedAckNonce p' = expectedAckNonce p -> in_order L v p -> in_order L v p'.
Proof. intros E HL o. rewrite E. apply HL. Qed.

(** One acknowledgement at a node. *)
Lemma addAck_node now L p B tx a isLocal p' c e : node_ok L p B -> (a, tx) ∈ L -> is_u64 (Nonce tx) ->
  addAck now p tx a isLocal = Ret (p', c, e) ->
  (exists B', node_ok L p' B') /\
  (isLocal = false -> expectedAckNonce p' = expectedAckNonce p) /\
  (forall o, Sender sg tx = inl o -> isLocal = true ->
     expectedAckNonce p' = <[o := u64 (Nonce tx + 1)]> (expectedAckNonce p)).
Proof.
  intros [Hp Hs HQ Hb Hv] Ha Hn E. destruct (Sender sg tx) as [o|err] eqn:Ho.
  - assert (Sender (signer p) tx = inl o) as Ho' by congruence.
    destruct (addAck_views now p tx a isLocal o stake Hp (bo_nil _ _ _ Hb) (bo_stake _ _ _ Hb) Ho' Hn)
      as (q & E' & Hp' & Hk & Ex).
    rewrite E in E'. injection E' as -> _ _. destruct (ak_frame _ _ _ _ _ _ _ Hk). split_and!.
    + exists (cast B o (Nonce tx) a (TxHash tx)). split; [done|congruence..|by apply (acked_books _ _ _ _ _ _ p)|].
      by apply (justified_cast _ _ _ _ _ _ tx).
    + by intros ->.
    + by intros ? [= <-] ->.
  - unfold addAck in E. rewrite Hs, Ho in E. injection E as <- _ _. split_and!; [by exists B|done|done].
Qed.

Lemma step_local_ok now N L v p tx p' c e : net_ok (mkNet N L) -> v ∈ validators -> N !! v = Some p -> is_u64 (Nonce tx) ->
  validateAck p tx true = None -> addAck now p tx v true = Ret (p', c, e) ->
  net_ok (mkNet (<[v := p']> N) (L ++ [(v, tx)])).
Proof.
  intros [Hok Hack] Hin Hv Hn Hval E.
  split; [intros w q Hw|intros a t [Ht|[= -> ->]%list_elem_of_singleton]%elem_of_app; [by eapply Hack|done]].
  cbn [nodes acks] in *.
  assert (Z.of_nat (length (L ++ [(v, tx)])) <= MaxUint64 -> Z.of_nat (length L) < MaxUint64) as Hlen.
  { rewrite length_app. simpl. lia. }
  apply lookup_insert_Some in Hw as [[<- <-]|[Hne Hw]].
  - destruct (Hok v p Hv) as [[B HB] Hord].
    destruct (addAck_node now _ p B tx v true p' c e (node_ok_app _ [(v, tx)] _ _ HB)) as (HB' & _ & Hx);
      [set_solver|done..|]. split; [done|]. intros Hl%Hlen.
    destruct (validateAck_local p tx Hval) as (o & Ho & He & _). rewrite (no_signer _ _ _ HB) in Ho.
    eapply in_order_own; [done|apply Hord; simpl; lia|done..|]. by apply Hx.
  - destruct (Hok w q Hw) as [[B HB] Hord]. split; [exists B; by apply node_ok_app|]. intros Hl%Hlen.
    apply (in_order_other _ _ q); [done..|]. apply Hord. simpl. lia.
Qed.

(** A step at [v] that does not acknowledge. *)
Lemma update_ok N L v p p' : net_ok (mkNet N L) -> N !! v = Some p ->
  (exists B', node_ok L p' B') -> expectedAckNonce p' = expectedAckNonce p -> net_ok (mkNet (<[v := p']> N) L).
Proof.
  intros [Hok Hack] Hv HB' He. split; [intros w q Hw|done]. cbn [nodes acks] in *. apply lookup_insert_Some in Hw as [[<- <-]|[Hne Hw]].
  - split; [done|]. intros Hl. apply (in_order_ext _ _ p); [done|]. by apply (Hok v p Hv).
  - by apply Hok.
Qed.

Lemma net_step_ok n n' : net_ok n -> net_step n n' -> net_ok n'.
Proof.
  intros Hok Hstep. destruct Hstep as [now N L v p tx p' c e HV Hv Hn Hval E|N L a tx HV Ha
    |now N L v p a tx p' c e Hv Hin Hn E|N L v p p' Hv Hsb Hp'].
  - by apply (step_local_ok now N L v p tx p' c e).
  - split; [intros w q Hw|intros b t [Ht|[= -> ->]%list_elem_of_singleton]%elem_of_app; [by eapply Hok|done]].
    cbn [nodes acks] in *. destruct (nk_nodes _ Hok w q Hw) as [[B HB] Hord].
    split; [exists B; by apply node_ok_app|]. rewrite length_app. simpl. intros Hl.
    apply (in_order_other _ _ q); [congruence|done|]. apply Hord. simpl. lia.
  - destruct (nk_nodes _ Hok v p Hv) as [[B HB] _].
    destruct (addAck_node now L p B tx a false p' c e HB Hin Hn E) as (HB' & He & _).
    by apply (update_ok _ _ _ p); auto.
  - destruct (nk_nodes _ Hok v p Hv) as [[B [Hp Hs HQ Hb Hj]] _].
    apply (update_ok _ _ _ p); [done..| |apply Hsb]. exists B. destruct (Hsb).
    split; [done|congruence..|by apply (books_same _ _ p)|done].
Qed.

Lemma net_reachable_ok n : net_reachable n -> net_ok n.
Proof.
  induction 1 as [N HN|n n' _ IH Hs]; [|by eapply net_step_ok].
  split; [intros v p Hv|by intros a tx ?%elem_of_nil].
  cbn [nodes acks] in *. destruct (HN v p Hv) as [Hp Hs HQ He Hst H1 H2 H3]. split.
  - exists (fun _ _ => ∅). split; [done..|by apply books_new|]. intros o n a h. by rewrite lookup_empty.
  - intros _ o. by rewrite He, lookup_empty.
Qed.


(** ** Agreement *)

Lemma same_nonce_same v L p o t1 t2 : in_order L v p -> t1 ∈ acksOf L v o -> t2 ∈ acksOf L v o ->
  Nonce t1 = Nonce t2 -> t1 = t2.
Proof.
  intros HL [i Hi]%list_elem_of_lookup [j Hj]%list_elem_of_lookup E. destruct (HL o) as [Hs _].
  assert (NoDup (Nonce <$> acksOf L v o)) as Hnd by (rewrite Hs; apply NoDup_seqZ).
  assert (i = j) as ->; [|congruence]. eapply NoDup_lookup; [exact Hnd|..].
  - by rewrite list_lookup_fmap, Hi.
  - rewrite list_lookup_fmap, Hj. simpl. by rewrite E.
Qed.

Lemma acks_once n v p t1 t2 o : net_ok n -> Z.of_nat (length (acks n)) <= MaxUint64 ->
  nodes n !! v = Some p -> (v, t1) ∈ acks n -> (v, t2) ∈ acks n ->
  Sender sg t1 = inl o -> Sender sg t2 = inl o -> Nonce t1 = Nonce t2 -> t1 = t2.
Proof.
  intros Hok Hl Hv H1 H2 S1 S2. destruct (nk_nodes _ Hok v p Hv) as [_ Hord].
  by apply (same_nonce_same v (acks n) p o); [by apply Hord|apply elem_of_acksOf..].
Qed.

(** C4: an honest validator acknowledges at most one transaction of a sender
    for each nonce, as long as fewer than 2^64 acknowledgements were made. *)
Theorem honest_acks_once n v p t1 t2 o : net_reachable n ->
  Z.of_nat (length (acks n)) <= MaxUint64 ->
  nodes n !! v = Some p -> (v, t1) ∈ acks n -> (v, t2) ∈ acks n ->
  Sender sg t1 = inl o -> Sender sg t2 = inl o -> Nonce t1 = Nonce t2 -> t1 = t2.
Proof. intros Hr. by apply acks_once, net_reachable_ok. Qed.

(** Validators whose votes two honest nodes counted for different hashes are
    Byzantine. *)
Lemma double_voter n v1 v2 p1 p2 B1 B2 o k h1 h2 a : net_ok n -> Z.of_nat (length (acks n)) <= MaxUint64 ->
  node_ok (acks n) p1 B1 -> node_ok (acks n) p2 B2 -> nodes n !! v1 = Some p1 -> nodes n !! v2 = Some p2 ->
  h1 <> h2 -> a ∈ voters h1 (B1 o k) -> a ∈ voters h2 (B2 o k) -> nodes n !! a = None.
Proof.
  intros Hok Hl [_ _ _ _ J1] [_ _ _ _ J2] E1 E2 Hne Ha1%elem_of_voters Ha2%elem_of_voters.
  destruct (J1 _ _ _ _ Ha1) as (t1 & L1 & S1 & N1 & T1), (J2 _ _ _ _ Ha2) as (t2 & L2 & S2 & N2 & T2).
  destruct (nodes n !! a) as [p|] eqn:E; [|done]. destruct Hne.
  rewrite <- T1, <- T2. f_equal. apply (acks_once n a p t1 t2 o); done || congruence.
Qed.

Lemma voters_validators n p B o k h : net_ok n -> node_ok (acks n) p B -> voters h (B o k) ⊆ validators.
Proof.
  intros Hok [_ _ _ _ J] a (tx & Ht & _)%elem_of_voters%J. by eapply nk_acks.
Qed.

Lemma quorums_meet n v1 v2 p1 p2 o k h1 h2 T F : net_ok n -> Z.of_nat (length (acks n)) <= MaxUint64 ->
  (forall a, 0 <= GetBalance stake a) -> sumSet (GetBalance stake) validators <= T ->
  sumSet (GetBalance stake) (validators ∖ dom (nodes n)) <= F ->
  T + F < 2 * (Q + 1) ->
  nodes n !! v1 = Some p1 -> nodes n !! v2 = Some p2 ->
  Q < weightOf p1 o k h1 -> Q < weightOf p2 o k h2 -> h1 = h2.
Proof.
  intros Hok Hl Hpos HT HF HQ E1 E2 W1 W2. destruct (decide (h1 = h2)) as [|Hne]; [done|].
  destruct (nk_nodes _ Hok v1 p1 E1) as [[B1 N1] _], (nk_nodes _ Hok v2 p2 E2) as [[B2 N2] _].
  rewrite (bo_weight _ _ _ (no_books _ _ _ N1)) in W1. rewrite (bo_weight _ _ _ (no_books _ _ _ N2)) in W2.
  pose proof (voters_validators n p1 B1 o k h1 Hok N1) as V1.
  pose proof (voters_validators n p2 B2 o k h2 Hok N2) as V2.
  set (X1 := voters h1 (B1 o k)) in *. set (X2 := voters h2 (B2 o k)) in *.
  pose proof (sumSet_union_inter (GetBalance stake) X1 X2).
  pose proof (sumSet_mono (GetBalance stake) (X1 ∪ X2) validators Hpos ltac:(set_solver)).
  assert (X1 ∩ X2 ⊆ validators ∖ dom (nodes n)) as Hbyz.
  { intros a [Ha1 Ha2]%elem_of_intersection. apply elem_of_difference. split; [set_solver|].
    apply not_elem_of_dom. by apply (double_voter n v1 v2 p1 p2 B1 B2 o k h1 h2). }
  pose proof (sumSet_mono (GetBalance stake) _ _ Hpos Hbyz). lia.
Qed.

(** C1: with the quorum eth/backend.go configures, two honest nodes never
    count more than the quorum for different hashes of one sender and nonce,
    provided the validators hold at most [T] stake in all and those without an
    honest node at most three fifths of it. *)
Theorem agreement n v1 v2 p1 p2 o k h1 h2 T F : net_reachable n ->
  Z.of_nat (length (acks n)) <= MaxUint64 ->
  (forall a, 0 <= GetBalance stake a) -> sumSet (GetBalance stake) validators <= T ->
  sumSet (GetBalance stake) (validators ∖ dom (nodes n)) <= F ->
  Q = majorityStake T -> 5 * F <= 3 * T ->
  nodes n !! v1 = Some p1 -> nodes n !! v2 = Some p2 ->
  Q < weightOf p1 o k h1 -> Q < weightOf p2 o k h2 -> h1 = h2.
Proof.
  intros Hr%net_reachable_ok Hl Hpos HT HF HQ H5.
  apply (quorums_meet n v1 v2 p1 p2 o k h1 h2 T F); try done.
  rewrite HQ. unfold majorityStake. pose proof (Z.mul_succ_div_gt (T * 4) 5). lia.
Qed.

End Cascade.

(** ** A network of two validators *)

#[local] Existing Instances toyCrypto toyDatabase.

Definition ackOr (p : TxPool) (o : outcome (TxPool * bool * option error)) : TxPool * bool * option error :=
  match o with Ret r => r | Panic => (p, false, None) end.
Definition local_ex (v : Address) := ackOr pool_ex (addAck 0 pool_ex tx_ex v true).
Definition both_ex (v w : Address) := ackOr pool_ex (addAck 0 (local_ex v).1.1 tx_ex w false).

Definition net_ex : net :=
  mkNet (<[2 := (both_ex 2 1).1.1]> (<[1 := (both_ex 1 2).1.1]>
          (<[2 := (local_ex 2).1.1]> (<[1 := (local_ex 1).1.1]> {[ 1 := pool_ex; 2 := pool_ex ]}))))
    [(1, tx_ex); (2, tx_ex)].

Lemma pool_ex_init : node_init HomesteadSigner (New accounts_ex) 16 pool_ex.
Proof.
  destruct (NewTxPool_init HomesteadSigner (New accounts_ex) 16 0 cfg_ex cc_ex bc_ex (New ∅) (New accounts_ex))
    as (p & E & Hp); [done|apply reachable_sane, reach_new|done|vm_compute; done|done|].
  unfold pool_ex. by rewrite E.
Qed.

Lemma net_ex_reachable : net_reachable HomesteadSigner (New accounts_ex) 16 {[ 1; 2 ]} net_ex.
Proof.
  pose (N := {[ 1 := pool_ex; 2 := pool_ex ]} : gmap Address TxPool).
  pose (N1 := <[1 := (local_ex 1).1.1]> N). pose (N2 := <[2 := (local_ex 2).1.1]> N1).
  pose (N3 := <[1 := (both_ex 1 2).1.1]> N2). pose (L := [(1, tx_ex); (2, tx_ex)]).
  apply (net_next _ _ _ _ (mkNet N3 L)).
  2:{ apply (step_receive _ 0 N3 L 2 (local_ex 2).1.1 1 tx_ex _ (both_ex 2 1).1.2 (both_ex 2 1).2);
      [vm_compute; reflexivity|left|split; vm_compute; done|vm_compute; reflexivity]. }
  apply (net_next _ _ _ _ (mkNet N2 L)).
  2:{ apply (step_receive _ 0 N2 L 1 (local_ex 1).1.1 2 tx_ex _ (both_ex 1 2).1.2 (both_ex 1 2).2);
      [vm_compute; reflexivity|right; left|split; vm_compute; done|vm_compute; reflexivity]. }
  apply (net_next _ _ _ _ (mkNet N1 [(1, tx_ex)])).
  2:{ apply (step_local _ 0 N1 [(1, tx_ex)] 2 pool_ex tx_ex _ (local_ex 2).1.2 (local_ex 2).2);
      [set_solver|vm_compute; reflexivity|split; vm_compute; done|vm_compute; reflexivity|vm_compute; reflexivity]. }
  apply (net_next _ _ _ _ (mkNet N [])).
  2:{ apply (step_local _ 0 N [] 1 pool_ex tx_ex _ (local_ex 1).1.2 (local_ex 1).2);
      [set_solver|vm_compute; reflexivity|split; vm_compute; done|vm_compute; reflexivity|vm_compute; reflexivity]. }
  apply net_init. intros v p. unfold N. rewrite lookup_insert_Some, lookup_singleton_Some.
  intros [[_ <-]|[_ [_ <-]]]; apply pool_ex_init.
Qed.

Lemma honest_acks_once_witness : tx_ex = tx_ex.
Proof.
  apply (honest_acks_once HomesteadSigner (New accounts_ex) 16 {[ 1; 2 ]} net_ex 1 (both_ex 1 2).1.1 tx_ex tx_ex 77);
    [apply net_ex_reachable|vm_compute; discriminate|vm_compute; reflexivity|left|left
    |vm_compute; reflexivity|vm_compute; reflexivity|reflexivity].
Defined.

Lemma agreement_witness :
  weightOf (both_ex 1 2).1.1 77 0 (TxHash tx_ex) = 20 /\ TxHash tx_ex = TxHash tx_ex.
Proof.
  split; [vm_compute; reflexivity|].
  apply (agreement HomesteadSigner (New accounts_ex) 16 {[ 1; 2 ]} net_ex 1 2
    (both_ex 1 2).1.1 (both_ex 2 1).1.1 77 0 (TxHash tx_ex) (TxHash tx_ex) 20 0).
  - apply net_ex_reachable.
  - vm_compute. discriminate.
  - intros a. rewrite GetBalance_New. destruct (accounts_ex !! a) as [d|] eqn:E; [|done].
    assert (map_Forall (fun _ d => 0 <= a_Balance d) accounts_ex) as Hm 
      by (refine (bool_decide_unpack _ _); vm_compute; exact I).
    apply (Hm a d E).
  - vm_compute. discriminate.
  - vm_compute. discriminate.
  - vm_compute. reflexivity.
  - lia.
  - vm_compute. reflexivity.
  - vm_compute. reflexivity.
  - vm_compute. reflexivity.
  - vm_compute. reflexivity.
Defined.
