(* ===== verification/CascadeLive.v ===== *)
(** * Confirmation is live (core/tx_pool.go)

    A trace of the network of Cascade.v records which acknowledgements each
    node has counted and which calls of [addAck] confirmed.  The
    acknowledgements of honest validators with more than the quorum of stake
    can be counted at every node, in as many steps as there are validators;
    once they have been, in any order and whatever else happened in between,
    the node has confirmed the transaction. *)

From S2P Require Import Prelude Rlp Params Transaction Block AccessList StateDB Journal StateTransition Accounts Heap TxList TxLookup Prque TxPool PoolFacts Acks Cascade.

(** [ev_node] counted the acknowledgement of [ev_from]. *)
Record event := mkEvent { ev_node : Address; ev_from : Address; ev_tx : Transaction; ev_confirmed : bool }.

Section Live.
Context `{Crypto} `{Database}.
Context (sg : Signer) (stake : StateDB) (Q : Z) (validators : gset Address).

Inductive net_trace : net -> list event -> Prop :=
| trace_init N : (forall v p, N !! v = Some p -> node_init sg stake Q p) -> net_trace (mkNet N []) []
| trace_local T now N L v p tx p' c e : net_trace (mkNet N L) T ->
    v ∈ validators -> N !! v = Some p -> is_u64 (Nonce tx) ->
    validateAck p tx true = None -> addAck now p tx v true = Ret (p', c, e) ->
    net_trace (mkNet (<[v := p']> N) (L ++ [(v, tx)])) (T ++ [mkEvent v v tx c])
| trace_byzantine T N L a tx : net_trace (mkNet N L) T -> a ∈ validators -> N !! a = None ->
    net_trace (mkNet N (L ++ [(a, tx)])) T
| trace_receive T now N L v p a tx p' c e : net_trace (mkNet N L) T ->
    N !! v = Some p -> (a, tx) ∈ L -> is_u64 (Nonce tx) -> addAck now p tx a false = Ret (p', c, e) ->
    net_trace (mkNet (<[v := p']> N) L) (T ++ [mkEvent v a tx c])
| trace_other T N L v p p' : net_trace (mkNet N L) T -> N !! v = Some p -> same_books p p' -> pool_ok p' ->
    net_trace (mkNet (<[v := p']> N) L) T.

Lemma trace_reachable n T : net_trace n T -> net_reachable sg stake Q validators n.
Proof.
  induction 1; [by apply net_init|eapply net_next; [eassumption|]..].
  - by eapply step_local.
  - by eapply step_byzantine.
  - by eapply step_receive.
  - by eapply step_other.
Qed.

(** The ballot of a node against what it counted. *)
Record node_heard (L : list (Address * Transaction)) (T : list event) (v : Address) (p : TxPool) (B : ballots) : Prop := {
  nh_ok : node_ok sg stake Q L p B;
  nh_heard a tx c o : mkEvent v a tx c ∈ T -> Sender sg tx = inl o -> is_Some (B o (Nonce tx) !! a);
  nh_confirmed o k h : Q < weightOf p o k h ->
    exists a tx, mkEvent v a tx true ∈ T /\ Sender sg tx = inl o /\ Nonce tx = k /\ TxHash tx = h
}.

Lemma cast_some B o n a h o' n' a' : is_Some (B o' n' !! a') -> is_Some (cast B o n a h o' n' !! a').
Proof.
  intros Hs. unfold cast. case_decide as D; [|done]. destruct D as [<- <-]. destruct (B o n !! a) eqn:E; [done|].
  rewrite lookup_insert. case_decide; [by eexists|done].
Qed.

Lemma cast_self B o n a h : is_Some (cast B o n a h o n !! a).
Proof. unfold cast. rewrite decide_True by done. destruct (B o n !! a) eqn:E; [by rewrite E|]. rewrite lookup_insert_eq. by eexists. Qed.

Lemma heard_app L L' T e v p B : ev_node e <> v -> node_heard L T v p B -> node_heard (L ++ L') (T ++ [e]) v p B.
Proof.
  intros Hne [Ho Hh Hc]. split; [by apply node_ok_app| |].
  - intros a tx c o [Hin|Hin%list_elem_of_singleton]%elem_of_app; [by eapply Hh|by subst e].
  - intros o k h HQ. destruct (Hc o k h HQ) as (a & tx & Hin & ?). exists a, tx. split; [apply elem_of_app; by left|done].
Qed.

Lemma heard_log L L' T v p B : node_heard L T v p B -> node_heard (L ++ L') T v p B.
Proof. intros [Ho Hh Hc]. split; [by apply node_ok_app|done..]. Qed.

(** One call of addAck at [v]. *)
Lemma heard_ack now L T v p B tx a isLocal p' c e : node_heard L T v p B -> (a, tx) ∈ L -> is_u64 (Nonce tx) ->
  addAck now p tx a isLocal = Ret (p', c, e) -> exists B', node_heard L (T ++ [mkEvent v a tx c]) v p' B'.
Proof.
  intros [[Hp Hs HQ Hb Hv] Hh Hc] Ha Hn E. destruct (Sender sg tx) as [o|err] eqn:Ho.
  - assert (Sender (signer p) tx = inl o) as Ho' by congruence.
    destruct (addAck_views now p tx a isLocal o stake Hp (bo_nil _ _ _ Hb) (bo_stake _ _ _ Hb) Ho' Hn)
      as (q & E' & Hp' & Hk & _).
    rewrite E in E'. injection E' as -> Ec ->. pose proof (ak_frame _ _ _ _ _ _ _ Hk) as [].
    exists (cast B o (Nonce tx) a (TxHash tx)). split.
    + split; [done|congruence..|by apply (acked_books _ _ _ _ _ _ p)|by apply (justified_cast _ _ _ _ _ _ _ tx)].
    + intros b t d o' [Hin|[= -> -> ->]%list_elem_of_singleton]%elem_of_app Ho2; [apply cast_some; by eapply Hh|].
      assert (o' = o) as -> by congruence. apply cast_self.
    + intros o' k h HQ'. destruct (Z.ltb_spec Q (weightOf p o' k h)) as [Hw|Hw].
      { destruct (Hc o' k h Hw) as (b & t & Hin & ?). exists b, t. split; [apply elem_of_app; by left|done]. }
      pose proof (ak_weight _ _ _ _ _ _ _ Hk o' k h) as Ew. destruct (bool_decide _ && _) eqn:Eb; [|lia].
      apply andb_true_iff in Eb as [(<- & <- & <-)%bool_decide_eq_true Hnew].
      exists a, tx. split; [|done]. apply elem_of_app. right. apply list_elem_of_singleton.
      rewrite Ec, Hnew. f_equal. symmetry. apply Z.ltb_lt. congruence.
  - unfold addAck in E. rewrite Hs, Ho in E. injection E as <- <- _. exists B. split; [by split| |].
    + intros b t d o [Hin|[= -> -> ->]%list_elem_of_singleton]%elem_of_app Ho2; [by eapply Hh|congruence].
    + intros o k h HQ'. destruct (Hc o k h HQ') as (b & t & Hin & ?). exists b, t. split; [apply elem_of_app; by left|done].
Qed.

Definition trace_ok (n : net) (T : list event) : Prop :=
  forall v p, nodes n !! v = Some p -> exists B, node_heard (acks n) T v p B.

(** The node [v] counted an acknowledgement; the others stay. *)
Lemma trace_count N L L' T v p' e : trace_ok (mkNet N L) T -> ev_node e = v ->
  (exists B, node_heard (L ++ L') (T ++ [e]) v p' B) -> trace_ok (mkNet (<[v := p']> N) (L ++ L')) (T ++ [e]).
Proof.
  intros IH He Hv w q Hw. cbn [nodes acks] in *. apply lookup_insert_Some in Hw as [[<- <-]|[Hne Hw]]; [done|].
  destruct (IH w q Hw) as [B HB]. exists B. apply heard_app; [congruence|done].
Qed.

Lemma net_trace_ok n T : 0 <= Q -> net_trace n T -> trace_ok n T.
Proof.
  intros HQ. induction 1 as [N HN|T now N L v p tx p' c e _ IH HV Hv Hn Hval E|T N L a tx _ IH HV Ha
    |T now N L v p a tx p' c e _ IH Hv Hin Hn E|T N L v p p' _ IH Hv Hsb Hp'].
  - intros v p Hv. exists (fun _ _ => ∅). destruct (HN v p Hv) as [Hp Hs HQ' He Hst H1 H2 H3].
    assert (books_ok stake (fun _ _ => ∅) p) as Hb by by apply books_new.
    split; [split; [done..|]| |].
    + intros o n a h. by rewrite lookup_empty.
    + by intros a tx c o ?%elem_of_nil.
    + intros o k h. rewrite (bo_weight _ _ _ Hb). unfold voters. rewrite map_filter_empty, dom_empty_L, sumSet_empty. lia.
  - apply trace_count; [done..|]. destruct (IH v p Hv) as [B HB].
    apply (heard_ack now _ _ _ p B tx v true p' c e); [by apply heard_log|set_solver|done..].
  - intros w q Hw. destruct (IH w q Hw) as [B HB]. exists B. by apply heard_log.
  - rewrite <- (app_nil_r L). apply trace_count; [done..|]. rewrite app_nil_r. destruct (IH v p Hv) as [B HB].
    by apply (heard_ack now _ _ _ p B tx a false p' c e).
  - intros w q Hw. cbn [nodes acks] in *. apply lookup_insert_Some in Hw as [[<- <-]|[Hne Hw]]; [|by apply IH].
    destruct (IH v p Hv) as [B [[H1 H2 H3 H4 H5] Hh Hc]]. exists B. split; [| |].
    + destruct Hsb. split; [done|congruence..|by apply (books_same _ _ p)|done].
    + done.
    + intros o k h. unfold weightOf. rewrite (sb_unconfirmed _ _ Hsb). apply Hc.
Qed.

(** Honest validators that [v] counted voted for the transaction they
    acknowledged. *)
Lemma heard_voters n T v p B tx o X : net_reachable sg stake Q validators n -> Z.of_nat (length (acks n)) <= MaxUint64 ->
  node_heard (acks n) T v p B -> Sender sg tx = inl o ->
  (forall a, a ∈ X -> is_Some (nodes n !! a) /\ (a, tx) ∈ acks n /\ exists c, mkEvent v a tx c ∈ T) ->
  X ⊆ voters (TxHash tx) (B o (Nonce tx)).
Proof.
  intros Hr%net_reachable_ok Hl [Ho Hh _] Hs HX a Ha. apply elem_of_voters. destruct (HX a Ha) as ([q Hq] & Hin & c & Hc).
  destruct (Hh a tx c o Hc Hs) as [h Hb]. rewrite Hb. f_equal.
  destruct (no_votes _ _ _ _ _ _ Ho _ _ _ _ Hb) as (t & Ht & St & Nt & <-). f_equal.
  by apply (acks_once sg stake Q validators n a q t tx o).
Qed.

Lemma confirmed_after n T v p tx o X : 0 <= Q -> net_trace n T -> Z.of_nat (length (acks n)) <= MaxUint64 ->
  (forall a, 0 <= GetBalance stake a) -> nodes n !! v = Some p -> Sender sg tx = inl o ->
  (forall a, a ∈ X -> is_Some (nodes n !! a) /\ (a, tx) ∈ acks n /\ exists c, mkEvent v a tx c ∈ T) ->
  Q < sumSet (GetBalance stake) X -> Q < weightOf p o (Nonce tx) (TxHash tx) /\
  exists a t, mkEvent v a t true ∈ T /\ Sender sg t = inl o /\ Nonce t = Nonce tx /\ TxHash t = TxHash tx.
Proof.
  intros HQ HT Hl Hst Hv Hs HX Hsum. destruct (net_trace_ok n T HQ HT v p Hv) as [B HB].
  assert (Q < weightOf p o (Nonce tx) (TxHash tx)) as Hw.
  { rewrite (bo_weight _ _ _ (no_books _ _ _ _ _ _ (nh_ok _ _ _ _ _ HB))).
    pose proof (heard_voters n T v p B tx o X (trace_reachable n T HT) Hl HB Hs HX) as Hsub.
    pose proof (sumSet_mono (GetBalance stake) _ _ Hst Hsub). lia. }
  split; [done|]. by apply (nh_confirmed _ _ _ _ _ HB).
Qed.

(** Every acknowledgement that was made can be counted. *)
Lemma deliverable n T v p a tx : net_trace n T -> nodes n !! v = Some p -> (a, tx) ∈ acks n -> is_u64 (Nonce tx) ->
  exists n' c, net_trace n' (T ++ [mkEvent v a tx c]) /\ acks n' = acks n /\ dom (nodes n') = dom (nodes n).
Proof.
  intros HT Hv Hin Hn. destruct n as [N L]. cbn [nodes acks] in *.
  destruct (nk_nodes _ _ _ _ _ (net_reachable_ok _ _ _ _ _ (trace_reachable _ _ HT)) v p Hv) as [[B [Hp Hs _ Hb _]] _].
  assert (exists p' c e, addAck 0 p tx a false = Ret (p', c, e)) as (p' & c & e & E).
  { destruct (Sender (signer p) tx) as [o|] eqn:Ho; [|unfold addAck; rewrite Ho; by do 3 eexists].
    destruct (addAck_views 0 p tx a false o stake Hp (bo_nil _ _ _ Hb) (bo_stake _ _ _ Hb) Ho Hn) as (p' & E & _).
    by do 3 eexists. }
  exists (mkNet (<[v := p']> N) L), c. split; [by eapply trace_receive|]. split; [done|]. cbn [nodes].
  rewrite dom_insert_L. apply elem_of_dom_2 in Hv. set_solver.
Qed.

Lemma deliver_all l : forall n T v tx, net_trace n T -> v ∈ dom (nodes n) -> is_u64 (Nonce tx) ->
  (forall a, a ∈ l -> (a, tx) ∈ acks n) -> exists n' T', net_trace n' (T ++ T') /\ acks n' = acks n /\ dom (nodes n') = dom (nodes n) /\
    length T' = length l /\ forall a, a ∈ l -> exists c, mkEvent v a tx c ∈ T'.
Proof.
  induction l as [|a l IH]; intros n T v tx HT Hv Hn Hl.
  { exists n, []. rewrite app_nil_r. split_and!; [done..|]. by intros a ?%elem_of_nil. }
  destruct (proj1 (elem_of_dom _ _) Hv) as [p Hp].
  destruct (deliverable n T v p a tx HT Hp) as (n1 & c & HT1 & Ea & Ed); [apply Hl; left|done|].
  destruct (IH n1 _ v tx HT1) as (n2 & T2 & HT2 & Ea2 & Ed2 & Hlen & Hall); [by rewrite Ed|done|intros b Hb; rewrite Ea; apply Hl; by right|].
  exists n2, (mkEvent v a tx c :: T2). rewrite <- app_assoc in HT2. split_and!; [done|congruence|congruence|cbn; lia|].
  intros b [->|Hb]%elem_of_cons; [exists c; left|]. destruct (Hall b Hb) as [d Hd]. exists d. by right.
Qed.


End Live.

(** ** The network of two validators of Cascade.v *)

#[local] Existing Instances toyCrypto toyDatabase.

Definition acked_ex : net :=
  mkNet (<[2 := (local_ex 2).1.1]> (<[1 := (local_ex 1).1.1]> {[ 1 := pool_ex; 2 := pool_ex ]})) [(1, tx_ex); (2, tx_ex)].
Definition events_ex : list event := [mkEvent 1 1 tx_ex (local_ex 1).1.2; mkEvent 2 2 tx_ex (local_ex 2).1.2].

Lemma acked_ex_trace : net_trace HomesteadSigner (New accounts_ex) 16 {[ 1; 2 ]} acked_ex events_ex.
Proof.
  pose (N := {[ 1 := pool_ex; 2 := pool_ex ]} : gmap Address TxPool). pose (N1 := <[1 := (local_ex 1).1.1]> N).
  apply (trace_local _ _ _ _ [mkEvent 1 1 tx_ex (local_ex 1).1.2] 0 N1 [(1, tx_ex)] 2 pool_ex tx_ex _ _ (local_ex 2).2);
    [|set_solver|vm_compute; reflexivity|split; vm_compute; done|vm_compute; reflexivity|vm_compute; reflexivity].
  apply (trace_local _ _ _ _ [] 0 N [] 1 pool_ex tx_ex _ _ (local_ex 1).2);
    [|set_solver|vm_compute; reflexivity|split; vm_compute; done|vm_compute; reflexivity|vm_compute; reflexivity].
  apply trace_init. intros v p. unfold N. rewrite lookup_insert_Some, lookup_singleton_Some.
  intros [[_ <-]|[_ [_ <-]]]; apply pool_ex_init.
Qed.

