(* ===== verification/ProcessorFacts.v ===== *)
(** * Only confirmed transactions are executed (core/state_processor.go)

    [Process] and [ApplyTransaction] count acknowledgements and execute
    transactions.  The lemmas here show that they return on well-formed
    input, that every transaction they execute has more than the quorum behind
    it, and that they act on the books of the pool as the steps of the network
    of Cascade.v do. *)

From S2P Require Import Prelude Rlp Params Transaction Block AccessList StateDB Journal Metering Receipt Clique Evm StateTransition Heap TxList TxLookup Prque TxPool StateProcessor PoolFacts Acks Cascade.

(** ** Executing *)

Record tx_ok (tx : Transaction) : Prop := {
  to_nonce : is_u64 (Nonce tx);
  to_gas : is_u64 (Gas tx);
  to_price : 0 <= GasPrice tx;
  to_value : 0 <= Value tx
}.

Section Execute.
Context `{Crypto} `{Database} `{Interpreter} `{!InterpreterLaws}.

Record exec_ok (x : execState) : Prop := {
  eo_sane : sane (x_state x);
  eo_journal : entries (x_state x) = [];
  eo_refund : rested (x_state x);
  eo_gp : gas_ok (x_gp x)
}.

Lemma AsMessage_ok tx sg m : tx_ok tx -> AsMessage tx sg = inl m -> msg_ok m.
Proof. intros [] E. unfold AsMessage in E. destruct (Sender sg tx); [|done]. injection E as <-. by split. Qed.

Lemma precheck_gas s m p : precheck_error s m p = None -> m_gasLimit m <= p.
Proof.
  unfold precheck_error. intros E. repeat (case_match; [done|]).
  destruct (Z.ltb_spec p (m_gasLimit m)); [done|lia].
Qed.

(** The errors of the acknowledgements, which no other code returns. *)
Definition ackError (e : error) : bool :=
  match e with ErrInsufficientAcks | ErrNonceAlreadyAcked => true | _ => false end.

Lemma Sender_error sg tx e : Sender sg tx = inr e -> ackError e = false.
Proof. intros E. unfold Sender, frontierSender, recoverPlain in E. repeat case_match; by simplify_eq/=. Qed.

Lemma IntrinsicGas_error data al cr hs eip e : IntrinsicGas data al cr hs eip = inr e -> ackError e = false.
Proof. intros E. unfold IntrinsicGas in E. repeat case_match; by simplify_eq/=. Qed.

Lemma validateAck_error p tx b e : validateAck p tx b = Some e -> ackError e = false.
Proof.
  intros E. unfold validateAck in E. repeat case_match; simplify_eq/=; try done.
  by eapply IntrinsicGas_error.
Qed.

Lemma message_error evm s m p e : precheck_error s m p = Some e \/ intrinsic_error evm s m = Some e -> ackError e = false.
Proof.
  unfold precheck_error, intrinsic_error, messageGas. intros [E|E]; repeat case_match; simplify_eq/=; try done.
  by eapply IntrinsicGas_error.
Qed.

(** applyTransaction returns; after a success the state is ready for the next
    transaction and the receipt is that of [tx], after an error the state can
    be reverted. *)
Lemma applyTransaction_ok cc header evm m tx x : ChainID (chainConfig evm) <> None ->
  sane (x_state x) -> rested (x_state x) -> gas_ok (x_gp x) -> msg_ok m ->
  exists x' r, applyTransaction cc header evm m tx x = Ret (x', r) /\
    match r with
    | inl receipt => exec_ok x' /\ r_TxHash receipt = TxHash tx
    | inr e => ackError e = false /\ runs (x_state x) (x_state x') /\ gas_ok (x_gp x')
    end.
Proof.
  intros Hch Hs Hr Hg Hm. unfold applyTransaction.
  destruct (ApplyMessage_ok (resetEVM evm m) (x_state x) m (x_gp x) Hs (rested_metered _ Hr) (rested_room _ _ Hr Hg) Hch
    (gas_ok_u64 _ Hg) Hm) as (st & res & -> & Hrun & Hr' & Hc).
  cbn [mbind outcome_bind].
  assert (gas_ok (gp st) /\ forall e, res = inr e -> ackError e = false) as [Hgp He].
  { destruct (precheck_error _ _ _) as [e|] eqn:Ep; [destruct Hc as (_ & -> & ->); split; [done|]; intros ? [= <-]; by eapply (message_error evm), or_introl|].
    apply precheck_gas in Ep. destruct (intrinsic_error _ _ _) eqn:Ei.
    - destruct Hc as [-> ->]. split; [destruct Hm; unfold gas_ok, is_u64 in *; lia|]. intros ? [= <-]. by eapply (message_error _ _ _ 0), or_intror.
    - destruct Hc as (r & igas & -> & _ & -> & Hu & _). split; [|done]. unfold gas_ok in *. lia. }
  destruct res as [result|e]; [|eexists _, _; split; [done|]; split_and!; [by apply He|done..]].
  assert (sane (state st)) as Hst by by apply (runs_sane (x_state x)).
  assert (exists s root, (if IsByzantium cc (Some (h_Number header)) then Ret (Finalise (state st) true, [])
      else '(s, r) ← IntermediateRoot (state st) (IsEIP158 cc (Some (h_Number header)));
           Ret (s, be_bytes HashLength r)) = Ret (s, root) /\ sane s /\ entries s = [] /\ rested s)
    as (s & root & -> & Hs1 & Hs2 & Hs3).
  { destruct (IsByzantium _ _).
    - eexists _, _. split; [done|]. destruct (sane_ok _ Hst) as (C & A & _).
      split_and!; [by apply Finalise_sane|by apply Finalise_ok|by apply tidied_rested, tidied_Finalise].
    - destruct (IntermediateRoot_sane (state st) (IsEIP158 cc (Some (h_Number header))) Hst) as (s & h & E & Hss & _ & Hent).
      rewrite E. eexists _, _. split; [done|]. split_and!; [done..|]. by eapply tidied_rested, tidied_IntermediateRoot. }
  cbn [mbind outcome_bind]. eexists _, _. split; [done|]. split; [by split|done].
Qed.

Lemma execute_ok cc block evm m i tx p : ChainID (chainConfig evm) <> None -> exec_ok (pr_exec p) -> msg_ok m ->
  exists p' e, execute cc block evm m i tx p = Ret (p', e) /\ pr_pool p' = pr_pool p /\
    match e with
    | Some _ => pr_receipts p' = pr_receipts p
    | None => exec_ok (pr_exec p') /\ exists r, pr_receipts p' = pr_receipts p ++ [r] /\ r_TxHash r = TxHash tx
    end.
Proof.
  intros Hch [Hs Hj Hr Hg] Hm. unfold execute.
  destruct (applyTransaction_ok cc (b_header block) evm m tx
    (mkExec (Prepare (x_state (pr_exec p)) (TxHash tx) (BlockHash block) (Z.of_nat i)) (x_gp (pr_exec p))
       (x_usedGas (pr_exec p)))) as (x' & r & -> & Hx); [done|by apply Prepare_sane|by apply rested_Prepare|done..|].
  cbn [mbind outcome_bind]. destruct r as [receipt|e].
  - destruct Hx as [Hx Ht]. eexists _, _. split; [done|]. split; [done|]. split; [done|]. by exists receipt.
  - eexists _, _. by split_and!.
Qed.

End Execute.

(** ** Counting *)

Section Counting.
Context `{Crypto} `{Database}.

(** More than the quorum stands behind [tx]. *)
Definition quorum (p : TxPool) (tx : Transaction) : Prop :=
  exists o, Sender (signer p) tx = inl o /\ QuorumStake (config p) < weightOf p o (Nonce tx) (TxHash tx).

(** The weights do not shrink. *)
Record grows (p p' : TxPool) : Prop := {
  gr_quorum : QuorumStake (config p') = QuorumStake (config p);
  gr_signer : signer p' = signer p;
  gr_weight o n h : weightOf p o n h <= weightOf p' o n h
}.

#[export] Instance grows_preorder : PreOrder grows.
Proof.
  split; [intros p; by split|]. intros p q r [Q1 S1 W1] [Q2 S2 W2]. split; [congruence..|].
  intros o n h. specialize (W1 o n h). specialize (W2 o n h). lia.
Qed.

Lemma quorum_grows p p' tx : grows p p' -> quorum p tx -> quorum p' tx.
Proof.
  intros [Q S W] (o & Ho & Hw). exists o. rewrite Q, S. split; [done|]. specialize (W o (Nonce tx) (TxHash tx)). lia.
Qed.

Lemma same_books_grows p p' : same_books p p' -> grows p p'.
Proof. intros []. split; [done..|]. intros o n h. unfold weightOf. by rewrite sb_unconfirmed. Qed.

(** The transactions waiting for execution are confirmed. *)
Definition confirmed_ok (p : TxPool) : Prop := forall tx, tx ∈ confirmed p -> tx_ok tx /\ quorum p tx.

Lemma confirmed_grows p p' : grows p p' -> (forall tx, tx ∈ confirmed p' -> tx ∈ confirmed p) ->
  confirmed_ok p -> confirmed_ok p'.
Proof. intros Hg Hsub Hc tx Htx. destruct (Hc tx (Hsub tx Htx)). split; [done|by apply (quorum_grows p)]. Qed.

(** What processing a block of [author] does to a pool. *)
Inductive count_step (author : Address) (txs : list Transaction) : TxPool -> TxPool -> Prop :=
| count_ack now p p' tx c e : tx ∈ txs -> is_u64 (Nonce tx) -> addAck now p tx author false = Ret (p', c, e) ->
    count_step author txs p p'
| count_other p p' : same_books p p' -> pool_ok p' -> count_step author txs p p'.

Context (st : StateDB).
Hypothesis stake_nonneg : forall a, 0 <= GetBalance st a.

Lemma acked_grows o n h a p p' : acked st o n h a p p' -> grows p p'.
Proof.
  intros [[F1 F2 _ _] _ _ W _]. split; [congruence..|]. intros o' n' h'. rewrite W.
  pose proof (stake_nonneg a). case_match; lia.
Qed.

(** One acknowledgement; a transaction it confirms has the quorum. *)
Lemma addAck_counted now p tx a isLocal : pool_inv st p -> confirmed_ok p -> is_u64 (Nonce tx) ->
  exists p' c e, addAck now p tx a isLocal = Ret (p', c, e) /\ pool_inv st p' /\ confirmed_ok p' /\
    grows p p' /\ (c = true -> quorum p' tx).
Proof.
  intros [Hp [B HB]] Hc Hn. destruct (Sender (signer p) tx) as [o|e] eqn:Ho.
  - destruct (addAck_views now p tx a isLocal o st Hp (bo_nil _ _ _ HB) (bo_stake _ _ _ HB) Ho Hn)
      as (q & -> & Hq & Hk & _). eexists _, _, _. split; [done|].
    pose proof (acked_grows _ _ _ _ _ _ Hk) as Hg. split_and!; [|..|done|].
    + split; [done|]. exists (cast B o (Nonce tx) a (TxHash tx)). by apply (acked_books _ _ _ _ _ _ p).
    + apply (confirmed_grows p); [done| |done]. by rewrite (af_confirmed _ _ (ak_frame _ _ _ _ _ _ _ Hk)).
    + intros [_ Hw%Z.ltb_lt]%andb_true_iff. exists o. destruct Hg as [HQ HS _]. rewrite HQ, HS. done.
  - unfold addAck. rewrite Ho. eexists _, _, _. split; [done|]. split_and!; [by split; [|exists B]|done|done|done].
Qed.

End Counting.

(** ** Process *)

(** A loop that returns early: [P] before every round, [Q] at the return. *)
Lemma loopE_rule {S A} (P Q : S -> Prop) (f : S -> A -> outcome (S * option error)) l s :
  (forall x s, x ∈ l -> P s -> exists s' e, f s x = Ret (s', e) /\ match e with None => P s' | Some _ => Q s' end) ->
  P s -> exists s' e, loopE f s l = Ret (s', e) /\ match e with None => P s' | Some _ => Q s' end.
Proof.
  revert s. induction l as [|x l IH]; intros s Hf Hs; simpl; [by eauto|].
  destruct (Hf x s ltac:(left) Hs) as (s1 & [e|] & -> & H1); cbn [mbind outcome_bind]; [by eauto|].
  apply IH; [|done]. intros y t Hy. apply Hf. by right.
Qed.

Class EngineLaws `{Crypto} `{Database} `{Engine} : Prop := {
  Finalize_total cc h s txs uncles : sane s -> exists s', Finalize cc h s txs uncles = Ret s' /\ sane s'
}.

Lemma clique_laws `{Crypto} `{Database} : @EngineLaws _ _ cliqueEngine.
Proof.
  split. intros cc h s txs uncles Hs. simpl. unfold clique_Finalize.
  destruct (IntermediateRoot_sane s (IsEIP158 cc (Some (h_Number h))) Hs) as (s' & r & -> & Hs' & _). by eexists.
Qed.

Section ProcessFacts.
Context `{Crypto} `{Database} `{Interpreter} `{!InterpreterLaws} `{Engine} `{!EngineLaws}.
Context (st : StateDB).
Hypothesis stake_nonneg : forall a, 0 <= GetBalance st a.

(** The pool during Process, and the receipts so far. *)
Record counted (author : Address) (txs : list Transaction) (p0 : TxPool) (p : procState) : Prop := {
  ct_steps : rtc (count_step author txs) p0 (pr_pool p);
  ct_inv : pool_inv st (pr_pool p);
  ct_confirmed : confirmed_ok (pr_pool p);
  ct_receipts : Forall (fun r => exists tx, r_TxHash r = TxHash tx /\ quorum (pr_pool p) tx) (pr_receipts p)
}.

Lemma counted_grows author txs p0 p q : counted author txs p0 p -> count_step author txs (pr_pool p) (pr_pool q) ->
  pool_inv st (pr_pool q) -> confirmed_ok (pr_pool q) -> grows (pr_pool p) (pr_pool q) -> pr_receipts q = pr_receipts p ->
  counted author txs p0 q.
Proof.
  intros [C1 C2 C3 C4] Hs Hi Hc Hg Er. split; [by eapply rtc_r|done|done|]. rewrite Er.
  eapply Forall_impl; [exact C4|]. intros r (tx & Ht & Hq). exists tx. split; [done|by apply (quorum_grows (pr_pool p))].
Qed.

(** Executing a confirmed transaction. *)
Lemma execute_counted author txs p0 cc block evm m i tx p : ChainID (chainConfig evm) <> None -> counted author txs p0 p -> exec_ok (pr_exec p) ->
  msg_ok m -> quorum (pr_pool p) tx ->
  exists p' e, execute cc block evm m i tx p = Ret (p', e) /\ pr_pool p' = pr_pool p /\ counted author txs p0 p' /\
    (e = None -> exec_ok (pr_exec p')).
Proof.
  intros Hch [C1 C2 C3 C4] Hx Hm Hq. destruct (execute_ok cc block evm m i tx p Hch Hx Hm) as (p' & e & E & Ep & He).
  exists p', e. split; [done|]. split; [done|]. split.
  - split; rewrite ?Ep; try done. destruct e; [by rewrite He|]. destruct He as (_ & r & -> & Hr).
    apply Forall_app. split; [done|]. apply Forall_singleton. by exists tx.
  - intros ->. by apply He.
Qed.

(** Changing the confirmed transactions only. *)
Lemma set_confirmed_counted author txs p0 p l : counted author txs p0 p ->
  (forall tx, tx ∈ l -> tx_ok tx /\ quorum (pr_pool p) tx) ->
  counted author txs p0 (p <| pr_pool := (pr_pool p) <| confirmed := l |> |>).
Proof.
  intros C Hl. set (q := (pr_pool p) <| confirmed := l |>).
  assert (same_books (pr_pool p) q) as Hb by by split.
  assert (pool_ok q) as Hok by (by destruct (pi_ok _ _ (ct_inv _ _ _ _ C))).
  apply (counted_grows _ _ _ p); [done|by apply count_other|split; [done|]| |by apply same_books_grows|done].
  - destruct (pi_books _ _ (ct_inv _ _ _ _ C)) as [B HB]. exists B. by apply (books_same _ _ (pr_pool p)).
  - intros tx Htx. destruct (Hl tx Htx). split; [done|].
    apply (quorum_grows (pr_pool p)); [by apply same_books_grows|done].
Qed.

Lemma processTx_counted author txs p0 now cc block evm p itx : ChainID (chainConfig evm) <> None -> counted author txs p0 p -> exec_ok (pr_exec p) ->
  itx.2 ∈ txs -> tx_ok itx.2 ->
  exists p' e, processTx now cc block author evm p itx = Ret (p', e) /\ counted author txs p0 p' /\
    (e = None -> exec_ok (pr_exec p')).
Proof.
  destruct itx as [i tx]. intros Hch C Hx Hin Htx. cbn [snd] in *. unfold processTx.
  destruct (AsMessage tx _) as [m|e] eqn:Em; [|by eauto]. apply AsMessage_ok in Em; [|done].
  case_bool_decide; [|by eauto].
  destruct (addAck_counted st stake_nonneg now (pr_pool p) tx author false (ct_inv _ _ _ _ C) (ct_confirmed _ _ _ _ C)
    (to_nonce _ Htx)) as (q & c & e & Ea & Hi & Hc & Hg & Hq).
  rewrite Ea. cbn [mbind outcome_bind]. set (p1 := p <| pr_pool := q |>).
  assert (counted author txs p0 p1) as C1.
  { apply (counted_grows _ _ _ p); try done. by apply (count_ack _ _ now _ _ tx c e); [|apply Htx|]. }
  destruct c; [|by eexists _, _]. specialize (Hq eq_refl). case_bool_decide.
  - destruct (execute_counted author txs p0 cc block evm m i tx p1 Hch C1 Hx Em Hq) as (p' & e' & E' & _ & C' & Hx').
    by eexists _, _.
  - eexists _, _. split; [done|]. split; [|done].
    change q with (pr_pool p1). apply (set_confirmed_counted _ _ _ p1 _ C1). cbn.
    intros t Ht. apply elem_of_app in Ht as [Ht|Ht]; [by apply Hc|]. apply list_elem_of_singleton in Ht. by subst.
Qed.

Lemma processConfirmed_counted author txs p0 pb cc block evm p n itx : ChainID (chainConfig evm) <> None -> counted author txs p0 p -> exec_ok (pr_exec p) ->
  tx_ok itx.2 -> quorum pb itx.2 -> grows pb (pr_pool p) ->
  exists p' n' e, processConfirmed cc block evm (p, n) itx = Ret (p', n', e) /\ counted author txs p0 p' /\
    grows pb (pr_pool p') /\ (e = None -> exec_ok (pr_exec p')).
Proof.
  destruct itx as [i tx]. intros Hch C Hx Htx Hq0 Hg. cbn [snd] in *. unfold processConfirmed.
  pose proof (quorum_grows _ _ _ Hg Hq0) as Hq.
  destruct (AsMessage tx _) as [m|e] eqn:Em; [|by eauto 10]. apply AsMessage_ok in Em; [|done].
  assert (forall n, exists p' n' e, @Ret (procState * nat * option error) (p <| pr_pool := (pr_pool p) <| confirmed :=
      <[n := tx]> (confirmed (pr_pool p)) |> |>, S n, None) = Ret (p', n', e) /\ counted author txs p0 p' /\
      grows pb (pr_pool p') /\ (e = None -> exec_ok (pr_exec p'))) as Hkeep.
  { intros k. eexists _, _, _. split; [done|]. split_and!; [|by destruct Hg|done].
    apply set_confirmed_counted; [done|]. intros t [j Hj]%list_elem_of_lookup.
    destruct (decide (j = k)) as [->|Hne].
    - apply list_lookup_insert_Some in Hj as [(_ & -> & _)|[Hj _]]; done.
    - rewrite list_lookup_insert_ne in Hj by done. apply (ct_confirmed _ _ _ _ C). by eapply list_elem_of_lookup_2. }
  destruct (validateTx (pr_pool p) tx false) as [[]|]; try (by eauto 10); try apply Hkeep.
  destruct (execute_counted author txs p0 cc block evm m i tx p Hch C Hx Em Hq) as (p' & e & -> & Ep & C' & Hx').
  cbn [mbind outcome_bind]. eexists _, _, _. split; [done|]. split_and!; [done| |done]. by rewrite Ep.
Qed.

Lemma imap_pair_elem {A} (l : list A) itx : itx ∈ imap pair l -> itx.2 ∈ l.
Proof.
  intros [k Hk]%list_elem_of_lookup. rewrite list_lookup_imap in Hk.
  destruct (l !! k) as [x|] eqn:E; [|done]. injection Hk as <-. by eapply list_elem_of_lookup_2.
Qed.

(** The two loops of Process. *)
Lemma loops_counted now cc block author evm p0 p : ChainID (chainConfig evm) <> None -> counted author (b_transactions block) p0 p -> exec_ok (pr_exec p) ->
  Forall tx_ok (b_transactions block) ->
  exists p1 e1, loopE (processTx now cc block author evm) p (imap pair (b_transactions block)) = Ret (p1, e1) /\
    counted author (b_transactions block) p0 p1 /\
    (e1 = None -> exists p2 n e2,
       loopE (processConfirmed cc block evm) (p1, 0%nat) (imap pair (confirmed (pr_pool p1))) = Ret (p2, n, e2) /\
       counted author (b_transactions block) p0 p2 /\ (e2 = None -> exec_ok (pr_exec p2))).
Proof.
  intros Hch C Hx Htxs. rewrite Forall_forall in Htxs.
  destruct (loopE_rule (fun p => counted author (b_transactions block) p0 p /\ exec_ok (pr_exec p))
    (counted author (b_transactions block) p0) (processTx now cc block author evm)
    (imap pair (b_transactions block)) p) as (p1 & e1 & -> & HL1); [|done|].
  { intros itx q Hin%imap_pair_elem [Cq Hq].
    destruct (processTx_counted author _ p0 now cc block evm q itx Hch Cq Hq Hin (Htxs _ Hin)) as (q' & e & E & C' & Hx').
    exists q', e. split; [done|]. destruct e; auto. }
  exists p1, e1. split; [done|]. destruct e1 as [e1|]; [by split|]. destruct HL1 as [C1 Hx1]. split; [done|]. intros _.
  destruct (loopE_rule (fun pn => counted author (b_transactions block) p0 pn.1 /\ exec_ok (pr_exec pn.1) /\
      grows (pr_pool p1) (pr_pool pn.1))
    (fun pn => counted author (b_transactions block) p0 pn.1) (processConfirmed cc block evm)
    (imap pair (confirmed (pr_pool p1))) (p1, 0%nat)) as ([p2 n] & e2 & -> & HL2); [|by split_and!|].
  - intros itx [q n] Hin%imap_pair_elem (Cq & Hq & Gq). cbn [fst] in *.
    destruct (ct_confirmed _ _ _ _ C1 _ Hin) as [Hok Hqu].
    destruct (processConfirmed_counted author _ p0 (pr_pool p1) cc block evm q n itx Hch Cq Hq Hok Hqu Gq)
      as (q' & n' & e & E & C' & G' & Hx'). exists (q', n'), e. split; [done|]. destruct e; cbn [fst]; auto.
  - exists p2, n, e2. split; [done|]. destruct e2; cbn [fst] in HL2; [by split|]. split; [apply HL2|]. by intros _; apply HL2.
Qed.

(** What a caller of Process relies on. *)
Record process_pre (cc : ChainConfig) (pool : TxPool) (block : Block) (s : StateDB) : Prop := {
  pp_pool : pool_inv st pool;
  pp_confirmed : confirmed_ok pool;
  pp_txs : Forall tx_ok (b_transactions block);
  pp_gas : gas_ok (h_GasLimit (b_header block));
  pp_state : sane s;
  pp_refund : metered s;
  pp_chain : ChainID cc <> None;
  pp_dao : DAOForkSupport cc = false
}.

Lemma Process_counted now chain cc nr pool block s author : process_pre cc pool block s ->
  Author (b_header block) = Ret (inl author) ->
  exists pool' s' res, Process now chain cc nr pool block s = Ret (pool', s', res) /\
    rtc (count_step author (b_transactions block)) pool pool' /\ pool_inv st pool' /\ confirmed_ok pool' /\
    forall rs logs used, res = inl (rs, logs, used) ->
      sane s' /\ Forall (fun r => exists tx, r_TxHash r = TxHash tx /\ quorum pool' tx) rs.
Proof.
  intros [Hi Hc Htxs Hg Hs Hr Hch Hd] Ha. unfold Process. rewrite Hd. cbn [andb].
  destruct (IntermediateRoot_sane s false Hs) as (s1 & h1 & E1 & Hs1 & _ & He1). rewrite E1. cbn [mbind outcome_bind].
  destruct (Copy_sane s1 Hs1) as (c & -> & Hcs & _). cbn [mbind outcome_bind].
  destruct (IntermediateRoot_sane c false Hcs) as (c1 & h2 & -> & _). cbn [mbind outcome_bind]. cbv zeta.
  unfold AddGas. destruct (Z.ltb_spec (MaxUint64 - h_GasLimit (b_header block)) 0); [pose proof (gas_ok_u64 _ Hg); unfold is_u64, MaxUint64 in *; lia|].
  cbn [mbind outcome_bind]. rewrite Ha. cbn [mbind outcome_bind].
  unfold NewEVM. rewrite Ha. cbn [mbind outcome_bind]. set (evm := mkEVM _ _ _ _ _ _ _ _ _ _ _ _).
  set (pool1 := pool <| currentState := c1 |>). set (p := mkProc pool1 _ [] []).
  assert (counted author (b_transactions block) pool p) as C.
  { assert (same_books pool pool1) as Hb by by split.
    assert (pool_ok pool1) as Hok by (by destruct (pi_ok _ _ Hi)).
    split; cbn [pr_pool pr_receipts p].
    - by eapply rtc_once, count_other.
    - split; [done|]. destruct (pi_books _ _ Hi) as [B HB]. exists B. by apply (books_same _ _ pool).
    - by apply (confirmed_grows pool); [apply same_books_grows| |].
    - constructor. }
  assert (exec_ok (pr_exec p)) as Hx.
  { split; simpl; [done..| |done]. by eapply tidied_rested, tidied_IntermediateRoot. }
  destruct (loops_counted now cc block author evm pool p Hch C Hx Htxs) as (p1 & e1 & -> & C1 & Hloop).
  cbn [mbind outcome_bind]. destruct e1 as [e1|].
  { destruct C1. eexists _, _, _. by split_and!. }
  destruct (Hloop eq_refl) as (p2 & n & e2 & -> & C2 & Hx2). cbn [mbind outcome_bind]. destruct e2 as [e2|].
  { destruct C2. eexists _, _, _. by split_and!. }
  destruct (Finalize_total cc (b_header block) (x_state (pr_exec p2)) (b_transactions block) (b_uncles block)
    (eo_sane _ (Hx2 eq_refl))) as (s3 & -> & Hs3). cbn [mbind outcome_bind].
  destruct (set_confirmed_counted author (b_transactions block) pool p2 (take n (confirmed (pr_pool p2))) C2)
    as [D1 D2 D3 D4].
  { intros tx (k & Hk & _)%elem_of_take. apply (ct_confirmed _ _ _ _ C2). by eapply list_elem_of_lookup_2. }
  eexists _, _, _. split_and!; [done..|]. intros rs lg used [= <- _ _]. by split.
Qed.

(** *** ApplyTransaction *)

(** What the miner's path does to the pool: nothing when the acknowledgement
    is refused, else one local acknowledgement. *)
Definition local_ack (author : Address) (tx : Transaction) (p p' : TxPool) : Prop :=
  validateAck p tx true = None /\ exists now q c e, addAck now p tx author true = Ret (q, c, e) /\
    same_books q p' /\ pool_ok p'.
Definition local_step (author : Address) (tx : Transaction) (p p' : TxPool) : Prop :=
  p' = p \/ local_ack author tx p p'.

(** The receipt and the execution state of the miner: a transaction that is
    executed or waits for more acknowledgements was acknowledged and has a
    receipt, and after any other error the state can be reverted. *)
Definition applied_ok (author : Address) (tx : Transaction) (p p' : TxPool) (x x' : execState) (r : option Receipt)
    (e : option error) : Prop :=
  match e with
  | None | Some ErrInsufficientAcks => local_ack author tx p p' /\ is_Some r /\ exec_ok x'
  | Some e => ackError e = false /\ runs (x_state x) (x_state x') /\ gas_ok (x_gp x')
  end.

Lemma applied_error author tx p p' x x' e : ackError e = false -> runs (x_state x) (x_state x') ->
  gas_ok (x_gp x') -> applied_ok author tx p p' x x' None (Some e).
Proof. intros He Hr Hg. by destruct e. Qed.

Lemma ApplyTransaction_counted now chain cc nr pool author header tx x :
  ChainID cc <> None -> pool_inv st pool -> confirmed_ok pool -> tx_ok tx ->
  sane (x_state x) -> rested (x_state x) -> gas_ok (x_gp x) ->
  exists pool' x' r e, ApplyTransaction now chain cc nr (Some pool) author header tx x = Ret (Some pool', x', r, e) /\
    pool_inv st pool' /\ confirmed_ok pool' /\ local_step author tx pool pool' /\
    (e = None -> quorum pool' tx /\ tx ∈ confirmed pool') /\ applied_ok author tx pool pool' x x' r e.
Proof.
  intros Hch Hi Hc Htx Hs Hr Hg. unfold ApplyTransaction.
  destruct (AsMessage tx _) as [m|e0] eqn:Em; [apply AsMessage_ok in Em; [|done]|].
  2:{ eexists _, _, _, _. split; [done|]. split_and!; [done..|by left|done|]. apply applied_error; [|apply runs_refl|done..].
      unfold AsMessage in Em. destruct (Sender _ tx) eqn:Es; simplify_eq. by eapply Sender_error. }
  destruct (validateAck pool tx true) as [e0|] eqn:Ev.
  { eexists _, _, _, _. split; [done|]. split_and!; [done..|by left|done|].
    apply applied_error; [by eapply validateAck_error|apply runs_refl|done..]. }
  destruct (addAck_counted st stake_nonneg now pool tx author true Hi Hc (to_nonce _ Htx))
    as (q & c & e & Ea & Hi' & Hc' & Hgr & Hq).
  rewrite Ea. cbn [mbind outcome_bind]. destruct c.
  - specialize (Hq eq_refl). set (q1 := q <| confirmed := confirmed q ++ [tx] |>).
    assert (same_books q q1) as Hb by by split.
    assert (pool_ok q1) as Hok by (by destruct (pi_ok _ _ Hi')).
    assert (quorum q1 tx) as Hq1 by (apply (quorum_grows q); [by apply same_books_grows|done]).
    assert (confirmed_ok q1) as Hc1.
    { intros t Ht. apply elem_of_app in Ht as [Ht|Ht]; [|by apply list_elem_of_singleton in Ht as ->].
      destruct (Hc' t Ht). split; [done|]. apply (quorum_grows q); [by apply same_books_grows|done]. }
    assert (pool_inv st q1) as Hi1.
    { split; [done|]. destruct (pi_books _ _ Hi') as [B HB]. exists B. by apply (books_same _ _ q). }
    assert (local_ack author tx pool q1) as Hl by (split; [done|]; by exists now, q, true, e).
    unfold NewEVM. cbn [mbind outcome_bind].
    destruct (applyTransaction_ok cc header (mkEVM author (h_GasLimit header) (h_Number header) (h_Time header)
      (h_Difficulty header) (GetHashFn chain header) 0 0 cc nr 0 false) m tx x Hch Hs Hr Hg Em) as (x' & r & -> & Hx).
    cbn [mbind outcome_bind]. destruct r as [r|e1]; eexists _, _, _, _; (split; [done|]); split_and!; try done; [by right| |..].
    + intros _. split; [done|]. apply elem_of_app. right. by apply list_elem_of_singleton.
    + by destruct Hx.
    + by right.
    + destruct Hx as (? & ? & ?). by apply applied_error.
  - destruct (IntermediateRoot_sane (x_state x) false Hs) as (s' & h & E & Hs' & _ & He). rewrite E. cbn [mbind outcome_bind].
    assert (local_ack author tx pool q) as Hl.
    { split; [done|]. exists now, q, false, e. split_and!; [done|done|apply Hi']. }
    eexists _, _, _, _. split; [done|]. split_and!; [done..|by right|done|]. split; [done|]. split; [by eexists|].
    split; [done|done|by eapply tidied_rested, tidied_IntermediateRoot, E; apply rested_metered|done].
Qed.

End ProcessFacts.

(** ** Properties *)

Section ProcessorProperties.
Context `{Crypto} `{Database} `{Interpreter} `{!InterpreterLaws} `{Engine} `{!EngineLaws}.

(** C6: Process returns on every block of valid transactions, and every
    transaction with a receipt has more than the quorum of stake behind it;
    so have the transactions it keeps for later.  The pool stays well formed. *)
Theorem Process_confirmed st now chain cc nr pool block s author :
  (forall a, 0 <= GetBalance st a) -> process_pre st cc pool block s ->
  Author (b_header block) = Ret (inl author) ->
  exists pool' s' res, Process now chain cc nr pool block s = Ret (pool', s', res) /\
    pool_ok pool' /\ (forall tx, tx ∈ confirmed pool' -> quorum pool' tx) /\
    forall rs logs used, res = inl (rs, logs, used) ->
      Forall (fun r => exists tx, r_TxHash r = TxHash tx /\ quorum pool' tx) rs.
Proof.
  intros Hst Hpre Ha.
  destruct (Process_counted st Hst now chain cc nr pool block s author Hpre Ha) as (p & s' & res & E & _ & Hi & Hc & Hr).
  exists p, s', res. split_and!; [done|apply Hi|intros tx Htx; by apply Hc|]. intros rs lg u Er. by apply (Hr rs lg u).
Qed.


Context (sg : Signer) (stake : StateDB) (Q : Z) (validators : gset Address).

(** A node that counts acknowledgements of the log. *)
Lemma count_run N L v p p' author txs : net_reachable sg stake Q validators (mkNet N L) -> N !! v = Some p ->
  (forall tx, tx ∈ txs -> (author, tx) ∈ L) -> rtc (count_step author txs) p p' ->
  net_reachable sg stake Q validators (mkNet (<[v := p']> N) L).
Proof.
  intros Hn Hv Hl Hrun. revert N Hn Hv. induction Hrun as [p|p q r Hstep _ IH]; intros N Hn Hv.
  - by rewrite insert_id.
  - rewrite <- (insert_insert_eq N v r q). apply IH; [|by rewrite lookup_insert_eq].
    eapply net_next; [exact Hn|]. destruct Hstep as [now p q tx c e Htx Hu E|p q Hb Hok].
    + by apply (step_receive _ now N L v p author tx q c e); [|apply Hl| |].
    + by apply (step_other _ N L v p q).
Qed.

(** C2: processing a block is a run of the network: when an honest node
    processes a block whose transactions its author acknowledged, the network
    with the new pool is reachable, so agreement extends to it. *)
Theorem Process_refines N L v pool now chain cc nr block s author pool' s' res :
  net_reachable sg stake Q validators (mkNet N L) -> N !! v = Some pool ->
  (forall a, 0 <= GetBalance stake a) -> process_pre stake cc pool block s ->
  Author (b_header block) = Ret (inl author) -> (forall tx, tx ∈ b_transactions block -> (author, tx) ∈ L) ->
  Process now chain cc nr pool block s = Ret (pool', s', res) ->
  net_reachable sg stake Q validators (mkNet (<[v := pool']> N) L).
Proof.
  intros Hn Hv Hst Hpre Ha Hl E.
  destruct (Process_counted stake Hst now chain cc nr pool block s author Hpre Ha) as (p & t & r & E' & Hrun & _).
  rewrite E in E'. injection E' as <- <- <-. by eapply count_run.
Qed.

(** C12: the miner's path is a run of the network: it acknowledges the
    transaction in the name of the node, at most once per sender and nonce, or
    does nothing. *)
Theorem ApplyTransaction_refines N L v pool now chain cc nr header tx x pool' x' r e :
  net_reachable sg stake Q validators (mkNet N L) -> N !! v = Some pool -> v ∈ validators ->
  (forall a, 0 <= GetBalance stake a) -> ChainID cc <> None -> pool_inv stake pool -> confirmed_ok pool -> tx_ok tx ->
  sane (x_state x) -> rested (x_state x) -> gas_ok (x_gp x) ->
  ApplyTransaction now chain cc nr (Some pool) v header tx x = Ret (Some pool', x', r, e) ->
  pool' = pool \/ net_reachable sg stake Q validators (mkNet (<[v := pool']> N) (L ++ [(v, tx)])).
Proof.
  intros Hn Hv HV Hst Hch Hi Hc Htx Hs Hr Hg E.
  destruct (ApplyTransaction_counted stake Hst now chain cc nr pool v header tx x Hch Hi Hc Htx Hs Hr Hg)
    as (p & y & r' & e' & E' & _ & _ & Hl & _). rewrite E in E'. injection E' as <- _ _ _.
  destruct Hl as [->|(Hval & now' & q & c & e0 & Ea & Hb & Hok)]; [by left|]. right.
  rewrite <- (insert_insert_eq N v pool' q).
  apply (net_next _ _ _ _ (mkNet (<[v := q]> N) (L ++ [(v, tx)]))).
  - eapply net_next; [exact Hn|].
    by apply (step_local _ now' N L v pool tx q c e0); [..|apply Htx| |].
  - apply (step_other _ (<[v := q]> N) _ v q); [by rewrite lookup_insert_eq|done..].
Qed.

End ProcessorProperties.

(** ** Three validators *)

#[local] Existing Instances toyCrypto toyDatabase toyInterpreter toyInterpreter_laws.
#[local] Instance toyEngine : Engine := cliqueEngine.
#[local] Instance toyEngine_laws : EngineLaws := clique_laws.

(** Validators 1, 2 and 3 hold 40, 50 and 10 of a total stake of 100. *)
Definition accounts3 : gmap Address Account :=
  {[ 1 := mkAccount 0 40 emptyRoot 0; 2 := mkAccount 0 50 emptyRoot 0; 3 := mkAccount 0 10 emptyRoot 0;
     77 := mkAccount 0 1000000 emptyRoot 0 ]}.
Definition state3 : StateDB := New accounts3.
Definition cfg3 : TxPoolConfig := DefaultTxPoolConfig <| QuorumStake := majorityStake 100 |>.
Definition bc3 : blockChain := mkBlockChain (mkBlock header_ex [] []) (fun _ _ => None) (Some state3).
Definition pool3 : TxPool :=
  match NewTxPool 0 cfg3 cc_ex bc3 (New ∅) with Ret p => p | Panic => emptyPool cfg3 cc_ex (New ∅) end.

(** A block signed by [v]: with the toy signature scheme the signer is the
    last byte of the signature. *)
Definition block_by (v : Address) (txs : list Transaction) : Block :=
  mkBlock (header_ex <| h_Extra := replicate 95 0 ++ [v; 0] |>) [] txs.

Definition noHeaders : headerChain := fun _ _ => None.
Definition exec3 : execState := mkExec state3 8000000 0.

Definition poolOf {A} (d : TxPool) (o : outcome (TxPool * A)) : TxPool := match o with Ret (p, _) => p | Panic => d end.
Definition process3 (p : TxPool) (b : Block) : outcome (TxPool * StateDB * ((list Receipt * list Log * Z) + error)) :=
  Process 0 noHeaders cc_ex false p b state3.

Lemma tx_ex_ok : tx_ok tx_ex.
Proof. split; vm_compute; intuition discriminate. Qed.

Lemma state3_nonneg a : 0 <= GetBalance state3 a.
Proof.
  unfold state3. rewrite Accounts.GetBalance_New. destruct (accounts3 !! a) as [d|] eqn:E; [|done].
  assert (map_Forall (fun _ d => 0 <= a_Balance d) accounts3) as Hm
    by (refine (bool_decide_unpack _ _); vm_compute; exact I).
  apply (Hm a d E).
Qed.

Lemma pool3_init : node_init HomesteadSigner state3 80 pool3.
Proof.
  destruct (NewTxPool_init HomesteadSigner state3 80 0 cfg3 cc_ex bc3 (New ∅) state3)
    as (p & E & Hp); [done|apply reachable_sane, reach_new|done|vm_compute; done|done|].
  unfold pool3. by rewrite E.
Qed.

Lemma pool3_inv : pool_inv state3 pool3.
Proof. destruct pool3_init. split; [done|]. eexists. by apply books_new. Qed.

Lemma pool3_confirmed : confirmed_ok pool3.
Proof. intros tx Htx. vm_compute in Htx. by apply elem_of_nil in Htx. Qed.

Lemma pool3_pre v : process_pre state3 cc_ex pool3 (block_by v [tx_ex]) state3.
Proof.
  split; [apply pool3_inv|apply pool3_confirmed|apply Forall_singleton, tx_ex_ok| | | |done|done].
  - split; vm_compute; discriminate || reflexivity.
  - apply reachable_sane, reach_new.
  - apply metered_New.
Qed.

Lemma Process_confirmed_witness :
  exists pool' s' res, process3 pool3 (block_by 2 [tx_ex]) = Ret (pool', s', res) /\ pool_ok pool' /\
    weightOf pool' 77 0 (TxHash tx_ex) = 50.
Proof.
  destruct (Process_confirmed state3 0 noHeaders cc_ex false pool3 (block_by 2 [tx_ex]) state3 2)
    as (pool' & s' & res & E & Hok & _ & _); [apply state3_nonneg|apply pool3_pre|vm_compute; reflexivity|].
  exists pool', s', res. split_and!; [exact E|exact Hok|].
  assert (pool' = (match process3 pool3 (block_by 2 [tx_ex]) with Ret (p, _, _) => p | Panic => pool3 end)) as ->
    by (unfold process3; rewrite E; reflexivity).
  vm_compute. reflexivity.
Defined.


Definition nodes3 : gmap Address TxPool := {[ 1 := pool3; 2 := pool3; 3 := pool3 ]}.
Definition pool3_2 : TxPool := (ackOr pool3 (addAck 0 pool3 tx_ex 2 true)).1.1.

Lemma nodes3_reachable : net_reachable HomesteadSigner state3 80 {[ 1; 2; 3 ]} (mkNet nodes3 []).
Proof.
  apply net_init. intros v p. unfold nodes3. rewrite !lookup_insert_Some, lookup_singleton_Some.
  intros [[_ <-]|[_ [[_ <-]|[_ [_ <-]]]]]; apply pool3_init.
Qed.

Lemma acked3_reachable :
  net_reachable HomesteadSigner state3 80 {[ 1; 2; 3 ]} (mkNet (<[2 := pool3_2]> nodes3) [(2, tx_ex)]).
Proof.
  eapply net_next; [apply nodes3_reachable|].
  apply (step_local _ 0 nodes3 [] 2 pool3 tx_ex pool3_2 (ackOr pool3 (addAck 0 pool3 tx_ex 2 true)).1.2
    (ackOr pool3 (addAck 0 pool3 tx_ex 2 true)).2);
    [set_solver|vm_compute; reflexivity|split; vm_compute; done|vm_compute; reflexivity|vm_compute; reflexivity].
Qed.

Definition processed3 : TxPool * StateDB * ((list Receipt * list Log * Z) + error) :=
  match process3 pool3 (block_by 2 [tx_ex]) with Ret r => r | Panic => (pool3, state3, inr ErrGasUintOverflow) end.

Lemma Process_refines_witness :
  net_reachable HomesteadSigner state3 80 {[ 1; 2; 3 ]}
    (mkNet (<[1 := processed3.1.1]> (<[2 := pool3_2]> nodes3)) [(2, tx_ex)]).
Proof.
  apply (Process_refines HomesteadSigner state3 80 {[ 1; 2; 3 ]} (<[2 := pool3_2]> nodes3) [(2, tx_ex)] 1 pool3
    0 noHeaders cc_ex false (block_by 2 [tx_ex]) state3 2 processed3.1.1 processed3.1.2 processed3.2);
    [apply acked3_reachable|vm_compute; reflexivity|apply state3_nonneg|apply pool3_pre|vm_compute; reflexivity
    |intros tx ->%list_elem_of_singleton; left|vm_compute; reflexivity].
Defined.

Definition applied3 : option TxPool * execState * option Receipt * option error :=
  match ApplyTransaction 0 noHeaders cc_ex false (Some pool3) 1 header_ex tx_ex exec3 with
  | Ret r => r | Panic => (None, exec3, None, None) end.

Lemma ApplyTransaction_refines_witness :
  let pool' := default pool3 applied3.1.1.1 in
  pool' = pool3 \/
  net_reachable HomesteadSigner state3 80 {[ 1; 2; 3 ]}
    (mkNet (<[1 := pool']> (<[2 := pool3_2]> nodes3)) [(2, tx_ex); (1, tx_ex)]).
Proof.
  apply (ApplyTransaction_refines HomesteadSigner state3 80 {[ 1; 2; 3 ]} (<[2 := pool3_2]> nodes3) [(2, tx_ex)] 1 pool3
    0 noHeaders cc_ex false header_ex tx_ex exec3 (default pool3 applied3.1.1.1) applied3.1.1.2 applied3.1.2 applied3.2);
    [apply acked3_reachable|vm_compute; reflexivity|set_solver|apply state3_nonneg|discriminate|apply pool3_inv
    |apply pool3_confirmed|apply tx_ex_ok|apply reachable_sane, reach_new
    |apply rested_New|split; vm_compute; discriminate || reflexivity
    |vm_compute; reflexivity].
Defined.

(** Node 1 has counted validator 2, then acknowledges the transaction itself:
    90 of 100 are behind it, it is executed in the node's own block and kept. *)
Definition mined3 : TxPool :=
  match ApplyTransaction 0 noHeaders cc_ex false (Some processed3.1.1) 1 header_ex tx_ex exec3 with
  | Ret (Some p, _, _, None) => p | _ => pool3 end.

Definition blockError (o : outcome (TxPool * StateDB * ((list Receipt * list Log * Z) + error))) : option (option error) :=
  match o with Ret (_, _, inr e) => Some (Some e) | Ret _ => Some None | Panic => None end.

