(* ===== verification/WorkerFacts.v ===== *)
(** * The miner acknowledges what it puts into blocks (miner/worker.go)

    [commitTransactions_refines]: taking transactions from the pool ends, does
    not panic, and is a run of the broadcast network, in which the node
    acknowledges every transaction that is added to the block.
    [work_acknowledged] lifts this to a whole request for work: the blocks that
    are handed over for sealing hold acknowledged transactions only, which is
    what the import of a block by another node relies on. *)

From S2P Require Import Prelude Rlp Params Transaction Block AccessList StateDB Journal StateStore Accounts Metering Receipt DeriveSha Clique Evm StateTransition Heap TxList TxLookup Prque TxPool TxSet StateProcessor Chain Worker PoolFacts Acks Cascade ProcessorFacts.

(** ** Runs of the miner in the network *)

Section Network.
Context `{Crypto} `{Database}.

(** The acknowledgements of the node [v], in order, between other operations
    of its pool. *)
Inductive mine_run (v : Address) : list Transaction -> TxPool -> TxPool -> Prop :=
| mine_nil p : mine_run v [] p p
| mine_ack p q r tx txs : is_u64 (Nonce tx) -> local_ack v tx p q -> mine_run v txs q r -> mine_run v (tx :: txs) p r
| mine_other p q r txs : same_books p q -> pool_ok q -> mine_run v txs q r -> mine_run v txs p r.

Lemma mine_app v txs1 txs2 p q r : mine_run v txs1 p q -> mine_run v txs2 q r -> mine_run v (txs1 ++ txs2) p r.
Proof. induction 1; simpl; [done|econstructor; eauto|econstructor; eauto]. Qed.

Lemma mine_net sg stake Q validators N L v p p' txs :
  net_reachable sg stake Q validators (mkNet N L) -> N !! v = Some p -> v ∈ validators -> mine_run v txs p p' ->
  net_reachable sg stake Q validators (mkNet (<[v := p']> N) (L ++ ((v,.) <$> txs))).
Proof.
  intros Hn Hv HV Hrun. revert N L Hn Hv.
  induction Hrun as [p|p q r tx txs Hu (Hval & now & q0 & c & e & Ea & Hb & Hok) _ IH|p q r txs Hb Hok _ IH]; intros N L Hn Hv.
  - by rewrite insert_id, app_nil_r.
  - rewrite <- (insert_insert_eq N v r q), fmap_cons, cons_middle, app_assoc. apply IH; [|by rewrite lookup_insert_eq].
    rewrite <- (insert_insert_eq N v q q0).
    apply (net_next _ _ _ _ (mkNet (<[v := q0]> N) (L ++ [(v, tx)]))).
    + eapply net_next; [exact Hn|]. by apply (step_local _ now N L v p tx q0 c e).
    + apply (step_other _ (<[v := q0]> N) _ v q0); [by rewrite lookup_insert_eq|done..].
  - rewrite <- (insert_insert_eq N v r q). apply IH; [|by rewrite lookup_insert_eq].
    eapply net_next; [exact Hn|]. by apply (step_other _ N L v p q).
Qed.

End Network.

(** ** Taking transactions *)

Section Take.
Context `{Crypto} `{Database} `{Interpreter} `{!InterpreterLaws} `{Engine} `{!MinerEngine}.
Context (we : workEnv) (opts : chainOptions) (st : StateDB).
Hypothesis stake_nonneg : forall a, 0 <= GetBalance st a.
Hypothesis has_chain : ChainID (co_config opts) <> None.

(** An environment between two transactions. *)
Record env_ok (env : environment) : Prop := {
  ev_sane : sane (e_state env);
  ev_journal : entries (e_state env) = [];
  ev_refund : rested (e_state env);
  ev_gas g : e_gasPool env = Some g -> gas_ok g;
  ev_receipts : length (e_receipts env) = length (e_txs env)
}.

(** The pool of the miner, and how it got there from [p0]. *)
Record miner_pool (v : Address) (acked : list Transaction) (p0 p : TxPool) : Prop := {
  mp_run : mine_run v acked p0 p;
  mp_inv : pool_inv st p;
  mp_confirmed : confirmed_ok p
}.

(** What a transaction leaves alone in the environment. *)
Record same_work (env env' : environment) : Prop := {
  sw_signer : e_signer env' = e_signer env;
  sw_header : exists used, e_header env' = (e_header env) <| h_GasUsed := used |>;
  sw_gas : is_Some (e_gasPool env) -> is_Some (e_gasPool env')
}.

#[export] Instance same_work_preorder : PreOrder same_work.
Proof.
  split.
  - intros env. split; [done| |done]. exists (h_GasUsed (e_header env)). by destruct (e_header env).
  - intros e1 e2 e3 [S1 [u1 E1] G1] [S2 [u2 E2] G2]. split; [congruence| |auto]. exists u2. rewrite E2, E1. by destruct (e_header e1).
Qed.

Lemma commitTransaction_ok chain pool env tx v : env_ok env -> is_Some (e_gasPool env) -> pool_inv st pool -> confirmed_ok pool -> tx_ok tx ->
  exists pool' env' r acked, commitTransaction we opts chain pool env tx v = Ret (pool', env', r) /\
    env_ok env' /\ same_work env env' /\ is_Some (e_gasPool env') /\ miner_pool v acked pool pool' /\
    match r with
    | inl _ => e_txs env' = e_txs env ++ [tx] /\ acked = [tx]
    | inr _ => e_txs env' = e_txs env /\ (acked = [] \/ acked = [tx])
    end.
Proof.
  intros [Hs Hj Hr Hg Hl] [g Eg] Hi Hc Htx. unfold commitTransaction. rewrite Eg. cbn [mbind outcome_bind].
  pose proof (runs_sane _ _ Hs (runs_op (e_state env) OSnapshot _ I eq_refl)) as Hs1.
  destruct (ApplyTransaction_counted st stake_nonneg (we_now we) chain (co_config opts) (co_noRecursion opts) pool v (e_header env) tx
    (mkExec (Snapshot (e_state env)).1 g (h_GasUsed (e_header env))) has_chain Hi Hc Htx Hs1 (rested_calm _ _ (calm_Snapshot _) Hr) (Hg g Eg))
    as (pool' & x' & r & e & E & Hi' & Hc' & Hstep & _ & Happ).
  destruct (Snapshot (e_state env)) as [s1 snap] eqn:Esnap. cbn [fst] in *. rewrite E. cbn [mbind outcome_bind default].
  assert (forall r', is_Some r -> local_ack v tx pool pool' -> exec_ok x' -> r = Some r' ->
    let env' := env <| e_state := x_state x' |> <| e_gasPool := Some (x_gp x') |>
      <| e_header := (e_header env) <| h_GasUsed := x_usedGas x' |> |> <| e_txs := e_txs env ++ [tx] |> <| e_receipts := e_receipts env ++ [r'] |> in
    env_ok env' /\ same_work env env' /\ is_Some (e_gasPool env') /\ miner_pool v [tx] pool pool') as Hinc.
  { intros r' _ Ha [X1 X2 X3 X4] _. split_and!; [|by split; [|eexists|]|by eexists|].
    - split; cbn; [done..|by intros ? [= <-]|rewrite !length_app; simpl; lia].
    - split; [|done..]. apply (mine_ack _ _ pool'); [apply Htx|done|apply mine_nil]. }
  case_bool_decide as De; [subst e|].
  { destruct Happ as (Ha & [r' ->] & Hx). cbn [mbind outcome_bind]. destruct (Hinc r' (mk_is_Some _ _ eq_refl) Ha Hx eq_refl) as (?&?&?&?).
    eexists _, _, _, _. by split_and!. }
  destruct e as [e|].
  2:{ destruct Happ as (Ha & [r' ->] & Hx). cbn [mbind outcome_bind]. destruct (Hinc r' (mk_is_Some _ _ eq_refl) Ha Hx eq_refl) as (?&?&?&?).
    rewrite bool_decide_false by done. eexists _, _, _, _. by split_and!. }
  assert (ackError e = false /\ runs s1 (x_state x') /\ gas_ok (x_gp x')) as (Hae & Hrun & Hg').
  { destruct e; done. }
  rewrite bool_decide_false by (by intros [= ->]).
  assert (exists s'', RevertToSnapshot (x_state x') snap = Ret s'' /\ sane s'' /\ entries s'' = [] /\ rested s'')
    as (s'' & Er & Hs'' & Hj'' & Hr'').
  { destruct (runs_revert (e_state env) (x_state x') Hs) as (s'' & Er & Eq & Hrr & Ee); rewrite Esnap in *; [done|].
    exists s''. split_and!; [done|by apply (runs_sane (e_state env))|congruence|]. by eapply rested_reverted. }
  cbn [e_state setf]. rewrite Er. cbn [mbind outcome_bind].
  assert (exists acked, miner_pool v acked pool pool' /\ (acked = [] \/ acked = [tx])) as (acked & Hmp & Hack).
  { destruct Hstep as [->|Ha]; [exists []; split; [|by left]|exists [tx]; split; [|by right]]; (split; [|done..]); [apply mine_nil|].
    apply (mine_ack _ _ pool'); [apply Htx|done|apply mine_nil]. }
  eexists _, _, _, acked. split; [done|]. split_and!; try done; [|by split; [|eexists|]].
  split; cbn; [done..|by intros ? [= <-]|done].
Qed.

Lemma advance_cases txs r : advance txs r = ts_Pop txs \/ advance txs r = ts_Shift txs.
Proof. destruct r as [|[]]; simpl; auto. Qed.

Lemma advance_ok txs tx r : txset_ok txs -> ts_Peek txs = Some tx -> exists txs', advance txs r = Ret txs' /\
  txset_ok txs' /\ (left_over txs' < left_over txs)%nat /\ forall P, set_Forall P txs -> set_Forall P txs'.
Proof.
  intros Hok Hpk. destruct (advance_cases txs r) as [->| ->].
  - destruct (ts_Pop_spec txs tx Hok Hpk) as (t & ? & ? & ? & _ & _ & ?). by exists t.
  - destruct (ts_Shift_spec txs tx Hok Hpk) as (t & ? & ? & ? & _ & _ & ?). exists t. split_and!; try done. lia.
Qed.

Lemma Peek_all P txs tx : set_Forall P txs -> ts_Peek txs = Some tx -> P tx.
Proof. intros [HP _] E. unfold ts_Peek in E. destruct (ts_heads txs); simplify_eq/=. by apply Forall_inv in HP. Qed.

(** What filling the block from the pool [p0] does. *)
Record taken (v : Address) (p0 p : TxPool) (env env' : environment) : Prop := {
  tn_env : env_ok env';
  tn_same : same_work env env';
  tn_txs : exists acked added, miner_pool v acked p0 p /\ e_txs env' = e_txs env ++ added /\ added `sublist_of` acked
}.

Lemma taken_trans v p1 p2 p3 e1 e2 e3 : taken v p1 p2 e1 e2 -> taken v p2 p3 e2 e3 -> taken v p1 p3 e1 e3.
Proof.
  intros [_ S1 (a1 & d1 & [R1 _ _] & E1 & L1)] [K2 S2 (a2 & d2 & [R2 I2 C2] & E2 & L2)]. split; [done|by etrans|].
  exists (a1 ++ a2), (d1 ++ d2). split_and!.
  - split; [by eapply mine_app|done..].
  - by rewrite E2, E1, app_assoc.
  - by apply sublist_app.
Qed.

Lemma commitLoop_ok chain interrupt v fuel i pool env txs lgs : (left_over txs < fuel)%nat -> env_ok env -> is_Some (e_gasPool env) ->
  pool_inv st pool -> confirmed_ok pool -> txset_ok txs -> set_Forall tx_ok txs ->
  exists pool' env' lgs' stopped, commitLoop we opts fuel chain interrupt i v pool env txs lgs = Ret (pool', env', lgs', stopped) /\
    taken v pool pool' env env'.
Proof.
  revert i pool env txs lgs. induction fuel as [|fuel IH]; intros i pool env txs lgs Hf He Hg Hi Hc Hok Hall; [lia|].
  assert (taken v pool pool env env) as Hid.
  { split; [done|done|]. exists [], []. split_and!; [by split; [apply mine_nil|..]|by rewrite app_nil_r|done]. }
  cbn [commitLoop]. destruct (negb _); [by eauto 10|]. destruct Hg as [g Eg]. rewrite Eg. cbn [mbind outcome_bind].
  destruct (g <? TxGas); [by eauto 10|]. destruct (ts_Peek txs) as [tx|] eqn:Hpk; [|by eauto 10].
  destruct (Protected tx && _).
  { destruct (ts_Pop_spec txs tx Hok Hpk) as (txs' & -> & Hok' & Hlt & _ & _ & Hall'). cbn [mbind outcome_bind].
    apply IH; [lia|done|by eexists|done|done|done|by apply Hall']. }
  set (env1 := env <| e_state := _ |>).
  assert (env_ok env1) as He1. { destruct He as [Hs Hj Hr Hgu Hl]. split; [by apply Prepare_sane|done|by apply rested_Prepare|done..]. }
  destruct (commitTransaction_ok chain pool env1 tx v He1 (mk_is_Some _ _ Eg) Hi Hc (Peek_all _ _ _ Hall Hpk))
    as (pool1 & env2 & r & acked & -> & He2 & Hw2 & Hg2 & Hmp & Hr). cbn [mbind outcome_bind].
  destruct (advance_ok txs tx r Hok Hpk) as (txs' & -> & Hok' & Hlt & Hall'). cbn [mbind outcome_bind].
  destruct Hmp as [Hrun Hi1 Hc1].
  assert (forall env3, env_ok env3 -> same_work env2 env3 -> e_txs env3 = e_txs env2 -> taken v pool pool1 env env3) as Hstep.
  { intros env3 He3 Hw3 Et3. split; [done| |].
    - etrans; [|exact Hw3]. destruct Hw2 as [W1 W2 W3]. by split.
    - destruct r.
      + destruct Hr as [Et ->]. exists [tx], [tx]. split_and!; [by split|by rewrite Et3, Et|done].
      + destruct Hr as [Et Ha]. exists acked, []. split_and!; [by split|by rewrite Et3, Et, app_nil_r|apply sublist_nil_l]. }
  destruct r as [l|e].
  - set (env3 := env2 <| e_tcount := _ |>).
    assert (env_ok env3) as He3 by (by destruct He2).
    assert (same_work env2 env3) as Hw3 by (by destruct (reflexivity env2 : same_work env2 env2)).
    destruct (IH (S i) pool1 env3 txs' (lgs ++ l)) as (p' & e' & l' & sp & E' & Ht'); [lia|done|done|done|done|done|by apply Hall'|].
    exists p', e', l', sp. split; [done|]. by apply (taken_trans _ _ pool1 _ _ env3); [apply Hstep|].
  - destruct (IH (S i) pool1 env2 txs' lgs) as (p' & e' & l' & sp & E' & Ht'); [lia|done|done|done|done|done|by apply Hall'|].
    exists p', e', l', sp. split; [done|]. by apply (taken_trans _ _ pool1 _ _ env2); [apply Hstep|].
Qed.

(** Everything but the pool, the environment and what is sent to the other
    loops stays. *)
Definition same_worker (w w' : worker) : Prop :=
  w_chain w' = (w_chain w) <| bc_txPool := bc_txPool (w_chain w') |> /\ w_tasks w' = w_tasks w /\ w_coinbase w' = w_coinbase w.

Lemma commitTransactions_ok w env txs v interrupt : w_current w = Some env -> env_ok env -> gas_ok (h_GasLimit (e_header env)) ->
  pool_inv st (bc_txPool (w_chain w)) -> confirmed_ok (bc_txPool (w_chain w)) -> txset_ok txs -> set_Forall tx_ok txs ->
  exists w' discard env', commitTransactions we opts w txs v interrupt = Ret (w', discard) /\ w_current w' = Some env' /\
    same_worker w w' /\ taken v (bc_txPool (w_chain w)) (bc_txPool (w_chain w')) env env'.
Proof.
  intros Ec He Hgl Hi Hc Hok Hall. unfold commitTransactions. rewrite Ec.
  assert (exists g, match e_gasPool env with Some g => Ret g | None => AddGas 0 (h_GasLimit (e_header env)) end = Ret g /\ gas_ok g)
    as (g & -> & Hg).
  { destruct (e_gasPool env) as [g|] eqn:Eg; [exists g; split; [done|by apply (ev_gas _ He)]|]. exists (h_GasLimit (e_header env)). split; [|done].
    unfold AddGas. destruct (Z.ltb_spec (MaxUint64 - h_GasLimit (e_header env)) 0); [pose proof (gas_ok_u64 _ Hgl); unfold is_u64, MaxUint64 in *; lia|]. done. }
  cbn [mbind outcome_bind]. set (env0 := env <| e_gasPool := Some g |>).
  assert (env_ok env0) as He0. { destruct He. split; try done. by intros ? [= <-]. }
  destruct (commitLoop_ok (bc_GetHeader (w_chain w)) interrupt v (S (left_over txs)) 0 (bc_txPool (w_chain w)) env0 txs [])
    as (pool' & env' & lgs & stopped & -> & Ht); [lia|done|by eexists|done|done|done|done|]. cbn [mbind outcome_bind].
  assert (taken v (bc_txPool (w_chain w)) pool' env env') as Ht'.
  { destruct Ht as [T1 [S1 S2 S3] T3]. split; [done| |done]. split; [done|done|]. intros _. by apply S3. }
  destruct stopped as [signal|]; [destruct (signal =? commitInterruptResubmit)|destruct (negb _ && _); destruct interrupt];
    eexists _, _, env'; (split; [reflexivity|]); cbn; by split_and!.
Qed.

End Take.

(** ** What the pool hands out *)

Section Pools.
Context `{Crypto} `{Database}.

Lemma lists_flatten b m : lists_ok b m -> lists_ok b ((fun l => (tl_Flatten l).1) <$> m).
Proof.
  intros Hm a l. rewrite lookup_fmap. intros (l0 & E & ->)%fmap_Some. destruct (Hm a l0 E) as [Hs [ts Hts]].
  destruct (tl_Flatten_ok l0 ts Hts) as (l' & -> & Hl' & Hs'). cbn. split; [congruence|by exists ts].
Qed.

Lemma Pending_same p : pool_ok p -> same_books p (Pending p).1 /\ pool_ok (Pending p).1 /\ confirmed (Pending p).1 = confirmed p.
Proof. intros []. split_and!; [by split| |done]. split; try done. by apply lists_flatten. Qed.

Lemma Locals_same p : pool_ok p -> same_books p (Locals p).1 /\ pool_ok (Locals p).1 /\ confirmed (Locals p).1 = confirmed p.
Proof. intros []. unfold Locals. destruct (as_flatten _). by split_and!. Qed.

Lemma Pending_accounts p : NoDup (Pending p).2.*1.
Proof. unfold Pending. cbn. rewrite <- list_fmap_compose. apply NoDup_fst_map_to_list. Qed.

Context (st : StateDB).

Lemma miner_other v acked p0 p q : miner_pool st v acked p0 p -> same_books p q -> pool_ok q -> confirmed q = confirmed p ->
  miner_pool st v acked p0 q.
Proof.
  intros [Hr Hi Hc] Hb Hok Ec. split.
  - rewrite <- (app_nil_r acked). eapply mine_app; [exact Hr|]. by apply (mine_other _ p q); [..|apply mine_nil].
  - split; [done|]. destruct (pi_books _ _ Hi) as [B HB]. exists B. by apply (books_same _ _ p).
  - apply (confirmed_grows p); [by apply same_books_grows|by rewrite Ec|done].
Qed.

End Pools.

(** ** Building work *)

(** What the worker relies on: the engine puts the transactions it is given
    into the block and leaves the number and the gas limit alone. *)
Class MinerLaws `{Crypto} `{Database} `{!MinerEngine} : Prop := {
  assemble_txs cc h s txs uncles rs h' s' b :
    FinalizeAndAssemble cc h s txs uncles rs = Ret (h', s', inl b) -> b_transactions b = txs;
  assemble_header cc h s txs uncles rs h' s' r :
    FinalizeAndAssemble cc h s txs uncles rs = Ret (h', s', r) -> h_GasLimit h' = h_GasLimit h
}.

Lemma NewBlock_txs `{Crypto} `{Database} h txs uncles rs b : NewBlock h txs uncles rs = Ret b -> b_transactions b = txs.
Proof.
  unfold NewBlock. destruct (match txs with [] => _ | _ => _ end) as [th|]; [|done]. cbn [mbind outcome_bind].
  destruct (match rs with [] => _ | _ => _ end) as [[rh bl]|]; [|done]. cbn [mbind outcome_bind]. by intros [= <-].
Qed.

Lemma cliqueMiner_laws `{Crypto} `{Database} : @MinerLaws _ _ cliqueMiner.
Proof.
  split; intros cc h s txs uncles rs h' s' b; cbn; unfold clique_FinalizeAndAssemble;
    (destruct (IntermediateRoot s _) as [[s1 root]|]; [|done]); cbn [mbind outcome_bind];
    (destruct (NewBlock _ txs [] rs) as [b'|] eqn:E; [|done]); cbn [mbind outcome_bind]; intros E'; simplify_eq; [|done].
  by eapply NewBlock_txs.
Qed.

Section Work.
Context `{Crypto} `{Database} `{Interpreter} `{!InterpreterLaws} `{Engine} `{!MinerEngine} `{!MinerLaws}.
Context (we : workEnv) (wc : workerConfig) (opts : chainOptions) (st : StateDB).
Context (v : Address) (p0 : TxPool) (tasks0 : list task) (sg : Signer).
Hypothesis stake_nonneg : forall a, 0 <= GetBalance st a.
Hypothesis has_chain : ChainID (co_config opts) <> None.
Hypothesis accounts_perm : forall l, we_accounts we l ≡ₚ l.

(** The tasks that were added hold transactions of [acked] only. *)
Definition new_tasks (acked : list Transaction) (w : worker) : Prop :=
  Forall (fun t => t ∈ tasks0 \/ b_transactions (t_block t) ⊆ acked) (w_tasks w).

(** A worker with the node [v] that went on from the pool [p0] and the tasks
    [tasks0]. *)
Definition work_ok (w : worker) : Prop :=
  w_coinbase w = v /\ exists env acked, w_current w = Some env /\ env_ok env /\ gas_ok (h_GasLimit (e_header env)) /\
    e_signer env = sg /\ miner_pool st v acked p0 (bc_txPool (w_chain w)) /\ e_txs env ⊆ acked /\ new_tasks acked w.

Definition work_done (w : worker) : Prop := exists acked, miner_pool st v acked p0 (bc_txPool (w_chain w)) /\ new_tasks acked w.

Lemma work_ok_done w : work_ok w -> work_done w.
Proof. intros (_ & env & acked & _ & _ & _ & _ & Hm & _ & Ht). by exists acked. Qed.

Lemma updateSnapshot_work w : work_ok w -> post True (updateSnapshot we w) work_ok.
Proof.
  intros Hw. unfold updateSnapshot. apply post_bind, post_partial. intros env _. apply post_bind, post_partial. intros b _.
  apply post_bind, post_partial. intros s _. exact Hw.
Qed.

Lemma commit_work w uncles update : work_ok w -> post True (commit we opts w uncles update) work_ok.
Proof.
  intros (Hv & env & acked & Ec & He & Hg & Hsg & Hm & Hsub & Ht). unfold commit. rewrite Ec. cbn [mbind outcome_bind].
  apply post_bind, post_partial. intros s _. apply post_bind, post_partial. intros [[h s'] r] Er.
  assert (gas_ok (h_GasLimit h)) as Hg' by (by rewrite (assemble_header _ _ _ _ _ _ _ _ _ Er)).
  set (w1 := w <| w_current := _ |>).
  assert (work_ok w1) as Hw1.
  { split; [done|]. exists (env <| e_header := h |>), acked. split_and!; try done. by destruct He. }
  destruct r as [b|e]; [|done]. apply post_bind, post_partial. intros w2 E2.
  assert (work_ok w2) as Hw2; [|destruct update; [by apply updateSnapshot_work|done]].
  destruct (w_running w1); [|by simplify_eq]. destruct (EngineSealHash (b_header b)) as [sh|]; [|done]. cbn [mbind outcome_bind] in E2.
  destruct (totalFees b _) as [fees|]; [|done]. cbn [mbind outcome_bind] in E2. injection E2 as <-.
  destruct Hw1 as (_ & env1 & acked1 & Ec1 & ? & ? & ? & ? & Hsub1 & Ht1). split; [done|]. exists env1, acked1. split_and!; try done.
  apply Forall_app. split; [exact Ht1|]. apply Forall_singleton. right. cbn. rewrite (assemble_txs _ _ _ _ _ _ _ _ _ Er).
  cbn in Ec1. injection Ec1 as <-. exact Hsub1.
Qed.

Lemma commit_chain w uncles update : post True (commit we opts w uncles update) (fun w' => w_chain w' = w_chain w).
Proof.
  unfold commit. apply post_bind, post_partial. intros env _. apply post_bind, post_partial. intros s _.
  apply post_bind, post_partial. intros [[h s'] [b|e]] _; [|done]. apply post_bind, post_partial. intros w2 E2.
  assert (w_chain w2 = w_chain w) as Hc.
  { destruct (w_running _); [|by simplify_eq]. destruct (EngineSealHash _) as [sh|]; [|done]. cbn [mbind outcome_bind] in E2.
    destruct (totalFees b _); [|done]. cbn [mbind outcome_bind] in E2. by injection E2 as <-. }
  destruct update; [|done]. unfold updateSnapshot. apply post_bind, post_partial. intros env2 _. apply post_bind, post_partial. intros b2 _.
  apply post_bind, post_partial. intros s2 _. done.
Qed.

Lemma commitTransactions_work w txs interrupt : work_ok w -> txset_ok txs -> set_Forall tx_ok txs ->
  post False (commitTransactions we opts w txs v interrupt) (fun r => work_ok r.1).
Proof.
  intros (Hv & env & acked & Ec & He & Hg & Hsg & [Hr Hi Hc] & Hsub & Ht) Hok Hall. apply post_ret.
  destruct (commitTransactions_ok we opts st stake_nonneg has_chain w env txs v interrupt Ec He Hg Hi Hc Hok Hall)
    as (w' & d & env' & E & Ec' & (Hch & Ets & Ecb) & [He' [S1 [u S2] S3] (acked' & added & [Hr' Hi' Hc'] & Etx & Hsl)]).
  exists (w', d). split; [done|]. cbn. split; [congruence|]. exists env', (acked ++ acked'). split_and!; try done.
  - rewrite S2. by destruct (e_header env).
  - congruence.
  - split; [by eapply mine_app|done..].
  - rewrite Etx. apply sublist_subseteq in Hsl. set_solver.
  - unfold new_tasks. rewrite Ets. eapply Forall_impl; [exact Ht|]. set_solver.
Qed.

(** The lists of the pool: no account is empty, and its transactions are valid
    and its own. *)
Definition mineable (l : list (Address * list Transaction)) : Prop :=
  NoDup l.*1 /\ Forall (fun al => al.2 <> [] /\ Forall (fun tx => senderOr0 sg tx = al.1 /\ tx_ok tx) al.2) l.

Lemma mineable_filter P `{forall x, Decision (P x)} l : mineable l -> mineable (filter P l).
Proof.
  intros [Hn Hf]. split; [|apply Forall_forall; intros x [_ Hx]%list_elem_of_filter; by apply (proj1 (Forall_forall _ l) Hf)]. eapply sublist_NoDup; [exact Hn|]. apply fmap_sublist, sublist_filter.
Qed.

Lemma New_work l : mineable l ->
  exists t, NewTransactionsByPriceAndNonce sg (we_accounts we l) = Ret t /\ txset_ok t /\ set_Forall tx_ok t.
Proof.
  intros [Hn Hf]. destruct (New_set_ok sg (we_accounts we l)) as (t & E & Hok & _ & _ & Hall).
  - by rewrite accounts_perm.
  - rewrite accounts_perm. eapply Forall_impl; [exact Hf|]. intros al [Hne Hs]. split; [done|]. eapply Forall_impl; [exact Hs|]. by intros tx [].
  - exists t. split_and!; [done|done|]. apply Hall. rewrite accounts_perm. eapply Forall_impl; [exact Hf|].
    intros al [_ Hs]. eapply Forall_impl; [exact Hs|]. by intros tx [].
Qed.

Lemma takeFrom_work interrupt b txs w : work_ok w -> mineable txs -> post False (takeFrom we opts interrupt b txs w) (fun r => work_ok r.1).
Proof.
  intros Hw Htx. unfold takeFrom. destruct txs as [|al txs]; [done|].
  assert (exists env, w_current w = Some env /\ e_signer env = sg) as (env & -> & Esg) by (destruct Hw as (_ & env & acked & -> & _ & _ & <- & _); by exists env).
  cbn [mbind outcome_bind]. rewrite Esg. destruct (New_work _ Htx) as (t & -> & Hok & Hall).
  cbn [mbind outcome_bind]. assert (w_coinbase w = v) as -> by apply Hw. by apply commitTransactions_work.
Qed.

Lemma fillBlock_work w uncles interrupt locals remotes : work_ok w -> mineable locals -> mineable remotes ->
  post True (fillBlock we opts w uncles interrupt locals remotes) work_ok.
Proof.
  intros Hw Hl Hr. unfold fillBlock. destruct (proj1 (post_ret _ _) (takeFrom_work interrupt false locals w Hw Hl)) as ([w1 d1] & -> & Hw1).
  cbn [mbind outcome_bind fst] in *. destruct d1; [done|].
  destruct (proj1 (post_ret _ _) (takeFrom_work interrupt true remotes w1 Hw1 Hr)) as ([w2 d2] & -> & Hw2).
  cbn [mbind outcome_bind fst] in *. destruct d2; [done|]. by apply commit_work.
Qed.

Lemma work_pool w pool' : work_ok w -> same_books (bc_txPool (w_chain w)) pool' -> pool_ok pool' ->
  confirmed pool' = confirmed (bc_txPool (w_chain w)) -> work_ok (w <| w_chain := (w_chain w) <| bc_txPool := pool' |> |>).
Proof.
  intros (Hv & env & acked & Ec & He & Hg & Hsg & Hm & Hsub & Ht) Hb Hok Hcf. split; [done|]. exists env, acked. split_and!; try done.
  by eapply miner_other.
Qed.

Lemma work_pool_ok w : work_ok w -> pool_ok (bc_txPool (w_chain w)).
Proof. intros (_ & env & acked & _ & _ & _ & _ & [_ Hi _] & _). apply Hi. Qed.

(** The second half of commitNewWork. *)
Lemma fill_work w uncles req : work_ok w -> mineable (Pending (bc_txPool (w_chain w))).2 ->
  post True (let '(pool, pend) := Pending (bc_txPool (w_chain w)) in
            let w := w <| w_chain := (w_chain w) <| bc_txPool := pool |> |> in
            if bool_decide (pend = []) && negb (w_noempty w) then updateSnapshot we w
            else
              let '(pool, accounts) := Locals (bc_txPool (w_chain w)) in
              let w := w <| w_chain := (w_chain w) <| bc_txPool := pool |> |> in
              let isLocal (al : Address * list Transaction) := al.1 ∈ accounts /\ al.2 <> [] in
              fillBlock we opts w uncles (rq_interrupt req) (filter isLocal pend) (filter (fun al => ~ isLocal al) pend)) work_ok.
Proof.
  intros Hw Hm. destruct (Pending_same _ (work_pool_ok w Hw)) as (Hb & Hok & Hc).
  destruct (Pending (bc_txPool (w_chain w))) as [pool pend]. cbn [fst snd] in *.
  pose proof (work_pool w pool Hw Hb Hok Hc) as Hw1. set (w1 := w <| w_chain := _ |>) in *. clearbody w1. cbv zeta.
  destruct (bool_decide _ && _); [by apply updateSnapshot_work|].
  destruct (Locals_same _ (work_pool_ok w1 Hw1)) as (Hb2 & Hok2 & Hc2).
  destruct (Locals (bc_txPool (w_chain w1))) as [pool2 accounts]. cbn [fst snd] in *.
  pose proof (work_pool w1 pool2 Hw1 Hb2 Hok2 Hc2) as Hw2. set (w2 := w1 <| w_chain := _ |>) in *. clearbody w2.
  apply fillBlock_work; [done|by apply mineable_filter..].
Qed.

Lemma commitUncle_work env h : (commitUncle env h).1 = env <| e_uncles := e_uncles (commitUncle env h).1 |>.
Proof. unfold commitUncle. repeat case_match; by destruct env. Qed.

Lemma commitUncles_work blocks eu : exists u, (commitUncles we blocks eu).1 = eu.1 <| e_uncles := u |>.
Proof.
  unfold commitUncles. generalize (we_blocks we blocks). intros l. revert eu. induction l as [|hb l IH]; intros [env uncles]; cbn [fold_left].
  - exists (e_uncles env). by destruct env.
  - match goal with |- context [fold_left ?f l ?x] => destruct (IH x) as [u ->] end. exists u. case_decide; [done|].
    pose proof (commitUncle_work env (b_header hb.2)) as E. destruct (commitUncle env (b_header hb.2)) as [env' [e|]]; cbn in *; by rewrite E.
Qed.

Lemma CalcGasLimit_range parent floor ceil : gas_ok (h_GasLimit (b_header parent)) -> gas_ok floor -> gas_ok ceil ->
  gas_ok (CalcGasLimit parent floor ceil).
Proof.
  intros Hp Hf Hc. unfold CalcGasLimit. cbv zeta. set (limit := if _ <? MinGasLimit then _ else _).
  set (p := h_GasLimit (b_header parent)) in *. set (decay := u64 (p / GasLimitBoundDivisor - 1)).
  assert (0 <= u64 (p - decay) <= MaxGas) as Hd.
  { unfold decay, u64, gas_ok, MaxGas, GasLimitBoundDivisor, two64 in *. destruct (decide (1024 <= p)).
    - assert (1 <= p / 1024 <= p) by (split; [apply Z.div_le_lower_bound; lia|apply Z.div_le_upper_bound; lia]).
      rewrite (Z.mod_small (p / 1024 - 1)), Z.mod_small; lia.
    - rewrite Z.div_small, Zminus_mod_idemp_r, Z.mod_small; lia. }
  pose proof (u64_range (p + decay)) as [? _]. unfold gas_ok in *.
  repeat match goal with |- context [?x <? ?y] => destruct (Z.ltb_spec x y) end; lia.
Qed.

Hypothesis no_dao : DAOForkSupport (co_config opts) = false.
Hypothesis prepare_frame : forall h h' e, we_prepare we h = Ret (h', e) -> h_Number h' = h_Number h /\ h_GasLimit h' = h_GasLimit h.
Hypothesis limits : gas_ok (GasFloor wc) /\ gas_ok (GasCeil wc).

Lemma newHeader_frame w time h : gas_ok (h_GasLimit (b_header (bc_currentBlock (w_chain w)))) -> newHeader wc w time = Some h ->
  h_Number h = h_Number (b_header (bc_currentBlock (w_chain w))) + 1 /\ gas_ok (h_GasLimit h).
Proof.
  unfold newHeader. intros Hp E. destruct limits as [Hf Hc].
  pose proof (CalcGasLimit_range (bc_currentBlock (w_chain w)) _ _ Hp Hf Hc) as Hg.
  destruct (w_running w); [destruct (w_coinbase w =? 0); [done|]|]; injection E as <-; done.
Qed.

Lemma daoExtra_frame h : h_Number (daoExtra opts h) = h_Number h /\ h_GasLimit (daoExtra opts h) = h_GasLimit h.
Proof. unfold daoExtra. repeat case_match; done. Qed.

(** A request for work starts from the pool and the tasks of [w]. *)
Lemma commitNewWork_work w req : p0 = bc_txPool (w_chain w) -> tasks0 = w_tasks w -> w_coinbase w = v ->
  sg = MakeSigner (co_config opts) (Some (h_Number (b_header (bc_currentBlock (w_chain w))) + 1)) ->
  gas_ok (h_GasLimit (b_header (bc_currentBlock (w_chain w)))) -> pool_inv st p0 -> confirmed_ok p0 -> mineable (Pending p0).2 ->
  post True (commitNewWork we wc opts w req) work_done.
Proof.
  intros Hp Ht Hv Hsg Hgl Hi Hc Hmine.
  assert (miner_pool st v [] p0 (bc_txPool (w_chain w))) as Hm0 by (rewrite <- Hp; by split; [apply mine_nil|..]).
  assert (new_tasks [] w) as Ht0 by (apply Forall_forall; intros t; rewrite <- Ht; auto).
  assert (work_done w) as Hd by (by exists []).
  unfold commitNewWork. destruct (newHeader wc w _) as [h|] eqn:Eh; [|done]. apply newHeader_frame in Eh as [Hnum Hgas]; [|done].
  apply post_bind, post_partial. intros [h1 err] E1. apply prepare_frame in E1 as [Hn1 Hg1]. destruct (bool_decide _); [done|].
  destruct (daoExtra_frame h1) as [Hn2 Hg2]. set (h2 := daoExtra opts h1) in *. clearbody h2. unfold makeCurrent.
  destruct (State (w_chain w)) as [s|e] eqn:Es; [|done]. set (env := mkEnvironment _ _ _ _ _ _ _ _ _ _).
  assert (env_ok env) as He.
  { assert (exists t, s = New t) as [t ->] by (unfold State, StateAt in Es; case_match; simplify_eq; by eexists).
    split; [apply reachable_sane, reach_new|done|apply rested_New|done|done]. }
  assert (e_signer env = sg) as Esg. { rewrite Hsg. cbn. f_equal. f_equal. lia. }
  assert (e_header env = h2 /\ e_txs env = []) as [Eh Etx] by done. clearbody env.
  cbn [w_current setf mbind outcome_bind]. rewrite no_dao. cbn [andb].
  match goal with |- context [commitUncles we ?r (commitUncles we ?l (env, []))] =>
    destruct (commitUncles_work l (env, [])) as [u1 Eu1]; destruct (commitUncles_work r (commitUncles we l (env, []))) as [u2 Eu2];
    destruct (commitUncles we r (commitUncles we l (env, []))) as [env' uncles] end.
  rewrite Eu1 in Eu2. cbn [fst] in Eu2.
  assert (env_ok env' /\ e_signer env' = sg /\ e_header env' = h2 /\ e_txs env' = []) as (He' & Esg' & Eh' & Etx').
  { rewrite Eu2. split_and!; try done. by destruct He. }
  clear Eu1 Eu2. set (w1 := _ <| w_remoteUncles := _ |>).
  assert (work_ok w1 /\ w_chain w1 = w_chain w) as [Hw1 Hch1].
  { split; [|done]. split; [done|]. exists env', []. split_and!; try done; [|by rewrite Etx'].
    rewrite Eh', Hg2, Hg1. done. }
  clearbody w1. apply post_bind.
  assert (post True (if negb (rq_noempty req) && negb (w_noempty w1) then commit we opts w1 uncles false else Ret w1)
    (fun w2 => work_ok w2 /\ w_chain w2 = w_chain w1)) as Hcommit.
  { destruct (negb _ && _); [|done]. pose proof (commit_work w1 uncles false Hw1). pose proof (commit_chain w1 uncles false).
    by destruct (commit we opts w1 uncles false). }
  eapply post_mono; [exact Hcommit|]. intros w2 _ [Hw2 Hch2]. eapply post_mono; [apply fill_work; [done|]|intros w3 _; apply work_ok_done].
  by rewrite Hch2, Hch1, <- Hp.
Qed.

End Work.

(** ** Properties *)

Section WorkerProperties.
Context `{Crypto} `{Database} `{Interpreter} `{!InterpreterLaws} `{Engine} `{!MinerEngine}.
Context (we : workEnv) (wc : workerConfig) (opts : chainOptions).
Context (sg : Signer) (stake : StateDB) (Q : Z) (validators : gset Address).

(** C14: filling a block from a well-formed set of valid transactions ends, does
    not panic and leaves the environment ready for more; it is a run of the
    network, in which the node acknowledges some transactions, and those added
    to the block are among them, in the same order.  No interrupt changes
    this. *)
Theorem commitTransactions_refines N L v w env txs interrupt :
  net_reachable sg stake Q validators (mkNet N L) -> N !! v = Some (bc_txPool (w_chain w)) -> v ∈ validators ->
  (forall a, 0 <= GetBalance stake a) -> ChainID (co_config opts) <> None ->
  pool_inv stake (bc_txPool (w_chain w)) -> confirmed_ok (bc_txPool (w_chain w)) ->
  w_current w = Some env -> env_ok env -> gas_ok (h_GasLimit (e_header env)) -> txset_ok txs -> set_Forall tx_ok txs ->
  exists w' discard env' acked added, commitTransactions we opts w txs v interrupt = Ret (w', discard) /\
    w_current w' = Some env' /\ env_ok env' /\ e_txs env' = e_txs env ++ added /\ added `sublist_of` acked /\
    net_reachable sg stake Q validators (mkNet (<[v := bc_txPool (w_chain w')]> N) (L ++ ((v,.) <$> acked))).
Proof.
  intros Hn Hv HV Hst Hch Hi Hc Ec He Hg Hok Hall.
  destruct (commitTransactions_ok we opts stake Hst Hch w env txs v interrupt Ec He Hg Hi Hc Hok Hall)
    as (w' & d & env' & E & Ec' & _ & [He' _ (acked & added & [Hr _ _] & Etx & Hsl)]).
  exists w', d, env', acked, added. split_and!; try done. by eapply mine_net.
Qed.

Context `{!MinerLaws}.

(** C13: a request for new work is a run of the network, and every block it
    hands over for sealing holds transactions only that the node acknowledged
    in that run; so when such a block reaches another node, its author has
    acknowledged what is in it. *)
Theorem work_acknowledged N L v w req w' :
  net_reachable sg stake Q validators (mkNet N L) -> N !! v = Some (bc_txPool (w_chain w)) -> v ∈ validators ->
  (forall a, 0 <= GetBalance stake a) -> ChainID (co_config opts) <> None ->
  gas_ok (h_GasLimit (b_header (bc_currentBlock (w_chain w)))) ->
  pool_inv stake (bc_txPool (w_chain w)) -> confirmed_ok (bc_txPool (w_chain w)) ->
  (forall l, we_accounts we l ≡ₚ l) -> DAOForkSupport (co_config opts) = false ->
  (forall h h' e, we_prepare we h = Ret (h', e) -> h_Number h' = h_Number h /\ h_GasLimit h' = h_GasLimit h) ->
  gas_ok (GasFloor wc) /\ gas_ok (GasCeil wc) -> w_coinbase w = v ->
  mineable (MakeSigner (co_config opts) (Some (h_Number (b_header (bc_currentBlock (w_chain w))) + 1))) (Pending (bc_txPool (w_chain w))).2 ->
  commitNewWork we wc opts w req = Ret w' ->
  exists acked, net_reachable sg stake Q validators (mkNet (<[v := bc_txPool (w_chain w')]> N) (L ++ ((v,.) <$> acked))) /\
    forall t, t ∈ w_tasks w' -> t ∈ w_tasks w \/ forall tx, tx ∈ b_transactions (t_block t) -> (v, tx) ∈ L ++ ((v,.) <$> acked).
Proof.
  intros Hn Hv HV Hst Hch Hgl Hi Hc Hperm Hdao Hprep Hlim Hcb Hmine E.
  pose proof (commitNewWork_work we wc opts stake v _ _ _ Hst Hch Hperm Hdao Hprep Hlim w req eq_refl eq_refl Hcb eq_refl Hgl Hi Hc Hmine) as Hw.
  rewrite E in Hw. destruct Hw as (acked & [Hr _ _] & Ht). exists acked. split; [by eapply mine_net|].
  intros t Hin. destruct (proj1 (Forall_forall _ _) Ht t Hin) as [?|Hsub]; [by left|right]. intros tx Htx.
  apply elem_of_app. right. by apply list_elem_of_fmap_2, Hsub.
Qed.

End WorkerProperties.
