(* ===== verification/ChainRefine.v ===== *)
(** * An import is a run of the network

    [InsertChain_refines] composes the import loop with the state processor,
    the transaction pool and the state store: importing a chain of new blocks
    whose transactions their authors acknowledged returns, leaves a chain
    whose state can be opened, and takes the pool of the node through steps of
    the broadcast network, so that agreement extends to it. *)

From S2P Require Import Prelude Rlp Params Transaction Block AccessList StateDB Journal StateStore Accounts Metering Receipt DeriveSha Clique Evm StateTransition Heap TxList TxLookup Prque TxPool StateProcessor Chain ChainFacts ChainState PoolFacts Acks Cascade ProcessorFacts.

Section Frame.
Context `{Crypto} `{Database} `{Interpreter} `{Engine} `{FutureCache}.
Context (opts : chainOptions).

(** What writing a block leaves alone, and the difficulty of the head. *)
Record same_node (bc bc' : BlockChain) : Prop := {
  sn_base : bc_etherbase bc' = bc_etherbase bc;
  sn_pool : bc_txPool bc' = bc_txPool bc;
  sn_td : is_Some (bc_td bc !! BlockHash (bc_currentBlock bc)) -> is_Some (bc_td bc' !! BlockHash (bc_currentBlock bc'))
}.

Lemma writeHead_node bc bc' b : same_node bc bc' -> is_Some (bc_td bc' !! BlockHash b) -> same_node bc (writeHeadBlock bc' b).
Proof. intros [] Hb. destruct (writeHead_frame bc' b) as (h & f & ->). by split. Qed.

Lemma write_node env bc b rs lgs s emit mining :
  post True (writeBlockWithState env opts bc b rs lgs s emit mining) (fun r => same_node bc r.1).
Proof.
  unfold writeBlockWithState. apply post_bind, post_partial. intros [bc1 s1] E1.
  assert (same_node bc bc1) as S1.
  { destruct mining; [by simplify_eq|]. destruct (IntermediateRoot s false) as [[s' r]|]; [|done]. cbn in E1. by simplify_eq. }
  clear E1. destruct (bc_GetTd bc1 _) as [ptd|]; [|done]. apply post_bind, post_partial. intros [[st s2] root] _.
  set (bc2 := if TrieDirtyDisabled opts then _ else _).
  assert (same_node bc bc2 /\ is_Some (bc_td bc2 !! BlockHash b)) as [S2 Hb2].
  { subst bc2. destruct S1 as [Sb Sp St].
    assert (forall bc', bc_etherbase bc' = bc_etherbase bc1 -> bc_txPool bc' = bc_txPool bc1 ->
      bc_td bc' = <[BlockHash b := h_Difficulty (b_header b) + ptd]> (bc_td bc1) -> bc_currentBlock bc' = bc_currentBlock bc1 ->
      same_node bc bc' /\ is_Some (bc_td bc' !! BlockHash b)) as Hgen.
    { intros bc' E1 E2 E3 E4. split; [|rewrite E3, lookup_insert_eq; by eexists]. split; [congruence|congruence|].
      intros Ht%St. rewrite E3, E4, lookup_insert. by case_decide. }
    destruct (TrieDirtyDisabled opts); [by apply Hgen|].
    match goal with |- context [collectTries opts ?a ?b ?c ?d] => destruct (collectTries_frame opts a b c d) as (? & ? & ? & ->) end.
    by apply Hgen. }
  clearbody bc2. apply post_bind, post_partial. intros localTd _. set (canonical := preferBlock _ _ _ _ _ _).
  set (bc3 := if canonical && _ then writeHeadBlock bc2 b else bc2).
  assert (same_node bc bc3 /\ is_Some (bc_td bc3 !! BlockHash b)) as [S3 Hb3].
  { subst bc3. destruct (canonical && _); [|done]. split; [by apply writeHead_node|]. by destruct (writeHead_frame bc2 b) as (h & f & ->). }
  clearbody bc3. apply post_bind, post_partial. intros author _. apply post_bind, post_partial. intros base _.
  set (bc4 := match author with inl _ => _ | inr _ => _ end).
  assert (same_node bc bc4) as [] by (subst bc4; destruct author; [destruct (canonical && _); [by apply writeHead_node|]|]; done).
  destruct canonical; by split.
Qed.

(** Writing an imported block returns. *)
Lemma write_total env bc b rs lgs s e author d :
  d = IsEIP158 (co_config opts) (Some (h_Number (b_header b))) ->
  bc_etherbase bc = Some e -> Author (b_header b) = Ret author -> settled d s -> stateObjectsDirty s ⊆ dom (stateObjects s) ->
  is_Some (bc_td bc !! BlockHash (bc_currentBlock bc)) ->
  exists r, writeBlockWithState env opts bc b rs lgs s false false = Ret r.
Proof.
  intros -> He Ha Hs Hd [td Htd]. unfold writeBlockWithState.
  destruct (IntermediateRoot_again s _ false Hs eq_refl) as (s1 & -> & _ & Hs1 & Hd1). cbn [mbind outcome_bind].
  destruct (bc_GetTd _ (h_ParentHash (b_header b))) as [ptd|]; [|by eexists].
  match goal with |- context [Commit ?st s1 ?d'] => destruct (Commit_total st s1 _ d' Hs1 (implb_same _) (Hd1 Hd)) as [[[st' s2] root] ->] end.
  cbn [mbind outcome_bind]. set (bc2 := if TrieDirtyDisabled opts then _ else _).
  assert (bc_etherbase bc2 = Some e) as He2.
  { subst bc2. destruct (TrieDirtyDisabled opts); [done|].
    match goal with |- context [collectTries opts ?a ?b ?c ?d] => destruct (collectTries_frame opts a b c d) as (? & ? & ? & ->) end. done. }
  clearbody bc2. unfold bc_GetTd at 1. cbn [setf bc_td bc_currentBlock]. change (bc_td (bc <| bc_stateRoot := _ |>)) with (bc_td bc).
  change (bc_currentBlock (bc <| bc_stateRoot := _ |>)) with (bc_currentBlock bc). rewrite Htd. cbn [mbind outcome_bind].
  set (canonical := preferBlock _ _ _ _ _ _). rewrite He2, bool_decide_false, andb_false_r by done. rewrite Ha. cbn [mbind outcome_bind].
  rewrite He2. cbn [mbind outcome_bind]. destruct canonical; by eexists.
Qed.

End Frame.

Section Refine.
Context `{Crypto} `{Database} `{Interpreter} `{!InterpreterLaws} `{Engine} `{!EngineLaws} `{!EngineSettles} `{FutureCache}.
Context (env : importEnv) (opts : chainOptions) (vu : Block -> option error).
Context (sg : Signer) (stake : StateDB) (Q : Z) (validators : gset Address).
Context (N : gmap Address TxPool) (L : list (Address * Transaction)) (v : Address).

(** A block of transactions that its author acknowledged. *)
Record importable (b : Block) : Prop := {
  ib_author : exists author, Author (b_header b) = Ret (inl author) /\ forall tx, tx ∈ b_transactions b -> (author, tx) ∈ L;
  ib_txs : Forall tx_ok (b_transactions b);
  ib_gas : gas_ok (h_GasLimit (b_header b));
  ib_encoding : Forall (fun tx => encodeTx tx <> [] /\ bytes_ok (encodeTx tx)) (b_transactions b);
  ib_length : Z.of_nat (length (b_transactions b)) < two64;
  ib_header : ie_header env b <> Some ErrKnownBlock /\ ie_header env b <> Some ErrPrunedAncestor;
  ib_uncles : vu b <> Some ErrKnownBlock /\ vu b <> Some ErrPrunedAncestor
}.

(** The chain of a node of the network that is about to import [todo]. *)
Record node_chain (bc : BlockChain) (todo : list Block) : Prop := {
  nc_avail : avail bc;
  nc_base : is_Some (bc_etherbase bc);
  nc_td : is_Some (bc_td bc !! BlockHash (bc_currentBlock bc));
  nc_pool : pool_inv stake (bc_txPool bc);
  nc_confirmed : confirmed_ok (bc_txPool bc);
  nc_net : net_reachable sg stake Q validators (mkNet (<[v := bc_txPool bc]> N) L);
  nc_blocks : Forall importable todo;
  nc_nodup : NoDup (BlockHash <$> todo);
  nc_new : Forall (fun b => bc_blocks bc !! BlockHash b = None) todo
}.

Hypothesis no_prefetch : TrieCleanNoPrefetch opts = true.
Hypothesis no_dao : DAOForkSupport (co_config opts) = false.
Hypothesis has_chain : ChainID (co_config opts) <> None.
Hypothesis stake_ok : forall a, 0 <= GetBalance stake a.

Lemma body_total bc b todo : node_chain bc (b :: todo) -> post False (bodyError env vu bc b)
  (fun e => e = Some ErrKnownBlock \/ e = Some ErrPrunedAncestor -> False).
Proof.
  intros [_ _ _ _ _ _ Hb _ Hn]. apply Forall_cons_1 in Hb as [[_ _ _ He Hl [Hh1 Hh2] [Hu1 Hu2]] _]. apply Forall_cons_1 in Hn as [Hn _].
  unfold bodyError. destruct (ie_header env b) as [e|]; [cbn; naive_solver|]. unfold ValidateBody.
  unfold HasBlockAndState at 1, bc_GetBlock. rewrite Hn. destruct (vu b); [cbn; naive_solver|].
  destruct (negb _); [cbn; naive_solver|]. destruct (DeriveSha_total (encodeTx <$> b_transactions b)) as [r ->].
  - apply Forall_fmap. exact He.
  - by rewrite length_fmap.
  - cbn. repeat case_match; cbn; naive_solver.
Qed.

Lemma node_chain_tail bc b todo : node_chain bc (b :: todo) -> node_chain bc todo.
Proof.
  intros [Ha Hb Ht Hp Hc Hn Hbl Hnd Hnew]. split; try done; [by apply Forall_inv_tail in Hbl|by apply NoDup_cons in Hnd as []|by apply Forall_inv_tail in Hnew].
Qed.

Lemma node_chain_future bc todo m : node_chain bc todo -> node_chain (bc <| bc_futureBlocks := m |>) todo.
Proof. intros [Ha Hb Ht Hp Hc Hn Hbl Hnd Hnew]. split; try done. by destruct Ha. Qed.

Lemma node_chain_events bc todo l : node_chain bc todo -> node_chain (bc <| bc_events := l |>) todo.
Proof. intros [Ha Hb Ht Hp Hc Hn Hbl Hnd Hnew]. split; try done. by destruct Ha. Qed.

Lemma avail_parent bc b todo : node_chain bc (b :: todo) -> bodyError env vu bc b = Ret None ->
  is_Some (bc_td bc !! h_ParentHash (b_header b)).
Proof. intros Hc Hb. destruct (body_parent vu env bc b Hb) as [pb Hpb]. by apply (av_td _ (nc_avail _ _ Hc)) in Hpb. Qed.

Lemma node_pool bc b todo pool' : node_chain bc (b :: todo) -> pool_inv stake pool' -> confirmed_ok pool' ->
  (exists author, Author (b_header b) = Ret (inl author) /\ rtc (count_step author (b_transactions b)) (bc_txPool bc) pool') ->
  node_chain (bc <| bc_txPool := pool' |>) (b :: todo).
Proof.
  intros [Ha Hb Ht Hp Hc Hn Hbl Hnd Hnew] Hp' Hc' (author & Ea & Hrun). split; try done; [by destruct Ha|]. cbn.
  rewrite <- (insert_insert_eq N v pool' (bc_txPool bc)).
  apply Forall_cons_1 in Hbl as [[(author' & Ea' & HL) _ _ _ _ _ _] _]. assert (author' = author) as -> by congruence.
  by eapply count_run; [|apply lookup_insert_eq| |].
Qed.

Lemma import_node bc previous b todo : node_chain bc (b :: todo) -> bodyError env vu bc b = Ret None ->
  post False (importBlock env opts bc previous b todo) (fun r => node_chain r.1 todo).
Proof.
  intros Hc Hb. destruct (avail_State bc (nc_avail _ _ Hc)) as [s Es].
  assert (exists t, s = New t) as [t Et] by (unfold State, StateAt in Es; case_match; simplify_eq; by eexists).
  destruct (Forall_cons_1 _ _ _ (nc_blocks _ _ Hc)) as [[(author & Ea & HL) Htxs Hgas _ _ _ _] _].
  destruct (Process_counted stake stake_ok (ie_now env) (bc_GetHeader bc) (co_config opts) (co_noRecursion opts) (bc_txPool bc) b s author)
    as (pool & s' & res & Ep & Hrun & Hp & Hcf & Hres).
  { rewrite Et. split; [apply Hc|apply Hc|done|done|apply reachable_sane, reach_new|apply metered_New|done|done]. }
  { done. }
  assert (node_chain (bc <| bc_txPool := pool |>) (b :: todo)) as Hc1 by (apply node_pool; [done..|by exists author]).
  set (bc1 := bc <| bc_txPool := pool |>) in *.
  destruct (avail_parent bc b todo Hc Hb) as [ptd Hptd].
  (* the chain after the block was processed, and after it was written *)
  pose proof (import_spec opts vu env bc previous b todo (nc_avail _ _ Hc) Hb) as Hspec. revert Hspec.
  unfold importBlock. rewrite Es. unfold prefetchNext. rewrite no_prefetch. cbn [mbind outcome_bind]. rewrite Ep. cbn [mbind outcome_bind].
  destruct res as [[[rs lgs] gas]|err]; [|intros _; by apply (node_chain_tail _ b)].
  destruct (Hres rs lgs gas eq_refl) as [Hs' _]. destruct (nc_base _ _ Hc) as [e He]. destruct (sane_ok _ Hs') as [[_ Hdirty _ _] _].
  pose proof (Process_settled _ _ _ _ _ _ _ _ _ _ Ep) as Hset.
  destruct (write_total opts env bc1 b rs lgs s' e (inl author) _ eq_refl He Ea Hset Hdirty (nc_td _ _ Hc))
    as [[bc2 st] Ew].
  pose proof (write_node opts env bc1 b rs lgs s' false false) as Hn. rewrite Ew in Hn.
  pose proof (write_written opts vu env bc1 b rs lgs s' false false (av_gc _ (nc_avail _ _ Hc1)) (mk_is_Some _ _ Hptd)) as Hw.
  fold bc1. rewrite Ew in *. destruct Hw as (t' & Hw & _). cbn [mbind outcome_bind post fst] in *.
  set (bc3 := match st with inl CanonStatTy => bc2 <| bc_gcproc := bc_gcproc bc2 + ie_proctime env b |> | _ => bc2 end). intros [Ha _].
  assert (same_node bc1 bc3 /\ bc_blocks bc3 = bc_blocks bc2) as [[Sb Sp St] Eb].
  { subst bc3. destruct Hn. by destruct st as [[]|]. }
  clearbody bc3. destruct Hc1 as [_ C2 C3 C4 C5 C6 C7 C8 C9].
  apply NoDup_cons in C8 as [C8 C8']. split; [exact Ha|by rewrite Sb|by apply St|by rewrite Sp|by rewrite Sp|by rewrite Sp
    |by apply Forall_inv_tail in C7|done|].
  apply Forall_inv_tail in C9. rewrite Eb, (wb_blocks _ _ _ _ _ Hw). apply Forall_forall. intros b' Hb'.
  rewrite lookup_insert_ne; [by apply (proj1 (Forall_forall _ todo) C9)|]. intros E. apply C8. rewrite E. by apply list_elem_of_fmap_2.
Qed.

(** C3: importing a chain of new blocks whose transactions their authors
    acknowledged never panics and is a run of the network: the pool of the
    node goes through steps of the broadcast protocol, so that the network with
    the new pool is reachable and agreement extends to it; the state of the
    chain can be opened afterwards.  The prefetcher is off and the node has an
    etherbase. *)
Theorem InsertChain_refines bc chain : node_chain bc chain -> exists bc' n err,
  InsertChain env opts vu bc chain = Ret (bc', (n, err)) /\
  net_reachable sg stake Q validators (mkNet (<[v := bc_txPool bc']> N) L) /\ exists s, State bc' = inl s.
Proof.
  intros Hc. pose proof (InsertChain_post env opts vu False node_chain) as Hp.
  destruct (proj1 (post_ret _ _) (Hp node_chain_tail node_chain_future node_chain_events body_total import_node bc chain Hc))
    as ([bc' [n err]] & E & Hc'). exists bc', n, err. split_and!; [done|apply Hc'|]. apply avail_State, Hc'.
Qed.

End Refine.
