(* ===== verification/ChainRuns.v ===== *)
(** * Runs of the chain

    Concrete chains of the three validators of ProcessorFacts: they satisfy
    the hypotheses of the theorems about the chain, and show what the code
    does outside of them. *)

From S2P Require Import Prelude Rlp Params Transaction Block AccessList StateDB Journal StateStore Accounts Receipt DeriveSha Clique Evm StateTransition Heap TxList TxLookup Prque TxPool StateProcessor Chain ChainFacts ChainState PoolFacts Acks Cascade ProcessorFacts ChainRefine.

#[local] Existing Instances toyCrypto toyDatabase toyInterpreter toyInterpreter_laws.
#[local] Instance toyEngine : Engine := cliqueEngine.
#[local] Instance toySettles : EngineSettles := clique_settles.
#[local] Instance toyLaws : EngineLaws := clique_laws.
#[local] Instance toyFuture : FutureCache := {| evictFuture := id |}.

(** A block of [author]; the digest of the toy hash is its mix digest. *)
Definition blockAt (author : Address) (number parent digest root : Z) (txs : list Transaction) : Block :=
  mkBlock (header_ex <| h_ParentHash := parent |> <| h_Number := number |> <| h_Root := root |> <| h_UncleHash := EmptyUncleHash |>
             <| h_TxHash := match DeriveSha (encodeTx <$> txs) with Ret h => h | Panic => 0 end |>
             <| h_Extra := replicate 95 0 ++ [author; 0] |> <| h_MixDigest := digest |>) [] txs.

Definition genesisRoot : Hash := accountRoot accounts3.
Definition genesis : Block := blockAt 0 0 0 100 genesisRoot [].

(** A chain that consists of the block [g] of hash [h], with its state on disk. *)
Definition chainFrom (etherbase : option Address) (pool : TxPool) (g : Block) (h root : Hash) (t : gmap Address Account) : BlockChain :=
  mkBC etherbase g root g (b_header g) g h {[h := g]} {[h := 1]} {[NumberU64 g := h]} ∅
    (mkStore {[root := t]} ∅ {[root]} ∅) [] 0 ∅ pool [].
Definition chainOf (etherbase : option Address) (pool : TxPool) : BlockChain :=
  chainFrom etherbase pool genesis (BlockHash genesis) genesisRoot accounts3.

Definition env0 : importEnv := mkEnv 0 (fun _ => None) (fun _ => false) (fun _ => false) (fun _ => ∅) (fun _ => 0) (fun _ _ => false).
Definition opts0 : chainOptions := mkOptions cc_ex false false true 0 (fun _ => false).
Definition vu0 (b : Block) : option error := None.

(** Validator 2 acknowledges the transfer in its first block. *)
Definition block2 : Block := blockAt 2 1 (BlockHash genesis) 101 genesisRoot [tx_ex].
Definition chain1 : BlockChain := chainOf (Some 1) pool3.

Definition imported (d : BlockChain) (o : outcome (BlockChain * (Z * option error))) : BlockChain :=
  match o with Ret (bc, _) => bc | Panic => d end.
Definition verdict (o : outcome (BlockChain * (Z * option error))) : option (Z * option error) :=
  match o with Ret (_, r) => Some r | Panic => None end.
Definition insert0 (bc : BlockChain) (chain : list Block) : BlockChain := imported bc (InsertChain env0 opts0 vu0 bc chain).

(** ** The hypotheses can hold *)

Lemma Ret_inj {A} (a b : A) : Ret a = Ret b -> a = b.
Proof. congruence. Qed.

Lemma singleStore_ok root t : root <> emptyRoot -> gc_ok (mkStore {[root := t]} ∅ {[root]} ∅) [].
Proof.
  intros Hne. split; cbn.
  - intros r Hr _. unfold refs. cbn. by rewrite lookup_empty.
  - intros r Hr _. rewrite lookup_singleton_ne by set_solver. split; [by intros [? ?]|]. unfold occ. cbn. lia.
  - intros r ->%elem_of_singleton. rewrite lookup_singleton_eq. by eexists.
  - by rewrite lookup_singleton_ne.
Qed.

Lemma chainFrom_avail (D : Database) base pool g h root t : @accountRoot D t = root -> root <> emptyRoot ->
  @avail D (chainFrom base pool g h root t).
Proof.
  intros Hr Hne. split; [by apply singleStore_ok|left; cbn; set_solver| |].
  - cbn. intros h' b [<- <-]%lookup_singleton_Some. rewrite lookup_singleton_eq. by eexists.
  - cbn [bc_store chainFrom ss_tries]. by intros r t' [<- <-]%lookup_singleton_Some.
Qed.

Lemma chainOf_avail base pool : avail (chainOf base pool).
Proof. apply chainFrom_avail; [reflexivity|vm_compute; discriminate]. Qed.

Lemma chainFrom_own e pool g root t : own_chain e g (chainFrom (Some e) pool g (BlockHash g) root t).
Proof. split; [done|by left|]. cbn [chainFrom bc_canon]. intros n h [<- <-]%lookup_singleton_Some. exists g. split_and!; [done|done|by left]. Qed.

Lemma head_local_witness :
  local 1 genesis (bc_currentBlock (insert0 chain1 [block2])).
Proof.
  destruct (head_local opts0 vu0 1 genesis chain1 [OpInsert env0 [block2]] (insert0 chain1 [block2])) as [Hl _];
    [exact (chainFrom_own 1 pool3 genesis genesisRoot accounts3)|vm_compute; reflexivity|exact Hl].
Defined.

Definition mined0 (bc : BlockChain) (b : Block) : BlockChain :=
  match WriteBlockWithState env0 opts0 bc b [] [] (New accounts3) true with Ret (bc, _) => bc | Panic => bc end.

(** The first block of the node itself. *)
Definition block1 : Block := blockAt 1 1 (BlockHash genesis) 102 genesisRoot [].

Lemma state_available_witness : exists s, State (mined0 (insert0 chain1 [block2]) block1) = inl s.
Proof.
  assert (chainExec opts0 vu0 chain1 (OpInsert env0 [block2]) = Ret (insert0 chain1 [block2])) as E1 by (vm_compute; reflexivity).
  destruct (state_available opts0 vu0 chain1 [OpInsert env0 [block2]; OpMined env0 block1 [] [] (New accounts3)]
    (mined0 (insert0 chain1 [block2]) block1)) as [_ Hs]; [apply chainOf_avail| |vm_compute; reflexivity|exact Hs].
  split; [by intros|]. intros bc' E. rewrite E1 in E. apply Ret_inj in E as <-. split; [|done].
  intros env b rs lgs s [= <- <- <- <- <-]. right. left. vm_compute. reflexivity.
Defined.

Lemma block2_importable : importable env0 vu0 [(2, tx_ex)] block2.
Proof.
  split.
  - exists 2. split; [vm_compute; reflexivity|]. intros tx ->%list_elem_of_singleton. left.
  - repeat constructor; apply tx_ex_ok.
  - split; vm_compute; discriminate || reflexivity.
  - apply Forall_singleton. split; [vm_compute; discriminate|]. apply (bool_decide_unpack _). vm_compute. exact I.
  - vm_compute. reflexivity.
  - by split.
  - by split.
Qed.

Lemma chain1_node :
  node_chain env0 vu0 HomesteadSigner state3 80 {[ 1; 2; 3 ]} (<[2 := pool3_2]> nodes3) [(2, tx_ex)] 1 chain1 [block2].
Proof.
  split.
  - apply chainOf_avail.
  - by eexists.
  - vm_compute. by eexists.
  - apply pool3_inv.
  - apply pool3_confirmed.
  - rewrite insert_id; [apply acked3_reachable|]. vm_compute. reflexivity.
  - apply Forall_singleton, block2_importable.
  - apply NoDup_singleton.
  - apply Forall_singleton. vm_compute. reflexivity.
Qed.

Lemma InsertChain_refines_witness :
  net_reachable HomesteadSigner state3 80 {[ 1; 2; 3 ]}
    (mkNet (<[1 := bc_txPool (insert0 chain1 [block2])]> (<[2 := pool3_2]> nodes3)) [(2, tx_ex)]).
Proof.
  destruct (InsertChain_refines env0 opts0 vu0 HomesteadSigner state3 80 {[ 1; 2; 3 ]} (<[2 := pool3_2]> nodes3) [(2, tx_ex)] 1
    eq_refl eq_refl ltac:(discriminate) state3_nonneg chain1 [block2] chain1_node) as (bc' & n & err & E & Hn & _).
  unfold insert0. rewrite E. exact Hn.
Defined.

(** A database whose account roots number the tries. *)
#[export] Instance Account_countable : Countable Account.
Proof.
  refine (inj_countable' (fun a => (a_Nonce a, a_Balance a, a_Root a, a_CodeHash a))
    (fun x => mkAccount x.1.1.1 x.1.1.2 x.1.2 x.2) _). by intros [].
Defined.

Definition numbered (t : gmap Address Account) : Hash := if decide (t = ∅) then emptyRoot else - Zpos (encode t).
Definition rootDatabase : Database := {|
  ContractCode _ := None; OpenStorageTrie _ := ∅; storageRoot t := Z.of_nat (base.size t); accountRoot := numbered
|}.

Lemma rootDatabase_laws : @RootLaws rootDatabase.
Proof.
  split; cbn; unfold numbered.
  - intros t1 t2. repeat case_decide; subst; try done. intros E. apply (inj encode). lia.
  - by rewrite decide_True.
  - intros t. case_decide; [done|lia].
Qed.

Definition chainR : BlockChain :=
  chainFrom (Some 1) pool3 genesis (BlockHash genesis) (numbered accounts3) accounts3.
Definition importR : outcome (BlockChain * (WriteStatus + error)) :=
  @importBlock _ rootDatabase _ (@cliqueEngine _ rootDatabase) env0 opts0 chainR None block2 [].
Definition inserted (r : outcome (BlockChain * (WriteStatus + error))) : bool :=
  match r with Ret (_, inl CanonStatTy) => true | _ => false end.

Lemma inserted_ret r d : inserted r = true -> r = Ret (match r with Ret (bc, _) => bc | Panic => d end, inl CanonStatTy).
Proof. by destruct r as [[bc [[]|]]|]. Qed.


(** ** Outside the hypotheses *)

(** A pool for which the stake of validator 2 is a quorum, and its chain: the
    import of the block of validator 2 executes the transfer. *)
Definition poolQ : TxPool :=
  match NewTxPool 0 (cfg3 <| QuorumStake := 45 |>) cc_ex bc3 (New ∅) with Ret p => p | Panic => pool3 end.
Definition balanceOf (bc : BlockChain) (a : Address) : option Z :=
  match State bc with inl s => Some (GetBalance s a) | inr _ => None end.

(** A node without an etherbase: the argument of a log call dereferences nil. *)
Theorem no_etherbase_panics : InsertChain env0 opts0 vu0 (chainOf None pool3) [block2] = Panic.
Proof. vm_compute. reflexivity. Qed.

(** A known block of more difficulty than the head panics. *)
Theorem reimport_panics :
  verdict (InsertChain env0 opts0 vu0 chain1 [block2]) = Some (1, None) /\
  InsertChain env0 opts0 vu0 (insert0 chain1 [block2]) [block2] = Panic.
Proof. split; vm_compute; reflexivity. Qed.

(** The head of the node is its block 129, and its next one is 130. *)
Definition head129 : Block := blockAt 1 129 (BlockHash genesis) 129 genesisRoot [].
Definition chain129 : BlockChain :=
  let bc := chainOf (Some 1) poolQ in
  writeHeadBlock (bc <| bc_blocks := <[BlockHash head129 := head129]> (bc_blocks bc) |>
                     <| bc_td := <[BlockHash head129 := 130]> (bc_td bc) |>) head129.
Definition block130 : Block := blockAt 1 130 (BlockHash head129) 130 genesisRoot [].
Definition block3 : Block := blockAt 3 1 (BlockHash genesis) 103 genesisRoot [].


(** Three blocks of validator 2, the first of which claims a root this node
    does not have. *)
Definition block2a : Block := blockAt 2 1 (BlockHash genesis) 111 12345 [].
Definition block2b : Block := blockAt 2 2 (BlockHash block2a) 112 12345 [].
Definition block2c : Block := blockAt 2 3 (BlockHash block2b) 113 12345 [tx_ex].
Definition optsP : chainOptions := mkOptions cc_ex false false false 0 (fun _ => false).

(** With the prefetcher on, importing a batch panics as soon as the root
    claimed by a block of the batch is not in the local database, which is
    the normal case when validators execute in different orders: the state of
    the parent is opened without looking at the error, and the prefetcher
    dereferences nil.  The same batch goes through with the prefetcher off. *)
Theorem prefetch_panics :
  InsertChain env0 optsP vu0 chain1 [block2a; block2b; block2c] = Panic /\
  verdict (InsertChain env0 opts0 vu0 chain1 [block2a; block2b; block2c]) = Some (3, None).
Proof. split; vm_compute; reflexivity. Qed.

(** A restart resumes from the root of the head block: the transfer that was
    executed is lost, and the block that confirmed it is known. *)
Definition restarted (opts : chainOptions) (bc : BlockChain) : option BlockChain :=
  match Stop opts bc with Ret bc => NewBlockChain (bc_etherbase bc) poolQ bc | Panic => None end.
Definition optsA : chainOptions := mkOptions cc_ex false true true 0 (fun _ => false).
Definition insertA (bc : BlockChain) (chain : list Block) : BlockChain := imported bc (InsertChain env0 optsA vu0 bc chain).

Theorem restart_loses_state :
  let bc := insertA (chainOf (Some 1) poolQ) [block2] in
  balanceOf bc 50 = Some 5 /\
  (fun bc => balanceOf bc 50) <$> restarted optsA bc = Some (Some 0) /\
  HasBlockAndState bc (BlockHash block2) = true.
Proof. split_and!; vm_compute; reflexivity. Qed.
