(* ===== verification/WorkerRuns.v ===== *)
(** * Runs of the miner

    A miner on the chain of the three validators: the hypotheses of the
    theorems about the worker can hold, and what happens when work is
    requested again before a block is sealed. *)

From S2P Require Import Prelude Rlp Params Transaction Block AccessList StateDB Journal StateStore Accounts Metering Receipt DeriveSha Clique Evm StateTransition Heap TxList TxLookup Prque TxPool TxSet StateProcessor Chain ChainFacts ChainState PoolFacts Acks Cascade ProcessorFacts Worker Miner WorkerFacts ChainRefine ChainRuns.

#[local] Existing Instances toyCrypto toyDatabase toyInterpreter toyInterpreter_laws.
#[local] Instance toyEngine : Engine := cliqueEngine.

(** Clique, with a seal hash that has no collisions: the number the header
    spells. *)
#[local] Instance toyMiner : MinerEngine := {|
  FinalizeAndAssemble cc header s txs _ receipts := clique_FinalizeAndAssemble cc header s txs receipts;
  EngineSealHash h := Ret (default 0 (of_be <$> EncodeToBytes (rlpSigHeader h)))
|}.
#[local] Instance toyMiner_laws : MinerLaws.
Proof. destruct cliqueMiner_laws. by split. Qed.

(** The engine leaves room for the seal; validator 1 signs at once, and the
    block waits for its slot. *)
Definition prepare1 (h : Header) : outcome (Header * option error) :=
  Ret (h <| h_Extra := replicate 97 0 |> <| h_Difficulty := 2 |>, None).
Definition seal1 (b : Block) : outcome (option Block + error) :=
  Ret (inl (Some (mkBlock ((b_header b) <| h_Extra := replicate 95 0 ++ [1; 0] |>) (b_uncles b) (b_transactions b)))).
Definition we1 : workEnv := mkWorkEnv 0 1 id id map_to_list prepare1 seal1 env0.
Definition wc1 : workerConfig := mkWorkerConfig 8000000 8000000 (Some 15) (fun _ => false).

(** A pool to which transactions of the network are added. *)
Definition received (pool : TxPool) (txs : list Transaction) : TxPool :=
  match '(p, _, _) ← AddRemotes 0 pool txs; promoteExecutables 0 p [77] with Ret (p, _) => p | Panic => pool end.

Definition worker1 (pool : TxPool) : worker :=
  mkWorker (chainOf (Some 1) pool) None ∅ ∅ 1 [] ∅ None None true 0 false [] 0 None [] [] [].

(** Work, and the task of it for the sealer. *)
Definition work (req : newWorkReq) (w : worker) : worker :=
  match w ← commitNewWork we1 wc1 opts0 w req; taskStep we1 w with Ret w => w | Panic => w end.
Definition again : newWorkReq := mkReq (Some (fun _ _ => 0)) true 1.

Definition tx_next : Transaction := mkTransaction (TxLegacy (mkLegacyTx 1 1 21000 (Some 50) 5 [] 27 1 77)) 1 None.

(** ** The hypotheses can hold *)

Lemma tx_next_ok : tx_ok tx_next.
Proof. split; vm_compute; intuition discriminate. Qed.

Lemma received_good p txs : pool_ok p -> Forall (fun tx => is_u64 (Nonce tx)) txs -> good p (received p txs).
Proof.
  intros Hp Ht. unfold received, AddRemotes. destruct (addTxs_good 0 p txs false Hp Ht) as (q & errs & d & -> & Hq). cbn [mbind outcome_bind].
  destruct (promoteExecutables_good 0 q [77] (g_ok _ _ Hq)) as (r & new & -> & Hr). by eapply good_trans.
Qed.

Definition pool3_tx : TxPool := received pool3 [tx_ex].

Lemma pool3_tx_good : good pool3 pool3_tx.
Proof. apply received_good; [apply pool3_init|]. apply Forall_singleton, tx_ex_ok. Qed.

Lemma pool3_tx_reachable :
  net_reachable HomesteadSigner state3 80 {[ 1; 2; 3 ]} (mkNet (<[1 := pool3_tx]> (<[2 := pool3_2]> nodes3)) [(2, tx_ex)]).
Proof.
  eapply net_next; [apply acked3_reachable|]. destruct pool3_tx_good as [Ha Hok].
  apply (step_other _ _ _ 1 pool3); [vm_compute; reflexivity|by apply same_acks_books|done].
Qed.

Lemma pool3_tx_confirmed : confirmed_ok pool3_tx.
Proof. intros tx Htx. rewrite (sa_confirmed _ _ (g_acks _ _ pool3_tx_good)) in Htx. by apply elem_of_nil in Htx. Qed.

Lemma pool3_tx_mineable : mineable HomesteadSigner (Pending pool3_tx).2.
Proof.
  split; [apply Pending_accounts|].
  assert ((Pending pool3_tx).2 = [(77, [tx_ex])]) as -> by (vm_compute; reflexivity).
  apply Forall_singleton. split; [done|]. apply Forall_singleton. split; [vm_compute; reflexivity|apply tx_ex_ok].
Qed.

Definition worked (w : worker) : worker := match commitNewWork we1 wc1 opts0 w again with Ret w => w | Panic => w end.

(** Validator 1 puts the transfer into its block. *)
Lemma work_acknowledged_witness :
  (fun t => b_transactions (t_block t)) <$> w_tasks (worked (worker1 pool3_tx)) = [[tx_ex]] /\
  exists acked, net_reachable HomesteadSigner state3 80 {[ 1; 2; 3 ]}
    (mkNet (<[1 := bc_txPool (w_chain (worked (worker1 pool3_tx)))]> (<[1 := pool3_tx]> (<[2 := pool3_2]> nodes3)))
       ([(2, tx_ex)] ++ ((1,.) <$> acked))).
Proof.
  split; [vm_compute; reflexivity|].
  destruct (work_acknowledged we1 wc1 opts0 HomesteadSigner state3 80 {[ 1; 2; 3 ]} (<[1 := pool3_tx]> (<[2 := pool3_2]> nodes3))
    [(2, tx_ex)] 1 (worker1 pool3_tx) again (worked (worker1 pool3_tx))) as (acked & Hn & _);
    [apply pool3_tx_reachable|apply lookup_insert_eq|set_solver|apply state3_nonneg|discriminate|split; vm_compute; discriminate || reflexivity
    |apply (good_inv state3 pool3); [apply pool3_inv|apply pool3_tx_good]|apply pool3_tx_confirmed|done|done
    |by intros h h' e [= <- _]|split; split; vm_compute; discriminate || reflexivity|done|exact pool3_tx_mineable
    |vm_compute; reflexivity|].
  exists acked. exact Hn.
Defined.

Definition env1 : environment := mkEnvironment HomesteadSigner state3 ∅ ∅ ∅ 0 None header_ex [] [].
Definition set1 : TransactionsByPriceAndNonce :=
  match NewTransactionsByPriceAndNonce HomesteadSigner [(77, [tx_ex; tx_next])] with Ret t => t | Panic => mkTxSet ∅ [] HomesteadSigner end.

Lemma set1_ok : txset_ok set1 /\ set_Forall tx_ok set1.
Proof.
  destruct (New_set_ok HomesteadSigner [(77, [tx_ex; tx_next])]) as (t & E & Hok & _ & _ & Hall).
  - apply NoDup_singleton.
  - apply Forall_singleton. split; [done|]. repeat constructor; vm_compute; reflexivity.
  - assert (t = set1) as -> by (unfold set1; by rewrite E). split; [done|]. apply Hall, Forall_singleton.
    repeat constructor; apply tx_ex_ok || apply tx_next_ok.
Qed.

Lemma commitTransactions_refines_witness :
  exists w' discard env', commitTransactions we1 opts0 ((worker1 pool3_tx) <| w_current := Some env1 |>) set1 1 None = Ret (w', discard) /\
    w_current w' = Some env' /\ env_ok env' /\ e_txs env' = [tx_ex; tx_next].
Proof.
  destruct (commitTransactions_refines we1 opts0 HomesteadSigner state3 80 {[ 1; 2; 3 ]} (<[1 := pool3_tx]> (<[2 := pool3_2]> nodes3))
    [(2, tx_ex)] 1 ((worker1 pool3_tx) <| w_current := Some env1 |>) env1 set1 None)
    as (w' & d & env' & acked & added & E & Ec & He & _);
    [apply pool3_tx_reachable|apply lookup_insert_eq|set_solver|apply state3_nonneg|discriminate
    |apply (good_inv state3 pool3); [apply pool3_inv|apply pool3_tx_good]|apply pool3_tx_confirmed|done
    |split; [apply reachable_sane, reach_new|done|apply rested_New|done|done]
    |split; vm_compute; discriminate || reflexivity|apply set1_ok|apply set1_ok|].
  exists w', d, env'. split_and!; [exact E|exact Ec|exact He|].
  assert (w' = match commitTransactions we1 opts0 ((worker1 pool3_tx) <| w_current := Some env1 |>) set1 1 None with
               | Ret (w, _) => w | Panic => w' end) as Ew by (by rewrite E).
  rewrite Ew in Ec. assert (e_txs <$> w_current w' = Some [tx_ex; tx_next]) as Et by (rewrite Ew; vm_compute; reflexivity).
  rewrite Ew in Et. rewrite Ec in Et. by injection Et.
Defined.

(** A start during a synchronisation waits for its end. *)
Definition idle1 : worker := (worker1 pool3) <| w_running := false |>.
Lemma miner_follows_witness :
  Mining (fold_left update [DownloaderStart; StartMiner 1] (newMiner idle1)) = false /\
  Mining (fold_left update [DownloaderStart; StartMiner 1; DownloaderDone; DownloaderStart] (newMiner idle1)) = true.
Proof.
  split; [apply (miner_follows idle1 [DownloaderStart; StartMiner 1] eq_refl)
         |apply (miner_follows idle1 [DownloaderStart; StartMiner 1; DownloaderDone; DownloaderStart] eq_refl)].
Defined.

(** ** Outside the hypotheses *)

Definition w1 : worker := work again (worker1 (received pool3 [tx_ex])).
Definition w2 : worker := work again (w1 <| w_chain := (w_chain w1) <| bc_txPool := received (bc_txPool (w_chain w1)) [tx_next] |> |>).
Definition w3 : worker := match resultStep we1 opts0 w2 with Ret w => w | Panic => w2 end.

Abbreviation poolOfWorker w := (bc_txPool (w_chain w)).


(** Node 1 has counted validator 2 for the second transfer of 77. *)
Definition pool12 : TxPool := (ackOr pool3 (addAck 0 (received pool3 [tx_ex; tx_next]) tx_next 2 false)).1.1.
Definition w4 : worker := work again (worker1 pool12).

